(* ===== verification/_CoqProject ===== *)
-Q . S2P
Prelude.v
Links.v
Time.v
Util.v
Str.v
Printf.v
Mctx.v
Ring.v
Pqueue.v
State.v
Pool.v
Data.v
Msg.v
Sys.v
Event.v
Tcb.v
Sync.v
Sched.v
Fork.v
Lib.v
High.v
Rw.v
Iov.v
Write.v
Uctx.v
Pthread.v
Threads.v
Locks.v
Rwlocks.v
Pmutex.v
Forks.v
Join.v
Spawn.v
Boot.v
Wakeup.v
Early.v
Barrier.v
Ending.v
Poll.v
Syscall.v
Debug.v
Ext.v
