(* ===== verification/Prelude.v ===== *)
(** * GNU Pth: a verification library

GNU Pth is a library of cooperative threads.  All threads of a process share one
kernel thread; a thread runs until it waits for an event, yields or ends, and then the
library's scheduler picks the next one.  This development models the C sources under
src/src and one assembler file, and proves what its parts promise.

** How the parts fit together

A thread control block (pth_tcb.c) sits in one of five priority queues (pth_pqueue.c):
new, ready, waiting, suspended, dead.  The scheduler (pth_sched.c) moves threads between
them and switches machine contexts (pth_mctx.c, pth_mctx_swap.S).  A thread gives up
control in [pth_wait], with a ring of events (pth_event.c) that the event manager of the
scheduler checks: descriptors, signals, times, message ports, mutexes, conditions,
threads, functions.  Everything that blocks is built on that: mutexes, read-write locks,
conditions and barriers (pth_sync.c), joining and sleeping (pth_lib.c, pth_high.c), input
and output (pth_high.c), and the POSIX interface (pthread.c) on top.  Mutexes and message
ports (pth_msg.c) use the ring of pth_ring.c.

** Files

Foundations:
- Prelude: pointers, machine integers, error numbers, the state monad [M] whose failure
  is undefined behaviour of C, weakest preconditions [wp].
- Links: circular doubly linked lists in a heap; shared by rings, queues and events.
- State: the structures of pth.h and pth_p.h, the whole state [St] of the library, the
  operating system as the class [Kernel], and the resumption monad [coro] of code that
  can give up the processor.

Components (definitions translated from the sources, and the theorems that concern one
component alone):
- Time (pth_time.c), Util (pth_util.c), Str (pth_string.c), Ring (pth_ring.c), Pqueue
  (pth_pqueue.c), Mctx (pth_mctx.c, pth_mctx_swap.S), Data (pth_data.c, pth_clean.c), Msg
  (pth_msg.c), Sys (helpers around system calls, the context switch), Event
  (pth_event.c), Tcb (pth_tcb.c, pth_attr.c), Sync (pth_sync.c), Sched (pth_sched.c),
  Fork (pth_fork.c), Lib (pth_lib.c, pth_cancel.c, and the closed system [world_step]),
  High and Rw (pth_high.c), Uctx (pth_uctx.c), Pthread (pthread.c), Syscall (pth_syscall.c
  with [PTH_SYSCALL_HARD]), Debug (pth_debug.c, pth_vers.c), Ext (pth_ext.c).

Theorems across components:
- Printf: formatted output.  Pool: the five queues of a state as sorted lists.  Boot: the
  start of the library.  Threads: the life of a thread.  Spawn, Ending and Join: how it
  begins, how it ends and how it is collected.  Locks, Rwlocks, Pmutex and Barrier:
  mutexes, read-write locks, POSIX mutexes and barriers.  Early and Wakeup: the two
  passes of the event manager.  Iov, Write and Poll: output and polling.  Forks: forking.

** Modelling conventions

A C function is a Rocq function of the same name over the state, in the order of the
source's statements.  Addresses are [N], with [NULL] = 0, and every kind of structure has
a typed heap; reading or writing through [NULL] or through an address without an object
is undefined, as are a signed overflow where the code relies on none and an index out of
bounds.  Undefined behaviour is [None] in [M] and [OUndef] in [coro], so a theorem that an
operation returns a result also says that it does nothing undefined.  Integers are [Z],
reduced to their width with [u32], [u64], [s32], [s64] where the code can wrap around.
Memory of [malloc] is fresh; whether it fails is up to the kernel.  Function pointers are
numbers; what the program's own functions do is the parameter [App].

Loops over rings and queues run on fuel that is the number of objects in the heap, which
is enough for every well-formed structure, and the theorems about them prove that it is.
Loops that repeat a system call, or wait again after a wake-up, can run any number of
times in C; they take an explicit [fuel] argument, and running out of it is an outcome of
its own ([OFuel]) that no theorem counts as success.

** What is proved

- Queues and rings ([Pqueue.pqueue_refinement], [Ring.ring_refinement]): the pointer structures implement sorted lists and lists.
- Scheduling ([Threads.thread_pool_refinement], [Threads.dispatch_highest],
  [Pqueue.pqueue_no_starvation], [Early.early_pass], [Early.timer_earliest],
  [Wakeup.late_wakes]): threads are never lost, their state names their queue, the best
  ready thread runs, ageing prevents starvation, every waiting thread's events are looked
  at, the timer is the earliest, and exactly the threads whose events occurred are woken.
- Threads ([Boot.boot_starts], [Spawn.spawn_new], [Ending.exit_ends],
  [Ending.cancel_ends], [Join.join_collects]): how the first two threads start, in a state
  with the invariant of scheduling; what a new thread is like; how a thread ends, by its
  own will or cancelled, and that the state it leaves is one from which joining collects
  it with its exit value.
- Synchronisation ([Locks.mutex_refinement], [Locks.mutex_acquire_waits],
  [Locks.releaseall_first], [Rwlocks.rwlock_refinement], [Early.notify_wakes],
  [Pmutex.posix_mutex_refinement], [Barrier.barrier_reach_all]): mutual exclusion, who
  waits and who is woken, the POSIX layer on top, and barriers, by a rely-guarantee
  argument over the turns of the other threads.
- Contexts ([Mctx.switch_resumes], [Mctx.mctx_set_starts], [Uctx.uctx_coroutine]): the
  assembler switch suspends and resumes; user contexts are coroutines.
- Events and messages ([Event.event_concat_isolate], [Event.wait_counts],
  [Msg.msgport_refinement]).
- Thread-local data, cleanup, attributes ([Data.key_set_get],
  [Data.key_create_smallest], [Tcb.attr_set_get]).
- Processes, output and polling ([Forks.fork_handlers], [Forks.atfork_stack],
  [Write.write_all], [Poll.poll_reports], [Iov.iov_advance_drops]) and the mapping of
  system calls ([Syscall.syscall_init_resolves]).
- Basic services ([Util.fds_helpers], [Time.time_arith_exact],
  [Printf.snprintf_truncates], [Printf.dopr_terminates], [Printf.convert_decode]).

Several theorems state what the code does where that is not what it is for: see
[Time.time_arith_exact], [Locks.releaseall_first], [Rwlocks.rwlock_refinement],
[Forks.fork_handlers], [Mctx.mctx_set_starts], [Barrier.barrier_reach_all],
[Syscall.syscall_init_resolves], [Ending.cancel_ends], [Poll.poll_reports] and
[Printf.convert_decode].

** Not modelled

The [pth_debug] macros inside the other functions, which are empty in a normal build; the
feature macros of pth_acdef.h and pth_acmac.h, where the development follows the branches
that the checked-in configuration selects (except in Syscall and Ext, which model the
branches it leaves out as well); and the C library beyond what the sources use of it: the
dynamic loader, the Sfio library and the system calls are parameters.  The text that
[fprintf] makes of its arguments is not modelled, only the calls.  Signal handlers run only
while the event manager waits in [select]; the asynchronous arrival of a signal elsewhere
is not modelled. *)
From stdpp Require Export base tactics option list gmap strings.
From Stdlib Require Export ZArith Lia.

#[global] Open Scope Z_scope.
#[global] Set Default Goal Selector "!".

(** ** Pointers and memory

Addresses are [N]; the null pointer is [0].  A typed heap is a finite map from
addresses to structures.  Reading through [NULL] or through an address that
holds no object is undefined behaviour, which is [None] everywhere below. *)
Abbreviation ptr := N (only parsing).
Abbreviation NULL := 0%N (only parsing).

Definition load {V} (h : gmap N V) (p : ptr) : option V :=
  if decide (p = NULL) then None else h !! p.

Definition is_null (p : ptr) : bool := bool_decide (p = NULL).

Lemma is_null_false p : p ≠ NULL → is_null p = false.
Proof. intros. by apply bool_decide_eq_false. Qed.

Lemma load_Some {V} (h : gmap N V) p v :
  load h p = Some v ↔ p ≠ NULL ∧ h !! p = Some v.
Proof. unfold load. case_decide; naive_solver. Qed.

Lemma load_alter {V} (h : gmap N V) f p q :
  load (alter f p h) q = if decide (p = q) then f <$> load h q else load h q.
Proof. unfold load. rewrite lookup_alter. repeat case_decide; naive_solver. Qed.

Lemma load_dom {V} (h : gmap N V) x : x ∈ dom h → x ≠ NULL → is_Some (load h x).
Proof. intros [n Hn]%elem_of_dom Hx. exists n. by apply load_Some. Qed.

Lemma load_insert {V} (h : gmap N V) v p q :
  load (<[p:=v]> h) q =
  if decide (q = NULL) then None else if decide (p = q) then Some v else h !! q.
Proof. unfold load. rewrite lookup_insert. repeat case_decide; naive_solver. Qed.

(** ** Machine integers

[int] and [long] arithmetic that leaves the type's range is undefined; unsigned
arithmetic wraps; conversions to a narrower signed type wrap (gcc). *)
Definition INT_MIN : Z := -2147483648.
Definition INT_MAX : Z := 2147483647.
Definition int_ok (z : Z) : bool := (INT_MIN <=? z) && (z <=? INT_MAX).
Definition u32 (z : Z) : Z := z mod 4294967296.
Definition u64 (z : Z) : Z := z mod 18446744073709551616.
Definition s32 (z : Z) : Z := (z + 2147483648) mod 4294967296 - 2147483648.
Definition s64 (z : Z) : Z := (z + 9223372036854775808) mod 18446744073709551616 - 9223372036854775808.
Definition s16 (z : Z) : Z := (z + 32768) mod 65536 - 32768.

Lemma int_ok_true z : int_ok z = true ↔ INT_MIN ≤ z ≤ INT_MAX.
Proof. unfold int_ok. rewrite andb_true_iff, !Z.leb_le. done. Qed.

Lemma u32_id z : 0 ≤ z < 4294967296 → u32 z = z.
Proof. intros. unfold u32. by rewrite Z.mod_small. Qed.

Lemma u32_range z : 0 ≤ u32 z < 4294967296.
Proof. unfold u32. apply Z.mod_pos_bound. lia. Qed.

Lemma s32_id z : INT_MIN ≤ z ≤ INT_MAX → s32 z = z.
Proof. unfold s32, INT_MIN, INT_MAX. intros. rewrite Z.mod_small; lia. Qed.

Lemma s32_range z : INT_MIN ≤ s32 z ≤ INT_MAX.
Proof.
  unfold s32, INT_MIN, INT_MAX.
  pose proof (Z.mod_pos_bound (z + 2147483648) 4294967296). lia.
Qed.

(** [_BIT(n)] of pth.h, and the test [x & f] used as a condition. *)
Definition BIT (n : Z) : Z := Z.shiftl 1 n.
Definition has (x f : Z) : bool := negb (Z.land x f =? 0).

(** ** Error numbers (Linux) *)
Definition EPERM : Z := 1.
Definition ENOENT : Z := 2.
Definition ESRCH : Z := 3.
Definition EINTR : Z := 4.
Definition EIO : Z := 5.
Definition EBADF : Z := 9.
Definition EAGAIN : Z := 11.
Definition ENOMEM : Z := 12.
Definition EACCES : Z := 13.
Definition EFAULT : Z := 14.
Definition EBUSY : Z := 16.
Definition EINVAL : Z := 22.
Definition EDEADLK : Z := 35.
Definition ENOSYS : Z := 38.
Definition ETIMEDOUT : Z := 110.

(** ** The state monad with undefined behaviour *)
Definition M (S A : Type) : Type := S → option (A * S).
Definition ret {S A} (a : A) : M S A := λ s, Some (a, s).
Definition bind {S A B} (m : M S A) (k : A → M S B) : M S B :=
  λ s, match m s with Some (a, s') => k a s' | None => None end.

Declare Scope pth_scope.
Delimit Scope pth_scope with pth.
Notation "'do' x <- m ; k" := (bind m (λ x, k))
  (at level 100, x pattern, m at next level, k at level 200, right associativity) : pth_scope.
Notation "m ;; k" := (bind m (λ _, k))
  (at level 100, k at level 200, right associativity) : pth_scope.
#[global] Open Scope pth_scope.

Definition get {S} : M S S := λ s, Some (s, s).
Definition put {S} (s : S) : M S unit := λ _, Some (tt, s).
Definition gets {S A} (f : S → A) : M S A := λ s, Some (f s, s).
Definition modify {S} (f : S → S) : M S unit := λ s, Some (tt, f s).
Definition ub {S A} : M S A := λ _, None.
Definition lift_opt {S A} (o : option A) : M S A :=
  λ s, match o with Some a => Some (a, s) | None => None end.
(** A signed [int] result: undefined when it leaves the range. *)
Definition int_chk {S} (z : Z) : M S Z := if int_ok z then ret z else ub.

(** [wp m Q s]: started in [s], [m] finishes without undefined behaviour and
    its result and final state satisfy [Q]. *)
Definition wp {S A} (m : M S A) (Q : A → S → Prop) (s : S) : Prop :=
  match m s with Some (a, s') => Q a s' | None => False end.

Lemma wp_run {S A} (m : M S A) Q s :
  wp m Q s ↔ ∃ a s', m s = Some (a, s') ∧ Q a s'.
Proof. unfold wp. destruct (m s) as [[a s']|]; naive_solver. Qed.

Lemma wp_mono {S A} (m : M S A) (P Q : A → S → Prop) s :
  wp m P s → (∀ a s', P a s' → Q a s') → wp m Q s.
Proof. unfold wp. destruct (m s) as [[]|]; naive_solver. Qed.

Lemma wp_and {S A} (m : M S A) (P Q : A → S → Prop) s :
  wp m P s → wp m Q s → wp m (λ a s', P a s' ∧ Q a s') s.
Proof. unfold wp. by destruct (m s) as [[]|]. Qed.

Lemma wp_bind {S A B} (m : M S A) (k : A → M S B) Q s :
  wp (bind m k) Q s = wp m (λ a, wp (k a) Q) s.
Proof. unfold wp, bind. by destruct (m s) as [[]|]. Qed.

Lemma wp_ret {S A} (a : A) (Q : A → S → Prop) s : wp (ret a) Q s = Q a s.
Proof. done. Qed.

Lemma wp_get {S} (Q : S → S → Prop) s : wp get Q s = Q s s.
Proof. done. Qed.

Lemma wp_put {S} (x : S) (Q : unit → S → Prop) s : wp (put x) Q s = Q tt x.
Proof. done. Qed.

Lemma wp_gets {S A} (f : S → A) (Q : A → S → Prop) s : wp (gets f) Q s = Q (f s) s.
Proof. done. Qed.

Lemma wp_modify {S} (f : S → S) (Q : unit → S → Prop) s : wp (modify f) Q s = Q tt (f s).
Proof. done. Qed.

Lemma wp_int_chk {S} z (Q : Z → S → Prop) s :
  INT_MIN ≤ z ≤ INT_MAX → Q z s → wp (int_chk z) Q s.
Proof. intros Hz HQ. unfold int_chk. by rewrite (proj2 (int_ok_true z) Hz). Qed.

Create Rewrite HintDb wp.
Create Rewrite HintDb lists.
Create Rewrite HintDb links.
Create HintDb pth discriminated.
#[export] Hint Rewrite @wp_bind @wp_ret @wp_get @wp_put @wp_gets @wp_modify : wp.

(** One symbolic execution sweep over the structural rules. *)
Ltac wps := repeat (autorewrite with wp; simpl).

(** ** Lists *)
Lemma head_Some_elem_of {A} (l : list A) x : head l = Some x → x ∈ l.
Proof. destruct l; simpl; [done|]. intros [= ->]. left. Qed.

Lemma last_Some_elem_of {A} (l : list A) x : last l = Some x → x ∈ l.
Proof. intros (l' & ->)%last_Some. set_solver. Qed.

Definition last_or {A} (d : A) (l : list A) : A := default d (last l).
Definition head_or {A} (d : A) (l : list A) : A := default d (head l).

Lemma last_or_nil {A} (d : A) : last_or d [] = d.
Proof. done. Qed.

Lemma last_or_cons {A} (d x : A) l : last_or d (x :: l) = last_or x l.
Proof.
  unfold last_or. destruct l as [|a l]; [done|]. rewrite last_cons_cons.
  destruct (last (a :: l)) eqn:E; [done|]. by apply last_None in E.
Qed.

Lemma head_or_nil {A} (d : A) : head_or d [] = d.
Proof. done. Qed.

Lemma head_or_cons {A} (d x : A) l : head_or d (x :: l) = x.
Proof. done. Qed.

Lemma last_or_snoc {A} (d x : A) l : last_or d (l ++ [x]) = x.
Proof. unfold last_or. by rewrite last_snoc. Qed.

Lemma last_or_app {A} (d x : A) l1 l2 : last_or d (l1 ++ x :: l2) = last_or x l2.
Proof.
  revert d. induction l1 as [|y l1 IH]; intros d; simpl; rewrite last_or_cons; [done|].
  apply IH.
Qed.

Lemma last_or_elem {A} (d : A) l : last_or d l ∈ d :: l.
Proof.
  revert d. induction l as [|x l IH]; intros d; [left|].
  rewrite last_or_cons. right. apply IH.
Qed.

(** In a list without repetition only the first position holds the head. *)
Lemma NoDup_head_ne {A} (d x y : A) l1 l2 :
  NoDup (l1 ++ x :: y :: l2) → y ≠ head_or d (l1 ++ x :: y :: l2).
Proof.
  intros Hnd Heq. rewrite cons_middle, app_assoc in Hnd.
  apply NoDup_app in Hnd as (_ & Hd & _). apply (Hd y); [|left].
  destruct l1 as [|z l1]; simpl in Heq; rewrite head_or_cons in Heq; subst; set_solver.
Qed.

#[export] Hint Rewrite @head_or_nil @head_or_cons @last_or_nil @last_or_cons @last_or_snoc @last_or_app : lists.
