(* ===== verification/Links.v ===== *)
(** * Circular doubly linked lists

Pth threads three kinds of structures on circular doubly linked lists: ring
nodes ([rn_next]/[rn_prev]), queued threads ([q_next]/[q_prev]) and events
([ev_next]/[ev_prev]).  This file is their common theory: the predicate [cyc h l]
says that the nodes of [l] form, in this order, one closed ring in the heap [h],
and the two lemmas [cyc_link] and [cyc_unlink] say what the pointer surgery of
the C code does to it. *)
From S2P Require Import Prelude.

(** A structure with two link fields. *)
Class Linked (V : Type) := {
  nx : V → N;
  pv : V → N;
  set_nx : N → V → V;
  set_pv : N → V → V;
  nx_set_nx p v : nx (set_nx p v) = p;
  pv_set_nx p v : pv (set_nx p v) = pv v;
  nx_set_pv p v : nx (set_pv p v) = nx v;
  pv_set_pv p v : pv (set_pv p v) = p;
}.

Section links.
Context {V : Type} `{!Linked V}.
Implicit Types (h : gmap N V) (l : list N) (x y z p q : N).

Definition nxf h x : option N := nx <$> load h x.
Definition pvf h x : option N := pv <$> load h x.

Lemma nxf_load h x n : load h x = Some n → nxf h x = Some (nx n).
Proof. unfold nxf. by intros ->. Qed.

Lemma pvf_load h x n : load h x = Some n → pvf h x = Some (pv n).
Proof. unfold pvf. by intros ->. Qed.

Lemma nxf_Some h x y : nxf h x = Some y → ∃ n, load h x = Some n ∧ nx n = y.
Proof. unfold nxf. intros (n & ? & ?)%fmap_Some. eauto. Qed.

Lemma pvf_Some h x y : pvf h x = Some y → ∃ n, load h x = Some n ∧ pv n = y.
Proof. unfold pvf. intros (n & ? & ?)%fmap_Some. eauto. Qed.

(** Link reads after a field write.  [f] is any update of another field. *)
Lemma nxf_alter_other h f x z :
  (∀ v, nx (f v) = nx v) → nxf (alter f x h) z = nxf h z.
Proof.
  intros Hf. unfold nxf. rewrite load_alter. case_decide; [|done].
  destruct (load h z); simpl; [by rewrite Hf|done].
Qed.

Lemma pvf_alter_other h f x z :
  (∀ v, pv (f v) = pv v) → pvf (alter f x h) z = pvf h z.
Proof.
  intros Hf. unfold pvf. rewrite load_alter. case_decide; [|done].
  destruct (load h z); simpl; [by rewrite Hf|done].
Qed.

Lemma nxf_set_pv h x y z : nxf (alter (set_pv y) x h) z = nxf h z.
Proof. apply nxf_alter_other. apply nx_set_pv. Qed.

Lemma pvf_set_nx h x y z : pvf (alter (set_nx y) x h) z = pvf h z.
Proof. apply pvf_alter_other. apply pv_set_nx. Qed.

Lemma nxf_set_nx h x y z :
  nxf (alter (set_nx y) x h) z =
  if decide (z = x) then (λ _, y) <$> nxf h z else nxf h z.
Proof.
  unfold nxf. rewrite load_alter. destruct (decide (z = x)) as [->|Hne].
  - rewrite decide_True by done. destruct (load h x); simpl; [by rewrite nx_set_nx|done].
  - by rewrite decide_False by done.
Qed.

Lemma pvf_set_pv h x y z :
  pvf (alter (set_pv y) x h) z =
  if decide (z = x) then (λ _, y) <$> pvf h z else pvf h z.
Proof.
  unfold pvf. rewrite load_alter. destruct (decide (z = x)) as [->|Hne].
  - rewrite decide_True by done. destruct (load h x); simpl; [by rewrite pv_set_pv|done].
  - by rewrite decide_False by done.
Qed.

(** [adj h a b]: [b] follows [a], and both sides agree on it. *)
Definition adj h (a b : N) : Prop := nxf h a = Some b ∧ pvf h b = Some a.

(** [chain h a l b]: starting at [a] the links run through [l] and then to [b]. *)
Fixpoint chain h (a : N) (l : list N) (b : N) : Prop :=
  match l with
  | [] => adj h a b
  | x :: l' => adj h a x ∧ chain h x l' b
  end.

Definition cyc h (l : list N) : Prop :=
  match l with
  | [] => True
  | x :: l' => NoDup l ∧ chain h x l' x
  end.

Lemma chain_app h a l1 x l2 b :
  chain h a (l1 ++ x :: l2) b ↔ chain h a l1 x ∧ chain h x l2 b.
Proof.
  revert a. induction l1 as [|y l1 IH]; intros a; simpl; [done|].
  rewrite IH. tauto.
Qed.

(** Redirecting the last edge of a chain. *)
Lemma chain_redirect h h' a l b b' :
  NoDup (a :: l) →
  chain h a l b →
  (∀ z, z ∈ a :: l → z ≠ last_or a l → nxf h' z = nxf h z) →
  nxf h' (last_or a l) = Some b' →
  (∀ z, z ∈ l → pvf h' z = pvf h z) →
  pvf h' b' = Some (last_or a l) →
  chain h' a l b'.
Proof.
  revert a. induction l as [|x l IH]; intros a Hnd Hch Hn Hlast Hp Hb; simpl.
  - by rewrite last_or_nil in Hlast, Hb.
  - destruct Hch as [[Hax Hxa] Hch]. rewrite last_or_cons in Hlast, Hb, Hn.
    apply NoDup_cons in Hnd as [Ha Hnd].
    split.
    + split; [|rewrite Hp by set_solver; done].
      rewrite Hn; [done|set_solver|].
      intros ->. apply Ha. apply last_or_elem.
    + apply IH; try done; intros z Hz.
      * intros Hne. apply Hn; [set_solver|done].
      * apply Hp. set_solver.
Qed.

Lemma chain_ext h h' a l b :
  chain h a l b →
  (∀ z, z ∈ a :: l → nxf h' z = nxf h z) →
  (∀ z, z ∈ l → pvf h' z = pvf h z) → pvf h' b = pvf h b →
  chain h' a l b.
Proof.
  revert a. induction l as [|x l IH]; intros a Hch Hn Hp Hb; simpl in *.
  - destruct Hch. split; [rewrite Hn by set_solver|rewrite Hb]; done.
  - destruct Hch as [[? ?] Hch]. split.
    + split; [rewrite Hn by set_solver|rewrite Hp by set_solver]; done.
    + apply IH; try done; set_solver.
Qed.

Lemma cyc_ext h h' l :
  cyc h l →
  (∀ z, z ∈ l → nxf h' z = nxf h z) → (∀ z, z ∈ l → pvf h' z = pvf h z) →
  cyc h' l.
Proof.
  destruct l as [|x l]; [done|]. intros [Hnd Hch] Hn Hp. split; [done|].
  eapply chain_ext; eauto; set_solver.
Qed.

Lemma cyc_NoDup h l : cyc h l → NoDup l.
Proof. destruct l; [constructor|]. by intros [? _]. Qed.

Lemma cyc_rotate h l1 l2 : cyc h (l1 ++ l2) → cyc h (l2 ++ l1).
Proof.
  intros Hc. pose proof (cyc_NoDup _ _ Hc) as Hnd.
  destruct l1 as [|x l1]; [by rewrite app_nil_r|].
  destruct l2 as [|y l2]; [by rewrite app_nil_r in Hc|].
  destruct Hc as [_ Hc]. simpl in Hc. apply chain_app in Hc as [Hc1 Hc2].
  split; [|by apply chain_app].
  rewrite Permutation_app_comm in Hnd. done.
Qed.

Lemma chain_defined h a l b : chain h a l b → ∀ z, z ∈ a :: l → is_Some (nxf h z).
Proof.
  revert a. induction l as [|x l IH]; intros a Hc z Hz; simpl in Hc.
  - destruct Hc. apply elem_of_cons in Hz as [->|Hz]; [eauto|set_solver].
  - destruct Hc as [[? _] Hc]. apply elem_of_cons in Hz as [->|Hz]; eauto.
Qed.

Lemma cyc_load h l z : cyc h l → z ∈ l → is_Some (load h z).
Proof.
  destruct l as [|x l]; [set_solver|]. intros [_ Hc] Hz.
  destruct (chain_defined _ _ _ _ Hc z Hz) as [w Hw].
  apply nxf_Some in Hw as (n & ? & _). eauto.
Qed.

Lemma cyc_nonnull h l z : cyc h l → z ∈ l → z ≠ NULL.
Proof. intros Hc Hz. destruct (cyc_load _ _ _ Hc Hz) as [n [? _]%load_Some]. done. Qed.

(** The links around the first node. *)
Lemma cyc_head_next h x l : cyc h (x :: l) → nxf h x = Some (head_or x l).
Proof. intros [_ Hc]. by destruct l; simpl in Hc; [destruct Hc|destruct Hc as [[? _] _]]. Qed.

Lemma chain_last_pv h a l b : chain h a l b → pvf h b = Some (last_or a l).
Proof.
  revert a. induction l as [|x l IH]; intros a Hc; simpl in Hc; [by destruct Hc|].
  destruct Hc as [_ Hc]. rewrite last_or_cons. by apply IH.
Qed.

Lemma chain_last_nx h a l b : chain h a l b → nxf h (last_or a l) = Some b.
Proof.
  revert a. induction l as [|x l IH]; intros a Hc; simpl in Hc; [by destruct Hc|].
  destruct Hc as [_ Hc]. rewrite last_or_cons. by apply IH.
Qed.

Lemma cyc_head_prev h x l : cyc h (x :: l) → pvf h x = Some (last_or x l).
Proof. intros [_ Hc]. by apply chain_last_pv in Hc. Qed.

Lemma cyc_last_next h x l : cyc h (x :: l) → nxf h (last_or x l) = Some x.
Proof. intros [_ Hc]. by apply chain_last_nx in Hc. Qed.

(** The links in the middle. *)
Lemma cyc_mid h l1 x l2 :
  cyc h (l1 ++ x :: l2) →
  nxf h x = Some (head_or x (l2 ++ l1)) ∧ pvf h x = Some (last_or x (l2 ++ l1)).
Proof.
  intros Hc%cyc_rotate. rewrite <- app_comm_cons in Hc.
  split; [by apply cyc_head_next|by apply cyc_head_prev].
Qed.

(** Linking [x] between the last node and the first. *)
Lemma cyc_link h h' x y l :
  cyc h (y :: l) → x ∉ y :: l →
  (∀ z, nxf h' z = if decide (z = x) then Some y
                   else if decide (z = last_or y l) then Some x else nxf h z) →
  (∀ z, pvf h' z = if decide (z = x) then Some (last_or y l)
                   else if decide (z = y) then Some x else pvf h z) →
  cyc h' (y :: l ++ [x]).
Proof.
  intros [Hnd Hc] Hx Hn Hp. pose proof (last_or_elem y l) as Hl. split.
  - rewrite app_comm_cons. apply NoDup_app. split_and!; [done|set_solver|apply NoDup_singleton].
  - apply chain_app. split.
    + eapply chain_redirect; eauto.
      * intros z ? ?. rewrite Hn. rewrite !decide_False; [done|done|set_solver].
      * rewrite Hn. rewrite decide_False by set_solver. by rewrite decide_True.
      * intros z ?. rewrite Hp. rewrite !decide_False; [done| |set_solver].
        intros ->. by apply NoDup_cons in Hnd as [? _].
      * rewrite Hp. by rewrite decide_True.
    + split; [rewrite Hn; by rewrite decide_True|].
      rewrite Hp. rewrite decide_False by set_solver. by rewrite decide_True.
Qed.

(** Unlinking the first node of a ring with at least two nodes. *)
Lemma cyc_unlink h h' x y l :
  cyc h (x :: y :: l) →
  (∀ z, z ≠ x → nxf h' z = if decide (z = last_or y l) then Some y else nxf h z) →
  (∀ z, z ≠ x → pvf h' z = if decide (z = y) then Some (last_or y l) else pvf h z) →
  cyc h' (y :: l).
Proof.
  intros [Hnd [_ Hc]] Hn Hp. apply NoDup_cons in Hnd as [Hx Hnd].
  pose proof (last_or_elem y l) as Hl. split; [done|].
  eapply chain_redirect; eauto.
  - intros z ? ?. rewrite Hn by set_solver. by rewrite decide_False.
  - rewrite Hn by set_solver. by rewrite decide_True.
  - intros z ?. rewrite Hp by set_solver. rewrite decide_False; [done|].
    intros ->. by apply NoDup_cons in Hnd as [? _].
  - rewrite Hp by set_solver. by rewrite decide_True.
Qed.

(** The seam of a ring cut into [l1] and [l2]: its last node [p] and its first
    node [y], seen from [l2]. *)
Lemma cyc_seam h l1 l2 y p :
  cyc h (l1 ++ l2) → head (l2 ++ l1) = Some y → last (l2 ++ l1) = Some p →
  nxf h p = Some y ∧ pvf h y = Some p ∧ is_Some (pvf h p) ∧ is_Some (nxf h y) ∧
  y ∈ l1 ++ l2 ∧ p ∈ l1 ++ l2.
Proof.
  intros Hc Hy Hp. assert (y ∈ l1 ++ l2) as Hyl.
  { apply head_Some_elem_of in Hy. set_solver. }
  assert (p ∈ l1 ++ l2) as Hpl.
  { apply last_Some_elem_of in Hp. set_solver. }
  destruct (cyc_load _ _ _ Hc Hyl) as [n Hn]. destruct (cyc_load _ _ _ Hc Hpl) as [m Hm].
  apply cyc_rotate in Hc. destruct (l2 ++ l1) as [|z l] eqn:E; [done|].
  simpl in Hy. simplify_eq. pose proof (cyc_last_next _ _ _ Hc) as Hl.
  pose proof (cyc_head_prev _ _ _ Hc) as Hh.
  assert (last_or y l = p) as Hlp.
  { rewrite <- (last_or_cons y). unfold last_or. by rewrite Hp. }
  rewrite Hlp in Hl, Hh. split_and!; try done.
  - rewrite (pvf_load _ _ _ Hm). eauto.
  - rewrite (nxf_load _ _ _ Hn). eauto.
Qed.

(** Linking [x] at the seam. *)
Lemma cyc_link_mid h h' x l1 l2 y p :
  cyc h (l1 ++ l2) → x ∉ l1 ++ l2 →
  head (l2 ++ l1) = Some y → last (l2 ++ l1) = Some p →
  (∀ z, nxf h' z = if decide (z = x) then Some y
                   else if decide (z = p) then Some x else nxf h z) →
  (∀ z, pvf h' z = if decide (z = x) then Some p
                   else if decide (z = y) then Some x else pvf h z) →
  cyc h' (l1 ++ x :: l2).
Proof.
  intros Hc%cyc_rotate Hx Hy Hp Hn Hpv. rewrite cons_middle, app_assoc.
  apply cyc_rotate. rewrite app_assoc. assert (x ∉ l2 ++ l1) by set_solver.
  destruct (l2 ++ l1) as [|z l]; [done|]. simpl in Hy. simplify_eq.
  assert (last_or y l = p) as <-.
  { rewrite <- (last_or_cons y). unfold last_or. by rewrite Hp. }
  eapply cyc_link; done.
Qed.

(** Unlinking [x], its neighbours being [p] and [y]. *)
Lemma cyc_unlink_mid h h' x l1 l2 y p :
  cyc h (l1 ++ x :: l2) →
  head (l2 ++ l1) = Some y → last (l2 ++ l1) = Some p →
  (∀ z, z ≠ x → nxf h' z = if decide (z = p) then Some y else nxf h z) →
  (∀ z, z ≠ x → pvf h' z = if decide (z = y) then Some p else pvf h z) →
  cyc h' (l1 ++ l2).
Proof.
  intros Hc%cyc_rotate Hy Hp Hn Hpv. apply cyc_rotate.
  rewrite <- app_comm_cons in Hc. destruct (l2 ++ l1) as [|z l]; [done|].
  simpl in Hy. simplify_eq. assert (last_or y l = p) as <-.
  { rewrite <- (last_or_cons y). unfold last_or. by rewrite Hp. }
  eapply cyc_unlink; done.
Qed.

(** Splicing the ring of [g] in behind [f]. *)
Lemma cyc_splice h h' f l g l' :
  cyc h (f :: l) → cyc h (g :: l') → (∀ z, z ∈ f :: l → z ∉ g :: l') →
  (∀ z, nxf h' z = if decide (z = f) then Some g
                   else if decide (z = last_or g l') then Some (head_or f l) else nxf h z) →
  (∀ z, pvf h' z = if decide (z = g) then Some f
                   else if decide (z = head_or f l) then Some (last_or g l') else pvf h z) →
  cyc h' (f :: (g :: l') ++ l).
Proof.
  intros [Hnd Hc] [Hnd' Hc'] Hdisj Hn Hp.
  assert (∀ z, z ∈ g :: l' → z ∉ f :: l) as Hdisj' by (intros z Hz Hz'; by apply (Hdisj z)).
  assert (last_or g l' ∈ g :: l') as Hlast by apply last_or_elem.
  assert (head_or f l ∈ f :: l) as Hhead by (destruct l; [rewrite head_or_nil|rewrite head_or_cons]; set_solver).
  assert (f ∉ g :: l') as Hf by (apply Hdisj; left).
  assert (NoDup (f :: (g :: l') ++ l)) as Hall.
  { apply NoDup_cons in Hnd as [? ?]. apply NoDup_cons. split; [set_solver|].
    apply NoDup_app. split_and!; [done| |done]. intros z Hz. apply Hdisj' in Hz. set_solver. }
  split; [done|].
  assert (adj h' f g) as Hfg by (split; [by rewrite Hn, decide_True|by rewrite Hp, decide_True]).
  assert (nxf h' (last_or g l') = Some (head_or f l)) as Hl1.
  { rewrite Hn, decide_False by (intros Heq; by rewrite Heq in Hlast). by rewrite decide_True. }
  assert (pvf h' (head_or f l) = Some (last_or g l')) as Hl2.
  { rewrite Hp, decide_False by (intros Heq; apply (Hdisj _ Hhead); rewrite Heq; left). by rewrite decide_True. }
  assert (∀ b, nxf h' (last_or g l') = Some b → pvf h' b = Some (last_or g l') → chain h' g l' b) as Hseg.
  { intros b Hb1 Hb2. eapply chain_redirect; [done|done| |done| |done].
    - intros z Hz Hne. rewrite Hn, !decide_False; [done|done|]. intros ->. done.
    - intros z Hz. rewrite Hp, !decide_False; [done| |].
      + intros ->. apply (Hdisj' (head_or f l)); [by right|done].
      + intros ->. by apply NoDup_cons in Hnd' as [? _]. }
  destruct l as [|y l].
  - rewrite app_nil_r. simpl. split; [done|]. by apply Hseg.
  - change ((g :: l') ++ y :: l) with (g :: l' ++ y :: l). split; [done|]. apply chain_app.
    rewrite head_or_cons in *. split; [by apply Hseg|]. destruct Hc as [_ Hc].
    apply NoDup_cons in Hnd as [Hfl Hnd]. eapply chain_ext; [exact Hc|..].
    + intros z Hz. rewrite Hn, !decide_False; [done| |].
      * intros ->. apply (Hdisj' (last_or g l')); [done|by right].
      * intros ->. done.
    + intros z Hz. rewrite Hp, !decide_False; [done| |].
      * intros ->. by apply NoDup_cons in Hnd as [? _].
      * intros ->. apply (Hdisj g); [by do 2 right|left].
    + rewrite Hp, !decide_False; [done| |]; intros Heq; subst; set_solver.
Qed.

Lemma cyc_singleton h x : nxf h x = Some x → pvf h x = Some x → cyc h [x].
Proof. intros. split; [apply NoDup_singleton|done]. Qed.

Lemma cyc_size h l : cyc h l → (length l ≤ size h)%nat.
Proof.
  intros Hc. pose proof (cyc_NoDup _ _ Hc) as Hnd. rewrite <- size_dom.
  rewrite <- (size_list_to_set (C:=gset N) l) by done. apply subseteq_size.
  intros x Hx. apply elem_of_list_to_set in Hx. apply elem_of_dom.
  destruct (cyc_load _ _ _ Hc Hx) as [n [_ Hn]%load_Some]. eauto.
Qed.

Lemma node_links h x :
  is_Some (load h x) → ∃ a b, nxf h x = Some a ∧ pvf h x = Some b ∧ x ≠ NULL.
Proof.
  intros [n Hn]. exists (nx n), (pv n). split_and!;
    [by apply nxf_load|by apply pvf_load|by apply load_Some in Hn as [? _]].
Qed.

(** The nodes around the place where a node goes in: [p] before, [y] after. *)
Lemma cyc_gap h l1 l2 x :
  cyc h (l1 ++ l2) → x ∉ l1 ++ l2 → l1 ++ l2 ≠ [] →
  ∃ y p n m, head (l2 ++ l1) = Some y ∧ last (l2 ++ l1) = Some p ∧
    nxf h p = Some y ∧ pvf h y = Some p ∧ pvf h p = Some n ∧ nxf h y = Some m ∧
    y ≠ NULL ∧ p ≠ NULL ∧ x ≠ y ∧ x ≠ p ∧ y ∈ l1 ++ l2 ∧ p ∈ l1 ++ l2.
Proof.
  intros Hc Hx Hne.
  destruct (head (l2 ++ l1)) as [y|] eqn:Hy.
  2: { apply head_None, app_nil in Hy as [-> ->]. done. }
  destruct (last (l2 ++ l1)) as [p|] eqn:Hp.
  2: { apply last_None, app_nil in Hp as [-> ->]. done. }
  destruct (cyc_seam _ _ _ _ _ Hc Hy Hp) as (? & ? & [n ?] & [m ?] & ? & ?).
  exists y, p, n, m. split_and!; try done; (eapply cyc_nonnull; [done|set_solver]) || set_solver.
Qed.

(** A node of the ring is either alone or has neighbours other than itself. *)
Lemma cyc_neighbours h l1 rn l2 :
  cyc h (l1 ++ rn :: l2) →
  (l1 = [] ∧ l2 = []) ∨
  ∃ y p, head (l2 ++ l1) = Some y ∧ last (l2 ++ l1) = Some p ∧
    nxf h rn = Some y ∧ pvf h rn = Some p ∧ is_Some (nxf h p) ∧ is_Some (nxf h y) ∧
    is_Some (pvf h y) ∧ y ≠ rn ∧ p ≠ rn ∧ y ∈ l1 ++ l2 ∧ p ∈ l1 ++ l2.
Proof.
  intros Hc. destruct (cyc_mid _ _ _ _ Hc) as [Hnx Hpv].
  pose proof (cyc_NoDup _ _ Hc) as Hnd. rewrite Permutation_app_comm in Hnd. simpl in Hnd.
  apply NoDup_cons in Hnd as [Hrn _].
  destruct (l2 ++ l1) as [|y l] eqn:E; [left; apply app_nil in E; naive_solver|].
  right. rewrite last_or_cons in Hpv. rewrite head_or_cons in Hnx.
  assert (last (y :: l) = Some (last_or y l)) as Hl.
  { rewrite <- (last_or_cons y y l). unfold last_or. destruct (last (y :: l)) eqn:El; [done|].
    by apply last_None in El. }
  pose proof (last_or_elem y l) as Hle.
  assert (y ∈ l1 ++ l2) by (assert (y ∈ l2 ++ l1) by (rewrite E; set_solver); set_solver).
  assert (last_or y l ∈ l1 ++ l2) by (assert (last_or y l ∈ l2 ++ l1) by (by rewrite E); set_solver).
  destruct (cyc_load h _ y Hc) as [n1 Hn1]; [set_solver|].
  destruct (cyc_load h _ (last_or y l) Hc) as [n2 Hn2]; [set_solver|].
  exists y, (last_or y l). split_and!; try done.
  - rewrite (nxf_load _ _ _ Hn2). eauto.
  - rewrite (nxf_load _ _ _ Hn1). eauto.
  - rewrite (pvf_load _ _ _ Hn1). eauto.
  - set_solver.
  - intros Heq. apply Hrn. by rewrite <- Heq.
Qed.

End links.

#[global] Arguments cyc : simpl never.
#[global] Arguments set_nx : simpl never.
#[global] Arguments set_pv : simpl never.
#[global] Arguments nx : simpl never.
#[global] Arguments pv : simpl never.
#[export] Hint Rewrite @nxf_set_pv @pvf_set_nx @nxf_set_nx @pvf_set_pv : links.

(** Rewrites link reads with the facts at hand, splitting on the written addresses. *)
Ltac links :=
  simpl; autorewrite with links;
  repeat match goal with
  | H : nxf ?h ?x = Some _ |- context [nxf ?h ?x] => rewrite H
  | H : pvf ?h ?x = Some _ |- context [pvf ?h ?x] => rewrite H
  | _ => case_decide; subst; simpl in *
  end; try congruence; eauto.
