(* ===== verification/Time.v ===== *)
(** * Time values (pth_time.c and the time macros of pth_p.h)

A [struct timeval] has two [long] members; their arithmetic is written at its
64-bit width.  [total] is the value of a time in microseconds and [norm] the
normal form [0 <= tv_usec < 1000000]; [in_range] bounds the seconds so that no
operation below wraps around. *)
From Stdlib Require Import SpecFloat.
From S2P Require Import Prelude.

Record timeval := Tv { tv_sec : Z; tv_usec : Z }.

#[export] Instance timeval_eq_dec : EqDecision timeval.
Proof. solve_decision. Defined.

Definition pth_time_zero : timeval := Tv 0 0.

Definition pth_time_equal (t1 t2 : timeval) : bool :=
  (tv_sec t1 =? tv_sec t2) && (tv_usec t1 =? tv_usec t2).

(** [pth_time(sec, usec)] *)
Definition pth_time (sec usec : Z) : timeval := Tv sec usec.

(** [int rc = t1->tv_sec - t2->tv_sec; if (rc == 0) rc = t1->tv_usec - t2->tv_usec;] *)
Definition pth_time_cmp (t1 t2 : timeval) : Z :=
  let rc := s32 (s64 (tv_sec t1 - tv_sec t2)) in
  if rc =? 0 then s32 (s64 (tv_usec t1 - tv_usec t2)) else rc.

Definition pth_time_add (t1 t2 : timeval) : timeval :=
  let sec := s64 (tv_sec t1 + tv_sec t2) in
  let usec := s64 (tv_usec t1 + tv_usec t2) in
  if usec >? 1000000 then Tv (s64 (sec + 1)) (s64 (usec - 1000000)) else Tv sec usec.

Definition pth_time_sub (t1 t2 : timeval) : timeval :=
  let sec := s64 (tv_sec t1 - tv_sec t2) in
  let usec := s64 (tv_usec t1 - tv_usec t2) in
  if usec <? 0 then Tv (s64 (sec - 1)) (s64 (usec + 1000000)) else Tv sec usec.

(** C division truncates; division by zero is undefined. *)
Definition pth_time_div (t1 : timeval) (n : Z) : option timeval :=
  if n =? 0 then None else
  let q := s64 (Z.quot (tv_sec t1) n) in
  let r := s64 (Z.quot (s64 (Z.rem (tv_sec t1) n * 1000000)) n + Z.quot (tv_usec t1) n) in
  Some (if r >? 1000000 then Tv (s64 (q + 1)) (s64 (r - 1000000)) else Tv q r).

Definition pth_time_mul (t1 : timeval) (n : Z) : timeval :=
  let sec := s64 (tv_sec t1 * n) in
  let usec := s64 (tv_usec t1 * n) in
  Tv (s64 (sec + Z.quot usec 1000000)) (Z.rem usec 1000000).

(** [pth_time_t2d(&t)]: [double] arithmetic in the format of IEEE 754. *)
Definition double (z : Z) : spec_float := binary_normalize 53 1024 z 0 false.
Definition pth_time_t2d (t : timeval) : spec_float :=
  SFdiv 53 1024
    (SFadd 53 1024 (SFmul 53 1024 (double (tv_sec t)) (double 1000000)) (double (tv_usec t))) (double 1000000).

Definition pth_time_t2i (t : timeval) : Z :=
  s32 (Z.quot (s64 (s64 (tv_sec t * 1000000) + tv_usec t)) 1000000).

Definition pth_time_pos (t : timeval) : Z :=
  if (tv_sec t >? 0) && (tv_usec t >? 0) then 1 else 0.

(** ** What the operations compute *)
Definition total (t : timeval) : Z := tv_sec t * 1000000 + tv_usec t.
Definition norm (t : timeval) : Prop := 0 ≤ tv_usec t < 1000000.
(** More than a hundred thousand years on either side of the epoch. *)
Definition in_range (t : timeval) : Prop := - 4611686018427 ≤ tv_sec t ≤ 4611686018427.

#[export] Instance norm_dec t : Decision (norm t).
Proof. unfold norm. apply _. Defined.

Lemma s64_id z : -9223372036854775808 ≤ z < 9223372036854775808 → s64 z = z.
Proof. intros. unfold s64. rewrite Z.mod_small; lia. Qed.

(** Removes the wrap-arounds that the bounds in the context exclude. *)
Ltac no_wrap :=
  repeat match goal with
  | |- context [s64 ?z] =>
      lazymatch z with context [s64 _] => fail | _ => rewrite (s64_id z) by (simpl; lia) end
  end.

Lemma pth_time_add_exact t1 t2 :
  norm t1 → norm t2 → in_range t1 → in_range t2 →
  pth_time_add t1 t2 =
    if tv_usec t1 + tv_usec t2 >? 1000000
    then Tv (tv_sec t1 + tv_sec t2 + 1) (tv_usec t1 + tv_usec t2 - 1000000)
    else Tv (tv_sec t1 + tv_sec t2) (tv_usec t1 + tv_usec t2).
Proof. unfold norm, in_range, pth_time_add. intros. no_wrap. done. Qed.

Lemma pth_time_sub_exact t1 t2 :
  norm t1 → norm t2 → in_range t1 → in_range t2 →
  norm (pth_time_sub t1 t2) ∧ total (pth_time_sub t1 t2) = total t1 - total t2.
Proof.
  unfold norm, in_range, pth_time_sub, total. intros. no_wrap.
  destruct (Z.ltb_spec (tv_usec t1 - tv_usec t2) 0); simpl; no_wrap; lia.
Qed.

Lemma pth_time_cmp_exact t1 t2 :
  norm t1 → norm t2 → - 2147483648 ≤ tv_sec t1 - tv_sec t2 ≤ 2147483647 →
  pth_time_cmp t1 t2 =
    if tv_sec t1 =? tv_sec t2 then tv_usec t1 - tv_usec t2 else tv_sec t1 - tv_sec t2.
Proof.
  unfold norm, pth_time_cmp. intros. rewrite (s64_id (tv_sec t1 - _)) by lia.
  rewrite s32_id by (unfold INT_MIN, INT_MAX; lia).
  destruct (Z.eqb_spec (tv_sec t1 - tv_sec t2) 0), (Z.eqb_spec (tv_sec t1) (tv_sec t2)); try lia.
  rewrite s64_id, s32_id by (unfold INT_MIN, INT_MAX; lia). done.
Qed.

Lemma pth_time_cmp_sign t1 t2 :
  norm t1 → norm t2 → - 2147483648 ≤ tv_sec t1 - tv_sec t2 ≤ 2147483647 →
  Z.sgn (pth_time_cmp t1 t2) = Z.sgn (total t1 - total t2).
Proof.
  intros H1 H2 H. rewrite pth_time_cmp_exact by done. unfold norm, total in *.
  destruct (Z.eqb_spec (tv_sec t1) (tv_sec t2)) as [->|Hne]; [f_equal; lia|].
  destruct (Z.lt_trichotomy (tv_sec t1) (tv_sec t2)) as [?|[?|?]]; [|done|].
  - rewrite !Z.sgn_neg by lia. done.
  - rewrite !Z.sgn_pos by lia. done.
Qed.

(** [pth_time_cmp] orders normalised times by their value: it is negative,
    zero or positive exactly when the first time is earlier than, equal to or
    later than the second, as long as the two lie less than 2^31 seconds apart
    (the difference is returned as an [int]). *)
Theorem time_cmp_order t1 t2 :
  norm t1 → norm t2 → - 2147483648 ≤ tv_sec t1 - tv_sec t2 ≤ 2147483647 →
  (pth_time_cmp t1 t2 < 0 ↔ total t1 < total t2) ∧
  (pth_time_cmp t1 t2 = 0 ↔ t1 = t2) ∧
  (pth_time_cmp t1 t2 > 0 ↔ total t1 > total t2).
Proof.
  intros H1 H2 H. pose proof (pth_time_cmp_sign _ _ H1 H2 H) as Hs.
  assert (t1 = t2 ↔ total t1 = total t2) as Heq.
  { unfold total, norm in *. destruct t1, t2; simpl in *. split; [by intros [= -> ->]|].
    intros. f_equal; lia. }
  rewrite Heq. destruct (Z.sgn_spec (pth_time_cmp t1 t2)) as [[]|[[]|[]]],
    (Z.sgn_spec (total t1 - total t2)) as [[]|[[]|[]]]; lia.
Qed.

Lemma time_cmp_order_witness :
  (pth_time_cmp (Tv 10 999999) (Tv 11 0) < 0 ↔ total (Tv 10 999999) < total (Tv 11 0)) ∧
  (pth_time_cmp (Tv 10 999999) (Tv 11 0) = 0 ↔ Tv 10 999999 = Tv 11 0) ∧
  (pth_time_cmp (Tv 10 999999) (Tv 11 0) > 0 ↔ total (Tv 10 999999) > total (Tv 11 0)).
Proof. apply (time_cmp_order (Tv 10 999999) (Tv 11 0)); unfold norm; simpl; lia. Defined.

(** C37: Adding and subtracting times is exact in microseconds; subtraction gives a
    normalised time, addition one whose microseconds lie between 0 and 1000000
    and reach 1000000, which is not normalised, exactly when the two microsecond
    parts add up to one second (the carry test is [> 1000000]). *)
Theorem time_arith_exact t1 t2 :
  norm t1 → norm t2 → in_range t1 → in_range t2 →
  total (pth_time_add t1 t2) = total t1 + total t2 ∧
  total (pth_time_sub t1 t2) = total t1 - total t2 ∧
  norm (pth_time_sub t1 t2) ∧
  (norm (pth_time_add t1 t2) ↔ tv_usec t1 + tv_usec t2 ≠ 1000000) ∧
  0 ≤ tv_usec (pth_time_add t1 t2) ≤ 1000000.
Proof.
  intros H1 H2 R1 R2. destruct (pth_time_sub_exact t1 t2) as [Hn ->]; [done..|].
  rewrite pth_time_add_exact by done. unfold norm, total in *.
  destruct (Z.gtb_spec (tv_usec t1 + tv_usec t2) 1000000); simpl; lia.
Qed.

Lemma time_arith_exact_witness :
  let t1 := Tv 1 500000 in let t2 := Tv 1 500000 in
  total (pth_time_add t1 t2) = total t1 + total t2 ∧
  total (pth_time_sub t1 t2) = total t1 - total t2 ∧
  norm (pth_time_sub t1 t2) ∧
  (norm (pth_time_add t1 t2) ↔ tv_usec t1 + tv_usec t2 ≠ 1000000) ∧
  0 ≤ tv_usec (pth_time_add t1 t2) ≤ 1000000.
Proof.
  apply (time_arith_exact (Tv 1 500000) (Tv 1 500000)); unfold norm, in_range; simpl; lia.
Defined.

(** Multiplication and division agree with the microsecond value up to the
    truncation of the two quotients. *)
Lemma pth_time_mul_exact t n :
  norm t → in_range t → 0 ≤ n ≤ 1000000 →
  norm (pth_time_mul t n) ∧ total (pth_time_mul t n) = total t * n.
Proof.
  unfold norm, in_range, total, pth_time_mul. intros [Hu Hu'] Hr Hn.
  assert (0 ≤ tv_usec t * n ≤ 1000000 * 1000000) by nia.
  assert (-4611686018427 * 1000000 ≤ tv_sec t * n ≤ 4611686018427 * 1000000) by nia.
  no_wrap.
  rewrite Z.quot_div_nonneg, Z.rem_mod_nonneg by lia.
  pose proof (Z.mod_pos_bound (tv_usec t * n) 1000000).
  pose proof (Z.div_mod (tv_usec t * n) 1000000).
  assert (0 ≤ tv_usec t * n / 1000000 ≤ 1000000) by (split; [apply Z.div_pos|apply Z.div_le_upper_bound]; lia).
  rewrite s64_id by lia. simpl. lia.
Qed.

Lemma pth_time_div_exact t n :
  norm t → 0 ≤ tv_sec t ≤ 4611686018427 → 1 ≤ n ≤ 1000000 →
  ∃ d, pth_time_div t n = Some d ∧
       total t - 2 * n < total d * n ≤ total t ∧ 0 ≤ tv_usec d ≤ 1000000.
Proof.
  unfold norm, total, pth_time_div. intros [Hu Hu'] [Hr Hr'] Hn.
  rewrite (proj2 (Z.eqb_neq n 0)) by lia. eexists. split; [reflexivity|].
  rewrite (Z.quot_div_nonneg (tv_sec t)), (Z.quot_div_nonneg (tv_usec t)), Z.rem_mod_nonneg by lia.
  pose proof (Z.div_mod (tv_sec t) n ltac:(lia)). pose proof (Z.mod_pos_bound (tv_sec t) n ltac:(lia)).
  pose proof (Z.div_mod (tv_usec t) n ltac:(lia)). pose proof (Z.mod_pos_bound (tv_usec t) n ltac:(lia)).
  assert (0 ≤ tv_sec t / n ≤ tv_sec t) by (split; [apply Z.div_pos|apply Z.div_le_upper_bound]; nia).
  assert (0 ≤ tv_usec t / n ≤ tv_usec t) by (split; [apply Z.div_pos|apply Z.div_le_upper_bound]; nia).
  rewrite (s64_id (_ * 1000000)) by lia.
  rewrite Z.quot_div_nonneg by lia.
  set (m := tv_sec t mod n) in *.
  pose proof (Z.div_mod (m * 1000000) n ltac:(lia)). pose proof (Z.mod_pos_bound (m * 1000000) n ltac:(lia)).
  assert (0 ≤ m * 1000000 / n < 1000000) by (split; [apply Z.div_pos|apply Z.div_lt_upper_bound]; nia).
  no_wrap. destruct (Z.gtb_spec (m * 1000000 / n + tv_usec t / n) 1000000); simpl; no_wrap; nia.
Qed.
