(* ===== verification/Util.v ===== *)
(** * Utility functions (pth_util.c)

Byte strings are lists of character codes; a buffer is a list of the buffer's
length and an access beyond it is undefined ([None]).  A [fd_set] is a finite
set of descriptors; using a descriptor outside [0, FD_SETSIZE) with it is
undefined.  [None] stands for a [NULL] set pointer where a pointer is passed.
[pth_util_fd_valid] and [pth_util_sigdelete] call the kernel and are in State. *)
From S2P Require Import Prelude.

(** ** Copying strings *)

(** The loop of [pth_util_cpystrn]: [d] is the write position and [n] the number
    of steps left until [end]; the result is the buffer and the final position. *)
Fixpoint cpystrn_loop (n d : nat) (src dst : list Z) : option (list Z * nat) :=
  if decide (d < length dst)%nat then
    match n with
    | O => Some (<[d := 0]> dst, d)
    | S n' =>
        match src with
        | [] => None
        | c :: src' =>
            let dst' := <[d := c]> dst in
            if c =? 0 then Some (dst', d) else cpystrn_loop n' (S d) src' dst'
        end
    end
  else None.

Definition pth_util_cpystrn (dst src : list Z) (dst_size : nat) : option (list Z * nat) :=
  if decide (dst_size = 0%nat) then Some (dst, 0%nat) else cpystrn_loop (dst_size - 1) 0 src dst.

(** The string that a buffer holds: everything before the first NUL. *)
Fixpoint cstr (b : list Z) : list Z :=
  match b with
  | [] => []
  | c :: b' => if c =? 0 then [] else c :: cstr b'
  end.

Lemma cstr_app s rest : Forall (λ c, c ≠ 0) s → cstr (s ++ 0 :: rest) = s.
Proof.
  induction 1 as [|c s Hc Hs IH]; simpl; [done|].
  rewrite (proj2 (Z.eqb_neq c 0)) by done. by f_equal.
Qed.

Lemma insert_snoc_drop {A} (l : list A) d x :
  (d < length l)%nat → <[d := x]> l = take d l ++ x :: drop (S d) l.
Proof. intros. by apply insert_take_drop. Qed.

Lemma take_insert_snoc {A} (l : list A) d x :
  (d < length l)%nat → take (S d) (<[d := x]> l) = take d l ++ [x].
Proof.
  intros. rewrite insert_snoc_drop by done.
  rewrite take_app_ge by (rewrite length_take; lia).
  rewrite length_take, Nat.min_l by lia. replace (S d - d)%nat with 1%nat by lia. done.
Qed.

Lemma drop_insert_snoc {A} (l : list A) d x k :
  (d < k)%nat → drop k (<[d := x]> l) = drop k l.
Proof. intros. apply drop_insert_lt. lia. Qed.

Lemma cpystrn_loop_spec n d s rest dst :
  Forall (λ c, c ≠ 0) s → (d + n < length dst)%nat →
  let k := (n `min` length s)%nat in
  cpystrn_loop n d (s ++ 0 :: rest) dst =
    Some (take d dst ++ take k s ++ 0 :: drop (S (d + k)) dst, (d + k)%nat).
Proof.
  intros Hs. revert n d dst. induction Hs as [|c s Hc Hs IH]; intros n d dst Hlen.
  - destruct n; simpl; rewrite decide_True by lia; rewrite ?Nat.add_0_r, ?insert_snoc_drop by lia; done.
  - destruct n as [|n]; simpl; rewrite decide_True by lia.
    { rewrite Nat.add_0_r, insert_snoc_drop by lia. done. }
    rewrite (proj2 (Z.eqb_neq c 0)) by done. rewrite IH by (rewrite length_insert; lia).
    rewrite take_insert_snoc, drop_insert_snoc by lia. rewrite <- app_assoc. simpl.
    rewrite Nat.add_succ_r. done.
Qed.

(** [pth_util_cpystrn] copies like [strncpy] but always terminates the
    destination: given a NUL terminated source and a buffer of at least [dst_size]
    bytes, the buffer then holds the first [min(strlen(src), dst_size - 1)]
    characters followed by a NUL, the rest of the buffer is untouched, the
    position of the NUL is returned and nothing outside the buffer is accessed. *)
Theorem cpystrn_copies dst s rest dst_size :
  Forall (λ c, c ≠ 0) s → (0 < dst_size ≤ length dst)%nat →
  let k := ((dst_size - 1) `min` length s)%nat in
  ∃ b, pth_util_cpystrn dst (s ++ 0 :: rest) dst_size = Some (b, k) ∧
       cstr b = take k s ∧ length b = length dst ∧ drop (S k) b = drop (S k) dst.
Proof.
  intros Hs Hlen k. unfold pth_util_cpystrn. rewrite decide_False by lia.
  rewrite cpystrn_loop_spec by (done || lia). fold k. eexists. split; [reflexivity|].
  assert (length (take k s) = k) as Hk by (rewrite length_take; lia). simpl. split_and!.
  - apply cstr_app. by apply Forall_take.
  - rewrite length_app. simpl. rewrite length_drop. lia.
  - rewrite cons_middle, app_assoc. rewrite drop_app_length'; [done|].
    rewrite length_app. simpl. lia.
Qed.

Lemma cpystrn_copies_witness :
  ∃ b, pth_util_cpystrn [7; 7; 7; 7] ([104; 101; 108; 108; 111] ++ [0]) 4 = Some (b, 3%nat) ∧
       cstr b = [104; 101; 108] ∧ length b = 4%nat ∧ drop 4 b = drop 4 [7; 7; 7; 7].
Proof.
  apply (cpystrn_copies [7; 7; 7; 7] [104; 101; 108; 108; 111] [] 4).
  - repeat constructor; lia.
  - simpl. lia.
Defined.

(** ** File descriptor sets *)
Abbreviation fdset := (gset Z) (only parsing).
Definition FD_SETSIZE : Z := 1024.

Definition fd_ok (s : Z) : bool := (0 <=? s) && (s <? FD_SETSIZE).
Definition FD_ISSET (s : Z) (f : fdset) : option bool :=
  if fd_ok s then Some (bool_decide (s ∈ f)) else None.
Definition FD_SET (s : Z) (f : fdset) : option fdset :=
  if fd_ok s then Some ({[ s ]} ∪ f) else None.
Definition FD_CLR (s : Z) (f : fdset) : option fdset :=
  if fd_ok s then Some (f ∖ {[ s ]}) else None.

(** One set in the body of the loop of [pth_util_fds_merge]. *)
Definition fds_merge1 (s : Z) (i : option fdset) (o : fdset) : option fdset :=
  match i with
  | None => Some o
  | Some f => b ← FD_ISSET s f; if (b : bool) then FD_SET s o else Some o
  end.

(** The loops run over [s .. s + n - 1]; the functions start them at [s = 0]. *)
Fixpoint fds_merge_loop (n : nat) (s : Z) (i1 i2 i3 : option fdset) (o1 o2 o3 : fdset)
  : option (fdset * fdset * fdset) :=
  match n with
  | O => Some (o1, o2, o3)
  | S n' =>
      o1' ← fds_merge1 s i1 o1; o2' ← fds_merge1 s i2 o2; o3' ← fds_merge1 s i3 o3;
      fds_merge_loop n' (s + 1) i1 i2 i3 o1' o2' o3'
  end.
Definition pth_util_fds_merge (nfd : Z) (i1 : option fdset) (o1 : fdset)
    (i2 : option fdset) (o2 : fdset) (i3 : option fdset) (o3 : fdset)
  : option (fdset * fdset * fdset) :=
  fds_merge_loop (Z.to_nat nfd) 0 i1 i2 i3 o1 o2 o3.

Definition fds_test1 (s : Z) (i : option fdset) (o : fdset) : option bool :=
  match i with
  | None => Some false
  | Some f => b ← FD_ISSET s f; if (b : bool) then FD_ISSET s o else Some false
  end.
Fixpoint fds_test_loop (n : nat) (s : Z) (i1 i2 i3 : option fdset) (o1 o2 o3 : fdset) : option bool :=
  match n with
  | O => Some false
  | S n' =>
      b1 ← fds_test1 s i1 o1;
      if (b1 : bool) then Some true else
      b2 ← fds_test1 s i2 o2;
      if (b2 : bool) then Some true else
      b3 ← fds_test1 s i3 o3;
      if (b3 : bool) then Some true else fds_test_loop n' (s + 1) i1 i2 i3 o1 o2 o3
  end.
Definition pth_util_fds_test (nfd : Z) (i1 : option fdset) (o1 : fdset)
    (i2 : option fdset) (o2 : fdset) (i3 : option fdset) (o3 : fdset) : option bool :=
  fds_test_loop (Z.to_nat nfd) 0 i1 i2 i3 o1 o2 o3.

Definition fds_select1 (s : Z) (i : option fdset) (o : fdset) (n : Z) : option (option fdset * Z) :=
  match i with
  | None => Some (None, n)
  | Some f =>
      b ← FD_ISSET s f;
      if (b : bool) then
        c ← FD_ISSET s o;
        if (c : bool) then Some (Some f, n + 1) else f' ← FD_CLR s f; Some (Some f', n)
      else Some (Some f, n)
  end.
Fixpoint fds_select_loop (k : nat) (s : Z) (i1 i2 i3 : option fdset) (o1 o2 o3 : fdset) (n : Z)
  : option (option fdset * option fdset * option fdset * Z) :=
  match k with
  | O => Some (i1, i2, i3, n)
  | S k' =>
      '(i1', n1) ← fds_select1 s i1 o1 n;
      '(i2', n2) ← fds_select1 s i2 o2 n1;
      '(i3', n3) ← fds_select1 s i3 o3 n2;
      fds_select_loop k' (s + 1) i1' i2' i3' o1 o2 o3 n3
  end.
Definition pth_util_fds_select (nfd : Z) (i1 : option fdset) (o1 : fdset)
    (i2 : option fdset) (o2 : fdset) (i3 : option fdset) (o3 : fdset)
  : option (option fdset * option fdset * option fdset * Z) :=
  fds_select_loop (Z.to_nat nfd) 0 i1 i2 i3 o1 o2 o3 0.

(** *** What the loops compute *)

(** The descriptors of [f] below [n] from [s] on, that is in [s, s + n). *)
Definition window (s : Z) (n : nat) (f : fdset) : fdset :=
  filter (λ x, s ≤ x < s + Z.of_nat n) f.
Definition opt_set (i : option fdset) : fdset := default ∅ i.
(** The descriptors of an input set below [nfd] that are in the output set. *)
Definition hits (nfd : Z) (i : option fdset) (o : fdset) : fdset :=
  filter (λ x, 0 ≤ x < nfd) (opt_set i) ∩ o.

Lemma elem_of_window x s n f : x ∈ window s n f ↔ s ≤ x < s + Z.of_nat n ∧ x ∈ f.
Proof. unfold window. by rewrite elem_of_filter. Qed.

Lemma elem_of_hits x nfd i o : x ∈ hits nfd i o ↔ (0 ≤ x < nfd ∧ x ∈ opt_set i) ∧ x ∈ o.
Proof. unfold hits. by rewrite elem_of_intersection, elem_of_filter. Qed.

Lemma fd_ok_true s : 0 ≤ s < 1024 → fd_ok s = true.
Proof. intros. unfold fd_ok, FD_SETSIZE. rewrite andb_true_iff, Z.leb_le, Z.ltb_lt. lia. Qed.

Lemma FD_ISSET_ok s f : 0 ≤ s < 1024 → FD_ISSET s f = Some (bool_decide (s ∈ f)).
Proof. intros. unfold FD_ISSET. by rewrite fd_ok_true. Qed.

Lemma fds_merge1_ok s i o :
  0 ≤ s < 1024 → fds_merge1 s i o = Some (window s 1 (opt_set i) ∪ o).
Proof.
  intros Hs. destruct i as [f|]; simpl; f_equal.
  - rewrite FD_ISSET_ok by done. simpl. case_bool_decide; simpl; unfold FD_SET.
    + rewrite fd_ok_true by done. f_equal. apply leibniz_equiv. intros x.
      rewrite !elem_of_union, elem_of_window, elem_of_singleton. simpl. split; [|naive_solver lia].
      intros [->|?]; [left; split; [lia|done]|by right].
    + f_equal. apply leibniz_equiv. intros x. rewrite elem_of_union, elem_of_window.
      split; [naive_solver|]. intros [[? Hx]|?]; [|done]. assert (x = s) as -> by lia. done.
  - set_solver.
Qed.

Lemma window_split s n f : window s (S n) f = window s 1 f ∪ window (s + 1) n f.
Proof.
  apply leibniz_equiv. intros x. rewrite elem_of_union, !elem_of_window.
  split; [|naive_solver lia]. intros [? Hx].
  destruct (decide (x = s)); [left|right]; (split; [lia|done]).
Qed.

Lemma fds_merge_loop_ok n s i1 i2 i3 o1 o2 o3 :
  0 ≤ s → s + Z.of_nat n ≤ 1024 →
  fds_merge_loop n s i1 i2 i3 o1 o2 o3 =
    Some (window s n (opt_set i1) ∪ o1, window s n (opt_set i2) ∪ o2, window s n (opt_set i3) ∪ o3).
Proof.
  revert s o1 o2 o3. induction n as [|n IH]; intros s o1 o2 o3 Hs Hn.
  - assert (∀ f : fdset, window s 0 f = ∅) as Hw.
    { intros f. apply leibniz_equiv. intros x. rewrite elem_of_window. set_solver by lia. }
    simpl. by rewrite !Hw, !(left_id_L ∅ (∪)).
  - simpl. rewrite !fds_merge1_ok by lia. simpl. rewrite IH by lia.
    rewrite !(window_split s n), !(comm_L (∪) (window s 1 _) (window (s + 1) _ _)), !(assoc_L (∪)). done.
Qed.

Lemma fds_test1_ok s i o :
  0 ≤ s < 1024 → fds_test1 s i o = Some (bool_decide (s ∈ opt_set i ∩ o)).
Proof.
  intros Hs. destruct i as [f|]; simpl.
  - rewrite !FD_ISSET_ok by done. simpl. repeat case_bool_decide; set_solver.
  - f_equal. symmetry. apply bool_decide_eq_false. set_solver.
Qed.

Lemma fds_test_loop_ok n s i1 i2 i3 o1 o2 o3 :
  0 ≤ s → s + Z.of_nat n ≤ 1024 →
  ∃ b, fds_test_loop n s i1 i2 i3 o1 o2 o3 = Some b ∧
    (b = true ↔ ∃ x, s ≤ x < s + Z.of_nat n ∧
      (x ∈ opt_set i1 ∩ o1 ∨ x ∈ opt_set i2 ∩ o2 ∨ x ∈ opt_set i3 ∩ o3)).
Proof.
  revert s. induction n as [|n IH]; intros s Hs Hn.
  - exists false. split; [done|]. split; [done|]. intros (x & ? & _). lia.
  - simpl. rewrite !fds_test1_ok by lia. simpl.
    destruct (IH (s + 1)) as (b & Hb & Hiff); [lia..|].
    do 3 (case_bool_decide; simpl;
      [exists true; split; [done|]; split; [intros _; exists s; split; [lia|tauto]|done]|]).
    exists b. split; [done|]. rewrite Hiff. split; intros (x & Hx & Hor); exists x; (split; [|done]); [lia|].
    destruct (decide (x = s)) as [->|]; [naive_solver|lia].
Qed.

Lemma hits_nil nfd i o : nfd ≤ 0 → hits nfd i o = ∅.
Proof. intros. apply leibniz_equiv. intros x. rewrite elem_of_hits. set_solver by lia. Qed.

(** What one step of the selection does to an input set and to the count. *)
Definition keep (s : Z) (n : nat) (o f : fdset) : fdset :=
  filter (λ x, x ∈ o ∨ ¬ (s ≤ x < s + Z.of_nat n)) f.

Lemma elem_of_keep x s n o f : x ∈ keep s n o f ↔ (x ∈ o ∨ ¬ (s ≤ x < s + Z.of_nat n)) ∧ x ∈ f.
Proof. unfold keep. by rewrite elem_of_filter. Qed.

Lemma keep_step s n o f : keep (s + 1) n o (keep s 1 o f) = keep s (S n) o f.
Proof.
  apply leibniz_equiv. intros x. rewrite !elem_of_keep.
  destruct (decide (x ∈ o)); [naive_solver|]. split; [naive_solver lia|].
  intros [[?|Hx] ?]; [done|]. split_and!; [right; lia|right; lia|done].
Qed.

Lemma window_keep s n o f : window (s + 1) n (keep s 1 o f ∩ o) = window (s + 1) n (f ∩ o).
Proof.
  apply leibniz_equiv. intros x. rewrite !elem_of_window, !elem_of_intersection, elem_of_keep. naive_solver.
Qed.

Definition cnt (s : Z) (n : nat) (i : option fdset) (o : fdset) : Z :=
  Z.of_nat (size (window s n (opt_set i ∩ o))).

Lemma cnt_split s n i o : cnt s (S n) i o = cnt s 1 i o + cnt (s + 1) n i o.
Proof.
  unfold cnt. rewrite window_split, size_union; [lia|].
  intros x. rewrite !elem_of_window. lia.
Qed.

Lemma fds_select1_ok s i o n :
  0 ≤ s < 1024 → fds_select1 s i o n = Some (keep s 1 o <$> i, n + cnt s 1 i o).
Proof.
  intros Hs. destruct i as [f|]; simpl.
  - assert (∀ x, s ≤ x < s + 1 → x = s) as Hx by lia.
    rewrite !FD_ISSET_ok by done. simpl. unfold cnt, FD_CLR. rewrite fd_ok_true by done.
    assert (¬ (s ∈ f ∧ s ∈ o) → Z.of_nat (size (window s 1 (f ∩ o))) = 0) as H0.
    { intros Hn. replace (window s 1 (f ∩ o)) with (∅ : gset Z); [by rewrite size_empty|].
      apply leibniz_equiv. intros x. rewrite elem_of_window, elem_of_intersection. split; [set_solver|].
      intros (?%Hx & ?). naive_solver. }
    case_bool_decide as Hf; simpl; [case_bool_decide as Ho; simpl|]; f_equal; f_equal; try f_equal.
    + apply leibniz_equiv. intros x. rewrite elem_of_keep. simpl. split; [|naive_solver].
      intros Hxf. destruct (decide (x = s)) as [->|]; [tauto|]. split; [right; lia|done].
    + replace (window s 1 (f ∩ o)) with ({[ s ]} : gset Z); [by rewrite size_singleton|].
      apply leibniz_equiv. intros x. rewrite elem_of_window, elem_of_singleton, elem_of_intersection.
      split; [intros ->; split; [lia|done]|]. intros [? _]. auto.
    + apply leibniz_equiv. intros x. rewrite elem_of_keep, elem_of_difference, elem_of_singleton. simpl.
      split; [intros []; split; [right; lia|done]|]. intros [[?|?] ?]; [|split; [done|lia]].
      split; [done|]. intros ->. done.
    + rewrite H0; [lia|naive_solver].
    + apply leibniz_equiv. intros x. rewrite elem_of_keep. simpl. split; [|naive_solver].
      intros Hxf. split; [|done]. right. intros ->%Hx. done.
    + rewrite H0; [lia|naive_solver].
  - unfold cnt. simpl. rewrite (left_absorb_L ∅ (∩)). replace (window s 1 ∅) with (∅ : gset Z) by set_solver.
    rewrite size_empty. by rewrite Z.add_0_r.
Qed.

Lemma cnt_keep s n i o : cnt (s + 1) n (keep s 1 o <$> i) o = cnt (s + 1) n i o.
Proof. unfold cnt. destruct i as [f|]; simpl; [by rewrite window_keep|done]. Qed.

Lemma fds_select_loop_ok k s i1 i2 i3 o1 o2 o3 n :
  0 ≤ s → s + Z.of_nat k ≤ 1024 →
  fds_select_loop k s i1 i2 i3 o1 o2 o3 n =
    Some (keep s k o1 <$> i1, keep s k o2 <$> i2, keep s k o3 <$> i3,
          n + cnt s k i1 o1 + cnt s k i2 o2 + cnt s k i3 o3).
Proof.
  revert s i1 i2 i3 n. induction k as [|k IH]; intros s i1 i2 i3 n Hs Hk.
  - assert (∀ o (i : option fdset), keep s 0 o <$> i = i) as Hi.
    { intros o [f|]; simpl; f_equal. apply leibniz_equiv. intros x. rewrite elem_of_keep.
      split; [naive_solver|]. intros. split; [right; lia|done]. }
    assert (∀ i o, cnt s 0 i o = 0) as Hc.
    { intros i o. unfold cnt. replace (window s 0 _) with (∅ : gset Z); [by rewrite size_empty|].
      apply leibniz_equiv. intros x. rewrite elem_of_window. set_solver by lia. }
    simpl. rewrite !Hi, !Hc, !Z.add_0_r. done.
  - simpl. rewrite fds_select1_ok by lia. simpl. rewrite fds_select1_ok by lia. simpl.
    rewrite fds_select1_ok by lia. simpl. rewrite IH by lia. rewrite !cnt_keep, !(cnt_split s k).
    assert (∀ o (i : option fdset), keep (s + 1) k o <$> (keep s 1 o <$> i) = keep s (S k) o <$> i) as Hi.
    { intros o [f|]; simpl; f_equal. apply keep_step. }
    rewrite !Hi. f_equal. f_equal. lia.
Qed.

Lemma window_hits nfd i o : 0 ≤ nfd → window 0 (Z.to_nat nfd) (opt_set i ∩ o) = hits nfd i o.
Proof.
  intros. apply leibniz_equiv. intros x.
  rewrite elem_of_window, elem_of_hits, elem_of_intersection, Z2Nat.id by done. simpl. tauto.
Qed.

(** C36: The three descriptor set helpers compute what the event manager needs, for
    any [0 <= nfd <= FD_SETSIZE] and with [NULL] input sets ignored: merging adds
    the input descriptors below [nfd] to the output sets; the test says whether
    some input descriptor below [nfd] is in its output set; selecting removes
    exactly the input descriptors below [nfd] that are not in the output set and
    returns how many below [nfd] remain, one in two sets counting twice. *)
Theorem fds_helpers nfd i1 o1 i2 o2 i3 o3 :
  0 ≤ nfd ≤ FD_SETSIZE →
  pth_util_fds_merge nfd i1 o1 i2 o2 i3 o3 =
    Some (filter (λ x, 0 ≤ x < nfd) (opt_set i1) ∪ o1,
          filter (λ x, 0 ≤ x < nfd) (opt_set i2) ∪ o2,
          filter (λ x, 0 ≤ x < nfd) (opt_set i3) ∪ o3) ∧
  pth_util_fds_test nfd i1 o1 i2 o2 i3 o3 =
    Some (bool_decide (hits nfd i1 o1 ∪ hits nfd i2 o2 ∪ hits nfd i3 o3 ≠ ∅)) ∧
  pth_util_fds_select nfd i1 o1 i2 o2 i3 o3 =
    Some (filter (λ x, x ∈ o1 ∨ ¬ (0 ≤ x < nfd)) <$> i1,
          filter (λ x, x ∈ o2 ∨ ¬ (0 ≤ x < nfd)) <$> i2,
          filter (λ x, x ∈ o3 ∨ ¬ (0 ≤ x < nfd)) <$> i3,
          Z.of_nat (size (hits nfd i1 o1) + size (hits nfd i2 o2) + size (hits nfd i3 o3))).
Proof.
  unfold FD_SETSIZE. intros Hn. split_and!.
  - unfold pth_util_fds_merge. rewrite fds_merge_loop_ok by lia. unfold window.
    by rewrite Z.add_0_l, Z2Nat.id by lia.
  - unfold pth_util_fds_test.
    destruct (fds_test_loop_ok (Z.to_nat nfd) 0 i1 i2 i3 o1 o2 o3) as (b & -> & Hb); [lia..|].
    f_equal. apply eq_bool_prop_intro. rewrite bool_decide_spec, Is_true_true, Hb, Z.add_0_l, Z2Nat.id by lia.
    setoid_rewrite elem_of_intersection. split.
    + intros (x & Hx & Hor). intros He. apply (not_elem_of_empty (C:=gset Z) x). rewrite <- He.
      rewrite !elem_of_union, !elem_of_hits. tauto.
    + intros (x & Hx)%set_choose_L. exists x. rewrite !elem_of_union, !elem_of_hits in Hx. tauto.
  - unfold pth_util_fds_select. rewrite fds_select_loop_ok by lia. unfold cnt.
    rewrite !window_hits, !Nat2Z.inj_add by lia. unfold keep. rewrite Z.add_0_l, Z2Nat.id by lia. done.
Qed.

Lemma fds_helpers_witness :
  pth_util_fds_select 3 (Some {[1; 2; 5]}) {[1; 5]} None {[2]} (Some {[1]}) {[1]} =
    Some (Some {[1; 5]}, None, Some {[1]}, 2).
Proof.
  etrans; [apply (fds_helpers 3 (Some {[1; 2; 5]}) {[1; 5]} None {[2]} (Some {[1]}) {[1]})|].
  - unfold FD_SETSIZE. lia.
  - vm_compute. reflexivity.
Defined.
