(* ===== verification/Str.v ===== *)
(** * Formatted output (pth_string.c)

The output state is the caller's buffer (or [NULL]), the count of characters
produced so far and the buffer size; a write beyond the buffer is undefined.  The
member [o_trace] is specification only: the characters that were handed to
[dopr_outch].  Formats and strings are lists of character codes ending in NUL;
reading past the end of the list is undefined.  [long double] arithmetic is that
of the 80-bit format of x86-64. *)
From Stdlib Require Import SpecFloat.
From S2P Require Import Prelude.

(** Flag bits and conversion flags. *)
Definition DP_F_MINUS : Z := BIT 0.
Definition DP_F_PLUS : Z := BIT 1.
Definition DP_F_SPACE : Z := BIT 2.
Definition DP_F_NUM : Z := BIT 3.
Definition DP_F_ZERO : Z := BIT 4.
Definition DP_F_UP : Z := BIT 5.
Definition DP_F_UNSIGNED : Z := BIT 6.
Inductive conv := C_NONE | DP_C_SHORT | DP_C_LONG | DP_C_LDOUBLE | DP_C_LLONG.
Inductive dp_state :=
  | DP_S_DEFAULT | DP_S_FLAGS | DP_S_MIN | DP_S_DOT | DP_S_MAX | DP_S_MOD | DP_S_CONV | DP_S_DONE.

(** Arguments, with the type that [va_arg] has to ask for. *)
Inductive arg :=
  | AInt32 (z : Z) | ALong (z : Z) | ALlong (z : Z) | ADouble (f : spec_float) | ALdouble (f : spec_float)
  | AString (s : option (list Z)) | APointer (p : N) | ANum (p : N).

Record obuf := Obuf {
  o_buf : option (list Z); o_len : Z; o_max : Z; o_stores : list (N * Z); o_trace : list Z }.

Definition size_t (z : Z) : Z := u64 z.

Definition dopr_outch (c : Z) : M obuf unit := λ o,
  let o' b := Some (tt, Obuf b (size_t (o_len o + 1)) (o_max o) (o_stores o) (o_trace o ++ [c mod 256])) in
  if o_len o <? o_max o then
    match o_buf o with
    | None => o' None
    | Some b =>
        if decide (Z.to_nat (o_len o) < length b)%nat then o' (Some (<[Z.to_nat (o_len o) := c mod 256]> b)) else None
    end
  else o' (o_buf o).

(** [while (n > 0) { dopr_outch(.., c); --n; }] *)
Fixpoint out_rep (n : nat) (c : Z) : M obuf unit :=
  match n with O => ret tt | S n' => dopr_outch c ;; out_rep n' c end.
Fixpoint out_list (l : list Z) : M obuf unit :=
  match l with [] => ret tt | c :: l' => dopr_outch c ;; out_list l' end.

(** ** Strings *)

(** [while ((padlen > 0) && (cnt < max))] *)
Fixpoint pad_loop (n : nat) (cnt max : Z) : M obuf Z :=
  match n with
  | O => ret cnt
  | S n' => if cnt <? max then dopr_outch 32 ;; pad_loop n' (cnt + 1) max else ret cnt
  end.
(** [while ( *value && (cnt < max))] *)
Fixpoint copy_loop (v : list Z) (cnt max : Z) : M obuf Z :=
  match v with
  | [] => ub
  | c :: v' => if negb (c =? 0) && (cnt <? max) then dopr_outch c ;; copy_loop v' (cnt + 1) max else ret cnt
  end.
Fixpoint strlen (v : list Z) : option Z :=
  match v with
  | [] => None
  | c :: v' => if c =? 0 then Some 0 else n ← strlen v'; Some (n + 1)
  end.
(** ["<NULL>"] *)
Definition str_null : list Z := [60; 78; 85; 76; 76; 62; 0].

Definition fmtstr (value : option (list Z)) (flags min max : Z) : M obuf unit :=
  let value := default str_null value in
  do n <- lift_opt (strlen value);
  do strln <- int_chk n;
  do padlen <- int_chk (min - strln);
  let padlen := if padlen <? 0 then 0 else padlen in
  let left := has flags DP_F_MINUS in
  do cnt <- pad_loop (if left then 0%nat else Z.to_nat padlen) 0 max;
  do cnt <- copy_loop value cnt max;
  do _ <- pad_loop (if left then Z.to_nat padlen else 0%nat) cnt max;
  ret tt.

(** ** Integers *)

(** [(caps ? "0123456789ABCDEF" : "0123456789abcdef")[d]] *)
Definition digit (caps : bool) (d : Z) : Z := if d <? 10 then 48 + d else (if caps then 55 else 87) + d.

(** The [do .. while (uvalue && place < 20)] loop: digits, least significant first. *)
Fixpoint convert_loop (n : nat) (caps : bool) (base u : Z) : list Z :=
  match n with
  | O => []
  | S n' =>
      digit caps (u mod base) :: (if u / base =? 0 then [] else convert_loop n' caps base (u / base))
  end.
(** [if (place == 20) place--;] *)
Definition convert (caps : bool) (base u : Z) : list Z :=
  let l := convert_loop 20 caps base u in
  if decide (length l = 20%nat) then take 19 l else l.

Definition sign_char (negative : bool) (flags : Z) : Z :=
  if negative then 45 else if has flags DP_F_PLUS then 43 else if has flags DP_F_SPACE then 32 else 0.

(** The output of the digits with padding and sign. *)
Definition emit_int (sign : Z) (digits : list Z) (min max flags : Z) : M obuf unit :=
  let place := Z.of_nat (length digits) in
  do zpadlen <- int_chk (max - place);
  do d <- int_chk (min - (if place <=? max then max else place));
  do spadlen <- int_chk (d - (if sign =? 0 then 0 else 1));
  let zpadlen := if zpadlen <? 0 then 0 else zpadlen in
  let spadlen := if spadlen <? 0 then 0 else spadlen in
  let zero := has flags DP_F_ZERO in
  let left := has flags DP_F_MINUS in
  let zpadlen' := if zero then (if spadlen <=? zpadlen then zpadlen else spadlen) else zpadlen in
  let spadlen' := if zero then 0 else spadlen in
  (if left then ret tt else out_rep (Z.to_nat spadlen') 32) ;;
  (if sign =? 0 then ret tt else dopr_outch sign) ;;
  out_rep (Z.to_nat zpadlen') 48 ;;
  out_list (rev digits) ;;
  (if left then out_rep (Z.to_nat spadlen') 32 else ret tt).

Definition LLONG_MIN : Z := -9223372036854775808.

Definition fmtint (value base min max flags : Z) : M obuf unit :=
  let max := if max <? 0 then 0 else max in
  let unsigned := has flags DP_F_UNSIGNED in
  if negb unsigned && (value =? LLONG_MIN) then ub else
  let negative := negb unsigned && (value <? 0) in
  let uvalue := if negative then u64 (- value) else u64 value in
  let sign := if unsigned then 0 else sign_char negative flags in
  emit_int sign (convert (has flags DP_F_UP) base uvalue) min max flags.

(** ** Floating point *)
Definition LD_prec : Z := 64.
Definition LD_emax : Z := 16384.
Definition ld_of_Z (z : Z) : spec_float := binary_normalize LD_prec LD_emax z 0 false.
Definition ld_zero : spec_float := S754_zero false.
Definition ld_lt (x y : spec_float) : bool := match SFcompare x y with Some Lt => true | _ => false end.
Definition ld_ge (x y : spec_float) : bool := match SFcompare x y with Some Gt | Some Eq => true | _ => false end.
(** [(long)x]: truncation; undefined when the value does not fit. *)
Definition ld_to_long (x : spec_float) : option Z :=
  let chk z := if (LLONG_MIN <=? z) && (z <=? 9223372036854775807) then Some z else None in
  match x with
  | S754_zero _ => Some 0
  | S754_finite s m e =>
      let v := if 0 <=? e then Z.pos m * 2 ^ e else Z.pos m / 2 ^ (- e) in chk (if s then - v else v)
  | _ => None
  end.

Definition math_abs (x : spec_float) : spec_float := if ld_lt x ld_zero then SFopp x else x.
Fixpoint math_pow10 (n : nat) : spec_float :=
  match n with
  | O => ld_of_Z 1
  | S n' => SFmul LD_prec LD_emax (math_pow10 n') (ld_of_Z 10)
  end.
Definition math_round (x : spec_float) : option Z :=
  i ← ld_to_long x;
  Some (if ld_ge (SFsub LD_prec LD_emax x (ld_of_Z i)) (S754_finite false 1 (-1)) then i + 1 else i).

(** The integral and the scaled fractional part for [max] decimal places. *)
Definition fp_parts (ufvalue : spec_float) (max : nat) : option (Z * Z) :=
  intpart ← ld_to_long ufvalue;
  fracpart ← math_round (SFmul LD_prec LD_emax (math_pow10 max) (SFsub LD_prec LD_emax ufvalue (ld_of_Z intpart)));
  if ld_ge (ld_of_Z fracpart) (math_pow10 max) then
    f ← ld_to_long (SFsub LD_prec LD_emax (ld_of_Z fracpart) (math_pow10 max));
    Some (intpart + 1, f)
  else Some (intpart, fracpart).

Definition fmtfp (fvalue : spec_float) (min max flags : Z) : M obuf unit :=
  let max := if max <? 0 then 6 else max in
  let sign := sign_char (ld_lt fvalue ld_zero) flags in
  let max := if 9 <? max then 9 else max in
  do (intpart, fracpart) <- lift_opt (fp_parts (math_abs fvalue) (Z.to_nat max));
  let ic := convert false 10 intpart in
  let fc := convert false 10 fracpart in
  do padlen <- int_chk (min - Z.of_nat (length ic) - max - 1 - (if sign =? 0 then 0 else 1));
  let zpadlen := max - Z.of_nat (length fc) in
  let zpadlen := if zpadlen <? 0 then 0 else zpadlen in
  let padlen := if padlen <? 0 then 0 else padlen in
  let left := has flags DP_F_MINUS in
  let early := has flags DP_F_ZERO && negb left && (0 <? padlen) in
  (if early then
     (if sign =? 0 then out_rep (Z.to_nat padlen) 48
      else dopr_outch sign ;; out_rep (Z.to_nat (padlen - 1)) 48)
   else
     (if left then ret tt else out_rep (Z.to_nat padlen) 32) ;;
     (if sign =? 0 then ret tt else dopr_outch sign)) ;;
  out_list (rev ic) ;;
  (if 0 <? max then dopr_outch 46 ;; out_list (rev fc) else ret tt) ;;
  out_rep (Z.to_nat zpadlen) 48 ;;
  (if left then out_rep (Z.to_nat padlen) 32 else ret tt).

(** ** The format interpreter *)

(** The local variables of [dopr]; [d_fmt] is what [format] points to. *)
Record dopr_st := Dopr {
  d_ch : Z; d_fmt : list Z; d_args : list arg; d_state : dp_state;
  d_flags : Z; d_cflags : conv; d_min : Z; d_max : Z }.

Definition next_ch (d : dopr_st) (x : dp_state) : M obuf dopr_st :=
  lift_opt (match d_fmt d with
            | [] => None
            | c :: f => Some (Dopr c f (d_args d) x (d_flags d) (d_cflags d) (d_min d) (d_max d))
            end).
Definition goto (d : dopr_st) (x : dp_state) : dopr_st :=
  Dopr (d_ch d) (d_fmt d) (d_args d) x (d_flags d) (d_cflags d) (d_min d) (d_max d).
Definition with_flags (d : dopr_st) (f : Z) : dopr_st :=
  Dopr (d_ch d) (d_fmt d) (d_args d) (d_state d) (Z.lor (d_flags d) f) (d_cflags d) (d_min d) (d_max d).
Definition with_cflags (d : dopr_st) (c : conv) : dopr_st :=
  Dopr (d_ch d) (d_fmt d) (d_args d) (d_state d) (d_flags d) c (d_min d) (d_max d).
Definition with_min (d : dopr_st) (z : Z) : dopr_st :=
  Dopr (d_ch d) (d_fmt d) (d_args d) (d_state d) (d_flags d) (d_cflags d) z (d_max d).
Definition with_max (d : dopr_st) (z : Z) : dopr_st :=
  Dopr (d_ch d) (d_fmt d) (d_args d) (d_state d) (d_flags d) (d_cflags d) (d_min d) z.
Definition with_args (d : dopr_st) (a : list arg) : dopr_st :=
  Dopr (d_ch d) (d_fmt d) a (d_state d) (d_flags d) (d_cflags d) (d_min d) (d_max d).

Definition isdigit (c : Z) : bool := (48 <=? c) && (c <=? 57).

Definition arg_int (a : list arg) : option (Z * list arg) :=
  match a with AInt32 z :: a' => Some (z, a') | _ => None end.
Definition arg_long (a : list arg) : option (Z * list arg) :=
  match a with ALong z :: a' => Some (z, a') | _ => None end.
Definition arg_llong (a : list arg) : option (Z * list arg) :=
  match a with ALlong z :: a' => Some (z, a') | _ => None end.
Definition arg_fp (c : conv) (a : list arg) : option (spec_float * list arg) :=
  match c, a with
  | DP_C_LDOUBLE, ALdouble f :: a' => Some (f, a')
  | DP_C_LDOUBLE, _ => None
  | _, ADouble f :: a' => Some (f, a')
  | _, _ => None
  end.

(** The value of a signed and of an unsigned integer conversion. *)
Definition signed_arg (c : conv) (a : list arg) : option (Z * list arg) :=
  match c with
  | DP_C_SHORT => '(z, a) ← arg_int a; Some (s16 z, a)
  | DP_C_LONG => '(z, a) ← arg_long a; Some (s64 z, a)
  | DP_C_LLONG => '(z, a) ← arg_llong a; Some (s64 z, a)
  | _ => '(z, a) ← arg_int a; Some (s32 z, a)
  end.
Definition unsigned_arg (c : conv) (a : list arg) : option (Z * list arg) :=
  match c with
  | DP_C_SHORT => '(z, a) ← arg_int a; Some (z mod 65536, a)
  | DP_C_LONG => '(z, a) ← arg_long a; Some (s64 z, a)
  | DP_C_LLONG => '(z, a) ← arg_llong a; Some (s64 z, a)
  | _ => '(z, a) ← arg_int a; Some (u32 z, a)
  end.

(** [*num = currlen] through a pointer of the given width *)
Definition store_num (c : conv) (a : list arg) : M obuf (list arg) := λ o,
  match a with
  | ANum p :: a' =>
      let v := match c with
               | DP_C_SHORT => s16 (o_len o)
               | DP_C_LONG | DP_C_LLONG => s64 (o_len o)
               | _ => s32 (o_len o)
               end in
      Some (a', Obuf (o_buf o) (o_len o) (o_max o) ((p, v) :: o_stores o) (o_trace o))
  | _ => None
  end.

(** The [switch (ch)] of [DP_S_CONV]. *)
Definition conversion (d : dopr_st) : M obuf dopr_st :=
  let ch := d_ch d in
  let unsigned (d : dopr_st) (base : Z) :=
    let d := with_flags d DP_F_UNSIGNED in
    do (v, a) <- lift_opt (unsigned_arg (d_cflags d) (d_args d));
    fmtint v base (d_min d) (d_max d) (d_flags d) ;; ret (with_args d a) in
  let skip_fp (d : dopr_st) :=
    do (_, a) <- lift_opt (arg_fp (d_cflags d) (d_args d)); ret (with_args d a) in
  if (ch =? 100) || (ch =? 105) then                                       (* d i *)
    do (v, a) <- lift_opt (signed_arg (d_cflags d) (d_args d));
    fmtint v 10 (d_min d) (d_max d) (d_flags d) ;; ret (with_args d a)
  else if ch =? 88 then unsigned (with_flags d DP_F_UP) 16                  (* X *)
  else if ch =? 120 then unsigned d 16                                      (* x *)
  else if ch =? 111 then unsigned d 8                                       (* o *)
  else if ch =? 117 then unsigned d 10                                      (* u *)
  else if ch =? 102 then                                                    (* f *)
    do (f, a) <- lift_opt (arg_fp (d_cflags d) (d_args d));
    fmtfp f (d_min d) (d_max d) (d_flags d) ;; ret (with_args d a)
  else if ch =? 69 then skip_fp (with_flags d DP_F_UP)                      (* E *)
  else if ch =? 101 then skip_fp d                                          (* e *)
  else if ch =? 71 then skip_fp (with_flags d DP_F_UP)                      (* G *)
  else if ch =? 103 then skip_fp d                                          (* g *)
  else if ch =? 99 then                                                     (* c *)
    do (v, a) <- lift_opt (arg_int (d_args d));
    dopr_outch v ;; ret (with_args d a)
  else if ch =? 115 then                                                    (* s *)
    match d_args d with
    | AString v :: a =>
        fmtstr v (d_flags d) (d_min d) (if d_max d <? 0 then INT_MAX else d_max d) ;; ret (with_args d a)
    | _ => ub
    end
  else if ch =? 112 then                                                    (* p *)
    match d_args d with
    | APointer p :: a => fmtint (s64 (Z.of_N p)) 16 (d_min d) (d_max d) (d_flags d) ;; ret (with_args d a)
    | _ => ub
    end
  else if ch =? 110 then                                                    (* n *)
    do a <- store_num (d_cflags d) (d_args d); ret (with_args d a)
  else if ch =? 37 then dopr_outch ch ;; ret d                              (* % *)
  else if ch =? 119 then next_ch d DP_S_CONV                                (* w *)
  else ret d.

(** One turn of [while (state != DP_S_DONE)] once [ch] is known not to be NUL. *)
Definition dopr_step (d : dopr_st) : M obuf dopr_st :=
  let ch := d_ch d in
  match d_state d with
  | DP_S_DEFAULT =>
      if ch =? 37 then next_ch d DP_S_FLAGS else dopr_outch ch ;; next_ch d DP_S_DEFAULT
  | DP_S_FLAGS =>
      if ch =? 45 then next_ch (with_flags d DP_F_MINUS) DP_S_FLAGS
      else if ch =? 43 then next_ch (with_flags d DP_F_PLUS) DP_S_FLAGS
      else if ch =? 32 then next_ch (with_flags d DP_F_SPACE) DP_S_FLAGS
      else if ch =? 35 then next_ch (with_flags d DP_F_NUM) DP_S_FLAGS
      else if ch =? 48 then next_ch (with_flags d DP_F_ZERO) DP_S_FLAGS
      else ret (goto d DP_S_MIN)
  | DP_S_MIN =>
      if isdigit ch then do m <- int_chk (10 * d_min d + (ch - 48)); next_ch (with_min d m) DP_S_MIN
      else if ch =? 42 then
        do (m, a) <- lift_opt (arg_int (d_args d)); next_ch (with_args (with_min d (s32 m)) a) DP_S_DOT
      else ret (goto d DP_S_DOT)
  | DP_S_DOT => if ch =? 46 then next_ch d DP_S_MAX else ret (goto d DP_S_MOD)
  | DP_S_MAX =>
      if isdigit ch then
        do m <- int_chk (10 * (if d_max d <? 0 then 0 else d_max d) + (ch - 48)); next_ch (with_max d m) DP_S_MAX
      else if ch =? 42 then
        do (m, a) <- lift_opt (arg_int (d_args d)); next_ch (with_args (with_max d (s32 m)) a) DP_S_MOD
      else ret (goto d DP_S_MOD)
  | DP_S_MOD =>
      if ch =? 104 then next_ch (with_cflags d DP_C_SHORT) DP_S_CONV                   (* h *)
      else if ch =? 108 then                                                           (* l *)
        do c <- lift_opt (head (d_fmt d));
        if c =? 108 then do d <- next_ch (with_cflags d DP_C_LLONG) DP_S_CONV; next_ch d DP_S_CONV
        else next_ch (with_cflags d DP_C_LONG) DP_S_CONV
      else if ch =? 113 then next_ch (with_cflags d DP_C_LLONG) DP_S_CONV              (* q *)
      else if ch =? 76 then next_ch (with_cflags d DP_C_LDOUBLE) DP_S_CONV             (* L *)
      else ret (goto d DP_S_CONV)
  | DP_S_CONV =>
      do d <- conversion d;
      do d <- next_ch d DP_S_DEFAULT;
      ret (Dopr (d_ch d) (d_fmt d) (d_args d) DP_S_DEFAULT 0 C_NONE 0 (-1))
  | DP_S_DONE => ret d
  end.

(** The loop; the result is what is left of the arguments. *)
Fixpoint dopr_loop (fuel : nat) (d : dopr_st) : M obuf (list arg) :=
  match fuel with
  | O => ub
  | S fuel' => if d_ch d =? 0 then ret (d_args d) else do d <- dopr_step d; dopr_loop fuel' d
  end.

(** After the loop: clamp the length, terminate the buffer, return the length. *)
Definition dopr_finish : M obuf Z := λ o,
  let last := size_t (o_max o - 1) in
  let len := if last <=? o_len o then last else o_len o in
  match o_buf o with
  | None => Some (len, Obuf None len (o_max o) (o_stores o) (o_trace o))
  | Some b =>
      if decide (Z.to_nat len < length b)%nat
      then Some (len, Obuf (Some (<[Z.to_nat len := 0]> b)) len (o_max o) (o_stores o) (o_trace o)) else None
  end.

(** At most seven turns are taken per character of the format. *)
Definition dopr_fuel (format : list Z) : nat := (8 * S (length format))%nat.

(** The returned length and the arguments that were not consumed. *)
Definition dopr (format : list Z) (args : list arg) : M obuf (Z * list arg) :=
  match format with
  | [] => ub
  | ch :: f =>
      do rest <- dopr_loop (dopr_fuel format) (Dopr ch f args DP_S_DEFAULT 0 C_NONE 0 (-1));
      do len <- dopr_finish;
      ret (len, rest)
  end.

(** What [pth_vsnprintf] leaves: the returned length, the buffer, the [%n] stores
    and the arguments still to be consumed from [args]. *)
Record printed := Printed {
  p_len : Z; p_buf : option (list Z); p_stores : list (N * Z); p_args : list arg }.

Definition pth_vsnprintf (str : option (list Z)) (count : Z) (fmt : list Z) (args : list arg) : option printed :=
  str ← (match str with
         | None => Some None
         | Some [] => None
         | Some (_ :: b) => Some (Some (0 :: b))
         end);
  '(n, rest, o) ← dopr fmt args (Obuf str 0 (size_t count) [] []);
  Some (Printed (s32 n) (o_buf o) (o_stores o) rest).
Definition pth_snprintf (str : option (list Z)) (count : Z) (fmt : list Z) (args : list arg)
  : option printed := pth_vsnprintf str count fmt args.

(** [pth_vasprintf]: the formatted string in a buffer of its own size, [None] inside
    when [malloc] fails.  The [va_list] is used a second time after the first pass
    has consumed arguments from it, which is undefined. *)
Definition pth_vasprintf (malloc_ok : bool) (fmt : list Z) (args : list arg) : option (option (list Z)) :=
  p ← pth_vsnprintf None (-1) fmt args;
  if negb malloc_ok then Some None else
  let n := p_len p in
  if n + 1 <=? 0 then None else
  if negb (length (p_args p) =? length args)%nat then None else
  p' ← pth_vsnprintf (Some (replicate (Z.to_nat (n + 1)) 0)) (n + 1) fmt args;
  Some (p_buf p').
Definition pth_asprintf (malloc_ok : bool) (fmt : list Z) (args : list arg) : option (option (list Z)) :=
  pth_vasprintf malloc_ok fmt args.
