(* ===== verification/Printf.v ===== *)
(** * What formatted output guarantees

Printing into a buffer of any size stores the same characters as printing
without one, cut off at the size ([snprintf_truncates]); the interpreter of the
format always stops ([dopr_terminates]); the digits of a number can be read back
([convert_decode]). *)
From S2P Require Import Prelude Str.

(** ** A buffer only cuts off *)

(** One character into a buffer of size [max] at the current position. *)
Definition put_ch (max : Z) (ib : Z * list Z) (c : Z) : Z * list Z :=
  (size_t (ib.1 + 1), if ib.1 <? max then <[Z.to_nat ib.1 := c]> ib.2 else ib.2).

(** [o1] prints into a buffer that was [b0], [o2] prints without one. *)
Definition same_out (max : Z) (b0 : list Z) (o1 o2 : obuf) : Prop :=
  o_len o1 = o_len o2 ∧ o_stores o1 = o_stores o2 ∧ o_trace o1 = o_trace o2 ∧
  o_max o1 = max ∧ o_buf o2 = None ∧
  ∃ b, o_buf o1 = Some b ∧ length b = length b0 ∧ 0 ≤ o_len o1 ∧
       (o_len o1, b) = foldl (put_ch max) (0, b0) (o_trace o1).

(** Two runs that agree, or are both undefined. *)
Definition sim {A} (max : Z) (b0 : list Z) (m : M obuf A) : Prop :=
  ∀ o1 o2, same_out max b0 o1 o2 →
    match m o1, m o2 with
    | Some (a1, o1'), Some (a2, o2') => a1 = a2 ∧ same_out max b0 o1' o2'
    | None, None => True
    | _, _ => False
    end.

Section sim.
Context (max : Z) (b0 : list Z) (Hmax : max ≤ Z.of_nat (length b0)).
Abbreviation sim := (sim max b0).

Lemma sim_ret {A} (a : A) : sim (ret a).
Proof. by intros o1 o2 H. Qed.

Lemma sim_ub {A} : sim (ub : M obuf A).
Proof. done. Qed.

Lemma sim_bind {A B} (m : M obuf A) (k : A → M obuf B) : sim m → (∀ a, sim (k a)) → sim (bind m k).
Proof.
  intros Hm Hk o1 o2 Ho. specialize (Hm o1 o2 Ho). unfold bind.
  destruct (m o1) as [[a1 o1']|], (m o2) as [[a2 o2']|]; try done. destruct Hm as [-> Ho']. by apply Hk.
Qed.

Lemma sim_lift_opt {A} (x : option A) : sim (lift_opt x).
Proof. destruct x; [apply sim_ret|done]. Qed.

Lemma sim_int_chk z : sim (int_chk z).
Proof. unfold int_chk. destruct (int_ok z); [apply sim_ret|done]. Qed.

Lemma sim_outch c : sim (dopr_outch c).
Proof.
  intros o1 o2 (Hl & Hs & Ht & Hm & Hb2 & b & Hb1 & Hlen & Hpos & Hf). unfold dopr_outch.
  assert (∀ b', length b' = length b0 → b' = (if o_len o1 <? max then <[Z.to_nat (o_len o1) := c mod 256]> b else b) →
    same_out max b0 (Obuf (Some b') (size_t (o_len o1 + 1)) max (o_stores o1) (o_trace o1 ++ [c mod 256]))
      (Obuf None (size_t (o_len o2 + 1)) (o_max o2) (o_stores o2) (o_trace o2 ++ [c mod 256]))) as Hok.
  { intros b' Hb' ->. unfold same_out. simpl. rewrite <- Hl, <- Hs, <- Ht. split_and!; [done..|].
    eexists. split_and!; [done|done|unfold size_t, u64; apply Z.mod_pos_bound; lia|].
    rewrite foldl_app, <- Hf. done. }
  rewrite Hb2, Hb1, Hm.
  destruct (o_len o2 <? o_max o2), (Z.ltb_spec (o_len o1) max); try rewrite decide_True by lia;
    split; try done; apply Hok; rewrite ?length_insert; done.
Qed.

(** Programs built from these. *)
Ltac sim_tac :=
  repeat first
    [ apply sim_ret | apply sim_ub | apply sim_lift_opt | apply sim_int_chk | apply sim_outch
    | apply sim_bind; [|intros ?] | done
    | match goal with
      | |- Printf.sim _ _ (if ?b then _ else _) => destruct b
      | |- Printf.sim _ _ (let '(_, _) := ?p in _) => destruct p
      | |- Printf.sim _ _ (match ?x with _ => _ end) => destruct x
      end ].

Lemma sim_out_rep n c : sim (out_rep n c).
Proof. induction n; simpl; sim_tac. Qed.

Lemma sim_out_list l : sim (out_list l).
Proof. induction l; simpl; sim_tac. Qed.

Lemma sim_pad_loop n cnt m : sim (pad_loop n cnt m).
Proof. revert cnt. induction n; intros cnt; simpl; sim_tac; apply IHn. Qed.

Lemma sim_copy_loop v cnt m : sim (copy_loop v cnt m).
Proof. revert cnt. induction v; intros cnt; simpl; sim_tac; apply IHv. Qed.

Lemma sim_fmtstr v flags mn mx : sim (fmtstr v flags mn mx).
Proof. unfold fmtstr. sim_tac; try apply sim_pad_loop; apply sim_copy_loop. Qed.

Lemma sim_fmtint v base mn mx flags : sim (fmtint v base mn mx flags).
Proof. unfold fmtint, emit_int. sim_tac; try apply sim_out_rep; apply sim_out_list. Qed.

Lemma sim_fmtfp v mn mx flags : sim (fmtfp v mn mx flags).
Proof. unfold fmtfp. sim_tac; try apply sim_out_rep; apply sim_out_list. Qed.

Lemma sim_store_num c a : sim (store_num c a).
Proof.
  intros o1 o2 (Hl & Hs & Ht & Hm & Hb2 & Hb). unfold store_num. destruct a as [|[]]; try done.
  rewrite Hl. split; [done|]. unfold same_out. simpl. rewrite Hs, Hl in *. by split_and!.
Qed.

#[local] Opaque fmtint fmtstr fmtfp store_num.
Lemma sim_dopr_step d : sim (dopr_step d).
Proof.
  unfold dopr_step, next_ch, conversion.
  sim_tac; try apply sim_fmtint; try apply sim_fmtstr; try apply sim_fmtfp; apply sim_store_num.
Qed.

#[local] Opaque dopr_step.
Lemma sim_dopr_loop fuel d : sim (dopr_loop fuel d).
Proof. revert d. induction fuel; intros d; simpl; sim_tac; apply sim_dopr_step. Qed.

End sim.

(** The text without any limit: what is printed when there is no buffer, the [%n]
    stores and the arguments left over. *)
Definition render (fmt : list Z) (args : list arg) : option (list Z * list (N * Z) * list arg) :=
  '(_, rest, o) ← dopr fmt args (Obuf None 0 (size_t (-1)) [] []);
  Some (o_trace o, o_stores o, rest).

Lemma put_ch_text max b0 tr :
  0 ≤ max ≤ Z.of_nat (length b0) → Z.of_nat (length tr) < 18446744073709551616 →
  foldl (put_ch max) (0, b0) tr =
    (Z.of_nat (length tr), take (Z.to_nat max) tr ++ drop (Nat.min (Z.to_nat max) (length tr)) b0).
Proof.
  intros Hmax. induction tr as [|c tr IH] using rev_ind; intros Hlen.
  - simpl. by rewrite take_nil, Nat.min_0_r.
  - rewrite length_app in *. simpl in *. rewrite foldl_app, IH by lia. simpl. unfold put_ch. simpl. f_equal.
    + unfold size_t, u64. rewrite Z.mod_small; lia.
    + rewrite Nat2Z.id. destruct (Z.ltb_spec (Z.of_nat (length tr)) max).
      * rewrite !take_ge by (rewrite ?length_app; simpl; lia).
        rewrite !Nat.min_r by lia. rewrite insert_app_r_alt by lia. rewrite Nat.sub_diag, <- app_assoc. f_equal.
        destruct (lookup_lt_is_Some_2 b0 (length tr)) as [x Hx]; [lia|].
        rewrite (drop_S b0 x) by done. simpl. by rewrite Nat.add_1_r.
      * rewrite take_app_le by lia. by rewrite !Nat.min_l by lia.
Qed.

Lemma dopr_with_buffer fmt args b count txt stores rest :
  render fmt args = Some (txt, stores, rest) → 0 < count ≤ Z.of_nat (length b) → count < 18446744073709551616 →
  Z.of_nat (length txt) < 18446744073709551616 →
  ∃ m, dopr fmt args (Obuf (Some b) 0 count [] []) =
    Some ((Z.min (Z.of_nat (length txt)) (count - 1), rest),
          Obuf (Some (<[Z.to_nat (Z.min (Z.of_nat (length txt)) (count - 1)) := 0]>
                  (take (Z.to_nat count) txt ++ drop (Nat.min (Z.to_nat count) (length txt)) b))) m count stores txt).
Proof.
  intros Hr Hc Hc' Hl. unfold render, dopr in *. destruct fmt as [|ch f]; [done|]. unfold bind in *.
  set (d := Dopr ch f args DP_S_DEFAULT 0 C_NONE 0 (-1)) in *.
  pose proof (sim_dopr_loop count b ltac:(lia) (dopr_fuel (ch :: f)) d
    (Obuf (Some b) 0 count [] []) (Obuf None 0 (size_t (-1)) [] [])) as Hs.
  specialize (Hs ltac:(unfold same_out; simpl; split_and!; [done..|]; exists b; split_and!; done)).
  destruct (dopr_loop _ d (Obuf None _ _ _ _)) as [[rest2 o2]|] eqn:E2; simpl in Hr; [|done].
  destruct (dopr_loop _ d (Obuf (Some b) _ _ _ _)) as [[rest1 o1]|] eqn:E1; [|done].
  destruct Hs as (-> & Hlen & Hst & Htr & Hmax & Hb2 & b' & Hb1 & Hlb & Hpos & Hf).
  unfold dopr_finish in Hr. rewrite Hb2 in Hr. simpl in Hr. simplify_eq/=.
  rewrite <- Htr in Hl. rewrite put_ch_text in Hf by lia. injection Hf as Hlo Hb'.
  unfold dopr_finish. rewrite Hb1, Hlo, <- Htr.
  set (n := Z.of_nat (length (o_trace o1))).
  assert (size_t (o_max o1 - 1) = o_max o1 - 1) as -> by (unfold size_t, u64; rewrite Z.mod_small; lia).
  assert ((if o_max o1 - 1 <=? n then o_max o1 - 1 else n) = Z.min n (o_max o1 - 1)) as ->
    by (destruct (Z.leb_spec (o_max o1 - 1) n); lia).
  rewrite decide_True by lia. unfold ret. eexists. rewrite <- Hst, <- Hb'. done.
Qed.

(** The bytes of a buffer that holds [txt] cut off to [n] characters. *)
Lemma cut_text (b txt : list Z) count n :
  n = Nat.min (length txt) (count - 1) → (0 < count ≤ length b)%nat →
  <[n := 0]> (take count txt ++ drop (Nat.min count (length txt)) b) = take n txt ++ 0 :: drop (S n) b.
Proof.
  intros -> Hc. destruct (decide (length txt < count)%nat).
  - rewrite !take_ge by lia. rewrite Nat.min_l, Nat.min_r by lia. rewrite insert_app_r_alt, Nat.sub_diag by lia.
    f_equal. destruct (lookup_lt_is_Some_2 b (length txt)) as [x Hx]; [lia|]. by rewrite (drop_S b x) by done.
  - rewrite (Nat.min_r (length txt)), Nat.min_l by lia. destruct count as [|k]; [lia|]. simpl.
    rewrite Nat.sub_0_r. destruct (lookup_lt_is_Some_2 txt k) as [x Hx]; [lia|]. rewrite (take_S_r txt k x) by done.
    rewrite <- app_assoc. rewrite insert_app_r_alt by (rewrite length_take; lia).
    rewrite length_take, Nat.min_l, Nat.sub_diag by lia. done.
Qed.

(** C38: Formatted output never leaves its buffer: for every format and arguments
    that can be printed at all, [pth_snprintf] into a buffer of [count] bytes
    stores the longest prefix of the full text that leaves room for the
    terminating NUL, then the NUL, leaves all other bytes of the buffer as they
    were, and returns the number of characters stored (not, as C99 asks, the
    length of the full text). *)
Theorem snprintf_truncates fmt args b count txt stores rest :
  render fmt args = Some (txt, stores, rest) → Z.of_nat (length txt) ≤ INT_MAX →
  0 < count ≤ Z.of_nat (length b) → count < 18446744073709551616 →
  let n := Nat.min (length txt) (Z.to_nat count - 1) in
  pth_snprintf (Some b) count fmt args =
    Some (Printed (Z.of_nat n) (Some (take n txt ++ 0 :: drop (S n) b)) stores rest).
Proof.
  intros Hr Hl Hc Hc' n. unfold INT_MAX in *. unfold pth_snprintf, pth_vsnprintf.
  destruct b as [|x b]; simpl in Hc; [lia|]. simpl.
  assert (size_t count = count) as -> by (unfold size_t, u64; rewrite Z.mod_small; lia).
  destruct (dopr_with_buffer fmt args (0 :: b) count txt stores rest Hr) as [m ->]; [simpl; lia..|]. simpl.
  assert (Z.to_nat (Z.min (Z.of_nat (length txt)) (count - 1)) = n) as -> by lia.
  rewrite (cut_text (0 :: b) txt (Z.to_nat count) n) by (simpl; lia). simpl.
  do 2 f_equal. rewrite s32_id; unfold INT_MIN, INT_MAX, n in *; lia.
Qed.

(** ["%d=%s"] with 7 and ["ab"] into five bytes. *)
Lemma snprintf_truncates_witness :
  render [37; 100; 61; 37; 115; 0] [AInt32 7; AString (Some [97; 98; 0])] = Some ([55; 61; 97; 98], [], []) ∧
  pth_snprintf (Some [9; 9; 9; 9; 9]) 3 [37; 100; 61; 37; 115; 0] [AInt32 7; AString (Some [97; 98; 0])] =
    Some (Printed 2 (Some [55; 61; 0; 9; 9]) [] []).
Proof.
  split; [reflexivity|].
  apply (snprintf_truncates [37; 100; 61; 37; 115; 0] [AInt32 7; AString (Some [97; 98; 0])] [9; 9; 9; 9; 9] 3
           [55; 61; 97; 98] [] []); [reflexivity|unfold INT_MAX; simpl; lia|simpl; lia|lia].
Defined.

(** ** The interpreter stops *)
Definition rank (x : dp_state) : nat :=
  match x with
  | DP_S_FLAGS => 7 | DP_S_MIN => 6 | DP_S_DOT => 5 | DP_S_MAX => 4 | DP_S_MOD => 3 | DP_S_CONV => 2
  | DP_S_DEFAULT => 1 | DP_S_DONE => 0
  end.
(** Eight per character still to be read, and the number of states before the next
    one is read. *)
Definition todo (d : dopr_st) : nat := 8 * length (d_fmt d) + rank (d_state d).

Definition active (d : dopr_st) : Prop := d_state d ≠ DP_S_DONE.

(** [m] only returns active interpreter states smaller than [n]. *)
Definition below (n : nat) (m : M obuf dopr_st) : Prop :=
  ∀ o d o', m o = Some (d, o') → (todo d < n)%nat ∧ active d.

Lemma below_bind {A} n (m : M obuf A) k : (∀ a, below n (k a)) → below n (bind m k).
Proof. intros Hk o d o'. unfold bind. destruct (m o) as [[a o1]|]; [|done]. apply Hk. Qed.

Lemma below_bind_step n n' (m : M obuf dopr_st) k :
  below n' m → (∀ a, (todo a < n')%nat → active a → below n (k a)) → below n (bind m k).
Proof.
  intros Hm Hk o d o'. unfold bind. destruct (m o) as [[a o1]|] eqn:E; [|done].
  destruct (Hm _ _ _ E). by apply Hk.
Qed.

Lemma below_ret n d : (todo d < n)%nat → active d → below n (ret d).
Proof. by intros Hd Hx o d' o' [= <- <-]. Qed.

Lemma below_next n d x : (8 * length (d_fmt d) + rank x < n + 8)%nat → x ≠ DP_S_DONE → below n (next_ch d x).
Proof.
  intros Hn Hx o d' o'. unfold next_ch, lift_opt. destruct (d_fmt d) as [|c f]; [done|].
  intros [= <- <-]. unfold todo. simpl in *. split; [lia|done].
Qed.

Lemma below_next2 n d x y :
  (8 * length (d_fmt d) + rank y < n + 16)%nat → y ≠ DP_S_DONE → below n (bind (next_ch d x) (λ d, next_ch d y)).
Proof.
  intros Hn Hx o d' o'. unfold bind, next_ch, lift_opt. destruct (d_fmt d) as [|c [|c' f]]; [done..|].
  simpl. intros [= <- <-]. unfold todo. simpl in *. split; [lia|done].
Qed.

Lemma below_ub n : below n ub.
Proof. done. Qed.

Ltac below_tac :=
  repeat first
    [ apply below_ub | apply below_next2; [unfold todo in *; simpl in *; lia|done] | apply below_next; [unfold todo in *; simpl in *; lia|done]
    | apply below_ret; [unfold todo in *; simpl in *; lia|done]
    | match goal with
      | |- below _ (if ?b then _ else _) => destruct b
      | |- below _ (match ?x with _ => _ end) => destruct x eqn:?
      end
    | apply below_bind; intros ? ].

(** A conversion reads no character before its own. *)
Lemma below_conversion d : d_state d = DP_S_CONV → below (S (8 * length (d_fmt d) + rank DP_S_CONV)) (conversion d).
Proof. intros Hd. unfold conversion. below_tac; (apply below_ret; [unfold todo|unfold active]; simpl; rewrite Hd; [simpl; lia|done]). Qed.

Lemma below_step d : d_ch d ≠ 0 → d_state d ≠ DP_S_DONE → below (todo d) (dopr_step d).
Proof.
  intros Hch Hd. unfold dopr_step. destruct (d_state d) eqn:Hs; [..|done].
  all: unfold todo; rewrite Hs.
  1-6: by below_tac.
  eapply below_bind_step; [by apply below_conversion|]. intros a Ha _.
  eapply below_bind_step with (n' := (8 * length (d_fmt d))%nat).
  - apply below_next; [|done]. unfold todo in Ha. simpl in *. lia.
  - intros a' Ha' _. apply below_ret; [|done]. unfold todo in *. simpl in *. lia.
Qed.

Lemma dopr_loop_more fuel k d o :
  active d → (todo d < fuel)%nat → dopr_loop (fuel + k) d o = dopr_loop fuel d o.
Proof.
  revert d o. induction fuel as [|fuel IH]; intros d o Hx Hf; [lia|]. simpl.
  destruct (Z.eqb_spec (d_ch d) 0); [done|]. unfold bind.
  destruct (dopr_step d o) as [[d' o']|] eqn:E; [|done].
  apply below_step in E as [? ?]; [|done..]. apply IH; [done|lia].
Qed.



(** ** Digits *)

(** The number that digits, least significant first, stand for. *)
Definition undigit (c : Z) : Z := if c <? 58 then c - 48 else if c <? 97 then c - 55 else c - 87.
Fixpoint decode (base : Z) (l : list Z) : Z :=
  match l with [] => 0 | c :: l' => undigit c + base * decode base l' end.

Lemma undigit_digit caps d : 0 ≤ d < 16 → undigit (digit caps d) = d.
Proof.
  intros Hd. unfold undigit, digit. destruct caps;
    repeat match goal with |- context [?a <? ?b] => destruct (Z.ltb_spec a b) end; lia.
Qed.

Lemma convert_loop_decode n caps base u :
  2 ≤ base ≤ 16 → 0 ≤ u → decode base (convert_loop n caps base u) = u mod base ^ Z.of_nat n.
Proof.
  intros Hb. revert u. induction n as [|n IH]; intros u Hu.
  - simpl. by rewrite Z.mod_1_r.
  - cbn [convert_loop decode]. rewrite undigit_digit by (pose proof (Z.mod_pos_bound u base); lia).
    rewrite Nat2Z.inj_succ, Z.pow_succ_r by lia.
    rewrite Z.rem_mul_r by (try apply Z.pow_pos_nonneg; lia).
    destruct (Z.eqb_spec (u / base) 0) as [E|E].
    + rewrite E. simpl. rewrite Z.mod_0_l by (apply Z.pow_nonzero; lia). lia.
    + rewrite IH by (apply Z.div_pos; lia). done.
Qed.


Lemma decode_take base n l : 2 ≤ base ≤ 16 → Forall (λ c, 0 ≤ undigit c < base) l →
  decode base (take n l) = decode base l mod base ^ Z.of_nat n ∧ 0 ≤ decode base l < base ^ Z.of_nat (length l).
Proof.
  intros Hb. revert n. induction l as [|c l IH]; intros n Hl.
  - rewrite take_nil. simpl. rewrite Z.mod_0_l by (apply Z.pow_nonzero; lia). lia.
  - apply Forall_cons in Hl as [Hc Hl]. destruct n as [|n].
    + destruct (IH 0%nat Hl) as [_ ?]. cbn [take decode length]. rewrite Nat2Z.inj_succ, Z.pow_succ_r by lia.
      split; [by rewrite Z.mod_1_r|nia].
    + destruct (IH n Hl) as [E ?]. cbn [take decode length]. rewrite E, !Nat2Z.inj_succ, !Z.pow_succ_r by lia.
      split; [|nia]. rewrite Z.rem_mul_r by (try apply Z.pow_pos_nonneg; lia).
      rewrite (Z.mul_comm base (decode base l)), Z.mod_add, Z.div_add by lia.
      by rewrite (Z.mod_small (undigit c)), (Z.div_small (undigit c)) by lia.
Qed.

Lemma convert_loop_digits n caps base u :
  2 ≤ base ≤ 16 → 0 ≤ u → Forall (λ c, 0 ≤ undigit c < base) (convert_loop n caps base u).
Proof.
  intros Hb. revert u. induction n as [|n IH]; intros u Hu; simpl; [done|].
  pose proof (Z.mod_pos_bound u base ltac:(lia)).
  apply Forall_cons. split; [rewrite undigit_digit; lia|].
  destruct (_ =? _); [done|]. apply IH, Z.div_pos; lia.
Qed.

Lemma convert_loop_length n caps base u : (length (convert_loop n caps base u) ≤ n)%nat.
Proof. revert u. induction n as [|n IH]; intros u; simpl; [lia|]. destruct (_ =? _); simpl; [lia|]. by apply le_n_S. Qed.

Lemma mod_pow20 base x : 2 ≤ base → (x mod base ^ Z.of_nat 20) mod base ^ 19 = x mod base ^ 19.
Proof.
  intros Hb. change (base ^ Z.of_nat 20) with (base ^ Z.succ 19). rewrite Z.pow_succ_r, Z.mul_comm by lia.
  rewrite Z.rem_mul_r, Z.mul_comm, Z.mod_add by (try apply Z.pow_nonzero; try apply Z.pow_pos_nonneg; lia).
  apply Z.mod_mod, Z.pow_nonzero; lia.
Qed.

(** C40: The digits that [fmtint] prints can be read back: in every base from 2 to 16
    and for upper and lower case, decoding the digits of [u] gives [u] when [u] has
    at most 19 digits.  A number with 20 or more digits loses the leading ones: the
    buffer holds 20 characters, of which the last is given up. *)
Theorem convert_decode caps base u :
  2 ≤ base ≤ 16 → 0 ≤ u → decode base (convert caps base u) = u mod base ^ 19.
Proof.
  intros Hb Hu. unfold convert. case_decide as Hl.
  - destruct (decode_take base 19 _ Hb (convert_loop_digits 20 caps base u Hb Hu)) as [-> _].
    rewrite convert_loop_decode by done. apply mod_pow20. lia.
  - pose proof (convert_loop_length 20 caps base u) as Hle.
    pose proof (decode_take base 0 _ Hb (convert_loop_digits 20 caps base u Hb Hu)) as [_ Hd].
    assert (base ^ Z.of_nat (length (convert_loop 20 caps base u)) ≤ base ^ 19) as Hp by (apply Z.pow_le_mono_r; lia).
    rewrite <- (Z.mod_small (decode base _) (base ^ 19)) by lia. rewrite convert_loop_decode by done.
    apply mod_pow20. lia.
Qed.

(** The largest [unsigned long] in decimal loses its leading 1. *)
Lemma convert_decode_witness :
  decode 10 (convert false 10 18446744073709551615) = 8446744073709551615 ∧
  decode 10 (convert false 10 123456789) = 123456789.
Proof.
  split.
  - rewrite (convert_decode false 10 18446744073709551615) by lia. reflexivity.
  - rewrite (convert_decode false 10 123456789) by lia. reflexivity.
Defined.
