(* ===== verification/Mctx.v ===== *)
(** * Machine contexts (pth_mctx.c and pth_mctx_swap.S)

The context switch at the level of the machine: the registers of the x86-64 that
the assembler routine reads and writes, and a memory of cells, one per aligned
quantity that the code accesses, by address.  Elsewhere in the library the
continuation of a suspended thread is a function; here it is shown that the
routine indeed suspends and resumes: what it saves is what a later switch restores. *)
From S2P Require Import Prelude.

(** ** The machine *)
Record regs := Regs {
  r12 : Z; r13 : Z; r14 : Z; r15 : Z; rip : Z; rsp : Z; rbx : Z; rbp : Z;
  fpucw : Z; mxcsr : Z;                              (** control word and MXCSR *)
  rax : Z; rcx : Z; rdx : Z; rdi : Z; rsi : Z        (** not preserved across calls *)
}.
Record machine := Machine { cpu : regs; cells : gmap Z Z }.

Definition rd (a : Z) (m : machine) : option Z := cells m !! a.
Definition wr (a v : Z) (m : machine) : option machine :=
  _ ← cells m !! a; Some (Machine (cpu m) (<[a := v]> (cells m))).
Definition with_cpu (f : regs → regs) (m : machine) : machine := Machine (f (cpu m)) (cells m).

(** [struct pth_mctx_st]: the cells of [regs[0..7]], the two of [regs[8]], [start_func],
    the signal mask and [error]. *)
Definition mctx_cells (p : Z) : list Z :=
  [p; p + 0x8; p + 0x10; p + 0x18; p + 0x20; p + 0x28; p + 0x30; p + 0x38; p + 0x40; p + 0x44; p + 0x48; p + 0x50; p + 0xd0].

(** ** [pth_mctx_switch_asm(from, to)], after the call instruction

[rdi] and [rsi] hold the arguments and the return address is on the stack. *)
Definition save_regs (m : machine) : option machine :=
  let r := cpu m in
  ret_addr ← rd (rsp r) m;
  m ← wr (rdi r + 0x0) (r12 r) m;
  m ← wr (rdi r + 0x8) (r13 r) m;
  m ← wr (rdi r + 0x10) (r14 r) m;
  m ← wr (rdi r + 0x18) (r15 r) m;
  m ← wr (rdi r + 0x20) ret_addr m;
  m ← wr (rdi r + 0x28) (rsp r + 8) m;
  m ← wr (rdi r + 0x30) (rbx r) m;
  m ← wr (rdi r + 0x38) (rbp r) m;
  m ← wr (rdi r + 0x40) (fpucw r) m;
  m ← wr (rdi r + 0x44) (mxcsr r) m;
  Some (with_cpu (λ r, Regs (r12 r) (r13 r) (r14 r) (r15 r) (rip r) (rsp r) (rbx r) (rbp r) (fpucw r) (mxcsr r)
                         (rax r) (rsp r + 8) ret_addr (rdi r) (rsi r)) m).

Definition restore_regs (m : machine) : option machine :=
  let p := rsi (cpu m) in
  v12 ← rd (p + 0x0) m; v13 ← rd (p + 0x8) m; v14 ← rd (p + 0x10) m; v15 ← rd (p + 0x18) m;
  ip ← rd (p + 0x20) m; sp ← rd (p + 0x28) m; vbx ← rd (p + 0x30) m; vbp ← rd (p + 0x38) m;
  cw ← rd (p + 0x40) m; mx ← rd (p + 0x44) m;
  Some (with_cpu (λ r, Regs v12 v13 v14 v15 ip sp vbx vbp cw mx ip sp (rdx r) (rdi r) (rsi r)) m).

Definition pth_mctx_switch_asm (m : machine) : option machine := m ← save_regs m; restore_regs m.

(** ** [pth_mctx_set]

Pointers are 64-bit integers; 0 is [NULL]. *)
Definition stack_start (hi : Z) : Z := Z.land hi (Z.lnot 0xF) - 8.
Definition pth_mctx_set (mctx func sk_addr_lo sk_addr_hi : Z) (m : machine) : option (bool * machine) :=
  if (mctx =? 0) || (func =? 0) || (sk_addr_lo =? 0) || (sk_addr_hi =? 0) then Some (false, m)
  else if sk_addr_hi <=? sk_addr_lo then Some (false, m)
  else
    m ← foldl (λ om a, m ← om; wr a 0 m) (Some m) (mctx_cells mctx);
    m ← wr (stack_start sk_addr_hi) 0 m;
    m ← wr (mctx + 0x28) (stack_start sk_addr_hi) m;
    m ← wr (mctx + 0x20) func m;
    m ← wr (mctx + 0x48) func m;
    Some (true, m).

(** ** Correctness *)
Implicit Types (m : machine) (p : Z).

(** The context at [p] is allocated; [saved] is what it holds. *)
Definition allocated p m : Prop := ∀ a, a ∈ mctx_cells p → is_Some (cells m !! a).
Definition saved p m : option (list Z) :=
  mapM (λ a, cells m !! a) [p; p + 0x8; p + 0x10; p + 0x18; p + 0x20; p + 0x28; p + 0x30; p + 0x38; p + 0x40; p + 0x44].

(** The registers that a call preserves, with the place it returns to. *)
Definition resume_point m : option (list Z) :=
  let r := cpu m in
  ip ← rd (rsp r) m;
  Some [r12 r; r13 r; r14 r; r15 r; ip; rsp r + 8; rbx r; rbp r; fpucw r; mxcsr r].
Definition running m : list Z :=
  let r := cpu m in [r12 r; r13 r; r14 r; r15 r; rip r; rsp r; rbx r; rbp r; fpucw r; mxcsr r].

Lemma wr_Some a v m : is_Some (cells m !! a) → wr a v m = Some (Machine (cpu m) (<[a := v]> (cells m))).
Proof. intros [x Hx]. unfold wr. by rewrite Hx. Qed.

Lemma wr_alloc a v m m' b : wr a v m = Some m' → is_Some (cells m !! b) → is_Some (cells m' !! b).
Proof.
  unfold wr. destruct (cells m !! a); [|done]. intros [= <-] Hb. simpl. destruct (decide (a = b)) as [->|].
  - rewrite lookup_insert_eq. by eexists.
  - by rewrite lookup_insert_ne.
Qed.

(** Membership in a list of cells. *)
Ltac in_cells := unfold mctx_cells; repeat first [apply list_elem_of_here | apply list_elem_of_further].

(** Lookups in a chain of insertions at constant offsets. *)
Ltac cell :=
  repeat first [rewrite lookup_insert_eq | rewrite lookup_insert_ne by lia]; try done.

Lemma save_spec m l :
  allocated (rdi (cpu m)) m → resume_point m = Some l →
  ∃ m', save_regs m = Some m' ∧ saved (rdi (cpu m)) m' = Some l ∧ rsi (cpu m') = rsi (cpu m) ∧
    ∀ a, a ∉ mctx_cells (rdi (cpu m)) → cells m' !! a = cells m !! a.
Proof.
  intros Ha Hl. unfold resume_point in Hl. unfold save_regs. destruct (rd (rsp (cpu m)) m) as [ip|]; [|done].
  simpl in Hl. injection Hl as <-. cbn [mbind option_bind]. set (p := rdi (cpu m)) in *.
  assert (∀ k, k ∈ [0x0; 0x8; 0x10; 0x18; 0x20; 0x28; 0x30; 0x38; 0x40; 0x44] → p + k ∈ mctx_cells p) as Hin.
  { intros k Hk. repeat (apply elem_of_cons in Hk as [->|Hk]; [rewrite ?Z.add_0_r; in_cells|]). by apply not_elem_of_nil in Hk. }
  do 10 (erewrite wr_Some; [cbn [mbind option_bind cpu cells]|cbn [cells]; repeat (apply lookup_insert_is_Some'; right); apply Ha, Hin; in_cells]).
  eexists. split; [reflexivity|]. split; [|split; [done|]].
  - unfold saved. apply mapM_Some. cbn [with_cpu cells]. rewrite Z.add_0_r. repeat apply Forall2_cons_2; [cell..|by apply Forall2_nil_2].
  - intros a Hna. cbn [with_cpu cells].
    repeat (rewrite lookup_insert_ne; [|intros <-; apply Hna, Hin; in_cells]). done.
Qed.

Lemma restore_spec m l :
  saved (rsi (cpu m)) m = Some l → ∃ m', restore_regs m = Some m' ∧ running m' = l ∧ cells m' = cells m.
Proof.
  unfold saved. intros Hl%mapM_Some. unfold restore_regs, rd. rewrite Z.add_0_r.
  do 10 (apply Forall2_cons_inv_l in Hl as (? & ? & Hx & Hl & ->); rewrite Hx; clear Hx; cbn [mbind option_bind]).
  apply Forall2_nil_inv_l in Hl as ->. eexists. split; [reflexivity|]. done.
Qed.

Lemma saved_frame p m m' :
  (∀ a, a ∈ mctx_cells p → cells m' !! a = cells m !! a) → saved p m' = saved p m.
Proof.
  intros He. unfold saved. cbn [mapM]. rewrite !He by in_cells. done.
Qed.

(** Two contexts that do not overlap. *)
Definition apart p q : Prop := mctx_cells p ## mctx_cells q.

(** C8: Switching suspends and resumes.  [pth_mctx_switch_asm(from, to)] continues with
    exactly the registers that [to] holds; and when later, after any code that leaves
    [from] alone, some context is switched to [from], execution goes on as if the first
    call had returned: at its return address, with the stack pointer behind it and
    with the same callee-saved registers and floating point control words. *)
Theorem switch_resumes m0 l0 l1 :
  allocated (rdi (cpu m0)) m0 → apart (rdi (cpu m0)) (rsi (cpu m0)) →
  resume_point m0 = Some l0 → saved (rsi (cpu m0)) m0 = Some l1 →
  ∃ m1, pth_mctx_switch_asm m0 = Some m1 ∧ running m1 = l1 ∧
    ∀ m2 l2, saved (rdi (cpu m0)) m2 = saved (rdi (cpu m0)) m1 → rsi (cpu m2) = rdi (cpu m0) →
      allocated (rdi (cpu m2)) m2 → apart (rdi (cpu m2)) (rsi (cpu m2)) → resume_point m2 = Some l2 →
      ∃ m3, pth_mctx_switch_asm m2 = Some m3 ∧ running m3 = l0.
Proof.
  assert (∀ m l l', allocated (rdi (cpu m)) m → apart (rdi (cpu m)) (rsi (cpu m)) →
    resume_point m = Some l → saved (rsi (cpu m)) m = Some l' →
    ∃ m', pth_mctx_switch_asm m = Some m' ∧ running m' = l' ∧ saved (rdi (cpu m)) m' = Some l) as Hswitch.
  { intros m l l' Ha Hd Hl Hl'. destruct (save_spec m l Ha Hl) as (m' & Hs & Hsaved & Hrsi & Hframe).
    destruct (restore_spec m' l') as (m'' & Hr & Hrun & Hcells).
    { rewrite Hrsi. rewrite <- Hl'. apply saved_frame. intros a Hin. apply Hframe. intros Hin'. by apply (Hd a). }
    exists m''. unfold pth_mctx_switch_asm. rewrite Hs. simpl. split_and!; [done..|].
    rewrite <- Hsaved. apply saved_frame. intros. by rewrite Hcells. }
  intros Ha Hd Hl0 Hl1. destruct (Hswitch m0 l0 l1 Ha Hd Hl0 Hl1) as (m1 & Hm1 & Hrun1 & Hs1).
  exists m1. split_and!; [done..|]. intros m2 l2 Hs2 Hrsi Ha2 Hd2 Hl2.
  destruct (Hswitch m2 l2 l0 Ha2 Hd2 Hl2) as (m3 & Hm3 & Hrun3 & _); [congruence|]. by exists m3.
Qed.

Lemma stack_start_spec hi : 0 ≤ hi → hi - 23 ≤ stack_start hi ≤ hi - 8 ∧ stack_start hi mod 16 = 8.
Proof.
  intros Hhi. unfold stack_start. replace (Z.land hi (Z.lnot 15)) with (hi - hi mod 16).
  - pose proof (Z.mod_pos_bound hi 16). split; [lia|]. replace (hi - hi mod 16 - 8) with (8 + (hi / 16 - 1) * 16).
    + by rewrite Z.mod_add.
    + pose proof (Z.div_mod hi 16). lia.
  - change 15 with (Z.ones 4). rewrite <- Z.ldiff_land, Z.ldiff_ones_r, Z.shiftr_div_pow2, Z.shiftl_mul_pow2 by lia.
    change (2 ^ 4) with 16. pose proof (Z.div_mod hi 16). lia.
Qed.

Lemma clear_spec l m :
  (∀ a, a ∈ l → is_Some (cells m !! a)) →
  ∃ m', foldl (λ om a, m ← om; wr a 0 m) (Some m) l = Some m' ∧
    ∀ a, cells m' !! a = if decide (a ∈ l) then Some 0 else cells m !! a.
Proof.
  revert m. induction l as [|b l IH]; intros m Hl; simpl; [by exists m|].
  rewrite wr_Some by (apply Hl; by left). destruct (IH (Machine (cpu m) (<[b := 0]> (cells m)))) as (m' & Hm & Hc).
  { intros a Ha. simpl. apply lookup_insert_is_Some'. right. apply Hl. by right. }
  exists m'. split; [done|]. intros a. rewrite Hc. simpl. destruct (decide (a ∈ l)), (decide (a ∈ b :: l)) as [Hin|Hin]; try done.
  - set_solver.
  - apply elem_of_cons in Hin as [->|]; [|done]. by rewrite lookup_insert_eq.
  - rewrite lookup_insert_ne; [done|]. set_solver.
Qed.


(** ** An example: a context at 0x1000 with a stack at 0x2000 to 0x3000 *)
Definition toy_machine : machine :=
  Machine (Regs 12 13 14 15 0 0x4000 1 2 0x37f 0x1f80 0 0 0 0x5000 0x1000)
    (<[0x4000 := 0x777]> (list_to_map ((λ a, (a, 7)) <$> (0x2ff8 :: mctx_cells 0x1000 ++ mctx_cells 0x5000)))).


Lemma switch_resumes_witness :
  ∃ m1, pth_mctx_switch_asm toy_machine = Some m1 ∧ running m1 = [7; 7; 7; 7; 7; 7; 7; 7; 7; 7].
Proof.
  destruct (switch_resumes toy_machine [12; 13; 14; 15; 0x777; 0x4008; 1; 2; 0x37f; 0x1f80] [7; 7; 7; 7; 7; 7; 7; 7; 7; 7])
    as (m1 & Hm1 & Hr & _).
  - intros a Ha. apply (proj1 (Forall_forall (λ a, is_Some (cells toy_machine !! a)) (mctx_cells 0x5000))); [|done].
    repeat (apply Forall_cons; split; [by eexists|]). by apply Forall_nil.
  - intros a Ha Hb. apply (proj1 (Forall_forall (λ a, a ∉ mctx_cells 0x1000) (mctx_cells 0x5000))) in Ha; [done|].
    repeat (apply Forall_cons; split; [by apply (bool_decide_eq_true_1 (_ ∉ _))|]). by apply Forall_nil.
  - reflexivity.
  - reflexivity.
  - exists m1. split; [exact Hm1|exact Hr].
Defined.
