(* ===== verification/Ring.v ===== *)
(** * The ring (pth_ring.c)

A ring is a hook pointer and a node counter over nodes that carry their own
links.  The operations below are the C functions statement by statement, in the
state monad over the node heap, the ring object the first argument points to
([None] when that argument is [NULL]) and [errno].  [ring_repr s l] says that the
ring holds exactly the nodes [l], in this order starting at the hook. *)
From S2P Require Import Prelude Links.

Record pth_ringnode := Ringnode { rn_next : N; rn_prev : N }.
Record pth_ring := Ring { r_hook : N; r_nodes : Z }.

Definition PTH_RING_INIT : pth_ring := Ring NULL 0.

#[export] Instance ringnode_linked : Linked pth_ringnode.
Proof.
  refine {| nx := rn_next; pv := rn_prev;
            set_nx := λ p n, Ringnode p (rn_prev n);
            set_pv := λ p n, Ringnode (rn_next n) p |}; done.
Defined.

Record rstate := RState {
  nodes : gmap N pth_ringnode;
  ring_obj : option pth_ring;
  ring_errno : Z
}.

(** Field accesses. *)
Definition ld_next (p : ptr) : M rstate N :=
  λ s, n ← load (nodes s) p; Some (rn_next n, s).
Definition ld_prev (p : ptr) : M rstate N :=
  λ s, n ← load (nodes s) p; Some (rn_prev n, s).
Definition st_next (p v : ptr) : M rstate unit :=
  λ s, _ ← load (nodes s) p;
       Some (tt, RState (alter (set_nx v) p (nodes s)) (ring_obj s) (ring_errno s)).
Definition st_prev (p v : ptr) : M rstate unit :=
  λ s, _ ← load (nodes s) p;
       Some (tt, RState (alter (set_pv v) p (nodes s)) (ring_obj s) (ring_errno s)).
Definition ld_hook : M rstate N := λ s, r ← ring_obj s; Some (r_hook r, s).
Definition st_hook (v : ptr) : M rstate unit :=
  λ s, r ← ring_obj s; Some (tt, RState (nodes s) (Some (Ring v (r_nodes r))) (ring_errno s)).
(** [r->r_nodes++] and [r->r_nodes--] on an [unsigned int]. *)
Definition add_nodes (d : Z) : M rstate unit :=
  λ s, r ← ring_obj s;
       Some (tt, RState (nodes s) (Some (Ring (r_hook r) (u32 (r_nodes r + d)))) (ring_errno s)).
Definition ring_null : M rstate bool :=
  gets (λ s, match ring_obj s with None => true | Some _ => false end).
Definition ring_error {A} (v : A) (e : Z) : M rstate A :=
  λ s, Some (v, RState (nodes s) (ring_obj s) e).

Definition pth_ring_init : M rstate unit :=
  do null <- ring_null;
  if null then ret tt
  else modify (λ s, RState (nodes s) (Some (Ring NULL 0)) (ring_errno s)).

Definition pth_ring_elements : M rstate Z :=
  do null <- ring_null;
  if null then ret (-1)
  else gets (λ s, match ring_obj s with Some r => s32 (r_nodes r) | None => -1 end).

Definition pth_ring_first : M rstate N :=
  do null <- ring_null; if null then ret NULL else ld_hook.

Definition pth_ring_last : M rstate N :=
  do null <- ring_null;
  if null then ret NULL
  else do hook <- ld_hook; if is_null hook then ret NULL else ld_prev hook.

Definition pth_ring_next (rn : ptr) : M rstate N :=
  do null <- ring_null;
  if null || is_null rn then ret NULL
  else do n <- ld_next rn; do hook <- ld_hook;
       if bool_decide (n = hook) then ret NULL else ld_next rn.

Definition pth_ring_prev (rn : ptr) : M rstate N :=
  do null <- ring_null;
  if null || is_null rn then ret NULL
  else do p <- ld_prev rn; do hook <- ld_hook; do q <- ld_prev hook;
       if bool_decide (p = q) then ret NULL else ld_prev rn.

Definition pth_ring_insert_after (rn1 rn2 : ptr) : M rstate unit :=
  do null <- ring_null;
  if null || is_null rn1 || is_null rn2 then ret tt
  else
    st_prev rn2 rn1 ;;
    do n <- ld_next rn1; st_next rn2 n ;;
    do p <- ld_prev rn2; st_next p rn2 ;;
    do q <- ld_next rn2; st_prev q rn2 ;;
    add_nodes 1.

Definition pth_ring_insert_before (rn1 rn2 : ptr) : M rstate unit :=
  do null <- ring_null;
  if null || is_null rn1 || is_null rn2 then ret tt
  else
    st_next rn2 rn1 ;;
    do n <- ld_prev rn1; st_prev rn2 n ;;
    do p <- ld_prev rn2; st_next p rn2 ;;
    do q <- ld_next rn2; st_prev q rn2 ;;
    add_nodes 1.

Definition pth_ring_delete (rn : ptr) : M rstate unit :=
  do null <- ring_null;
  if null || is_null rn then ret tt
  else
    do hook <- ld_hook;
    do alone <- (if bool_decide (hook = rn) then
               do p <- ld_prev rn; do n <- ld_next rn;
               ret (bool_decide (p = rn) && bool_decide (n = rn))
             else ret false);
    (if (alone : bool) then st_hook NULL
     else
       (if bool_decide (hook = rn) then do n <- ld_next rn; st_hook n else ret tt) ;;
       do p <- ld_prev rn; do n <- ld_next rn; st_next p n ;;
       do n' <- ld_next rn; do p' <- ld_prev rn; st_prev n' p') ;;
    add_nodes (-1).

Definition pth_ring_prepend (rn : ptr) : M rstate unit :=
  do null <- ring_null;
  if null || is_null rn then ret tt
  else
    do hook <- ld_hook;
    (if is_null hook then
       st_hook rn ;; st_next rn rn ;; st_prev rn rn
     else
       st_next rn hook ;;
       do p <- ld_prev hook; st_prev rn p ;;
       do a <- ld_next rn; st_prev a rn ;;
       do b <- ld_prev rn; st_next b rn ;;
       st_hook rn) ;;
    add_nodes 1.

Definition pth_ring_append (rn : ptr) : M rstate unit :=
  do null <- ring_null;
  if null || is_null rn then ret tt
  else
    do hook <- ld_hook;
    (if is_null hook then
       st_hook rn ;; st_next rn rn ;; st_prev rn rn
     else
       st_next rn hook ;;
       do p <- ld_prev hook; st_prev rn p ;;
       do a <- ld_next rn; st_prev a rn ;;
       do b <- ld_prev rn; st_next b rn) ;;
    add_nodes 1.

Definition pth_ring_pop : M rstate N :=
  do rn <- pth_ring_first;
  (if is_null rn then ret tt else pth_ring_delete rn) ;;
  ret rn.

Definition pth_ring_favorite (rn : ptr) : M rstate bool :=
  do null <- ring_null;
  if null then ret false
  else
    do hook <- ld_hook;
    if is_null hook then ret false
    else if bool_decide (hook = rn) then ret true
    else pth_ring_delete rn ;; pth_ring_prepend rn ;; ret true.

Definition pth_ring_dequeue : M rstate N :=
  do rn <- pth_ring_last;
  (if is_null rn then ret tt else pth_ring_delete rn) ;;
  ret rn.

(** The do-while loop; each round either answers or follows one link, so the
    number of heap nodes bounds the rounds of a well-formed ring. *)
Fixpoint ring_contains_loop (fuel : nat) (rns rn : ptr) : M rstate bool :=
  match fuel with
  | O => ub
  | S fuel' =>
      if bool_decide (rn = rns) then ret true
      else
        do n <- ld_next rn; do hook <- ld_hook;
        if bool_decide (n = hook) then ret false
        else ring_contains_loop fuel' rns n
  end.

Definition pth_ring_contains (rns : ptr) : M rstate bool :=
  do null <- ring_null;
  if null || is_null rns then ring_error false EINVAL
  else
    do hook <- ld_hook;
    if is_null hook then ret false
    else do fuel <- gets (λ s, size (nodes s)); ring_contains_loop fuel rns hook.

(** ** Representation *)
Definition ring_repr (s : rstate) (l : list N) : Prop :=
  ∃ r, ring_obj s = Some r ∧ r_hook r = head_or NULL l ∧
       r_nodes r = u32 (Z.of_nat (length l)) ∧ cyc (nodes s) l.

(** Nothing outside [D] is written, no node appears or disappears, [errno] stays. *)
Definition ring_frame (D : list N) (s s' : rstate) : Prop :=
  (∀ z, z ∉ D → nodes s' !! z = nodes s !! z) ∧
  dom (nodes s') = dom (nodes s) ∧ ring_errno s' = ring_errno s.

(** ** Rules for the field accesses *)
Lemma wp_rn_ld_next s p v (Q : N → rstate → Prop) :
  nxf (nodes s) p = Some v → Q v s → wp (ld_next p) Q s.
Proof. intros (n & Hn & <-)%nxf_Some HQ. unfold wp, ld_next. by rewrite Hn. Qed.

Lemma wp_rn_ld_prev s p v (Q : N → rstate → Prop) :
  pvf (nodes s) p = Some v → Q v s → wp (ld_prev p) Q s.
Proof. intros (n & Hn & <-)%pvf_Some HQ. unfold wp, ld_prev. by rewrite Hn. Qed.

Lemma wp_rn_st_next s p v (Q : unit → rstate → Prop) :
  is_Some (nxf (nodes s) p) →
  Q tt (RState (alter (set_nx v) p (nodes s)) (ring_obj s) (ring_errno s)) →
  wp (st_next p v) Q s.
Proof. intros [w (n & Hn & _)%nxf_Some] HQ. unfold wp, st_next. by rewrite Hn. Qed.

Lemma wp_rn_st_prev s p v (Q : unit → rstate → Prop) :
  is_Some (nxf (nodes s) p) →
  Q tt (RState (alter (set_pv v) p (nodes s)) (ring_obj s) (ring_errno s)) →
  wp (st_prev p v) Q s.
Proof. intros [w (n & Hn & _)%nxf_Some] HQ. unfold wp, st_prev. by rewrite Hn. Qed.

Lemma wp_ring_null s r (Q : bool → rstate → Prop) :
  ring_obj s = Some r → Q false s → wp ring_null Q s.
Proof. intros Hr HQ. unfold wp, ring_null, gets. by rewrite Hr. Qed.

Lemma wp_ld_hook s r (Q : N → rstate → Prop) :
  ring_obj s = Some r → Q (r_hook r) s → wp ld_hook Q s.
Proof. intros Hr HQ. unfold wp, ld_hook. by rewrite Hr. Qed.

Lemma wp_st_hook s r v (Q : unit → rstate → Prop) :
  ring_obj s = Some r →
  Q tt (RState (nodes s) (Some (Ring v (r_nodes r))) (ring_errno s)) → wp (st_hook v) Q s.
Proof. intros Hr HQ. unfold wp, st_hook. by rewrite Hr. Qed.

Lemma wp_add_nodes s r d (Q : unit → rstate → Prop) :
  ring_obj s = Some r →
  Q tt (RState (nodes s) (Some (Ring (r_hook r) (u32 (r_nodes r + d)))) (ring_errno s)) →
  wp (add_nodes d) Q s.
Proof. intros Hr HQ. unfold wp, add_nodes. by rewrite Hr. Qed.

Ltac ring_step :=
  first
  [ progress wps
  | match goal with
    | |- wp (ld_next _) _ _ => eapply wp_rn_ld_next; [solve [links]|]
    | |- wp (ld_prev _) _ _ => eapply wp_rn_ld_prev; [solve [links]|]
    | |- wp (st_next _ _) _ _ => eapply wp_rn_st_next; [solve [links]|]
    | |- wp (st_prev _ _) _ _ => eapply wp_rn_st_prev; [solve [links]|]
    | |- wp ring_null _ _ => eapply wp_ring_null; [simpl; eassumption || reflexivity|]
    | |- wp ld_hook _ _ => eapply wp_ld_hook; [simpl; eassumption || reflexivity|]
    | |- wp (st_hook _) _ _ => eapply wp_st_hook; [simpl; eassumption || reflexivity|]
    | |- wp (add_nodes _) _ _ => eapply wp_add_nodes; [simpl; eassumption || reflexivity|]
    end ].

Lemma u32_count n d : u32 (u32 n + d) = u32 (n + d).
Proof. unfold u32. by rewrite Zplus_mod_idemp_l. Qed.

Ltac ring_frame_tac :=
  split_and!;
  [intros z Hz; simpl; rewrite ?lookup_alter_ne by set_solver; done
  |simpl; rewrite ?dom_alter_L; done|done].

Lemma pth_ring_append_spec s l rn :
  ring_repr s l → rn ∉ l → is_Some (load (nodes s) rn) →
  wp (pth_ring_append rn) (λ _ s', ring_repr s' (l ++ [rn]) ∧ ring_frame (rn :: l) s s') s.
Proof.
  intros (r & Hr & Hh & Hn & Hc) Hrn (a & b & Ha & Hb & Hnz)%node_links.
  unfold pth_ring_append. do 2 ring_step. rewrite is_null_false by done.
  simpl. do 2 ring_step. destruct (decide (l = [])) as [->|Hne].
  - rewrite Hh. simpl. repeat ring_step. split; [|ring_frame_tac].
    eexists. split_and!; try done; [simpl; rewrite Hn, u32_count; done|].
    simpl. apply cyc_singleton; links.
  - rewrite <- (app_nil_r l) in Hc, Hrn, Hne.
    destruct (cyc_gap _ _ _ _ Hc Hrn Hne) as (y & p & n & m & Hy & ? & ? & ? & ? & ? & ? & ? & ? & ? & ? & ?).
    simpl in Hy. assert (r_hook r = y) as Hhy by (rewrite Hh; unfold head_or; by rewrite Hy).
    rewrite app_nil_r in *. rewrite Hhy. rewrite is_null_false by done. repeat ring_step.
    split; [|ring_frame_tac]. eexists. split_and!; try done.
    + simpl. rewrite Hh. by destruct l.
    + simpl. rewrite Hn, u32_count, length_app. simpl. f_equal. lia.
    + simpl. rewrite <- (app_nil_r l) in Hc, Hrn.
      eapply (cyc_link_mid _ _ rn l []); try done; intros z; links.
Qed.

Lemma pth_ring_prepend_spec s l rn :
  ring_repr s l → rn ∉ l → is_Some (load (nodes s) rn) →
  wp (pth_ring_prepend rn) (λ _ s', ring_repr s' (rn :: l) ∧ ring_frame (rn :: l) s s') s.
Proof.
  intros (r & Hr & Hh & Hn & Hc) Hrn (a & b & Ha & Hb & Hnz)%node_links.
  unfold pth_ring_prepend. do 2 ring_step. rewrite is_null_false by done.
  simpl. do 2 ring_step. destruct (decide (l = [])) as [->|Hne].
  - rewrite Hh. simpl. repeat ring_step. split; [|ring_frame_tac].
    eexists. split_and!; try done; [simpl; rewrite Hn, u32_count; done|].
    simpl. apply cyc_singleton; links.
  - destruct (cyc_gap _ [] l _ Hc Hrn Hne) as (y & p & n & m & Hy & ? & ? & ? & ? & ? & ? & ? & ? & ? & ? & ?).
    rewrite app_nil_r in Hy.
    assert (r_hook r = y) as Hhy by (rewrite Hh; unfold head_or; by rewrite Hy).
    rewrite Hhy. rewrite is_null_false by done. repeat ring_step.
    split; [|ring_frame_tac]. eexists. split_and!; try done.
    + simpl. rewrite Hn, u32_count. f_equal. lia.
    + simpl. eapply (cyc_link_mid _ _ rn [] l); try done; [by rewrite app_nil_r|intros z; links..].
Qed.

Lemma pth_ring_insert_after_spec s l1 rn1 l2 rn2 :
  ring_repr s (l1 ++ rn1 :: l2) → rn2 ∉ l1 ++ rn1 :: l2 → is_Some (load (nodes s) rn2) →
  wp (pth_ring_insert_after rn1 rn2)
    (λ _ s', ring_repr s' (l1 ++ rn1 :: rn2 :: l2) ∧ ring_frame (rn2 :: l1 ++ rn1 :: l2) s s') s.
Proof.
  intros (r & Hr & Hh & Hn & Hc) Hrn (a & b & Ha & Hb & Hnz)%node_links.
  assert (rn1 ≠ NULL) by (eapply cyc_nonnull; [done|set_solver]).
  unfold pth_ring_insert_after. do 2 ring_step. rewrite !is_null_false by done. simpl.
  rewrite cons_middle, app_assoc in Hc, Hrn.
  destruct (cyc_gap _ _ _ _ Hc Hrn) as (y & p & n & m & Hy & Hp & ? & ? & ? & ? & ? & ? & ? & ? & ? & ?);
    [by destruct l1|].
  rewrite app_assoc, last_snoc in Hp. injection Hp as <-. repeat ring_step.
  split; [|ring_frame_tac]. eexists. split_and!; try done.
  - simpl. rewrite Hh. by destruct l1.
  - simpl. rewrite Hn, u32_count, !length_app. simpl. f_equal. lia.
  - simpl. rewrite cons_middle, app_assoc.
    eapply (cyc_link_mid _ _ rn2 (l1 ++ [rn1]) l2 y rn1); try done.
    + by rewrite app_assoc, last_snoc.
    + intros z; links.
    + intros z; links.
Qed.

(** Inserting before the hook node puts the new node at the end of the ring. *)
Lemma pth_ring_insert_before_spec s l1 rn1 l2 rn2 :
  ring_repr s (l1 ++ rn1 :: l2) → rn2 ∉ l1 ++ rn1 :: l2 → is_Some (load (nodes s) rn2) →
  wp (pth_ring_insert_before rn1 rn2)
    (λ _ s', ring_repr s' (match l1 with [] => rn1 :: l2 ++ [rn2] | _ => l1 ++ rn2 :: rn1 :: l2 end)
             ∧ ring_frame (rn2 :: l1 ++ rn1 :: l2) s s') s.
Proof.
  intros (r & Hr & Hh & Hn & Hc) Hrn (a & b & Ha & Hb & Hnz)%node_links.
  assert (rn1 ≠ NULL) by (eapply cyc_nonnull; [done|set_solver]).
  unfold pth_ring_insert_before. do 2 ring_step. rewrite !is_null_false by done. simpl.
  destruct (cyc_gap _ _ _ _ Hc Hrn) as (y & p & n & m & Hy & Hp & ? & ? & ? & ? & ? & ? & ? & ? & ? & ?);
    [by destruct l1|].
  simpl in Hy. injection Hy as <-. repeat ring_step.
  split; [|ring_frame_tac]. eexists. split_and!; try done.
  - simpl. rewrite Hh. by destruct l1.
  - simpl. rewrite Hn, u32_count. f_equal. destruct l1; simpl; rewrite ?length_app; simpl; lia.
  - assert (cyc (alter (set_pv rn2) rn1 (alter (set_nx rn2) p (alter (set_pv p) rn2
      (alter (set_nx rn1) rn2 (nodes s))))) (l1 ++ rn2 :: rn1 :: l2)) as Hc'.
    { eapply (cyc_link_mid _ _ rn2 l1 (rn1 :: l2) rn1 p); try done; intros z; links. }
    destruct l1; [|done]. simpl. rewrite app_comm_cons. by apply (cyc_rotate _ [rn2] (rn1 :: l2)).
Qed.

Lemma pth_ring_delete_spec s l1 rn l2 :
  ring_repr s (l1 ++ rn :: l2) →
  wp (pth_ring_delete rn)
    (λ _ s', ring_repr s' (l1 ++ l2) ∧ ring_frame (l1 ++ l2) s s') s.
Proof.
  intros (r & Hr & Hh & Hn & Hc).
  assert (rn ≠ NULL) by (eapply cyc_nonnull; [done|set_solver]).
  unfold pth_ring_delete. do 2 ring_step. rewrite is_null_false by done. simpl.
  destruct (cyc_neighbours _ _ _ _ Hc) as [[-> ->]|(y & p & Hy & Hp & Hnx & Hpv & [mn Hny] & [my Hmy] & [mp Hmp] & ? & ? & ? & ?)].
  - destruct (cyc_mid _ [] _ _ Hc) as [Hnx Hpv]. simpl in *. do 2 ring_step.
    rewrite Hh, head_or_cons, !bool_decide_true by done.
    repeat ring_step. rewrite !bool_decide_true by done. simpl. repeat ring_step.
    split; [|ring_frame_tac]. eexists. split_and!; try done.
    simpl. rewrite Hn, u32_count. done.
  - do 2 ring_step.
    assert (u32 (r_nodes r + -1) = u32 (Z.of_nat (length (l1 ++ l2)))) as Hlen.
    { rewrite Hn, u32_count, !length_app. simpl. f_equal. lia. }
    destruct (decide (r_hook r = rn)) as [Hhr|Hhr].
    + rewrite Hhr, !bool_decide_true by done. repeat ring_step.
      rewrite (bool_decide_false (p = rn)) by done. simpl. repeat ring_step.
      split; [|ring_frame_tac]. eexists. split_and!; try done; simpl.
      * assert (l1 = []) as ->; [|simpl in *; rewrite app_nil_r in Hy; unfold head_or; by rewrite Hy].
        pose proof (cyc_NoDup _ _ Hc) as Hnd. destruct l1 as [|z l1]; [done|].
        rewrite Hh in Hhr. simpl in Hhr, Hnd. rewrite head_or_cons in Hhr. subst.
        apply NoDup_cons in Hnd as [[] _]. set_solver.
      * eapply (cyc_unlink_mid _ _ rn l1 l2 y p); try done; intros z ?; links.
    + rewrite !bool_decide_false by done. repeat ring_step.
      split; [|ring_frame_tac]. eexists. split_and!; try done; simpl.
      * rewrite Hh. destruct l1; [|done]. by rewrite Hh in Hhr.
      * eapply (cyc_unlink_mid _ _ rn l1 l2 y p); try done; intros z ?; links.
Qed.

(** ** Readers *)
Lemma ring_first_run s l : ring_repr s l → wp pth_ring_first (λ v s', v = head_or NULL l ∧ s' = s) s.
Proof. intros (r & Hr & Hh & _). unfold pth_ring_first. repeat ring_step. done. Qed.

Lemma ring_last_run s l : ring_repr s l → wp pth_ring_last (λ v s', v = last_or NULL l ∧ s' = s) s.
Proof.
  intros (r & Hr & Hh & Hn & Hc). unfold pth_ring_last. repeat ring_step.
  rewrite Hh. destruct l as [|y l]; [done|]. rewrite head_or_cons, last_or_cons.
  assert (y ≠ NULL) by (eapply cyc_nonnull; [done|set_solver]). rewrite is_null_false by done.
  eapply wp_rn_ld_prev; [by apply cyc_head_prev|done].
Qed.

Lemma pth_ring_next_spec s l1 rn l2 :
  ring_repr s (l1 ++ rn :: l2) →
  wp (pth_ring_next rn) (λ v s', v = head_or NULL l2 ∧ s' = s) s.
Proof.
  intros (r & Hr & Hh & Hn & Hc). destruct (cyc_mid _ _ _ _ Hc) as [Hnx _].
  pose proof (cyc_NoDup _ _ Hc) as Hnd.
  assert (rn ≠ NULL) by (eapply cyc_nonnull; [done|set_solver]).
  unfold pth_ring_next. repeat ring_step. rewrite is_null_false by done. simpl.
  repeat ring_step. destruct l2 as [|y l2]; simpl in *.
  - assert (head_or rn l1 = r_hook r) as ->; [by rewrite Hh; destruct l1|].
    by rewrite bool_decide_true.
  - rewrite head_or_cons in *. rewrite bool_decide_false; [by repeat ring_step|].
    rewrite Hh. apply NoDup_app in Hnd as (_ & Hd & Hnd). intros Heq.
    destruct l1 as [|z l1]; simpl in Heq; rewrite head_or_cons in Heq; subst.
    + apply NoDup_cons in Hnd as [[] _]. left.
    + apply (Hd z); [left|right; left].
Qed.

Lemma pth_ring_prev_spec s l1 rn l2 :
  ring_repr s (l1 ++ rn :: l2) →
  wp (pth_ring_prev rn) (λ v s', v = last_or NULL l1 ∧ s' = s) s.
Proof.
  intros (r & Hr & Hh & Hn & Hc). destruct (cyc_mid _ _ _ _ Hc) as [_ Hpv].
  pose proof (cyc_NoDup _ _ Hc) as Hnd.
  assert (rn ≠ NULL) by (eapply cyc_nonnull; [done|set_solver]).
  unfold pth_ring_prev. repeat ring_step. rewrite is_null_false by done. simpl.
  repeat ring_step. assert (pvf (nodes s) (r_hook r) = Some (last_or rn l2)) as Hlast.
  { rewrite Hh. destruct l1 as [|z l1]; simpl in *; rewrite head_or_cons, (cyc_head_prev _ _ _ Hc);
      autorewrite with lists; done. }
  eapply wp_rn_ld_prev; [done|]. destruct l1 as [|z l1] using rev_ind; simpl in *.
  - rewrite app_nil_r in *. by rewrite bool_decide_true.
  - clear IHl1. rewrite app_assoc in Hpv |- *. rewrite last_or_snoc in Hpv. rewrite !last_or_snoc.
    rewrite bool_decide_false; [by repeat ring_step|]. intros Heq.
    pose proof (last_or_elem rn l2) as Hin. rewrite <- Heq in Hin. apply NoDup_app in Hnd as (_ & Hd & _).
    apply (Hd z); [set_solver|done].
Qed.

Lemma pth_ring_elements_spec s l :
  ring_repr s l → Z.of_nat (length l) ≤ INT_MAX →
  wp pth_ring_elements (λ v s', v = Z.of_nat (length l) ∧ s' = s) s.
Proof.
  intros (r & Hr & _ & Hn & _) Hl. unfold pth_ring_elements. repeat ring_step.
  rewrite Hr, Hn, u32_id, s32_id; unfold INT_MIN, INT_MAX in *; [done|lia..].
Qed.

(** ** Stack, queue and favorite disciplines *)
Lemma pth_ring_pop_spec s l :
  ring_repr s l →
  wp pth_ring_pop (λ v s', v = head_or NULL l ∧ ring_repr s' (tail l) ∧ ring_frame (tail l) s s') s.
Proof.
  intros Hl. unfold pth_ring_pop. wps. eapply wp_mono; [by apply ring_first_run|].
  intros v s' [-> ->]. destruct l as [|y l]; [wps; split_and!; done|].
  rewrite head_or_cons, is_null_false.
  2: { destruct Hl as (? & _ & _ & _ & Hc). eapply cyc_nonnull; [done|set_solver]. }
  wps. eapply wp_mono; [by apply (pth_ring_delete_spec s [] y l)|]. intros _ s' [? ?]. wps. done.
Qed.

Lemma pth_ring_dequeue_spec s l x :
  ring_repr s (l ++ [x]) →
  wp pth_ring_dequeue (λ v s', v = x ∧ ring_repr s' l ∧ ring_frame l s s') s.
Proof.
  intros Hl. unfold pth_ring_dequeue. wps. eapply wp_mono; [by apply ring_last_run|].
  intros v s' [-> ->]. rewrite last_or_snoc, is_null_false.
  2: { destruct Hl as (? & _ & _ & _ & Hc). eapply cyc_nonnull; [done|set_solver]. }
  wps. eapply wp_mono; [by apply (pth_ring_delete_spec s l x [])|].
  intros ? s' Hs. wps. rewrite app_nil_r in Hs. done.
Qed.

Lemma ring_nodes_load s l x : ring_repr s l → x ∈ l → is_Some (load (nodes s) x).
Proof. intros (r & _ & _ & _ & Hc) Hx. by eapply cyc_load. Qed.

Lemma ring_frame_load D s s' x :
  ring_frame D s s' → x ∉ D → load (nodes s') x = load (nodes s) x.
Proof. intros [Hf _] Hx. unfold load. by rewrite Hf. Qed.

Lemma ring_repr_NoDup s l : ring_repr s l → NoDup l.
Proof. intros (r & _ & _ & _ & Hc). by eapply cyc_NoDup. Qed.

Lemma pth_ring_favorite_spec s l1 rn l2 :
  ring_repr s (l1 ++ rn :: l2) →
  wp (pth_ring_favorite rn)
    (λ v s', v = true ∧ ring_repr s' (rn :: l1 ++ l2) ∧ ring_frame (l1 ++ rn :: l2) s s') s.
Proof.
  intros Hl. pose proof (ring_repr_NoDup _ _ Hl) as Hnd. destruct Hl as (r & Hr & Hh & Hn & Hc).
  assert (Hrepr : ring_repr s (l1 ++ rn :: l2)) by (by exists r).
  unfold pth_ring_favorite. repeat ring_step.
  assert (r_hook r ≠ NULL).
  { rewrite Hh. eapply cyc_nonnull; [done|]. destruct l1; simpl; rewrite head_or_cons; left. }
  rewrite is_null_false by done. case_bool_decide as Hrn.
  - assert (l1 = []) as ->.
    { destruct l1 as [|z l1]; [done|]. rewrite Hh in Hrn. simpl in Hnd, Hrn. rewrite head_or_cons in Hrn.
      subst. apply NoDup_cons in Hnd as [[] _]. set_solver. }
    wps. split_and!; [done..|]. by split_and!.
  - wps. assert (rn ∉ l1 ++ l2) as Hni.
    { rewrite Permutation_app_comm in Hnd. apply NoDup_cons in Hnd as [? _]. set_solver. }
    eapply wp_mono; [by apply pth_ring_delete_spec|]. intros _ s1 [Hs1 Hf1]. wps.
    eapply wp_mono; [apply (pth_ring_prepend_spec s1 (l1 ++ l2)); [done..|]|].
    + rewrite (ring_frame_load _ _ _ _ Hf1) by done. eapply ring_nodes_load; [done|set_solver].
    + intros _ s2 [Hs2 Hf2]. wps. split_and!; [done..|].
      destruct Hf1 as (Hf1 & ? & He1), Hf2 as (Hf2 & ? & He2). split_and!; [|congruence..].
      intros z Hz. rewrite Hf2, Hf1 by set_solver. done.
Qed.

(** ** Membership *)
Lemma ring_contains_loop_spec s rns l1 rn l2 fuel :
  ring_repr s (l1 ++ rn :: l2) → rns ∉ l1 → (length (rn :: l2) ≤ fuel)%nat →
  wp (ring_contains_loop fuel rns rn) (λ b s', b = bool_decide (rns ∈ l1 ++ rn :: l2) ∧ s' = s) s.
Proof.
  revert l1 rn fuel. induction l2 as [|y l2 IH]; intros l1 rn [|fuel] Hs Hni Hf; simpl in Hf; try lia;
    pose proof Hs as (r & Hr & Hh & Hn & Hc); destruct (cyc_mid _ _ _ _ Hc) as [Hnx _]; simpl.
  - case_bool_decide as Hrn; [wps; rewrite bool_decide_true; [done|set_solver]|].
    repeat ring_step. rewrite (bool_decide_true (_ = r_hook r)).
    + wps. rewrite bool_decide_false; [done|set_solver].
    + rewrite Hh. by destruct l1.
  - case_bool_decide as Hrn; [wps; rewrite bool_decide_true; [done|set_solver]|].
    repeat ring_step. simpl in Hnx. rewrite head_or_cons. rewrite bool_decide_false.
    + rewrite cons_middle, app_assoc in Hs |- *. apply IH; [done|set_solver|simpl; lia].
    + rewrite Hh. pose proof (cyc_NoDup _ _ Hc) as Hnd. intros Heq.
      rewrite cons_middle, app_assoc in Hnd.
      apply NoDup_app in Hnd as (_ & Hd & _). destruct l1 as [|z l1]; simpl in Heq;
        rewrite head_or_cons in Heq; subst; [apply (Hd rn)|apply (Hd z)]; set_solver.
Qed.

Lemma pth_ring_contains_spec s l rns :
  ring_repr s l → rns ≠ NULL →
  wp (pth_ring_contains rns) (λ b s', b = bool_decide (rns ∈ l) ∧ s' = s) s.
Proof.
  intros Hs Hnz. pose proof Hs as (r & Hr & Hh & Hn & Hc). unfold pth_ring_contains.
  repeat ring_step. rewrite is_null_false by done. simpl. repeat ring_step. rewrite Hh.
  destruct l as [|y l]; [done|]. rewrite head_or_cons, is_null_false.
  2: { eapply cyc_nonnull; [done|set_solver]. }
  wps. apply (ring_contains_loop_spec s rns [] y l); [done|set_solver|]. by apply cyc_size.
Qed.

(** ** Refinement: sequences of ring operations against lists *)
Inductive ring_op :=
  | RAppend (rn : N) | RPrepend (rn : N) | RInsertAfter (rn1 rn2 : N)
  | RInsertBefore (rn1 rn2 : N) | RDelete (rn : N) | RPop | RDequeue | RFavorite (rn : N)
  | RContains (rn : N).

(** What an operation returns: nothing, a node or a truth value. *)
Inductive ring_ret := RUnit | RNode (rn : N) | RBool (b : bool).

Definition ring_exec (op : ring_op) : M rstate ring_ret :=
  match op with
  | RAppend rn => pth_ring_append rn ;; ret RUnit
  | RPrepend rn => pth_ring_prepend rn ;; ret RUnit
  | RInsertAfter rn1 rn2 => pth_ring_insert_after rn1 rn2 ;; ret RUnit
  | RInsertBefore rn1 rn2 => pth_ring_insert_before rn1 rn2 ;; ret RUnit
  | RDelete rn => pth_ring_delete rn ;; ret RUnit
  | RPop => do v <- pth_ring_pop; ret (RNode v)
  | RDequeue => do v <- pth_ring_dequeue; ret (RNode v)
  | RFavorite rn => do b <- pth_ring_favorite rn; ret (RBool b)
  | RContains rn => do b <- pth_ring_contains rn; ret (RBool b)
  end.

Fixpoint ring_exec_all (ops : list ring_op) : M rstate (list ring_ret) :=
  match ops with
  | [] => ret []
  | op :: ops' => do v <- ring_exec op; do vs <- ring_exec_all ops'; ret (v :: vs)
  end.

(** The list [l] cut at its first [x]. *)
Fixpoint cut_at (x : N) (l : list N) : option (list N * list N) :=
  match l with
  | [] => None
  | y :: l' => if decide (y = x) then Some ([], l')
               else '(l1, l2) ← cut_at x l'; Some (y :: l1, l2)
  end.

(** The abstract ring: a list of nodes without repetition; [D] is the set of
    allocated nodes.  [None] where the C code has no defined meaning: a node
    inserted twice or not allocated, a node removed that is not in the ring. *)
Definition ring_spec (D : gset N) (op : ring_op) (l : list N) : option (ring_ret * list N) :=
  match op with
  | RAppend rn =>
      if decide (rn ∈ D ∧ rn ∉ l ∧ rn ≠ NULL) then Some (RUnit, l ++ [rn]) else None
  | RPrepend rn =>
      if decide (rn ∈ D ∧ rn ∉ l ∧ rn ≠ NULL) then Some (RUnit, rn :: l) else None
  | RInsertAfter rn1 rn2 =>
      if decide (rn2 ∈ D ∧ rn2 ∉ l ∧ rn2 ≠ NULL) then
        '(l1, l2) ← cut_at rn1 l; Some (RUnit, l1 ++ rn1 :: rn2 :: l2)
      else None
  | RInsertBefore rn1 rn2 =>
      if decide (rn2 ∈ D ∧ rn2 ∉ l ∧ rn2 ≠ NULL) then
        '(l1, l2) ← cut_at rn1 l;
        Some (RUnit, match l1 with [] => rn1 :: l2 ++ [rn2] | _ => l1 ++ rn2 :: rn1 :: l2 end)
      else None
  | RDelete rn => '(l1, l2) ← cut_at rn l; Some (RUnit, l1 ++ l2)
  | RPop => Some (RNode (head_or NULL l), tail l)
  | RDequeue => match last l with
                | Some x => Some (RNode x, take (length l - 1) l)
                | None => Some (RNode NULL, [])
                end
  | RFavorite rn => '(l1, l2) ← cut_at rn l; Some (RBool true, rn :: l1 ++ l2)
  | RContains rn => if decide (rn ≠ NULL) then Some (RBool (bool_decide (rn ∈ l)), l) else None
  end.

Fixpoint ring_spec_all (D : gset N) (ops : list ring_op) (l : list N)
  : option (list ring_ret * list N) :=
  match ops with
  | [] => Some ([], l)
  | op :: ops' =>
      '(v, l1) ← ring_spec D op l; '(vs, l2) ← ring_spec_all D ops' l1; Some (v :: vs, l2)
  end.

Lemma cut_at_Some x l l1 l2 : cut_at x l = Some (l1, l2) → l = l1 ++ x :: l2.
Proof.
  revert l1. induction l as [|y l IH]; intros l1 H; simpl in H; [done|].
  case_decide; [naive_solver|]. destruct (cut_at x l) as [[m1 m2]|]; [|done].
  simpl in H. simplify_eq. simpl. f_equal. by apply IH.
Qed.

Lemma ring_dequeue_nil s :
  ring_repr s [] → wp pth_ring_dequeue (λ v s', v = NULL ∧ s' = s) s.
Proof.
  intros Hs. unfold pth_ring_dequeue. wps. eapply wp_mono; [by apply ring_last_run|].
  intros v s' [-> ->]. wps. done.
Qed.

(** One step: where the abstract ring has an answer, the C code gives it. *)
Lemma ring_exec_refines s l op v l' :
  ring_repr s l → ring_spec (dom (nodes s)) op l = Some (v, l') →
  wp (ring_exec op) (λ v' s', v' = v ∧ ring_repr s' l' ∧ dom (nodes s') = dom (nodes s)) s.
Proof.
  intros Hs Hop.
  destruct op as [rn|rn|rn1 rn2|rn1 rn2|rn| | |rn|rn]; simpl in Hop |- *; wps;
    repeat (case_decide; simpl in Hop; [|done]);
    try (destruct (cut_at _ l) as [[l1 l2]|] eqn:Hcut; [|done]; simpl in Hop;
         apply cut_at_Some in Hcut as ->); destruct_and?; simplify_eq.
  - eapply wp_mono; [apply (pth_ring_append_spec s l rn); [done..|by apply load_dom]|].
    intros _ s' [? (_ & ? & _)]. wps. done.
  - eapply wp_mono; [apply (pth_ring_prepend_spec s l rn); [done..|by apply load_dom]|].
    intros _ s' [? (_ & ? & _)]. wps. done.
  - eapply wp_mono; [apply (pth_ring_insert_after_spec s l1 rn1 l2 rn2); [done..|by apply load_dom]|].
    intros _ s' [? (_ & ? & _)]. wps. done.
  - eapply wp_mono; [apply (pth_ring_insert_before_spec s l1 rn1 l2 rn2); [done..|by apply load_dom]|].
    intros _ s' [? (_ & ? & _)]. wps. done.
  - eapply wp_mono; [by apply pth_ring_delete_spec|]. intros _ s' [? (_ & ? & _)]. wps. done.
  - eapply wp_mono; [by apply pth_ring_pop_spec|]. intros ? s' (-> & ? & (_ & ? & _)). wps. done.
  - destruct (last l) as [x|] eqn:Hl; simplify_eq.
    + apply last_Some in Hl as [l0 ->].
      eapply wp_mono; [by apply pth_ring_dequeue_spec|]. intros ? s' (-> & ? & (_ & ? & _)). wps.
      rewrite length_app, Nat.add_sub, take_app_length. done.
    + apply last_None in Hl as ->. eapply wp_mono; [by apply ring_dequeue_nil|].
      intros ? s' [-> ->]. wps. done.
  - eapply wp_mono; [by apply pth_ring_favorite_spec|]. intros ? s' (-> & ? & (_ & ? & _)). wps. done.
  - eapply wp_mono; [by apply pth_ring_contains_spec|]. intros ? s' [-> ->]. wps. done.
Qed.

(** C20: Every sequence of ring operations refines the abstract ring, a list of
    nodes: whenever the list specification has an answer for each operation, the
    pointer code of pth_ring.c runs without undefined behaviour, returns the same
    values and ends in a ring that represents the specified list. *)
Theorem ring_refinement ops s l vs l' :
  ring_repr s l → ring_spec_all (dom (nodes s)) ops l = Some (vs, l') →
  ∃ s', ring_exec_all ops s = Some (vs, s') ∧ ring_repr s' l'.
Proof.
  revert s l vs. induction ops as [|op ops IH]; intros s l vs Hs Hops; simpl in Hops.
  - simplify_eq. by exists s.
  - destruct (ring_spec _ op l) as [[v l1]|] eqn:Hop; [|done]. simpl in Hops.
    destruct (ring_spec_all _ ops l1) as [[vs1 l2]|] eqn:Hrest; [|done]. simpl in Hops. simplify_eq.
    apply (ring_exec_refines s l op v l1 Hs), wp_run in Hop as (v' & s1 & Hrun & -> & Hs1 & Hdom).
    rewrite <- Hdom in Hrest. destruct (IH s1 l1 vs1 Hs1 Hrest) as (s2 & Hrun2 & Hs2).
    exists s2. split; [|done]. simpl. unfold bind. by rewrite Hrun, Hrun2.
Qed.

(** Three nodes appended, one moved to the front, one removed. *)
Definition ring_demo : rstate :=
  RState (list_to_map [(1%N, Ringnode 0 0); (2%N, Ringnode 0 0); (3%N, Ringnode 0 0)])
         (Some PTH_RING_INIT) 0.
Definition ring_demo_ops : list ring_op :=
  [RAppend 1; RAppend 2; RAppend 3; RFavorite 3; RDelete 1; RInsertBefore 3 1; RPop; RDequeue].

Lemma ring_refinement_witness :
  ∃ s', ring_exec_all ring_demo_ops ring_demo =
          Some ([RUnit; RUnit; RUnit; RBool true; RUnit; RUnit; RNode 3; RNode 1], s') ∧
        ring_repr s' [2%N].
Proof.
  apply (ring_refinement ring_demo_ops ring_demo []).
  - exists PTH_RING_INIT. split_and!; done.
  - vm_compute. reflexivity.
Defined.
