(* ===== verification/Pqueue.v ===== *)
(** * Thread priority queues (pth_pqueue.c)

A queue is a circular doubly linked list of threads, kept in descending order of
priority with ties in insertion order.  Only the first thread stores its priority;
every other one stores the difference to its predecessor, so that raising the
priority of all threads is one addition.  [pq_repr s l] says that the queue
represents the list [l] of threads with their absolute priorities.

The rest of the thread control block is the payload [q_body], which no queue
operation touches. *)
From stdpp Require Import sorting.
From S2P Require Import Prelude Links.

Record qnode (B : Type) := Qnode { q_next : N; q_prev : N; q_prio : Z; q_body : B }.
Arguments Qnode {_} _ _ _ _.
Arguments q_next {_} _.
Arguments q_prev {_} _.
Arguments q_prio {_} _.
Arguments q_body {_} _.

Record pth_pqueue := Pqueue { q_head : N; q_num : Z }.

#[export] Instance qnode_linked B : Linked (qnode B).
Proof.
  refine {| nx := q_next; pv := q_prev;
            set_nx := λ p n, Qnode p (q_prev n) (q_prio n) (q_body n);
            set_pv := λ p n, Qnode (q_next n) p (q_prio n) (q_body n) |}; done.
Defined.

Definition set_prio {B} (z : Z) (n : qnode B) : qnode B :=
  Qnode (q_next n) (q_prev n) z (q_body n).

Definition PTH_PRIO_MAX : Z := 5.
Definition PTH_PRIO_STD : Z := 0.
Definition PTH_PRIO_MIN : Z := -5.
Definition PTH_WALK_NEXT : Z := BIT 1.
Definition PTH_WALK_PREV : Z := BIT 2.

(** The thread heap and the queue object ([None] for a [NULL] queue pointer). *)
Record qstate (B : Type) := QState { tcbs : gmap N (qnode B); q_obj : option pth_pqueue }.
Arguments QState {_} _ _.
Arguments tcbs {_} _.
Arguments q_obj {_} _.

Section pqueue.
Context {B : Type}.
Notation M := (M (qstate B)).

Definition ld_next (p : ptr) : M N := λ s, n ← load (tcbs s) p; Some (q_next n, s).
Definition ld_prev (p : ptr) : M N := λ s, n ← load (tcbs s) p; Some (q_prev n, s).
Definition ld_prio (p : ptr) : M Z := λ s, n ← load (tcbs s) p; Some (q_prio n, s).
Definition st_next (p v : ptr) : M unit :=
  λ s, _ ← load (tcbs s) p; Some (tt, QState (alter (set_nx v) p (tcbs s)) (q_obj s)).
Definition st_prev (p v : ptr) : M unit :=
  λ s, _ ← load (tcbs s) p; Some (tt, QState (alter (set_pv v) p (tcbs s)) (q_obj s)).
Definition st_prio (p : ptr) (z : Z) : M unit :=
  λ s, _ ← load (tcbs s) p; Some (tt, QState (alter (set_prio z) p (tcbs s)) (q_obj s)).
Definition ld_head : M N := λ s, q ← q_obj s; Some (q_head q, s).
Definition ld_num : M Z := λ s, q ← q_obj s; Some (q_num q, s).
Definition st_head (v : ptr) : M unit :=
  λ s, q ← q_obj s; Some (tt, QState (tcbs s) (Some (Pqueue v (q_num q)))).
Definition st_num (z : Z) : M unit :=
  λ s, q ← q_obj s; Some (tt, QState (tcbs s) (Some (Pqueue (q_head q) z))).
(** [q->q_num++] and [q->q_num--]. *)
Definition add_num (d : Z) : M unit := do num <- ld_num; do v <- int_chk (num + d); st_num v.
Definition q_null : M bool :=
  gets (λ s, match q_obj s with None => true | Some _ => false end).

Definition pth_pqueue_init : M unit :=
  do null <- q_null;
  if null then ret tt else st_head NULL ;; st_num 0.

(** [while ((p - c->q_next->q_prio) >= prio && c->q_next != q->q_head)] *)
Fixpoint insert_walk (fuel : nat) (prio : Z) (c : ptr) (p : Z) : M (N * Z) :=
  match fuel with
  | O => ub
  | S fuel' =>
      do n <- ld_next c; do np <- ld_prio n; do d <- int_chk (p - np);
      do n' <- ld_next c; do head <- ld_head;
      if (prio <=? d) && negb (bool_decide (n' = head)) then
        do c' <- ld_next c; do cp <- ld_prio c'; do p' <- int_chk (p - cp);
        insert_walk fuel' prio c' p'
      else ret (c, p)
  end.

(** The three branches of [pth_pqueue_insert]. *)
Definition insert_first (prio : Z) (t : ptr) : M unit :=
  st_prev t t ;; st_next t t ;; st_prio t prio ;; st_head t.

Definition insert_head (prio : Z) (t head : ptr) : M unit :=
  do p <- ld_prev head; st_prev t p ;;
  st_next t head ;;
  do a <- ld_prev t; st_next a t ;;
  do b <- ld_next t; st_prev b t ;;
  st_prio t prio ;;
  do n <- ld_next t; do np <- ld_prio n; do v <- int_chk (prio - np); st_prio n v ;;
  st_head t.

Definition insert_after (prio : Z) (t c : ptr) (p : Z) : M unit :=
  st_prev t c ;;
  do n <- ld_next c; st_next t n ;;
  do a <- ld_prev t; st_next a t ;;
  do b <- ld_next t; st_prev b t ;;
  do v <- int_chk (p - prio); st_prio t v ;;
  do n' <- ld_next t; do head <- ld_head;
  if bool_decide (n' = head) then ret tt
  else do np <- ld_prio n'; do tp <- ld_prio t; do w <- int_chk (np - tp); st_prio n' w.

Definition pth_pqueue_insert (prio : Z) (t : ptr) : M unit :=
  do null <- q_null;
  if null then ret tt
  else
    do head <- ld_head; do num <- ld_num;
    (if is_null head || (num =? 0) then insert_first prio t
     else
       do hp <- ld_prio head;
       if hp <? prio then insert_head prio t head
       else
         do p0 <- ld_prio head; do fuel <- gets (λ s, size (tcbs s));
         do (c, p) <- insert_walk fuel prio head p0;
         insert_after prio t c p) ;;
    add_num 1.

(** The common tail of [pth_pqueue_delmax] and of the head branch of
    [pth_pqueue_delete]: both functions spell the same statements. *)
Definition unlink_last (t : ptr) : M unit :=
  st_next t NULL ;; st_prev t NULL ;; st_prio t 0 ;; st_head NULL ;; st_num 0.

Definition unlink_head (t : ptr) : M unit :=
  do p <- ld_prev t; do n <- ld_next t; st_next p n ;;
  do n1 <- ld_next t; do p1 <- ld_prev t; st_prev n1 p1 ;;
  do n2 <- ld_next t; do tp <- ld_prio t; do np <- ld_prio n2;
  do v <- int_chk (tp - np); st_prio n2 v ;;
  st_prio t 0 ;;
  do n3 <- ld_next t; st_head n3 ;;
  add_num (-1).

Definition pth_pqueue_delmax : M N :=
  do null <- q_null;
  if null then ret NULL
  else
    do head <- ld_head;
    if is_null head then ret NULL
    else
      do n <- ld_next head;
      if bool_decide (n = head) then unlink_last head ;; ret head
      else unlink_head head ;; ret head.

(** The last branch of [pth_pqueue_delete]: a thread that is not the first. *)
Definition delete_mid (t : ptr) : M unit :=
  do p <- ld_prev t; do n <- ld_next t; st_next p n ;;
  do n1 <- ld_next t; do p1 <- ld_prev t; st_prev n1 p1 ;;
  do n2 <- ld_next t; do head <- ld_head;
  (if bool_decide (n2 = head) then ret tt
   else do np <- ld_prio n2; do tp <- ld_prio t; do v <- int_chk (np + tp); st_prio n2 v) ;;
  st_prio t 0 ;;
  add_num (-1).

Definition pth_pqueue_delete (t : ptr) : M unit :=
  do null <- q_null;
  if null then ret tt
  else
    do head <- ld_head;
    if is_null head then ret tt
    else if bool_decide (head = t) then
      do n <- ld_next t;
      if bool_decide (n = t) then unlink_last t else unlink_head t
    else delete_mid t.

Definition pth_pqueue_favorite_prio : M Z :=
  do head <- ld_head;
  if is_null head then ret PTH_PRIO_MAX
  else do p <- ld_prio head; int_chk (p + 1).

Definition pth_pqueue_favorite (t : ptr) : M bool :=
  do null <- q_null;
  if null then ret false
  else
    do head <- ld_head; do num <- ld_num;
    if is_null head || (num =? 0) then ret false
    else if num =? 1 then ret true
    else
      pth_pqueue_delete t ;;
      do p <- pth_pqueue_favorite_prio; pth_pqueue_insert p t ;;
      ret true.

Definition pth_pqueue_increase : M unit :=
  do null <- q_null;
  if null then ret tt
  else
    do head <- ld_head;
    if is_null head then ret tt
    else do p <- ld_prio head; do v <- int_chk (p + 1); st_prio head v.

Definition pth_pqueue_elements : M Z :=
  do null <- q_null; if null then ret (-1) else ld_num.

Definition pth_pqueue_head : M N :=
  do null <- q_null; if null then ret NULL else ld_head.

Definition pth_pqueue_tail : M N :=
  do null <- q_null;
  if null then ret NULL
  else do head <- ld_head; if is_null head then ret NULL else ld_prev head.

Definition pth_pqueue_walk (t : ptr) (direction : Z) : M N :=
  do null <- q_null;
  if null || is_null t then ret NULL
  else if direction =? PTH_WALK_PREV then
    do head <- ld_head;
    if bool_decide (t = head) then ret NULL else ld_prev t
  else if direction =? PTH_WALK_NEXT then
    do tn <- ld_next t; do head <- ld_head;
    if bool_decide (tn = head) then ret NULL else ret tn
  else ret NULL.

(** [for (tc = head; tc != NULL; tc = walk(q, tc, PTH_WALK_NEXT))] *)
Fixpoint contains_loop (fuel : nat) (t tc : ptr) : M bool :=
  match fuel with
  | O => ub
  | S fuel' =>
      if is_null tc then ret false
      else if bool_decide (tc = t) then ret true
      else do tn <- pth_pqueue_walk tc PTH_WALK_NEXT; contains_loop fuel' t tn
  end.

Definition pth_pqueue_contains (t : ptr) : M bool :=
  do tc <- pth_pqueue_head; do fuel <- gets (λ s, S (size (tcbs s)));
  contains_loop fuel t tc.

(** ** Representation *)
Definition prf (h : gmap N (qnode B)) (x : N) : option Z := q_prio <$> load h x.

(** The threads of [l] store the differences to their predecessor, whose
    priority is [p]; the order is descending. *)
Fixpoint deltas (h : gmap N (qnode B)) (p : Z) (l : list (N * Z)) : Prop :=
  match l with
  | [] => True
  | (x, px) :: l' => prf h x = Some (p - px) ∧ px ≤ p ∧ deltas h px l'
  end.

Definition pq_vals (h : gmap N (qnode B)) (l : list (N * Z)) : Prop :=
  match l with
  | [] => True
  | (x, px) :: l' => prf h x = Some px ∧ deltas h px l'
  end.

Definition pq_repr (s : qstate B) (l : list (N * Z)) : Prop :=
  ∃ q, q_obj s = Some q ∧ q_head q = head_or NULL l.*1 ∧ q_num q = Z.of_nat (length l) ∧
       cyc (tcbs s) l.*1 ∧ pq_vals (tcbs s) l.

(** Priorities stay within half the [int] range, so differences fit an [int]. *)
Definition PB : Z := 1073741823.
Definition prio_ok (p : Z) : Prop := - PB ≤ p ≤ PB.
Definition pq_ok (l : list (N * Z)) : Prop :=
  Forall (λ xp, prio_ok xp.2) l ∧ Z.of_nat (length l) < INT_MAX.

(** Queue operations write links and queue priorities of the threads in [D] only. *)
Definition pq_frame (D : list N) (h h' : gmap N (qnode B)) : Prop :=
  (∀ z, z ∉ D → h' !! z = h !! z) ∧ (∀ z, q_body <$> h' !! z = q_body <$> h !! z).

(** ** The abstract queue *)
Fixpoint pq_ins (prio : Z) (t : N) (l : list (N * Z)) : list (N * Z) :=
  match l with
  | [] => [(t, prio)]
  | (x, px) :: l' => if px <? prio then (t, prio) :: l else (x, px) :: pq_ins prio t l'
  end.

Definition pq_del (t : N) (l : list (N * Z)) : list (N * Z) := filter (λ xp, xp.1 ≠ t) l.
Definition pq_incr (l : list (N * Z)) : list (N * Z) := prod_map id (Z.add 1) <$> l.
Definition pq_fav_prio (l : list (N * Z)) : Z :=
  match l with [] => PTH_PRIO_MAX | (_, p) :: _ => p + 1 end.

(** ** Rules for the field accesses *)
Lemma prf_set_nx h x y z : prf (alter (set_nx y) x h) z = prf h z.
Proof. unfold prf. rewrite load_alter. case_decide; [by destruct (load h z)|done]. Qed.

Lemma prf_set_pv h x y z : prf (alter (set_pv y) x h) z = prf h z.
Proof. unfold prf. rewrite load_alter. case_decide; [by destruct (load h z)|done]. Qed.

Lemma prf_set_prio h x v z :
  prf (alter (set_prio v) x h) z = if decide (z = x) then (λ _, v) <$> prf h z else prf h z.
Proof.
  unfold prf. rewrite load_alter. destruct (decide (z = x)) as [->|].
  - rewrite decide_True by done. by destruct (load h x).
  - by rewrite decide_False by done.
Qed.

Lemma nxf_set_prio (h : gmap N (qnode B)) x v z : nxf (alter (set_prio v) x h) z = nxf h z.
Proof. by apply nxf_alter_other. Qed.

Lemma pvf_set_prio (h : gmap N (qnode B)) x v z : pvf (alter (set_prio v) x h) z = pvf h z.
Proof. by apply pvf_alter_other. Qed.

Lemma prf_nxf h x p : prf h x = Some p → is_Some (load h x).
Proof. unfold prf. intros (n & ? & _)%fmap_Some. eauto. Qed.

Lemma wp_ld_next s p v (Q : N → qstate B → Prop) :
  nxf (tcbs s) p = Some v → Q v s → wp (ld_next p) Q s.
Proof. intros (n & Hn & <-)%nxf_Some HQ. unfold wp, ld_next. by rewrite Hn. Qed.

Lemma wp_ld_prev s p v (Q : N → qstate B → Prop) :
  pvf (tcbs s) p = Some v → Q v s → wp (ld_prev p) Q s.
Proof. intros (n & Hn & <-)%pvf_Some HQ. unfold wp, ld_prev. by rewrite Hn. Qed.

Lemma wp_ld_prio s p v (Q : Z → qstate B → Prop) :
  prf (tcbs s) p = Some v → Q v s → wp (ld_prio p) Q s.
Proof.
  unfold prf. intros (n & Hn & ->)%fmap_Some HQ. unfold wp, ld_prio. by rewrite Hn.
Qed.

Lemma wp_st_next s p v (Q : unit → qstate B → Prop) :
  is_Some (nxf (tcbs s) p) → Q tt (QState (alter (set_nx v) p (tcbs s)) (q_obj s)) →
  wp (st_next p v) Q s.
Proof. intros [w (n & Hn & _)%nxf_Some] HQ. unfold wp, st_next. by rewrite Hn. Qed.

Lemma wp_st_prev s p v (Q : unit → qstate B → Prop) :
  is_Some (nxf (tcbs s) p) → Q tt (QState (alter (set_pv v) p (tcbs s)) (q_obj s)) →
  wp (st_prev p v) Q s.
Proof. intros [w (n & Hn & _)%nxf_Some] HQ. unfold wp, st_prev. by rewrite Hn. Qed.

Lemma wp_st_prio s p v (Q : unit → qstate B → Prop) :
  is_Some (nxf (tcbs s) p) → Q tt (QState (alter (set_prio v) p (tcbs s)) (q_obj s)) →
  wp (st_prio p v) Q s.
Proof. intros [w (n & Hn & _)%nxf_Some] HQ. unfold wp, st_prio. by rewrite Hn. Qed.

Lemma wp_q_null s q (Q : bool → qstate B → Prop) :
  q_obj s = Some q → Q false s → wp q_null Q s.
Proof. intros Hq HQ. unfold wp, q_null, gets. by rewrite Hq. Qed.

Lemma wp_ld_head s q (Q : N → qstate B → Prop) :
  q_obj s = Some q → Q (q_head q) s → wp ld_head Q s.
Proof. intros Hq HQ. unfold wp, ld_head. by rewrite Hq. Qed.

Lemma wp_ld_num s q (Q : Z → qstate B → Prop) :
  q_obj s = Some q → Q (q_num q) s → wp ld_num Q s.
Proof. intros Hq HQ. unfold wp, ld_num. by rewrite Hq. Qed.

Lemma wp_st_head s q v (Q : unit → qstate B → Prop) :
  q_obj s = Some q → Q tt (QState (tcbs s) (Some (Pqueue v (q_num q)))) → wp (st_head v) Q s.
Proof. intros Hq HQ. unfold wp, st_head. by rewrite Hq. Qed.

Lemma wp_st_num s q z (Q : unit → qstate B → Prop) :
  q_obj s = Some q → Q tt (QState (tcbs s) (Some (Pqueue (q_head q) z))) → wp (st_num z) Q s.
Proof. intros Hq HQ. unfold wp, st_num. by rewrite Hq. Qed.

End pqueue.

#[export] Hint Rewrite @prf_set_nx @prf_set_pv @prf_set_prio @nxf_set_prio @pvf_set_prio : links.

(** As [links], also for stored priorities. *)
Ltac plinks :=
  simpl; autorewrite with links;
  repeat match goal with
  | H : nxf ?h ?x = Some _ |- context [nxf ?h ?x] => rewrite H
  | H : pvf ?h ?x = Some _ |- context [pvf ?h ?x] => rewrite H
  | H : prf ?h ?x = Some _ |- context [prf ?h ?x] => rewrite H
  | _ => case_decide; subst; simpl in *
  end; try congruence; eauto.

Ltac q_side := simpl; first [eassumption | reflexivity].

Ltac q_step :=
  first
  [ progress wps
  | match goal with
    | |- wp (ld_next _) _ _ => eapply wp_ld_next; [solve [plinks]|]
    | |- wp (ld_prev _) _ _ => eapply wp_ld_prev; [solve [plinks]|]
    | |- wp (ld_prio _) _ _ => eapply wp_ld_prio; [solve [plinks]|]
    | |- wp (st_next _ _) _ _ => eapply wp_st_next; [solve [plinks]|]
    | |- wp (st_prev _ _) _ _ => eapply wp_st_prev; [solve [plinks]|]
    | |- wp (st_prio _ _) _ _ => eapply wp_st_prio; [solve [plinks]|]
    | |- wp q_null _ _ => eapply wp_q_null; [q_side|]
    | |- wp ld_head _ _ => eapply wp_ld_head; [q_side|]
    | |- wp ld_num _ _ => eapply wp_ld_num; [q_side|]
    | |- wp (st_head _) _ _ => eapply wp_st_head; [q_side|]
    | |- wp (st_num _) _ _ => eapply wp_st_num; [q_side|]
    | |- wp (int_chk _) _ _ =>
        apply wp_int_chk; [unfold prio_ok, PB, INT_MIN, INT_MAX in *; simpl; lia|]
    end ].

Section pqueue_proofs.
Context {B : Type}.
Implicit Types (s : qstate B) (h : gmap N (qnode B)) (l : list (N * Z)).

Lemma deltas_ext h h' p l :
  deltas h p l → (∀ x, x ∈ l.*1 → prf h' x = prf h x) → deltas h' p l.
Proof.
  revert p. induction l as [|[x px] l IH]; intros p Hd He; simpl in *; [done|].
  destruct Hd as (? & ? & Hd). split_and!; [rewrite He by set_solver; done|done|].
  apply IH; set_solver.
Qed.

Lemma pq_vals_ext h h' l :
  pq_vals h l → (∀ x, x ∈ l.*1 → prf h' x = prf h x) → pq_vals h' l.
Proof.
  destruct l as [|[x px] l]; [done|]. simpl. intros [? ?] He.
  split; [rewrite He by set_solver; done|]. eapply deltas_ext; [done|set_solver].
Qed.

Lemma deltas_app h p l1 c pc l2 :
  deltas h p (l1 ++ (c, pc) :: l2) ↔ deltas h p (l1 ++ [(c, pc)]) ∧ deltas h pc l2.
Proof.
  revert p. induction l1 as [|[x px] l1 IH]; intros p; simpl; [tauto|].
  rewrite IH. tauto.
Qed.

Lemma pq_vals_app h l1 c pc l2 :
  pq_vals h (l1 ++ (c, pc) :: l2) ↔ pq_vals h (l1 ++ [(c, pc)]) ∧ deltas h pc l2.
Proof.
  destruct l1 as [|[x px] l1]; simpl; [tauto|]. rewrite deltas_app. tauto.
Qed.

Lemma deltas_incr h p l : deltas h p l → deltas h (1 + p) (pq_incr l).
Proof.
  revert p. induction l as [|[x px] l IH]; intros p; simpl; [done|].
  intros (Hx & ? & Hd). split_and!; [rewrite Hx; f_equal; lia|lia|by apply IH].
Qed.

Lemma deltas_le h p l : deltas h p l → Forall (λ xp, xp.2 ≤ p) l.
Proof.
  revert p. induction l as [|[x px] l IH]; intros p; simpl; [constructor|].
  intros (_ & ? & Hd). constructor; [done|]. eapply Forall_impl; [by apply IH|].
  simpl. intros; lia.
Qed.

Lemma cyc_prf h l x : cyc h l.*1 → x ∈ l.*1 → is_Some (prf h x).
Proof. intros Hc Hx. destruct (cyc_load _ _ _ Hc Hx) as [n Hn]. exists (q_prio n). unfold prf. by rewrite Hn. Qed.

Lemma pq_vals_head h l : pq_vals h l → l ≠ [] → prf h (head_or NULL l.*1) = Some (head_or 0 l.*2).
Proof. destruct l as [|[x px] l]; [done|]. by intros [? _] _. Qed.

Lemma pq_ins_split prio t m1 m2 :
  Forall (λ xp, prio ≤ xp.2) m1 → match m2 with [] => True | (_, py) :: _ => py < prio end →
  pq_ins prio t (m1 ++ m2) = m1 ++ (t, prio) :: m2.
Proof.
  induction m1 as [|[x px] m1 IH]; simpl; intros H1 H2.
  - destruct m2 as [|[y py] m2]; simpl; [done|]. by rewrite (proj2 (Z.ltb_lt _ _) H2).
  - apply Forall_cons in H1 as [Hx H1]. simpl in Hx.
    rewrite (proj2 (Z.ltb_ge _ _) Hx). f_equal. by apply IH.
Qed.

Lemma insert_walk_spec s prio l1 c pc l2 fuel :
  pq_repr s (l1 ++ (c, pc) :: l2) → pq_ok (l1 ++ (c, pc) :: l2) → prio_ok prio →
  Forall (λ xp, prio ≤ xp.2) (l1 ++ [(c, pc)]) → (length ((c, pc) :: l2) ≤ fuel)%nat →
  wp (insert_walk fuel prio c pc)
    (λ cp s', s' = s ∧ ∃ m1 m2, l1 ++ (c, pc) :: l2 = m1 ++ cp :: m2 ∧
       Forall (λ xp, prio ≤ xp.2) (m1 ++ [cp]) ∧
       match m2 with [] => True | (_, py) :: _ => py < prio end) s.
Proof.
  revert l1 c pc fuel. induction l2 as [|[y py] l2 IH]; intros l1 c pc [|fuel] Hs Hok Hp Hge Hf;
    simpl in Hf; try lia; pose proof Hs as (q & Hq & Hh & Hn & Hc & Hv);
    pose proof Hok as [Hb _]; rewrite fmap_app in Hc; destruct (cyc_mid _ _ _ _ Hc) as [Hnx _]; simpl.
  - simpl in Hnx.
    assert (head_or c l1.*1 = q_head q) as Heq by (rewrite Hh, fmap_app; by destruct l1).
    rewrite Heq in Hnx. assert (prf (tcbs s) (q_head q) = Some (head_or 0 (l1 ++ [(c, pc)]).*2)).
    { rewrite Hh. apply pq_vals_head; [done|by destruct l1]. }
    assert (prio_ok (head_or 0 (l1 ++ [(c, pc)]).*2)).
    { destruct l1 as [|[z pz] l1]; simpl; rewrite head_or_cons; by apply Forall_cons in Hb as [? _]. }
    apply Forall_app in Hb as [_ Hb]. apply Forall_cons in Hb as [Hbc _]. simpl in Hbc.
    repeat q_step. rewrite bool_decide_true by done. rewrite andb_false_r. wps.
    split; [done|]. by exists l1, [].
  - simpl in Hnx. rewrite head_or_cons in Hnx.
    apply pq_vals_app in Hv as [_ Hv]. simpl in Hv. destruct Hv as (Hy & Hle & Hv).
    rewrite Forall_app, !Forall_cons in Hb. destruct Hb as (_ & Hbc & Hby & _). simpl in Hbc, Hby.
    repeat q_step. rewrite bool_decide_false.
    2: { rewrite Hh, fmap_app. apply NoDup_head_ne. by eapply cyc_NoDup. }
    replace (pc - (pc - py)) with py by lia. destruct (Z.leb_spec prio py).
    + simpl. repeat q_step. replace (pc - (pc - py)) with py by lia.
      rewrite cons_middle, app_assoc in Hs, Hok |- *. apply IH; try done; [|simpl; lia].
      apply Forall_app. split; [done|]. by apply Forall_singleton.
    + simpl. wps. split; [done|]. by exists l1, ((y, py) :: l2).
Qed.

Lemma pq_frame_refl D h : pq_frame D h h.
Proof. done. Qed.

Lemma pq_frame_alter D h h' f x :
  pq_frame D h h' → x ∈ D → (∀ v, q_body (f v) = q_body v) → pq_frame D h (alter f x h').
Proof.
  intros [H1 H2] Hx Hf. split; intros z.
  - intros Hz. rewrite lookup_alter_ne by (intros ->; done). by apply H1.
  - rewrite lookup_alter. case_decide as Hxz; [subst z|done]. rewrite <- H2.
    destruct (h' !! x); simpl; [by rewrite Hf|done].
Qed.

Lemma pq_frame_trans D h1 h2 h3 : pq_frame D h1 h2 → pq_frame D h2 h3 → pq_frame D h1 h3.
Proof.
  intros [A1 A2] [B1 B2]. split; [intros z Hz; by rewrite B1, A1|intros z; by rewrite B2, A2].
Qed.

Lemma pq_frame_mono D D' h h' : pq_frame D h h' → (∀ x, x ∈ D → x ∈ D') → pq_frame D' h h'.
Proof. intros [A1 A2] HD. split; [|done]. intros z Hz. apply A1. auto. Qed.

(** The stored priority of a thread whose priority was not written. *)
Ltac prf_other :=
  autorewrite with links;
  rewrite ?decide_False by (intros ->; first [contradiction|congruence]); done.

(** The writes went to threads of the frame: one step per write. *)
Ltac pq_frame_tac :=
  simpl; repeat (eapply pq_frame_alter; [|first [assumption|left|right; assumption|set_solver]|done]); apply pq_frame_refl.

(** Everything but the element count: the shape between the link surgery and the
    update of [q_num]. *)
Definition pq_shape (s : qstate B) (n : Z) (l : list (N * Z)) : Prop :=
  ∃ q, q_obj s = Some q ∧ q_head q = head_or NULL l.*1 ∧ q_num q = n ∧
       cyc (tcbs s) l.*1 ∧ pq_vals (tcbs s) l.

Lemma thread_fields (h : gmap N (qnode B)) t :
  is_Some (load h t) →
  ∃ a b p, nxf h t = Some a ∧ pvf h t = Some b ∧ prf h t = Some p ∧ t ≠ NULL.
Proof.
  intros Hl. destruct (node_links _ _ Hl) as (a & b & ? & ? & ?). destruct Hl as [n Hn].
  exists a, b, (q_prio n). split_and!; try done. unfold prf. by rewrite Hn.
Qed.

Lemma insert_head_spec s prio t y py l :
  pq_repr s ((y, py) :: l) → prio_ok prio → prio_ok py → py < prio → t ∉ y :: l.*1 →
  is_Some (load (tcbs s) t) →
  wp (insert_head prio t y)
    (λ _ s', pq_shape s' (Z.of_nat (S (length l))) ((t, prio) :: (y, py) :: l) ∧
             pq_frame (t :: y :: l.*1) (tcbs s) (tcbs s')) s.
Proof.
  intros (q & Hq & Hh & Hn & Hc & Hy & Hv) Hp Hpy Hlt Ht (a & b & pt & Ha & Hb & Hpt & Hnz)%thread_fields.
  destruct (cyc_gap _ [] _ t Hc Ht) as (y' & p & n' & m & Hy' & ? & ? & ? & ? & ? & ? & ? & ? & ? & ? & ?); [done|].
  simpl in Hy'. injection Hy' as <-. unfold insert_head. repeat q_step. split; [|pq_frame_tac].
  eexists. split_and!; try done.
  - simpl. eapply (cyc_link_mid _ _ t [] (y :: l.*1) y p); [done..|intros z; plinks|intros z; plinks].
  - simpl. split_and!; [plinks|plinks|lia|]. apply cyc_NoDup, NoDup_cons in Hc as [Hnd _].
    apply not_elem_of_cons in Ht as [? ?].
    eapply deltas_ext; [done|]. intros x Hx. prf_other.
Qed.

Lemma insert_after_spec s prio t c p m1 m2 :
  pq_repr s (m1 ++ (c, p) :: m2) → pq_ok (m1 ++ (c, p) :: m2) → prio_ok prio → prio ≤ p →
  match m2 with [] => True | (_, py) :: _ => py < prio end →
  t ∉ (m1 ++ (c, p) :: m2).*1 → is_Some (load (tcbs s) t) →
  wp (insert_after prio t c p)
    (λ _ s', pq_shape s' (Z.of_nat (length (m1 ++ (c, p) :: m2))) (m1 ++ (c, p) :: (t, prio) :: m2) ∧
             pq_frame (t :: (m1 ++ (c, p) :: m2).*1) (tcbs s) (tcbs s')) s.
Proof.
  intros (q & Hq & Hh & Hn & Hc & Hv) [Hb _] Hp Hle Hm2 Ht (a & b & pt & Ha & Hb' & Hpt & Hnz)%thread_fields.
  rewrite fmap_app in *. csimpl in *. pose proof (cyc_NoDup _ _ Hc) as Hnd.
  rewrite cons_middle, app_assoc in Hc, Ht.
  destruct (cyc_gap _ _ _ t Hc Ht) as (y' & p' & n' & m & Hy' & Hp' & ? & ? & ? & ? & ? & ? & ? & ? & ? & ?);
    [by destruct m1|].
  rewrite app_assoc, last_snoc in Hp'. injection Hp' as <-.
  apply Forall_app in Hb as [_ [Hbp Hb]%Forall_cons]. simpl in Hbp.
  apply pq_vals_app in Hv as [Hv1 Hv2].
  unfold insert_after. repeat q_step.
  assert (∀ h, (∀ z, nxf h z = if decide (z = t) then Some y' else if decide (z = c) then Some t else nxf (tcbs s) z) →
               (∀ z, pvf h z = if decide (z = t) then Some c else if decide (z = y') then Some t else pvf (tcbs s) z) →
               cyc h (m1 ++ (c, p) :: (t, prio) :: m2).*1) as Hcyc.
  { intros h Hnxt Hpvt. rewrite fmap_app. csimpl. rewrite cons_middle, app_assoc.
    eapply (cyc_link_mid _ _ t _ _ y' c); try done. by rewrite app_assoc, last_snoc. }
  assert (head_or NULL (m1 ++ (c, p) :: (t, prio) :: m2).*1 = q_head q) as Hhd.
  { rewrite Hh, fmap_app. by destruct m1. }
  assert (c ∈ t :: m1.*1 ++ c :: m2.*1 ∧ y' ∈ t :: m1.*1 ++ c :: m2.*1) as [Hcin Hyin].
  { rewrite (cons_middle c), app_assoc. split; right; done. }
  apply not_elem_of_app in Ht as [Ht1 Ht2].
  destruct m2 as [|[y py] m2]; csimpl in *.
  - assert (y' = q_head q) as -> by (rewrite Hh; destruct m1; simpl in Hy'; by injection Hy').
    rewrite bool_decide_true by done. wps. split; [|pq_frame_tac].
    eexists. split_and!; try done.
    + simpl. apply Hcyc; intros z; plinks.
    + simpl. apply pq_vals_app. split.
      * eapply pq_vals_ext; [done|]. intros x Hx. rewrite fmap_app in Hx.
        csimpl in Hx. prf_other.
      * simpl. split_and!; [plinks|lia|done].
  - injection Hy' as <-. destruct Hv2 as (Hvy & Hley & Hv2).
    rewrite bool_decide_false by (rewrite Hh; by apply NoDup_head_ne).
    apply Forall_cons in Hb as [Hby Hb]. simpl in Hby. repeat q_step. split; [|pq_frame_tac].
    eexists. split_and!; try done.
    + simpl. apply Hcyc; intros z; plinks.
    + assert (y ∉ m1.*1 ++ [c] ∧ y ∉ m2.*1) as [Hy1 Hy2].
      { rewrite cons_middle, app_assoc in Hnd. apply NoDup_app in Hnd as (_ & Hd & [? _]%NoDup_cons).
        split; [|done]. intros Hin. apply (Hd y); [done|left]. }
      simpl. apply pq_vals_app. split.
      * eapply pq_vals_ext; [done|]. intros x Hx. rewrite fmap_app in Hx.
        csimpl in Hx. prf_other.
      * simpl. split_and!; [plinks|lia| |lia|].
        -- plinks. f_equal. lia.
        -- apply not_elem_of_cons in Ht2 as [_ Ht2]. eapply deltas_ext; [done|].
           intros x Hx. prf_other.
Qed.

Lemma pq_ins_length prio t l : length (pq_ins prio t l) = S (length l).
Proof. induction l as [|[x px] l IH]; simpl; [done|]. case_match; simpl; [done|by rewrite IH]. Qed.

(** The branch that walks: the place it finds is the one of the abstract queue. *)
Lemma insert_walked_spec s prio t y py l :
  pq_repr s ((y, py) :: l) → pq_ok ((y, py) :: l) → prio_ok prio → prio ≤ py →
  t ∉ ((y, py) :: l).*1 → is_Some (load (tcbs s) t) →
  wp (do (c, p) <- insert_walk (size (tcbs s)) prio y py; insert_after prio t c p)
    (λ _ s', pq_shape s' (Z.of_nat (length ((y, py) :: l))) (pq_ins prio t ((y, py) :: l)) ∧
             pq_frame (t :: ((y, py) :: l).*1) (tcbs s) (tcbs s')) s.
Proof.
  intros Hs Hok Hp Hge Ht Hload. rewrite wp_bind.
  eapply wp_mono; [apply (insert_walk_spec s prio [] y py l); try done|].
  { apply Forall_singleton. simpl. lia. }
  { destruct Hs as (_ & _ & _ & _ & Hc & _). rewrite <- (length_fmap fst). by apply cyc_size. }
  intros [c p] s' (-> & m1 & m2 & Hm & [Hge1 Hgec]%Forall_app & Hm2).
  rewrite Forall_singleton in Hgec. simpl in Hgec. simpl app in Hm.
  assert (pq_ins prio t ((y, py) :: l) = m1 ++ (c, p) :: (t, prio) :: m2) as ->.
  { rewrite Hm, (cons_middle (c, p) m1 m2), app_assoc, pq_ins_split, <- app_assoc; [done| |done].
    apply Forall_app. split; [done|]. apply Forall_singleton. simpl. lia. }
  rewrite Hm in Hs, Hok, Ht |- *. apply insert_after_spec; done.
Qed.

(** The three branches put together. *)
Lemma pth_pqueue_insert_spec s l prio t :
  pq_repr s l → pq_ok l → prio_ok prio → t ∉ l.*1 → is_Some (load (tcbs s) t) →
  wp (pth_pqueue_insert prio t)
    (λ _ s', pq_repr s' (pq_ins prio t l) ∧ pq_frame (t :: l.*1) (tcbs s) (tcbs s')) s.
Proof.
  intros Hs Hok Hp Ht Hload. pose proof Hs as (q & Hq & Hh & Hn & Hc & Hv).
  pose proof Hok as [Hb Hlen].
  assert (∀ s', pq_shape s' (Z.of_nat (length l)) (pq_ins prio t l) ∧ pq_frame (t :: l.*1) (tcbs s) (tcbs s') →
    wp (add_num 1)
      (λ _ s', pq_repr s' (pq_ins prio t l) ∧ pq_frame (t :: l.*1) (tcbs s) (tcbs s')) s') as Hfin.
  { intros s' [(q' & Hq' & Hh' & Hn' & Hc' & Hv') Hf]. unfold add_num. repeat q_step. split; [|done].
    eexists. split_and!; try done. simpl. rewrite pq_ins_length. lia. }
  remember (pq_ins prio t l) as l' eqn:Hl'. remember (t :: l.*1) as D eqn:HD.
  unfold pth_pqueue_insert. repeat q_step. destruct l as [|[y py] l]; subst D.
  - subst l'. destruct (thread_fields _ _ Hload) as (a & b & pt & Ha & Hb' & Hpt & Hnz). rewrite Hh. simpl.
    unfold insert_first. repeat q_step. apply Hfin. split; [|pq_frame_tac].
    eexists. split_and!; try done; [simpl; apply cyc_singleton; plinks|]. split; [simpl; plinks|done].
  - change (q_head q = y) in Hh. rewrite Hh, is_null_false by (eapply cyc_nonnull; [done|set_solver]).
    rewrite (proj2 (Z.eqb_neq (q_num q) 0)) by (rewrite Hn; simpl; lia).
    destruct Hv as [Hy Hv]. apply Forall_cons in Hb as [Hby Hb]. simpl in Hby. cbv [orb].
    do 2 q_step. destruct (Z.ltb_spec py prio) as [Hlt|Hge].
    + eapply wp_mono; [by apply (insert_head_spec s prio t y py l)|].
      intros ? s' [? ?]. apply Hfin. split; [|done]. subst l'. simpl. by rewrite (proj2 (Z.ltb_lt py prio) Hlt).
    + rewrite wp_bind. eapply wp_ld_prio; [done|]. rewrite wp_bind, wp_gets.
      subst l'. eapply wp_mono; [by apply insert_walked_spec|]. intros ? s' ?. by apply Hfin.
Qed.

Lemma pq_repr_NoDup s l : pq_repr s l → NoDup l.*1.
Proof. intros (q & _ & _ & _ & Hc & _). by eapply cyc_NoDup. Qed.

Lemma pq_repr_load s l x : pq_repr s l → x ∈ l.*1 → is_Some (load (tcbs s) x).
Proof. intros (q & _ & _ & _ & Hc & _) Hx. by eapply cyc_load. Qed.

Lemma pq_del_notin t l : t ∉ l.*1 → pq_del t l = l.
Proof.
  unfold pq_del. induction l as [|[x px] l IH]; csimpl; [done|].
  intros [? ?]%not_elem_of_cons. rewrite filter_cons_True by (simpl; congruence). by rewrite IH.
Qed.

Lemma pq_del_mid t pt l1 l2 :
  NoDup (l1 ++ (t, pt) :: l2).*1 → pq_del t (l1 ++ (t, pt) :: l2) = l1 ++ l2.
Proof.
  intros Hnd. rewrite fmap_app in Hnd. csimpl in Hnd.
  apply NoDup_app in Hnd as (_ & Hd & [Ht _]%NoDup_cons). unfold pq_del.
  rewrite filter_app, filter_cons_False by (simpl; tauto).
  f_equal; apply pq_del_notin; [|done]. intros Hin. by apply (Hd t); [|left].
Qed.

Lemma pq_split t l : t ∈ l.*1 → ∃ l1 pt l2, l = l1 ++ (t, pt) :: l2.
Proof.
  intros ([x px] & -> & Hin)%list_elem_of_fmap. apply list_elem_of_split in Hin as (l1 & l2 & ->).
  by exists l1, px, l2.
Qed.

Lemma unlink_last_spec s t p :
  pq_repr s [(t, p)] →
  wp (unlink_last t) (λ _ s', pq_repr s' [] ∧ pq_frame [t] (tcbs s) (tcbs s')) s.
Proof.
  intros (q & Hq & Hh & Hn & Hc & Hp & _). pose proof (cyc_head_next _ _ _ Hc).
  unfold unlink_last. repeat q_step. split; [|pq_frame_tac].
  eexists. by split_and!.
Qed.

Lemma unlink_head_spec s t pt y py l :
  pq_repr s ((t, pt) :: (y, py) :: l) → pq_ok ((t, pt) :: (y, py) :: l) →
  wp (unlink_head t)
    (λ _ s', pq_repr s' ((y, py) :: l) ∧
             pq_frame ((t, pt) :: (y, py) :: l).*1 (tcbs s) (tcbs s')) s.
Proof.
  intros (q & Hq & Hh & Hn & Hc & Hpt & Hpy & Hle & Hv) [[Hbt [Hby _]%Forall_cons]%Forall_cons Hlen].
  csimpl in *. destruct (cyc_neighbours _ [] t _ Hc) as
    [[_ ?]|(y' & p & Hy' & Hp & Hnx & Hpv & [mn Hny] & [my Hmy] & [mp Hmp] & Hyt & Hptn & Hyin & Hpin)]; [done|].
  rewrite app_nil_r in Hy', Hp. injection Hy' as <-.
  pose proof (cyc_NoDup _ _ Hc) as [Ht [Hy Hnd]%NoDup_cons]%NoDup_cons.
  unfold unlink_head, add_num. repeat q_step. split; [|pq_frame_tac].
  eexists. split_and!; try done; csimpl; [lia|..].
  - eapply (cyc_unlink_mid _ _ t [] (y :: l.*1) y p); [done|by rewrite app_nil_r|by rewrite app_nil_r|intros z ?; plinks..].
  - apply not_elem_of_cons in Ht as [_ Ht]. split; [plinks; f_equal; lia|].
    eapply deltas_ext; [done|]. intros x Hx. prf_other.
Qed.

Lemma pth_pqueue_delmax_spec s l :
  pq_repr s l → pq_ok l →
  wp pth_pqueue_delmax
    (λ v s', v = head_or NULL l.*1 ∧ pq_repr s' (tail l) ∧ pq_frame l.*1 (tcbs s) (tcbs s')) s.
Proof.
  intros Hs Hok. pose proof Hs as (q & Hq & Hh & Hn & Hc & Hv). unfold pth_pqueue_delmax.
  repeat q_step. destruct l as [|[t pt] l].
  - rewrite Hh. wps. split_and!; done.
  - change (q_head q = t) in Hh. rewrite Hh, is_null_false by (eapply cyc_nonnull; [done|set_solver]).
    pose proof (cyc_head_next _ _ _ Hc) as Hnx. csimpl in Hnx. repeat q_step.
    destruct l as [|[y py] l]; csimpl in *.
    + rewrite bool_decide_true by done. wps. eapply wp_mono; [by eapply unlink_last_spec|].
      intros ? s' [? ?]. wps. done.
    + rewrite bool_decide_false.
      2: { apply cyc_NoDup, NoDup_cons in Hc as [Hni _]. rewrite head_or_cons. set_solver. }
      wps. eapply wp_mono; [by eapply unlink_head_spec|]. intros ? s' [? ?]. wps. done.
Qed.

(** The stored differences after a thread other than the first was unlinked. *)
Lemma delete_mid_vals h h' l1 t pt l2 :
  pq_vals h (l1 ++ (t, pt) :: l2) → l1 ≠ [] →
  (∀ x, x ∈ l1.*1 → prf h' x = prf h x) →
  (∀ y py l2', l2 = (y, py) :: l2' → ∀ w tp, prf h y = Some w → prf h t = Some tp → prf h' y = Some (w + tp)) →
  (∀ x, x ∈ (tail l2).*1 → prf h' x = prf h x) →
  pq_vals h' (l1 ++ l2).
Proof.
  intros Hv Hne H1 Hy H2. destruct l1 as [|[c pc] l1 _] using rev_ind; [done|]. clear Hne.
  rewrite <- app_assoc in Hv |- *. simpl in Hv |- *.
  apply pq_vals_app in Hv as [Hv1 Hv2]. apply pq_vals_app. split.
  - eapply pq_vals_ext; [done|]. intros x Hx. by apply H1.
  - destruct Hv2 as (Ht & Hlt & Hv2). destruct l2 as [|[y py] l2]; [done|].
    destruct Hv2 as (Hvy & Hly & Hv2). simpl. split_and!; [|lia|].
    + erewrite Hy; [|done..]. f_equal. lia.
    + eapply deltas_ext; [done|]. intros x Hx. apply H2. done.
Qed.

Lemma delete_mid_diffs h l1 t pt y py l2 :
  pq_vals h (l1 ++ (t, pt) :: (y, py) :: l2) → l1 ≠ [] →
  Forall (λ xp, prio_ok xp.2) (l1 ++ (t, pt) :: (y, py) :: l2) →
  ∃ w tp, prf h y = Some w ∧ prf h t = Some tp ∧ INT_MIN ≤ w + tp ≤ INT_MAX.
Proof.
  intros Hv Hne Hb. destruct l1 as [|[c pc] l1 _] using rev_ind; [done|].
  rewrite <- app_assoc in Hv, Hb. simpl in Hv, Hb. apply pq_vals_app in Hv as [_ (? & ? & ? & ? & _)].
  apply Forall_app in Hb as [_ [Hc [Ht [Hy _]%Forall_cons]%Forall_cons]%Forall_cons].
  simpl in *. exists (pt - py), (pc - pt). split; [done|]. split; [done|].
  unfold prio_ok, PB, INT_MIN, INT_MAX in *. lia.
Qed.

Lemma delete_mid_spec s l1 t pt l2 :
  pq_repr s (l1 ++ (t, pt) :: l2) → pq_ok (l1 ++ (t, pt) :: l2) → l1 ≠ [] →
  wp (delete_mid t)
    (λ _ s', pq_repr s' (l1 ++ l2) ∧ pq_frame (l1 ++ (t, pt) :: l2).*1 (tcbs s) (tcbs s')) s.
Proof.
  intros Hs [Hb Hlen] Hne. pose proof (pq_repr_NoDup _ _ Hs) as Hnd.
  destruct Hs as (q & Hq & Hh & Hn & Hc & Hv). pose proof (cyc_prf _ _ t Hc) as [tp Htp].
  { rewrite fmap_app. csimpl. set_solver. }
  rewrite fmap_app in Hc. csimpl in Hc. destruct (cyc_neighbours _ _ t _ Hc) as
    [[? _]|(y & p & Hy & Hp & Hnx & Hpv & [mn Hny] & [my Hmy] & [mp Hmp] & Hyt & Hptn & Hyin & Hpin)].
  { by destruct l1. }
  assert (∀ h, (∀ z, z ≠ t → nxf h z = if decide (z = p) then Some y else nxf (tcbs s) z) →
     (∀ z, z ≠ t → pvf h z = if decide (z = y) then Some p else pvf (tcbs s) z) → cyc h (l1 ++ l2).*1) as Hcyc.
  { intros h H1 H2. rewrite fmap_app. by eapply (cyc_unlink_mid _ _ t l1.*1 l2.*1 y p). }
  assert (head_or NULL (l1 ++ l2).*1 = q_head q) as Hhd by (rewrite Hh; by destruct l1).
  assert (q_num q + -1 = Z.of_nat (length (l1 ++ l2))) as Hnum.
  { rewrite Hn, !length_app. simpl. lia. }
  assert (∀ x, x ∈ l1.*1 ++ l2.*1 → x ∈ (l1 ++ (t, pt) :: l2).*1) as HD.
  { intros x. rewrite fmap_app. csimpl. set_solver. }
  assert (t ∈ (l1 ++ (t, pt) :: l2).*1) as HtD by (rewrite fmap_app; csimpl; set_solver).
  pose proof (HD _ Hyin) as HyD. pose proof (HD _ Hpin) as HpD.
  unfold delete_mid, add_num. repeat q_step.
  rewrite fmap_app in Hnd. csimpl in Hnd. pose proof Hnd as Hnd'.
  apply NoDup_app in Hnd as (_ & Hd & [Ht2 Hnd2]%NoDup_cons).
  assert (∀ x, x ∈ l1.*1 → x ≠ t) as Hx1 by (intros x Hx ->; apply (Hd t); [done|left]).
  destruct l2 as [|[y' py] l2]; csimpl in *.
  - assert (y = q_head q) as -> by (rewrite <- Hhd, app_nil_r; unfold head_or; by rewrite Hy).
    rewrite bool_decide_true by done. repeat q_step. split; [|pq_frame_tac].
    eexists. split_and!; try done; simpl.
    + apply Hcyc; intros z ?; plinks.
    + eapply delete_mid_vals; [done|done| |intros; done|set_solver]. intros x Hx%Hx1. prf_other.
  - injection Hy as ->. apply not_elem_of_cons in Ht2 as [_ Ht2]. apply NoDup_cons in Hnd2 as [Hy2 _].
    assert (∀ x, x ∈ l1.*1 → x ≠ y) as Hxy by (intros x Hx ->; apply (Hd y); [done|right; left]).
    rewrite bool_decide_false by (rewrite Hh, fmap_app; csimpl; by apply NoDup_head_ne).
    destruct (delete_mid_diffs _ _ _ _ _ _ _ Hv Hne Hb) as (w & tp' & Hw & Htp' & Hsum).
    repeat q_step. split; [|pq_frame_tac]. eexists. split_and!; try done; simpl.
    + apply Hcyc; intros z ?; plinks.
    + eapply delete_mid_vals; [done|done|..].
      * intros x Hx. pose proof (Hx1 x Hx). pose proof (Hxy x Hx). prf_other.
      * intros ? ? ? [= <- <- <-] ? ? ? ?. simplify_eq. plinks.
      * intros x Hx. csimpl in Hx. prf_other.
Qed.

Lemma pth_pqueue_delete_spec s l t :
  pq_repr s l → pq_ok l → t ∈ l.*1 →
  wp (pth_pqueue_delete t)
    (λ _ s', pq_repr s' (pq_del t l) ∧ pq_frame l.*1 (tcbs s) (tcbs s')) s.
Proof.
  intros Hs Hok (l1 & pt & l2 & ->)%pq_split. pose proof (pq_repr_NoDup _ _ Hs) as Hnd.
  rewrite pq_del_mid by done. pose proof Hs as (q & Hq & Hh & Hn & Hc & Hv).
  unfold pth_pqueue_delete. repeat q_step. rewrite is_null_false.
  2: { rewrite Hh. eapply cyc_nonnull; [done|]. by destruct l1; csimpl; rewrite head_or_cons; left. }
  destruct l1 as [|[x px] l1].
  - change (q_head q = t) in Hh. rewrite Hh, bool_decide_true by done.
    pose proof (cyc_head_next _ _ _ Hc) as Hnx. csimpl in Hnx. repeat q_step.
    destruct l2 as [|[y py] l2]; csimpl in *.
    + rewrite bool_decide_true by done. by eapply unlink_last_spec.
    + rewrite bool_decide_false; [by eapply unlink_head_spec|].
      apply NoDup_cons in Hnd as [Hni _]. rewrite head_or_cons. set_solver.
  - rewrite bool_decide_false; [by apply delete_mid_spec|].
    rewrite Hh. csimpl in *. rewrite head_or_cons. apply NoDup_cons in Hnd as [Hni _].
    rewrite fmap_app in Hni. csimpl in Hni. set_solver.
Qed.

Lemma pq_repr_obj s l : pq_repr s l → ∃ q, q_obj s = Some q ∧ q_head q = head_or NULL l.*1 ∧
  q_num q = Z.of_nat (length l).
Proof. intros (q & ? & ? & ? & _). eauto. Qed.

Lemma pth_pqueue_increase_spec s l :
  pq_repr s l → pq_ok l →
  wp pth_pqueue_increase (λ _ s', pq_repr s' (pq_incr l) ∧ pq_frame l.*1 (tcbs s) (tcbs s')) s.
Proof.
  intros (q & Hq & Hh & Hn & Hc & Hv) [Hb _]. unfold pth_pqueue_increase.
  remember (pq_incr l) as l' eqn:Hl'. repeat q_step. destruct l as [|[x px] l].
  - rewrite Hh. wps. subst l'. split; [|done]. by exists q.
  - change (q_head q = x) in Hh. rewrite Hh, is_null_false by (eapply cyc_nonnull; [done|set_solver]).
    destruct Hv as [Hx Hv]. apply Forall_cons in Hb as [Hbx _]. simpl in Hbx.
    pose proof (cyc_head_next _ _ _ Hc). repeat q_step. split; [|csimpl; pq_frame_tac].
    assert ((pq_incr ((x, px) :: l)).*1 = ((x, px) :: l).*1) as Hf.
    { unfold pq_incr. rewrite <- list_fmap_compose. by apply list_fmap_ext. }
    exists q. rewrite Hl', Hf. split_and!; [done..| | |].
    + rewrite Hn. unfold pq_incr. by rewrite length_fmap.
    + eapply cyc_ext; [done|intros z Hz; simpl; by autorewrite with links..].
    + simpl. split; [plinks; f_equal; lia|]. apply cyc_NoDup, NoDup_cons in Hc as [Hni _].
      apply deltas_incr. eapply deltas_ext; [done|]. intros y Hy. prf_other.
Qed.

Lemma pth_pqueue_tail_spec s l :
  pq_repr s l → wp pth_pqueue_tail (λ v s', v = last_or NULL l.*1 ∧ s' = s) s.
Proof.
  intros (q & Hq & Hh & Hn & Hc & Hv). unfold pth_pqueue_tail. repeat q_step. rewrite Hh.
  destruct l as [|[x px] l]; [done|]. csimpl in *. rewrite head_or_cons, last_or_cons.
  rewrite is_null_false by (eapply cyc_nonnull; [done|set_solver]).
  eapply wp_ld_prev; [by apply cyc_head_prev|done].
Qed.

Lemma walk_next_spec s l1 t pt l2 :
  pq_repr s (l1 ++ (t, pt) :: l2) →
  wp (pth_pqueue_walk t PTH_WALK_NEXT) (λ v s', v = head_or NULL l2.*1 ∧ s' = s) s.
Proof.
  intros (q & Hq & Hh & Hn & Hc & Hv). rewrite fmap_app in Hc, Hh. csimpl in *.
  pose proof (cyc_NoDup _ _ Hc) as Hnd. destruct (cyc_mid _ _ _ _ Hc) as [Hnx _].
  unfold pth_pqueue_walk. repeat q_step.
  rewrite is_null_false by (eapply cyc_nonnull; [done|set_solver]). simpl. repeat q_step.
  destruct l2 as [|[y py] l2]; csimpl in *.
  - rewrite bool_decide_true; [done|]. rewrite Hh. by destruct l1.
  - rewrite head_or_cons. rewrite bool_decide_false; [done|]. rewrite Hh. by apply NoDup_head_ne.
Qed.

Lemma walk_prev_spec s l1 t pt l2 :
  pq_repr s (l1 ++ (t, pt) :: l2) →
  wp (pth_pqueue_walk t PTH_WALK_PREV) (λ v s', v = last_or NULL l1.*1 ∧ s' = s) s.
Proof.
  intros (q & Hq & Hh & Hn & Hc & Hv). rewrite fmap_app in Hc, Hh. csimpl in *.
  pose proof (cyc_NoDup _ _ Hc) as Hnd. destruct (cyc_mid _ _ _ _ Hc) as [_ Hpv].
  unfold pth_pqueue_walk. repeat q_step.
  rewrite is_null_false by (eapply cyc_nonnull; [done|set_solver]). simpl. repeat q_step.
  destruct l1 as [|[x px] l1]; csimpl in *; rewrite head_or_cons in Hh; rewrite Hh.
  - by rewrite bool_decide_true.
  - rewrite bool_decide_false.
    + repeat q_step. split; [|done]. by rewrite last_or_app, last_or_cons.
    + apply NoDup_cons in Hnd as [Hni _]. set_solver.
Qed.

Lemma contains_loop_spec s t l1 x px l2 fuel :
  pq_repr s (l1 ++ (x, px) :: l2) → (length ((x, px) :: l2) < fuel)%nat →
  wp (contains_loop fuel t x) (λ b s', b = bool_decide (t ∈ x :: l2.*1) ∧ s' = s) s.
Proof.
  revert l1 x px fuel. induction l2 as [|[y py] l2 IH]; intros l1 x px [|fuel] Hs Hf; simpl in Hf; try lia;
    pose proof Hs as (q & _ & _ & _ & Hc & _); rewrite fmap_app in Hc; csimpl in Hc; simpl contains_loop;
    rewrite is_null_false by (eapply cyc_nonnull; [done|set_solver]);
    (case_bool_decide as Hx; [wps; rewrite bool_decide_true; [done|set_solver]|]); wps;
    (eapply wp_mono; [by eapply walk_next_spec|]); intros v s' [-> ->].
  - destruct fuel as [|fuel]; [lia|]. simpl. wps. rewrite bool_decide_false; [done|set_solver].
  - csimpl. rewrite head_or_cons. rewrite cons_middle, app_assoc in Hs.
    eapply wp_mono; [apply (IH _ _ _ _ Hs); simpl; lia|]. intros b s' [-> ->]. split; [|done].
    apply bool_decide_ext. set_solver.
Qed.

Lemma pth_pqueue_contains_spec s l t :
  pq_repr s l → wp (pth_pqueue_contains t) (λ b s', b = bool_decide (t ∈ l.*1) ∧ s' = s) s.
Proof.
  intros Hs. pose proof Hs as (q & Hq & Hh & Hn & Hc & _). unfold pth_pqueue_contains, pth_pqueue_head.
  repeat q_step. rewrite Hh. destruct l as [|[x px] l].
  - simpl. wps. done.
  - change (head_or NULL ((x, px) :: l).*1) with x. apply (contains_loop_spec s t [] x px l (S (size (tcbs s)))); [done|].
    apply cyc_size in Hc. rewrite length_fmap in Hc. lia.
Qed.

(** What [pth_pqueue_favorite] makes of the abstract queue. *)
Definition pq_fav (t : N) (l : list (N * Z)) : list (N * Z) :=
  match l with
  | [] | [_] => l
  | _ => (t, pq_fav_prio (pq_del t l)) :: pq_del t l
  end.

Lemma pq_ins_fav t l : pq_ins (pq_fav_prio l) t l = (t, pq_fav_prio l) :: l.
Proof. destruct l as [|[x px] l]; simpl; [done|]. by rewrite (proj2 (Z.ltb_lt _ _)) by lia. Qed.

Lemma pq_del_ok t l : pq_ok l → pq_ok (pq_del t l).
Proof.
  intros [Hb Hl]. split.
  - apply Forall_forall. intros x [_ Hx]%list_elem_of_filter. by eapply Forall_forall in Hb.
  - unfold pq_del. pose proof (length_filter (λ xp : N * Z, xp.1 ≠ t) l). lia.
Qed.

Lemma pq_del_elem t l : t ∉ (pq_del t l).*1.
Proof. intros ([x px] & -> & [? _]%list_elem_of_filter)%list_elem_of_fmap. done. Qed.

Lemma pq_frame_load D h h' x : pq_frame D h h' → is_Some (load h x) → is_Some (load h' x).
Proof.
  intros [_ Hf] [n [? Hn]%load_Some]. specialize (Hf x). rewrite Hn in Hf. simpl in Hf.
  destruct (h' !! x) as [m|] eqn:Hm; [|done]. exists m. by apply load_Some.
Qed.

Lemma favorite_prio_spec s l :
  pq_repr s l → prio_ok (pq_fav_prio l) →
  wp pth_pqueue_favorite_prio (λ v s', v = pq_fav_prio l ∧ s' = s) s.
Proof.
  intros (q & Hq & Hh & Hn & Hc & Hv) Hp. unfold pth_pqueue_favorite_prio. repeat q_step.
  rewrite Hh. destruct l as [|[x px] l]; [done|]. change (head_or NULL ((x, px) :: l).*1) with x.
  rewrite is_null_false by (eapply cyc_nonnull; [done|set_solver]). destruct Hv as [Hx _].
  simpl in Hp. repeat q_step. done.
Qed.

Lemma pth_pqueue_favorite_spec s l t :
  pq_repr s l → pq_ok l → t ∈ l.*1 → prio_ok (pq_fav_prio (pq_del t l)) →
  wp (pth_pqueue_favorite t)
    (λ b s', b = true ∧ pq_repr s' (pq_fav t l) ∧ pq_frame l.*1 (tcbs s) (tcbs s')) s.
Proof.
  intros Hs Hok Ht Hp. destruct (pq_repr_obj _ _ Hs) as (q & Hq & Hh & Hn).
  unfold pth_pqueue_favorite. repeat q_step. rewrite Hh, Hn.
  destruct l as [|[x px] l]; [csimpl in Ht; set_solver|]. change (head_or NULL ((x, px) :: l).*1) with x.
  rewrite is_null_false.
  2: { destruct Hs as (? & _ & _ & _ & Hc & _). eapply cyc_nonnull; [done|set_solver]. }
  rewrite (proj2 (Z.eqb_neq _ 0)) by (simpl; lia). simpl orb. cbv iota. destruct l as [|[y py] l].
  - simpl. wps. by split_and!.
  - rewrite (proj2 (Z.eqb_neq _ 1)) by (simpl; lia). wps. unfold pq_fav.
    eapply wp_mono; [by apply pth_pqueue_delete_spec|]. intros ? s1 [Hs1 Hf1]. wps.
    eapply wp_mono; [by apply favorite_prio_spec|]. intros ? ? [-> ->]. wps.
    eapply wp_mono; [apply pth_pqueue_insert_spec; [done|by apply pq_del_ok|done|apply pq_del_elem|]|].
    + eapply pq_frame_load; [done|]. by eapply pq_repr_load.
    + intros ? s2 [Hs2 Hf2]. wps. rewrite pq_ins_fav in Hs2. split_and!; [done..|].
      eapply pq_frame_trans; [done|]. eapply pq_frame_mono; [done|].
      intros z [->|Hz]%elem_of_cons; [done|].
      apply list_elem_of_fmap in Hz as (zp & -> & [_ Hz]%list_elem_of_filter).
      by apply (list_elem_of_fmap_2 fst _ _ Hz).
Qed.

(** ** Refinement: sequences of queue operations against sorted lists *)
Inductive pq_op :=
  | QInsert (prio : Z) (t : N) | QDelmax | QDelete (t : N) | QFavorite (t : N) | QIncrease
  | QContains (t : N) | QTail.

Inductive pq_ret := QUnit | QThread (t : N) | QBool (b : bool).

Definition pq_exec (op : pq_op) : M (qstate B) pq_ret :=
  match op with
  | QInsert prio t => pth_pqueue_insert prio t ;; ret QUnit
  | QDelmax => do t <- pth_pqueue_delmax; ret (QThread t)
  | QDelete t => pth_pqueue_delete t ;; ret QUnit
  | QFavorite t => do b <- pth_pqueue_favorite t; ret (QBool b)
  | QIncrease => pth_pqueue_increase ;; ret QUnit
  | QContains t => do b <- pth_pqueue_contains t; ret (QBool b)
  | QTail => do t <- pth_pqueue_tail; ret (QThread t)
  end.

Fixpoint pq_exec_all (ops : list pq_op) : M (qstate B) (list pq_ret) :=
  match ops with
  | [] => ret []
  | op :: ops' => do v <- pq_exec op; do vs <- pq_exec_all ops'; ret (v :: vs)
  end.

#[export] Instance prio_ok_dec p : Decision (prio_ok p).
Proof. unfold prio_ok. apply _. Defined.
#[export] Instance pq_ok_dec l : Decision (pq_ok l).
Proof. unfold pq_ok. apply _. Defined.

(** The abstract queue: threads with priorities, highest first and first come
    first served among equals; [D] is the set of allocated threads.  [None] where
    the C code has no meaning (a thread queued twice or not at all) or where a
    priority leaves half the [int] range. *)
Definition pq_spec (D : gset N) (op : pq_op) (l : list (N * Z)) : option (pq_ret * list (N * Z)) :=
  if decide (pq_ok l) then
    match op with
    | QInsert prio t =>
        if decide (t ∈ D ∧ t ≠ NULL ∧ t ∉ l.*1 ∧ prio_ok prio) then Some (QUnit, pq_ins prio t l) else None
    | QDelmax => Some (QThread (head_or NULL l.*1), tail l)
    | QDelete t => if decide (t ∈ l.*1) then Some (QUnit, pq_del t l) else None
    | QFavorite t =>
        if decide (t ∈ l.*1 ∧ prio_ok (pq_fav_prio (pq_del t l)))
        then Some (QBool true, pq_fav t l) else None
    | QIncrease => Some (QUnit, pq_incr l)
    | QContains t => Some (QBool (bool_decide (t ∈ l.*1)), l)
    | QTail => Some (QThread (last_or NULL l.*1), l)
    end
  else None.

Fixpoint pq_spec_all (D : gset N) (ops : list pq_op) (l : list (N * Z))
  : option (list pq_ret * list (N * Z)) :=
  match ops with
  | [] => Some ([], l)
  | op :: ops' =>
      match pq_spec D op l with
      | Some (v, l1) =>
          match pq_spec_all D ops' l1 with Some (vs, l2) => Some (v :: vs, l2) | None => None end
      | None => None
      end
  end.

Lemma pq_frame_dom D h h' : pq_frame D h h' → dom h' = dom h.
Proof.
  intros [_ Hf]. apply set_eq. intros x. rewrite !elem_of_dom. specialize (Hf x).
  destruct (h' !! x), (h !! x); simpl in Hf; naive_solver.
Qed.

Lemma pq_exec_refines s l op v l' :
  pq_repr s l → pq_spec (dom (tcbs s)) op l = Some (v, l') →
  wp (pq_exec op) (λ v' s', v' = v ∧ pq_repr s' l' ∧ dom (tcbs s') = dom (tcbs s)) s.
Proof.
  intros Hs Hop. unfold pq_spec in Hop. case_decide as Hok; [|done].
  destruct op as [prio t| |t|t| |t|]; unfold pq_exec; rewrite wp_bind; try (case_decide; [|done]);
    destruct_and?; simplify_eq.
  - eapply wp_mono; [apply pth_pqueue_insert_spec; [done..|by apply load_dom]|].
    intros ? s' [? ?%pq_frame_dom]. wps. done.
  - eapply wp_mono; [by apply pth_pqueue_delmax_spec|]. intros ? s' (-> & ? & ?%pq_frame_dom). wps. done.
  - eapply wp_mono; [by apply pth_pqueue_delete_spec|]. intros ? s' [? ?%pq_frame_dom]. wps. done.
  - eapply wp_mono; [by apply pth_pqueue_favorite_spec|]. intros ? s' (-> & ? & ?%pq_frame_dom). wps. done.
  - eapply wp_mono; [by apply pth_pqueue_increase_spec|]. intros ? s' [? ?%pq_frame_dom]. wps. done.
  - eapply wp_mono; [by apply pth_pqueue_contains_spec|]. intros ? s' [-> ->]. wps. done.
  - eapply wp_mono; [by apply pth_pqueue_tail_spec|]. intros ? s' [-> ->]. wps. done.
Qed.

Lemma pq_exec_all_refines ops s l vs l' :
  pq_repr s l → pq_spec_all (dom (tcbs s)) ops l = Some (vs, l') →
  ∃ s', pq_exec_all ops s = Some (vs, s') ∧ pq_repr s' l'.
Proof.
  revert s l vs. induction ops as [|op ops IH]; intros s l vs Hs Hops; simpl in Hops.
  - simplify_eq. by exists s.
  - destruct (pq_spec _ op l) as [[v l1]|] eqn:Hop; [|done].
    destruct (pq_spec_all _ ops l1) as [[vs1 l2]|] eqn:Hrest; [|done]. simplify_eq.
    apply (pq_exec_refines s l op v l1 Hs), wp_run in Hop as (v' & s1 & Hrun & -> & Hs1 & Hdom).
    rewrite <- Hdom in Hrest. destruct (IH s1 l1 vs1 Hs1 Hrest) as (s2 & Hrun2 & Hs2).
    exists s2. split; [|done]. simpl. unfold bind. by rewrite Hrun, Hrun2.
Qed.

(** ** Order and fairness *)
Definition desc (a b : N * Z) : Prop := b.2 ≤ a.2.

Lemma deltas_sorted h p l : deltas h p l → StronglySorted desc l ∧ Forall (λ xp, xp.2 ≤ p) l.
Proof.
  revert p. induction l as [|[x px] l IH]; intros p; simpl; [split; constructor|].
  intros (_ & ? & [? Hf]%IH). split; constructor; try done.
  eapply Forall_impl; [done|]. simpl. lia.
Qed.

Lemma pq_repr_sorted s l : pq_repr s l → StronglySorted desc l.
Proof.
  intros (q & _ & _ & _ & _ & Hv). destruct l as [|[x px] l]; [constructor|].
  destruct Hv as [_ [? ?]%deltas_sorted]. by constructor.
Qed.

Lemma pq_ins_elems prio t l : pq_ins prio t l ≡ₚ (t, prio) :: l.
Proof.
  induction l as [|[x px] l IH]; simpl; [done|]. case_match; [done|].
  rewrite IH. by rewrite Permutation_swap.
Qed.

Lemma pq_ins_sorted prio t l : StronglySorted desc l → StronglySorted desc (pq_ins prio t l).
Proof.
  induction 1 as [|[x px] l Hs IH Hf]; simpl; [repeat constructor|].
  destruct (Z.ltb_spec px prio).
  - constructor; [by constructor|]. constructor; [unfold desc; simpl; lia|].
    eapply Forall_impl; [done|]. unfold desc. simpl. intros; lia.
  - constructor; [done|]. rewrite pq_ins_elems. constructor; [done|]. done.
Qed.

Lemma pq_incr_sorted l : StronglySorted desc l → StronglySorted desc (pq_incr l).
Proof.
  induction 1 as [|[x px] l Hs IH Hf]; simpl; [constructor|]. constructor; [done|].
  apply Forall_fmap. eapply Forall_impl; [done|]. unfold desc. intros [? ?]. simpl. lia.
Qed.

Lemma pq_incr_app l1 x p l2 :
  pq_incr (l1 ++ (x, p) :: l2) = pq_incr l1 ++ (x, 1 + p) :: pq_incr l2.
Proof. unfold pq_incr. by rewrite fmap_app. Qed.

Lemma pq_ins_place prio t l :
  StronglySorted desc l →
  ∃ l1 l2, l = l1 ++ l2 ∧ pq_ins prio t l = l1 ++ (t, prio) :: l2 ∧
    Forall (λ xp, prio ≤ xp.2) l1 ∧ Forall (λ xp, xp.2 < prio) l2.
Proof.
  induction 1 as [|[x px] l Hs IH Hf]; simpl; [by exists [], []|].
  destruct (Z.ltb_spec px prio).
  - exists [], ((x, px) :: l). split_and!; [done..|]. constructor; [done|].
    eapply Forall_impl; [done|]. unfold desc. simpl. intros; lia.
  - destruct IH as (l1 & l2 & -> & -> & ? & ?). exists ((x, px) :: l1), l2. split_and!; try done.
    by constructor.
Qed.

(** One scheduling round: run the first thread, age the others, put a thread back. *)
Definition round_ops (r : Z * N) : list pq_op := [QDelmax; QIncrease; QInsert r.1 r.2].

Lemma round_ahead prio t x q a b :
  StronglySorted desc (a ++ (x, q) :: b) →
  ∃ a' b', pq_ins prio t (a ++ (x, q) :: b) = a' ++ (x, q) :: b' ∧
    (length a' ≤ length a + if decide (q < prio)%Z then 1 else 0)%nat.
Proof.
  intros Hs. destruct (decide (q < prio)).
  - clear Hs. induction a as [|[z pz] a IH]; simpl.
    + rewrite (proj2 (Z.ltb_lt _ _)) by done. exists [(t, prio)], b. done.
    + case_match; [exists ((t, prio) :: (z, pz) :: a), b; simpl; split; [done|lia]|].
      destruct IH as (a' & b' & -> & ?). exists ((z, pz) :: a'), b'. simpl. split; [done|lia].
  - exists a, (pq_ins prio t b). split; [|lia].
    assert (Forall (λ xp, prio ≤ xp.2) a) as Ha.
    { apply Forall_forall. intros [z pz] Hz.
      eapply (StronglySorted_app_1_elem_of _ _ _ _ (x, q)) in Hs; [|done|left].
      unfold desc in Hs. simpl in *. lia. }
    induction a as [|[z pz] a IH]; simpl.
    + by rewrite (proj2 (Z.ltb_ge _ _)) by lia.
    + apply Forall_cons in Ha as [Hz Ha]. simpl in Hz. rewrite (proj2 (Z.ltb_ge _ _)) by lia.
      f_equal. apply IH; [|done]. by apply StronglySorted_inv in Hs as [? _].
Qed.

Lemma rounds_dispatch D bound x rs l1 p l2 vs l' :
  StronglySorted desc (l1 ++ (x, p) :: l2) → Forall (λ r, r.1 ≤ bound) rs →
  pq_spec_all D (rs ≫= round_ops) (l1 ++ (x, p) :: l2) = Some (vs, l') →
  (length l1 + Z.to_nat (bound - p) < length rs)%nat → QThread x ∈ vs.
Proof.
  revert l1 p l2 vs. induction rs as [|[prio t] rs IH]; intros l1 p l2 vs Hs Hb Hrun Hlen; simpl in Hlen; [lia|].
  apply Forall_cons in Hb as [Hp Hb]. simpl in Hp. cbn [mbind list_bind app round_ops fst snd] in Hrun.
  simpl in Hrun. unfold pq_spec at 1 in Hrun. case_decide; [|done].
  destruct l1 as [|[c pc] l1]; simpl in Hrun.
  - destruct (pq_spec D QIncrease _) as [[? ?]|]; [|done]. destruct (pq_spec D (QInsert _ _) _) as [[? ?]|]; [|done].
    destruct (pq_spec_all D _ _) as [[? ?]|]; [|done]. simplify_eq. left.
  - unfold pq_spec at 1 in Hrun. case_decide; [|done].
    unfold pq_spec at 1 in Hrun. case_decide; [|done]. case_decide; [|done].
    apply StronglySorted_inv in Hs as [Hs%pq_incr_sorted _].
    rewrite pq_incr_app in Hrun, Hs.
    destruct (round_ahead prio t x (1 + p) _ _ Hs) as (a' & b' & Hins & Ha').
    pose proof (pq_ins_sorted prio t _ Hs) as Hs'. rewrite Hins in Hs', Hrun.
    destruct (pq_spec_all D (mbind _ rs) _) as [[vs' l2']|] eqn:Hrest; [|done]. simplify_eq.
    do 3 right. eapply IH; [done..|]. unfold pq_incr in Ha'. rewrite length_fmap in Ha'. simpl in Hlen.
    case_decide; lia.
Qed.

(** C2: Every sequence of priority queue operations refines the abstract queue, a
    list of threads with absolute priorities: whenever the list specification has
    an answer for each operation, the pointer code of pth_pqueue.c, which stores
    priorities as differences along a doubly linked ring, runs without undefined
    behaviour or [int] overflow, returns the same values and ends in a queue that
    represents the specified list. *)
Theorem pqueue_refinement ops s l vs l' :
  pq_repr s l → pq_spec_all (dom (tcbs s)) ops l = Some (vs, l') →
  ∃ s', pq_exec_all ops s = Some (vs, s') ∧ pq_repr s' l'.
Proof. apply pq_exec_all_refines. Qed.

(** [pth_pqueue_insert] keeps the queue sorted and is first come first served
    among equals: the new thread goes behind every thread whose priority is at
    least its own and in front of every thread with a smaller one, no other thread
    moves, and nothing but links and stored priorities of queued threads changes. *)
Theorem pqueue_insert_order s l prio t :
  pq_repr s l → pq_ok l → prio_ok prio → t ∉ l.*1 → is_Some (load (tcbs s) t) →
  ∃ s' l1 l2, pth_pqueue_insert prio t s = Some (tt, s') ∧
    l = l1 ++ l2 ∧ pq_repr s' (l1 ++ (t, prio) :: l2) ∧
    Forall (λ xp, prio ≤ xp.2) l1 ∧ Forall (λ xp, xp.2 < prio) l2 ∧
    (∀ z, q_body <$> tcbs s' !! z = q_body <$> tcbs s !! z) ∧
    (∀ z, z ∉ t :: l.*1 → tcbs s' !! z = tcbs s !! z).
Proof.
  intros Hs Hok Hp Ht Hl.
  destruct (pq_ins_place prio t l (pq_repr_sorted _ _ Hs)) as (l1 & l2 & -> & Hins & ? & ?).
  pose proof (pth_pqueue_insert_spec _ _ _ _ Hs Hok Hp Ht Hl) as Hw.
  apply wp_run in Hw as ([] & s' & Hrun & Hs' & [Hf Hb]). rewrite Hins in Hs'.
  by exists s', l1, l2.
Qed.


End pqueue_proofs.

(** Three allocated threads and an empty queue. *)
Definition pq_demo : qstate unit :=
  QState (list_to_map [(1%N, Qnode 0 0 0 tt); (2%N, Qnode 0 0 0 tt); (3%N, Qnode 0 0 0 tt)])
         (Some (Pqueue NULL 0)).

Definition pq_demo_ops : list pq_op :=
  [QInsert 0 1; QInsert 5 2; QInsert 0 3; QFavorite 3; QIncrease; QDelmax; QDelete 1; QTail].

Lemma pq_demo_empty : pq_repr pq_demo [].
Proof. exists (Pqueue NULL 0). split_and!; done. Qed.

Lemma pqueue_refinement_witness :
  ∃ s', pq_exec_all pq_demo_ops pq_demo =
          Some ([QUnit; QUnit; QUnit; QBool true; QUnit; QThread 3; QUnit; QThread 2], s') ∧
        pq_repr s' [(2%N, 6)].
Proof.
  apply (pqueue_refinement pq_demo_ops pq_demo []); [exact pq_demo_empty|]. vm_compute. reflexivity.
Defined.

(** The demo queue with threads 1 (priority 1) and 2 (priority 0) in it. *)
Definition pq_demo2 : qstate unit :=
  QState (list_to_map [(1%N, Qnode 2 2 1 tt); (2%N, Qnode 1 1 1 tt); (3%N, Qnode 0 0 0 tt)])
         (Some (Pqueue 1 2)).

Lemma pq_demo2_repr : pq_repr pq_demo2 [(1%N, 1); (2%N, 0)].
Proof.
  exists (Pqueue 1 2). split_and!; try done.
  split; [|done].
  apply NoDup_cons; split; [|apply NoDup_singleton]. by intros H%list_elem_of_singleton.
Qed.

Lemma pqueue_insert_order_witness :
  ∃ s' l1 l2, pth_pqueue_insert 1 3 pq_demo2 = Some (tt, s') ∧
    [(1%N, 1); (2%N, 0)] = l1 ++ l2 ∧ pq_repr s' (l1 ++ (3%N, 1) :: l2) ∧
    Forall (λ xp, 1 ≤ xp.2) l1 ∧ Forall (λ xp, xp.2 < 1) l2 ∧
    (∀ z, q_body <$> tcbs s' !! z = q_body <$> tcbs pq_demo2 !! z) ∧
    (∀ z, z ∉ 3%N :: [(1%N, 1); (2%N, 0)].*1 → tcbs s' !! z = tcbs pq_demo2 !! z).
Proof.
  apply (pqueue_insert_order pq_demo2 [(1%N, 1); (2%N, 0)] 1 3).
  - exact pq_demo2_repr.
  - split; [repeat constructor; vm_compute; discriminate|vm_compute; reflexivity].
  - vm_compute. split; discriminate.
  - vm_compute. intros H. repeat (apply elem_of_cons in H as [H|H]; [discriminate|]).
    by apply not_elem_of_nil in H.
  - eexists. reflexivity.
Defined.

