(* ===== verification/State.v ===== *)
(** * The state of the library (pth_p.h, pth.h and the globals of every file)

One record [St] holds every object the library can reach: a typed heap per kind
of structure (addresses are shared between [rnodes] and the structure that a ring
node is the first member of, as the casts in the code require), the global
variables, [errno] and the state [K] of the operating system.

The operating system is a parameter, the class [Kernel]: one function per system
call the library makes, from the kernel state to a result and a new kernel state.
Memory comes from [malloc]: the kernel decides whether a request fails; an
address is never handed out twice, so that a dangling pointer is always detected.

Code that can give up the processor is written in the resumption monad [coro]:
a run either returns, or switches to the scheduler with the rest of the thread's
computation as a continuation, or ends the process. *)
From Stdlib Require Export SpecFloat.
From S2P Require Export Prelude Links Time Util.
From S2P Require Ring.
From S2P Require Export Pqueue.

Abbreviation pth_ring := Ring.pth_ring (only parsing).
Abbreviation pth_ringnode := Ring.pth_ringnode (only parsing).
#[export] Existing Instance Ring.ringnode_linked.

(** ** Constants of pth.h *)
Definition PTH_KEY_MAX : Z := 256.
Definition PTH_ATFORK_MAX : Z := 128.
Definition PTH_DESTRUCTOR_ITERATIONS : nat := 4.
Definition PTH_NSIG : Z := 32.
Definition PTH_TCB_NAMELEN : nat := 40.

Definition PTH_EVENT_FD : Z := BIT 1.
Definition PTH_EVENT_SELECT : Z := BIT 2.
Definition PTH_EVENT_SIGS : Z := BIT 3.
Definition PTH_EVENT_TIME : Z := BIT 4.
Definition PTH_EVENT_MSG : Z := BIT 5.
Definition PTH_EVENT_MUTEX : Z := BIT 6.
Definition PTH_EVENT_COND : Z := BIT 7.
Definition PTH_EVENT_TID : Z := BIT 8.
Definition PTH_EVENT_FUNC : Z := BIT 9.
Definition PTH_UNTIL_OCCURRED : Z := BIT 11.
Definition PTH_UNTIL_FD_READABLE : Z := BIT 12.
Definition PTH_UNTIL_FD_WRITEABLE : Z := BIT 13.
Definition PTH_UNTIL_FD_EXCEPTION : Z := BIT 14.
Definition PTH_UNTIL_TID_NEW : Z := BIT 15.
Definition PTH_UNTIL_TID_READY : Z := BIT 16.
Definition PTH_UNTIL_TID_WAITING : Z := BIT 17.
Definition PTH_UNTIL_TID_DEAD : Z := BIT 18.
Definition PTH_MODE_REUSE : Z := BIT 20.
Definition PTH_MODE_CHAIN : Z := BIT 21.
Definition PTH_MODE_STATIC : Z := BIT 22.
Definition PTH_FREE_THIS : Z := 0.
Definition PTH_FREE_ALL : Z := 1.
Definition PTH_KEY_INIT : Z := -1.

Definition PTH_CANCEL_ENABLE : Z := BIT 0.
Definition PTH_CANCEL_DISABLE : Z := BIT 1.
Definition PTH_CANCEL_ASYNCHRONOUS : Z := BIT 2.
Definition PTH_CANCEL_DEFERRED : Z := BIT 3.
Definition PTH_CANCEL_DEFAULT : Z := Z.lor PTH_CANCEL_ENABLE PTH_CANCEL_DEFERRED.
(** [(void * )-1] *)
Definition PTH_CANCELED : N := 18446744073709551615.

Definition PTH_MUTEX_INITIALIZED : Z := BIT 0.
Definition PTH_MUTEX_LOCKED : Z := BIT 1.
Definition PTH_RWLOCK_RD : Z := 0.
Definition PTH_RWLOCK_RW : Z := 1.
Definition PTH_RWLOCK_INITIALIZED : Z := BIT 0.
Definition PTH_COND_INITIALIZED : Z := BIT 0.
Definition PTH_COND_SIGNALED : Z := BIT 1.
Definition PTH_COND_BROADCAST : Z := BIT 2.
Definition PTH_COND_HANDLED : Z := BIT 3.
Definition PTH_BARRIER_INITIALIZED : Z := BIT 0.
Definition PTH_BARRIER_HEADLIGHT : Z := -1.
Definition PTH_BARRIER_TAILLIGHT : Z := -2.

Definition PTH_FDMODE_ERROR : Z := -1.
Definition PTH_FDMODE_POLL : Z := 0.
Definition PTH_FDMODE_BLOCK : Z := 1.
Definition PTH_FDMODE_NONBLOCK : Z := 2.
(** [O_NONBLOCK] of Linux *)
Definition O_NONBLOCKING : Z := 2048.

(** ** Data types *)
Inductive pth_state :=
  | PTH_STATE_SCHEDULER | PTH_STATE_NEW | PTH_STATE_READY | PTH_STATE_WAITING | PTH_STATE_DEAD.

#[export] Instance pth_state_eq_dec : EqDecision pth_state.
Proof. solve_decision. Defined.

(** The enumeration values, as [(int)tid->state]. *)
Definition state_num (x : pth_state) : Z :=
  match x with
  | PTH_STATE_SCHEDULER => 0 | PTH_STATE_NEW => 1 | PTH_STATE_READY => 2
  | PTH_STATE_WAITING => 3 | PTH_STATE_DEAD => 4
  end.

Inductive pth_status := PTH_STATUS_PENDING | PTH_STATUS_OCCURRED | PTH_STATUS_FAILED.

#[export] Instance pth_status_eq_dec : EqDecision pth_status.
Proof. solve_decision. Defined.

(** The thread control block without its queue links, which are in [qnode]. *)
Record tcb := Tcb {
  prio : Z;
  name : list Z;
  dispatches : Z;
  state : pth_state;
  spawned : timeval;
  lastran : timeval;
  running : timeval;
  events : N;
  sigpending : gset Z;
  sigpendcnt : Z;
  mctx_sigs : gset Z;
  mctx_error : Z;
  stack : N;
  stacksize : Z;
  stackguard : N;
  stackloan : bool;
  start_func : N;
  start_arg : N;
  joinable : Z;
  join_arg : N;
  data_value : option (list N);
  data_count : Z;
  cancelreq : bool;
  cancelstate : Z;
  cleanups : N;
  mutexring : pth_ring
}.

Definition set_prio (f : Z → Z) (s : tcb) : tcb :=
    Tcb (f (prio s)) (name s) (dispatches s) (state s) (spawned s) (lastran s) (running s) (events s)
    (sigpending s) (sigpendcnt s) (mctx_sigs s) (mctx_error s) (stack s) (stacksize s) (stackguard s)
    (stackloan s) (start_func s) (start_arg s) (joinable s) (join_arg s) (data_value s) (data_count s)
    (cancelreq s) (cancelstate s) (cleanups s) (mutexring s).
Definition set_name (f : list Z → list Z) (s : tcb) : tcb :=
    Tcb (prio s) (f (name s)) (dispatches s) (state s) (spawned s) (lastran s) (running s) (events s)
    (sigpending s) (sigpendcnt s) (mctx_sigs s) (mctx_error s) (stack s) (stacksize s) (stackguard s)
    (stackloan s) (start_func s) (start_arg s) (joinable s) (join_arg s) (data_value s) (data_count s)
    (cancelreq s) (cancelstate s) (cleanups s) (mutexring s).
Definition set_dispatches (f : Z → Z) (s : tcb) : tcb :=
    Tcb (prio s) (name s) (f (dispatches s)) (state s) (spawned s) (lastran s) (running s) (events s)
    (sigpending s) (sigpendcnt s) (mctx_sigs s) (mctx_error s) (stack s) (stacksize s) (stackguard s)
    (stackloan s) (start_func s) (start_arg s) (joinable s) (join_arg s) (data_value s) (data_count s)
    (cancelreq s) (cancelstate s) (cleanups s) (mutexring s).
Definition set_state (f : pth_state → pth_state) (s : tcb) : tcb :=
    Tcb (prio s) (name s) (dispatches s) (f (state s)) (spawned s) (lastran s) (running s) (events s)
    (sigpending s) (sigpendcnt s) (mctx_sigs s) (mctx_error s) (stack s) (stacksize s) (stackguard s)
    (stackloan s) (start_func s) (start_arg s) (joinable s) (join_arg s) (data_value s) (data_count s)
    (cancelreq s) (cancelstate s) (cleanups s) (mutexring s).
Definition set_spawned (f : timeval → timeval) (s : tcb) : tcb :=
    Tcb (prio s) (name s) (dispatches s) (state s) (f (spawned s)) (lastran s) (running s) (events s)
    (sigpending s) (sigpendcnt s) (mctx_sigs s) (mctx_error s) (stack s) (stacksize s) (stackguard s)
    (stackloan s) (start_func s) (start_arg s) (joinable s) (join_arg s) (data_value s) (data_count s)
    (cancelreq s) (cancelstate s) (cleanups s) (mutexring s).
Definition set_lastran (f : timeval → timeval) (s : tcb) : tcb :=
    Tcb (prio s) (name s) (dispatches s) (state s) (spawned s) (f (lastran s)) (running s) (events s)
    (sigpending s) (sigpendcnt s) (mctx_sigs s) (mctx_error s) (stack s) (stacksize s) (stackguard s)
    (stackloan s) (start_func s) (start_arg s) (joinable s) (join_arg s) (data_value s) (data_count s)
    (cancelreq s) (cancelstate s) (cleanups s) (mutexring s).
Definition set_running (f : timeval → timeval) (s : tcb) : tcb :=
    Tcb (prio s) (name s) (dispatches s) (state s) (spawned s) (lastran s) (f (running s)) (events s)
    (sigpending s) (sigpendcnt s) (mctx_sigs s) (mctx_error s) (stack s) (stacksize s) (stackguard s)
    (stackloan s) (start_func s) (start_arg s) (joinable s) (join_arg s) (data_value s) (data_count s)
    (cancelreq s) (cancelstate s) (cleanups s) (mutexring s).
Definition set_events (f : N → N) (s : tcb) : tcb :=
    Tcb (prio s) (name s) (dispatches s) (state s) (spawned s) (lastran s) (running s) (f (events s))
    (sigpending s) (sigpendcnt s) (mctx_sigs s) (mctx_error s) (stack s) (stacksize s) (stackguard s)
    (stackloan s) (start_func s) (start_arg s) (joinable s) (join_arg s) (data_value s) (data_count s)
    (cancelreq s) (cancelstate s) (cleanups s) (mutexring s).
Definition set_sigpending (f : gset Z → gset Z) (s : tcb) : tcb :=
    Tcb (prio s) (name s) (dispatches s) (state s) (spawned s) (lastran s) (running s) (events s) (f
    (sigpending s)) (sigpendcnt s) (mctx_sigs s) (mctx_error s) (stack s) (stacksize s) (stackguard s)
    (stackloan s) (start_func s) (start_arg s) (joinable s) (join_arg s) (data_value s) (data_count s)
    (cancelreq s) (cancelstate s) (cleanups s) (mutexring s).
Definition set_sigpendcnt (f : Z → Z) (s : tcb) : tcb :=
    Tcb (prio s) (name s) (dispatches s) (state s) (spawned s) (lastran s) (running s) (events s) (sigpending
    s) (f (sigpendcnt s)) (mctx_sigs s) (mctx_error s) (stack s) (stacksize s) (stackguard s) (stackloan s)
    (start_func s) (start_arg s) (joinable s) (join_arg s) (data_value s) (data_count s) (cancelreq s)
    (cancelstate s) (cleanups s) (mutexring s).
Definition set_mctx_sigs (f : gset Z → gset Z) (s : tcb) : tcb :=
    Tcb (prio s) (name s) (dispatches s) (state s) (spawned s) (lastran s) (running s) (events s) (sigpending
    s) (sigpendcnt s) (f (mctx_sigs s)) (mctx_error s) (stack s) (stacksize s) (stackguard s) (stackloan s)
    (start_func s) (start_arg s) (joinable s) (join_arg s) (data_value s) (data_count s) (cancelreq s)
    (cancelstate s) (cleanups s) (mutexring s).
Definition set_mctx_error (f : Z → Z) (s : tcb) : tcb :=
    Tcb (prio s) (name s) (dispatches s) (state s) (spawned s) (lastran s) (running s) (events s) (sigpending
    s) (sigpendcnt s) (mctx_sigs s) (f (mctx_error s)) (stack s) (stacksize s) (stackguard s) (stackloan s)
    (start_func s) (start_arg s) (joinable s) (join_arg s) (data_value s) (data_count s) (cancelreq s)
    (cancelstate s) (cleanups s) (mutexring s).
Definition set_stack (f : N → N) (s : tcb) : tcb :=
    Tcb (prio s) (name s) (dispatches s) (state s) (spawned s) (lastran s) (running s) (events s) (sigpending
    s) (sigpendcnt s) (mctx_sigs s) (mctx_error s) (f (stack s)) (stacksize s) (stackguard s) (stackloan s)
    (start_func s) (start_arg s) (joinable s) (join_arg s) (data_value s) (data_count s) (cancelreq s)
    (cancelstate s) (cleanups s) (mutexring s).
Definition set_stacksize (f : Z → Z) (s : tcb) : tcb :=
    Tcb (prio s) (name s) (dispatches s) (state s) (spawned s) (lastran s) (running s) (events s) (sigpending
    s) (sigpendcnt s) (mctx_sigs s) (mctx_error s) (stack s) (f (stacksize s)) (stackguard s) (stackloan s)
    (start_func s) (start_arg s) (joinable s) (join_arg s) (data_value s) (data_count s) (cancelreq s)
    (cancelstate s) (cleanups s) (mutexring s).
Definition set_stackguard (f : N → N) (s : tcb) : tcb :=
    Tcb (prio s) (name s) (dispatches s) (state s) (spawned s) (lastran s) (running s) (events s) (sigpending
    s) (sigpendcnt s) (mctx_sigs s) (mctx_error s) (stack s) (stacksize s) (f (stackguard s)) (stackloan s)
    (start_func s) (start_arg s) (joinable s) (join_arg s) (data_value s) (data_count s) (cancelreq s)
    (cancelstate s) (cleanups s) (mutexring s).
Definition set_stackloan (f : bool → bool) (s : tcb) : tcb :=
    Tcb (prio s) (name s) (dispatches s) (state s) (spawned s) (lastran s) (running s) (events s) (sigpending
    s) (sigpendcnt s) (mctx_sigs s) (mctx_error s) (stack s) (stacksize s) (stackguard s) (f (stackloan s))
    (start_func s) (start_arg s) (joinable s) (join_arg s) (data_value s) (data_count s) (cancelreq s)
    (cancelstate s) (cleanups s) (mutexring s).
Definition set_start_func (f : N → N) (s : tcb) : tcb :=
    Tcb (prio s) (name s) (dispatches s) (state s) (spawned s) (lastran s) (running s) (events s) (sigpending
    s) (sigpendcnt s) (mctx_sigs s) (mctx_error s) (stack s) (stacksize s) (stackguard s) (stackloan s) (f
    (start_func s)) (start_arg s) (joinable s) (join_arg s) (data_value s) (data_count s) (cancelreq s)
    (cancelstate s) (cleanups s) (mutexring s).
Definition set_start_arg (f : N → N) (s : tcb) : tcb :=
    Tcb (prio s) (name s) (dispatches s) (state s) (spawned s) (lastran s) (running s) (events s) (sigpending
    s) (sigpendcnt s) (mctx_sigs s) (mctx_error s) (stack s) (stacksize s) (stackguard s) (stackloan s)
    (start_func s) (f (start_arg s)) (joinable s) (join_arg s) (data_value s) (data_count s) (cancelreq s)
    (cancelstate s) (cleanups s) (mutexring s).
Definition set_joinable (f : Z → Z) (s : tcb) : tcb :=
    Tcb (prio s) (name s) (dispatches s) (state s) (spawned s) (lastran s) (running s) (events s) (sigpending
    s) (sigpendcnt s) (mctx_sigs s) (mctx_error s) (stack s) (stacksize s) (stackguard s) (stackloan s)
    (start_func s) (start_arg s) (f (joinable s)) (join_arg s) (data_value s) (data_count s) (cancelreq s)
    (cancelstate s) (cleanups s) (mutexring s).
Definition set_join_arg (f : N → N) (s : tcb) : tcb :=
    Tcb (prio s) (name s) (dispatches s) (state s) (spawned s) (lastran s) (running s) (events s) (sigpending
    s) (sigpendcnt s) (mctx_sigs s) (mctx_error s) (stack s) (stacksize s) (stackguard s) (stackloan s)
    (start_func s) (start_arg s) (joinable s) (f (join_arg s)) (data_value s) (data_count s) (cancelreq s)
    (cancelstate s) (cleanups s) (mutexring s).
Definition set_data_value (f : option (list N) → option (list N)) (s : tcb) : tcb :=
    Tcb (prio s) (name s) (dispatches s) (state s) (spawned s) (lastran s) (running s) (events s) (sigpending
    s) (sigpendcnt s) (mctx_sigs s) (mctx_error s) (stack s) (stacksize s) (stackguard s) (stackloan s)
    (start_func s) (start_arg s) (joinable s) (join_arg s) (f (data_value s)) (data_count s) (cancelreq s)
    (cancelstate s) (cleanups s) (mutexring s).
Definition set_data_count (f : Z → Z) (s : tcb) : tcb :=
    Tcb (prio s) (name s) (dispatches s) (state s) (spawned s) (lastran s) (running s) (events s) (sigpending
    s) (sigpendcnt s) (mctx_sigs s) (mctx_error s) (stack s) (stacksize s) (stackguard s) (stackloan s)
    (start_func s) (start_arg s) (joinable s) (join_arg s) (data_value s) (f (data_count s)) (cancelreq s)
    (cancelstate s) (cleanups s) (mutexring s).
Definition set_cancelreq (f : bool → bool) (s : tcb) : tcb :=
    Tcb (prio s) (name s) (dispatches s) (state s) (spawned s) (lastran s) (running s) (events s) (sigpending
    s) (sigpendcnt s) (mctx_sigs s) (mctx_error s) (stack s) (stacksize s) (stackguard s) (stackloan s)
    (start_func s) (start_arg s) (joinable s) (join_arg s) (data_value s) (data_count s) (f (cancelreq s))
    (cancelstate s) (cleanups s) (mutexring s).
Definition set_cancelstate (f : Z → Z) (s : tcb) : tcb :=
    Tcb (prio s) (name s) (dispatches s) (state s) (spawned s) (lastran s) (running s) (events s) (sigpending
    s) (sigpendcnt s) (mctx_sigs s) (mctx_error s) (stack s) (stacksize s) (stackguard s) (stackloan s)
    (start_func s) (start_arg s) (joinable s) (join_arg s) (data_value s) (data_count s) (cancelreq s) (f
    (cancelstate s)) (cleanups s) (mutexring s).
Definition set_cleanups (f : N → N) (s : tcb) : tcb :=
    Tcb (prio s) (name s) (dispatches s) (state s) (spawned s) (lastran s) (running s) (events s) (sigpending
    s) (sigpendcnt s) (mctx_sigs s) (mctx_error s) (stack s) (stacksize s) (stackguard s) (stackloan s)
    (start_func s) (start_arg s) (joinable s) (join_arg s) (data_value s) (data_count s) (cancelreq s)
    (cancelstate s) (f (cleanups s)) (mutexring s).
Definition set_mutexring (f : pth_ring → pth_ring) (s : tcb) : tcb :=
    Tcb (prio s) (name s) (dispatches s) (state s) (spawned s) (lastran s) (running s) (events s) (sigpending
    s) (sigpendcnt s) (mctx_sigs s) (mctx_error s) (stack s) (stacksize s) (stackguard s) (stackloan s)
    (start_func s) (start_arg s) (joinable s) (join_arg s) (data_value s) (data_count s) (cancelreq s)
    (cancelstate s) (cleanups s) (f (mutexring s)).

(** The argument union of an event. *)
Inductive ev_union :=
  | FD (fd : Z)
  | SELECT (n : N) (nfd : Z) (rfds wfds efds : N)
  | SIGS (sigs sig : N)
  | TIME (tv : timeval)
  | MSG (mp : N)
  | MUTEX (mutex : N)
  | COND (cond : N)
  | TID (tid : N)
  | FUNC (func arg : N) (tv : timeval).

Record event := Event {
  ev_next : N;
  ev_prev : N;
  ev_status : pth_status;
  ev_type : Z;
  ev_goal : Z;
  ev_args : ev_union
}.

Definition set_ev_next (f : N → N) (s : event) : event :=
    Event (f (ev_next s)) (ev_prev s) (ev_status s) (ev_type s) (ev_goal s) (ev_args s).
Definition set_ev_prev (f : N → N) (s : event) : event :=
    Event (ev_next s) (f (ev_prev s)) (ev_status s) (ev_type s) (ev_goal s) (ev_args s).
Definition set_ev_status (f : pth_status → pth_status) (s : event) : event :=
    Event (ev_next s) (ev_prev s) (f (ev_status s)) (ev_type s) (ev_goal s) (ev_args s).
Definition set_ev_type (f : Z → Z) (s : event) : event :=
    Event (ev_next s) (ev_prev s) (ev_status s) (f (ev_type s)) (ev_goal s) (ev_args s).
Definition set_ev_goal (f : Z → Z) (s : event) : event :=
    Event (ev_next s) (ev_prev s) (ev_status s) (ev_type s) (f (ev_goal s)) (ev_args s).
Definition set_ev_args (f : ev_union → ev_union) (s : event) : event :=
    Event (ev_next s) (ev_prev s) (ev_status s) (ev_type s) (ev_goal s) (f (ev_args s)).

#[export] Instance event_linked : Linked event.
Proof.
  refine {| nx := ev_next; pv := ev_prev; set_nx := λ p, set_ev_next (λ _, p); set_pv := λ p, set_ev_prev (λ _, p) |};
    done.
Defined.

(** Mutexes, message ports and messages begin with a ring node, which is in
    [rnodes] at the same address.  The mutexes and condition variables inside a
    read-write lock or a barrier are objects of their own, at the recorded
    addresses. *)
Record pth_mutex := Mutex { mx_state : Z; mx_owner : N; mx_count : Z }.
Record pth_cond := Cond { cn_state : Z; cn_waiters : Z }.
Record pth_rwlock := Rwlock {
  rw_state : Z; rw_mode : Z; rw_readers : Z; rw_mutex_rd : N; rw_mutex_rw : N }.
Record pth_barrier := Barrier {
  br_state : Z; br_threshold : Z; br_count : Z; br_cycle : bool; br_cond : N; br_mutex : N }.
Record pth_msgport := Msgport { mp_name : option (list Z); mp_tid : N; mp_queue : pth_ring }.
Record pth_message := Message { m_replyport : N; m_size : Z; m_data : N }.
Record pth_attr := Attr {
  a_tid : N; a_prio : Z; a_dispatches : Z; a_name : list Z; a_joinable : Z;
  a_cancelstate : Z; a_stacksize : Z; a_stackaddr : N }.
Record pth_cleanup := Cleanup { cl_next : N; cl_func : N; cl_arg : N }.
Record pth_keytab_st := Keytab { used : bool; destructor : N }.
Record pth_atfork_st := Atfork { af_prepare : N; af_parent : N; af_child : N; af_arg : N }.

(** What pth_high.c, pth_uctx.c and pthread.c add: the bytes of the program's
    buffers, its [struct iovec] and [struct pollfd] arrays (16 and 8 bytes per
    element), its pointer variables, the user-space contexts and the globals of
    these files. *)
Record pollfd := Pollfd { pfd_fd : Z; pfd_events : Z; pfd_revents : Z }.
Record pth_uctx := Uctx {
  uc_stack_own : bool; uc_stack_ptr : N; uc_stack_len : Z; uc_mctx_set : bool }.
Record uctx_trampoline := UTramp {
  ut_parent : N; ut_this : N; ut_after : N; ut_func : N; ut_arg : N }.
Record pthread_atfork_st := PAtfork { pa_prepare : N; pa_parent : N; pa_child : N }.
Record user := User {
  mem : gmap N Z;
  iovecs : gmap N (N * Z);
  pollfds : gmap N pollfd;
  ptrs : gmap N N;
  uctxs : gmap N pth_uctx;
  pth_uctx_trampoline_ctx : uctx_trampoline;
  pthread_initialized : bool;
  pthread_concurrency : Z;
  pthread_atfork_info : list pthread_atfork_st;
  pthread_atfork_idx : Z;
  atexits : list N
}.
Definition upd_mem (f : gmap N Z → gmap N Z) (u : user) : user :=
  User (f (mem u)) (iovecs u) (pollfds u) (ptrs u) (uctxs u) (pth_uctx_trampoline_ctx u) (pthread_initialized u) (pthread_concurrency u) (pthread_atfork_info u) (pthread_atfork_idx u) (atexits u).
Definition upd_iovecs (f : gmap N (N * Z) → gmap N (N * Z)) (u : user) : user :=
  User (mem u) (f (iovecs u)) (pollfds u) (ptrs u) (uctxs u) (pth_uctx_trampoline_ctx u) (pthread_initialized u) (pthread_concurrency u) (pthread_atfork_info u) (pthread_atfork_idx u) (atexits u).
Definition upd_pollfds (f : gmap N pollfd → gmap N pollfd) (u : user) : user :=
  User (mem u) (iovecs u) (f (pollfds u)) (ptrs u) (uctxs u) (pth_uctx_trampoline_ctx u) (pthread_initialized u) (pthread_concurrency u) (pthread_atfork_info u) (pthread_atfork_idx u) (atexits u).
Definition upd_ptrs (f : gmap N N → gmap N N) (u : user) : user :=
  User (mem u) (iovecs u) (pollfds u) (f (ptrs u)) (uctxs u) (pth_uctx_trampoline_ctx u) (pthread_initialized u) (pthread_concurrency u) (pthread_atfork_info u) (pthread_atfork_idx u) (atexits u).
Definition upd_uctxs (f : gmap N pth_uctx → gmap N pth_uctx) (u : user) : user :=
  User (mem u) (iovecs u) (pollfds u) (ptrs u) (f (uctxs u)) (pth_uctx_trampoline_ctx u) (pthread_initialized u) (pthread_concurrency u) (pthread_atfork_info u) (pthread_atfork_idx u) (atexits u).
Definition upd_pth_uctx_trampoline_ctx (f : uctx_trampoline → uctx_trampoline) (u : user) : user :=
  User (mem u) (iovecs u) (pollfds u) (ptrs u) (uctxs u) (f (pth_uctx_trampoline_ctx u)) (pthread_initialized u) (pthread_concurrency u) (pthread_atfork_info u) (pthread_atfork_idx u) (atexits u).
Definition upd_pthread_initialized (f : bool → bool) (u : user) : user :=
  User (mem u) (iovecs u) (pollfds u) (ptrs u) (uctxs u) (pth_uctx_trampoline_ctx u) (f (pthread_initialized u)) (pthread_concurrency u) (pthread_atfork_info u) (pthread_atfork_idx u) (atexits u).
Definition upd_pthread_concurrency (f : Z → Z) (u : user) : user :=
  User (mem u) (iovecs u) (pollfds u) (ptrs u) (uctxs u) (pth_uctx_trampoline_ctx u) (pthread_initialized u) (f (pthread_concurrency u)) (pthread_atfork_info u) (pthread_atfork_idx u) (atexits u).
Definition upd_pthread_atfork_info (f : list pthread_atfork_st → list pthread_atfork_st) (u : user) : user :=
  User (mem u) (iovecs u) (pollfds u) (ptrs u) (uctxs u) (pth_uctx_trampoline_ctx u) (pthread_initialized u) (pthread_concurrency u) (f (pthread_atfork_info u)) (pthread_atfork_idx u) (atexits u).
Definition upd_pthread_atfork_idx (f : Z → Z) (u : user) : user :=
  User (mem u) (iovecs u) (pollfds u) (ptrs u) (uctxs u) (pth_uctx_trampoline_ctx u) (pthread_initialized u) (pthread_concurrency u) (pthread_atfork_info u) (f (pthread_atfork_idx u)) (atexits u).
Definition upd_atexits (f : list N → list N) (u : user) : user :=
  User (mem u) (iovecs u) (pollfds u) (ptrs u) (uctxs u) (pth_uctx_trampoline_ctx u) (pthread_initialized u) (pthread_concurrency u) (pthread_atfork_info u) (pthread_atfork_idx u) (f (atexits u)).
Definition user_init : user := User ∅ ∅ ∅ ∅ ∅ (UTramp 0 0 0 0 0) false 0 [] 0 [].

(** ** The operating system *)
Inductive sigact := SIG_DFL | SIG_IGN | SIG_HANDLER (f : N).
Inductive sig_how := SIG_BLOCK | SIG_UNBLOCK | SIG_SETMASK.

(** What [select] did: result, [errno], the sets it stored, and the signals whose
    catching handler ran while it waited. *)
Record sel_result := SelResult {
  sel_rc : Z; sel_errno : Z; sel_rfds : option fdset; sel_wfds : option fdset;
  sel_efds : option fdset; sel_sigs : list Z }.

Class Kernel := {
  K : Type;
  k_enomem : Z → K → bool * K;
  k_gettimeofday : K → timeval * K;
  k_time : K → Z * K;
  k_getfl : Z → K → (Z * Z) * K;
  k_setfl : Z → Z → K → K;
  k_pipe : K → (Z * Z * (Z * Z)) * K;
  k_close : Z → K → K;
  k_read : Z → Z → K → (Z * Z * list Z) * K;
  k_write : Z → list Z → K → (Z * Z) * K;
  k_select : Z → option fdset → option fdset → option fdset → option timeval → K → sel_result * K;
  k_sigpending : K → gset Z;
  k_kill : Z → K → K;
  k_sigprocmask : sig_how → gset Z → K → gset Z * K;
  k_sigaction : Z → option sigact → K → (Z * sigact) * K;
  k_sigsuspend : gset Z → K → K;
  k_fork : K → (Z * Z) * K;
}.

Section state.
Context {Kern : Kernel}.

Record St := MkSt {
  threads : gmap N (qnode tcb);
  evs : gmap N event;
  rnodes : gmap N pth_ringnode;
  mutexes : gmap N pth_mutex;
  conds : gmap N pth_cond;
  rwlocks : gmap N pth_rwlock;
  barriers : gmap N pth_barrier;
  msgports : gmap N pth_msgport;
  messages : gmap N pth_message;
  attrs : gmap N pth_attr;
  cleanup_recs : gmap N pth_cleanup;
  ints : gmap N Z;
  cleanvecs : gmap N (N * N);
  fdsets : gmap N (gset Z);
  sigsets : gmap N (gset Z);
  longs : gmap N Z;
  pth_initialized : bool;
  pth_main : N;
  pth_sched : N;
  pth_current : N;
  pth_NQ : pth_pqueue;
  pth_RQ : pth_pqueue;
  pth_WQ : pth_pqueue;
  pth_SQ : pth_pqueue;
  pth_DQ : pth_pqueue;
  pth_favournew : Z;
  pth_loadval : spec_float;
  pth_loadticknext : timeval;
  pth_sigpipe : Z * Z;
  pth_sigpending : gset Z;
  pth_sigblock : gset Z;
  pth_sigcatch : gset Z;
  pth_sigraised : gset Z;
  pth_keytab : list pth_keytab_st;
  pth_msgport_ring : pth_ring;
  pth_atfork_list : list pth_atfork_st;
  pth_atfork_idx : Z;
  errno : Z;
  pth_errno_storage : Z;
  pth_errno_flag : bool;
  usr : user;
  brk : N;
  kern : K
}.

Definition set_threads (f : gmap N (qnode tcb) → gmap N (qnode tcb)) (s : St) : St :=
    MkSt (f (threads s)) (evs s) (rnodes s) (mutexes s) (conds s) (rwlocks s) (barriers s) (msgports s)
    (messages s) (attrs s) (cleanup_recs s) (ints s) (cleanvecs s) (fdsets s) (sigsets s) (longs s)
    (pth_initialized s) (pth_main s) (pth_sched s) (pth_current s) (pth_NQ s) (pth_RQ s) (pth_WQ s) (pth_SQ s)
    (pth_DQ s) (pth_favournew s) (pth_loadval s) (pth_loadticknext s) (pth_sigpipe s) (pth_sigpending s)
    (pth_sigblock s) (pth_sigcatch s) (pth_sigraised s) (pth_keytab s) (pth_msgport_ring s) (pth_atfork_list
    s) (pth_atfork_idx s) (errno s) (pth_errno_storage s) (pth_errno_flag s) (usr s) (brk s) (kern s).
Definition set_evs (f : gmap N event → gmap N event) (s : St) : St :=
    MkSt (threads s) (f (evs s)) (rnodes s) (mutexes s) (conds s) (rwlocks s) (barriers s) (msgports s)
    (messages s) (attrs s) (cleanup_recs s) (ints s) (cleanvecs s) (fdsets s) (sigsets s) (longs s)
    (pth_initialized s) (pth_main s) (pth_sched s) (pth_current s) (pth_NQ s) (pth_RQ s) (pth_WQ s) (pth_SQ s)
    (pth_DQ s) (pth_favournew s) (pth_loadval s) (pth_loadticknext s) (pth_sigpipe s) (pth_sigpending s)
    (pth_sigblock s) (pth_sigcatch s) (pth_sigraised s) (pth_keytab s) (pth_msgport_ring s) (pth_atfork_list
    s) (pth_atfork_idx s) (errno s) (pth_errno_storage s) (pth_errno_flag s) (usr s) (brk s) (kern s).
Definition set_rnodes (f : gmap N pth_ringnode → gmap N pth_ringnode) (s : St) : St :=
    MkSt (threads s) (evs s) (f (rnodes s)) (mutexes s) (conds s) (rwlocks s) (barriers s) (msgports s)
    (messages s) (attrs s) (cleanup_recs s) (ints s) (cleanvecs s) (fdsets s) (sigsets s) (longs s)
    (pth_initialized s) (pth_main s) (pth_sched s) (pth_current s) (pth_NQ s) (pth_RQ s) (pth_WQ s) (pth_SQ s)
    (pth_DQ s) (pth_favournew s) (pth_loadval s) (pth_loadticknext s) (pth_sigpipe s) (pth_sigpending s)
    (pth_sigblock s) (pth_sigcatch s) (pth_sigraised s) (pth_keytab s) (pth_msgport_ring s) (pth_atfork_list
    s) (pth_atfork_idx s) (errno s) (pth_errno_storage s) (pth_errno_flag s) (usr s) (brk s) (kern s).
Definition set_mutexes (f : gmap N pth_mutex → gmap N pth_mutex) (s : St) : St :=
    MkSt (threads s) (evs s) (rnodes s) (f (mutexes s)) (conds s) (rwlocks s) (barriers s) (msgports s)
    (messages s) (attrs s) (cleanup_recs s) (ints s) (cleanvecs s) (fdsets s) (sigsets s) (longs s)
    (pth_initialized s) (pth_main s) (pth_sched s) (pth_current s) (pth_NQ s) (pth_RQ s) (pth_WQ s) (pth_SQ s)
    (pth_DQ s) (pth_favournew s) (pth_loadval s) (pth_loadticknext s) (pth_sigpipe s) (pth_sigpending s)
    (pth_sigblock s) (pth_sigcatch s) (pth_sigraised s) (pth_keytab s) (pth_msgport_ring s) (pth_atfork_list
    s) (pth_atfork_idx s) (errno s) (pth_errno_storage s) (pth_errno_flag s) (usr s) (brk s) (kern s).
Definition set_conds (f : gmap N pth_cond → gmap N pth_cond) (s : St) : St :=
    MkSt (threads s) (evs s) (rnodes s) (mutexes s) (f (conds s)) (rwlocks s) (barriers s) (msgports s)
    (messages s) (attrs s) (cleanup_recs s) (ints s) (cleanvecs s) (fdsets s) (sigsets s) (longs s)
    (pth_initialized s) (pth_main s) (pth_sched s) (pth_current s) (pth_NQ s) (pth_RQ s) (pth_WQ s) (pth_SQ s)
    (pth_DQ s) (pth_favournew s) (pth_loadval s) (pth_loadticknext s) (pth_sigpipe s) (pth_sigpending s)
    (pth_sigblock s) (pth_sigcatch s) (pth_sigraised s) (pth_keytab s) (pth_msgport_ring s) (pth_atfork_list
    s) (pth_atfork_idx s) (errno s) (pth_errno_storage s) (pth_errno_flag s) (usr s) (brk s) (kern s).
Definition set_rwlocks (f : gmap N pth_rwlock → gmap N pth_rwlock) (s : St) : St :=
    MkSt (threads s) (evs s) (rnodes s) (mutexes s) (conds s) (f (rwlocks s)) (barriers s) (msgports s)
    (messages s) (attrs s) (cleanup_recs s) (ints s) (cleanvecs s) (fdsets s) (sigsets s) (longs s)
    (pth_initialized s) (pth_main s) (pth_sched s) (pth_current s) (pth_NQ s) (pth_RQ s) (pth_WQ s) (pth_SQ s)
    (pth_DQ s) (pth_favournew s) (pth_loadval s) (pth_loadticknext s) (pth_sigpipe s) (pth_sigpending s)
    (pth_sigblock s) (pth_sigcatch s) (pth_sigraised s) (pth_keytab s) (pth_msgport_ring s) (pth_atfork_list
    s) (pth_atfork_idx s) (errno s) (pth_errno_storage s) (pth_errno_flag s) (usr s) (brk s) (kern s).
Definition set_barriers (f : gmap N pth_barrier → gmap N pth_barrier) (s : St) : St :=
    MkSt (threads s) (evs s) (rnodes s) (mutexes s) (conds s) (rwlocks s) (f (barriers s)) (msgports s)
    (messages s) (attrs s) (cleanup_recs s) (ints s) (cleanvecs s) (fdsets s) (sigsets s) (longs s)
    (pth_initialized s) (pth_main s) (pth_sched s) (pth_current s) (pth_NQ s) (pth_RQ s) (pth_WQ s) (pth_SQ s)
    (pth_DQ s) (pth_favournew s) (pth_loadval s) (pth_loadticknext s) (pth_sigpipe s) (pth_sigpending s)
    (pth_sigblock s) (pth_sigcatch s) (pth_sigraised s) (pth_keytab s) (pth_msgport_ring s) (pth_atfork_list
    s) (pth_atfork_idx s) (errno s) (pth_errno_storage s) (pth_errno_flag s) (usr s) (brk s) (kern s).
Definition set_msgports (f : gmap N pth_msgport → gmap N pth_msgport) (s : St) : St :=
    MkSt (threads s) (evs s) (rnodes s) (mutexes s) (conds s) (rwlocks s) (barriers s) (f (msgports s))
    (messages s) (attrs s) (cleanup_recs s) (ints s) (cleanvecs s) (fdsets s) (sigsets s) (longs s)
    (pth_initialized s) (pth_main s) (pth_sched s) (pth_current s) (pth_NQ s) (pth_RQ s) (pth_WQ s) (pth_SQ s)
    (pth_DQ s) (pth_favournew s) (pth_loadval s) (pth_loadticknext s) (pth_sigpipe s) (pth_sigpending s)
    (pth_sigblock s) (pth_sigcatch s) (pth_sigraised s) (pth_keytab s) (pth_msgport_ring s) (pth_atfork_list
    s) (pth_atfork_idx s) (errno s) (pth_errno_storage s) (pth_errno_flag s) (usr s) (brk s) (kern s).
Definition set_messages (f : gmap N pth_message → gmap N pth_message) (s : St) : St :=
    MkSt (threads s) (evs s) (rnodes s) (mutexes s) (conds s) (rwlocks s) (barriers s) (msgports s) (f
    (messages s)) (attrs s) (cleanup_recs s) (ints s) (cleanvecs s) (fdsets s) (sigsets s) (longs s)
    (pth_initialized s) (pth_main s) (pth_sched s) (pth_current s) (pth_NQ s) (pth_RQ s) (pth_WQ s) (pth_SQ s)
    (pth_DQ s) (pth_favournew s) (pth_loadval s) (pth_loadticknext s) (pth_sigpipe s) (pth_sigpending s)
    (pth_sigblock s) (pth_sigcatch s) (pth_sigraised s) (pth_keytab s) (pth_msgport_ring s) (pth_atfork_list
    s) (pth_atfork_idx s) (errno s) (pth_errno_storage s) (pth_errno_flag s) (usr s) (brk s) (kern s).
Definition set_attrs (f : gmap N pth_attr → gmap N pth_attr) (s : St) : St :=
    MkSt (threads s) (evs s) (rnodes s) (mutexes s) (conds s) (rwlocks s) (barriers s) (msgports s) (messages
    s) (f (attrs s)) (cleanup_recs s) (ints s) (cleanvecs s) (fdsets s) (sigsets s) (longs s) (pth_initialized
    s) (pth_main s) (pth_sched s) (pth_current s) (pth_NQ s) (pth_RQ s) (pth_WQ s) (pth_SQ s) (pth_DQ s)
    (pth_favournew s) (pth_loadval s) (pth_loadticknext s) (pth_sigpipe s) (pth_sigpending s) (pth_sigblock s)
    (pth_sigcatch s) (pth_sigraised s) (pth_keytab s) (pth_msgport_ring s) (pth_atfork_list s) (pth_atfork_idx
    s) (errno s) (pth_errno_storage s) (pth_errno_flag s) (usr s) (brk s) (kern s).
Definition set_cleanup_recs (f : gmap N pth_cleanup → gmap N pth_cleanup) (s : St) : St :=
    MkSt (threads s) (evs s) (rnodes s) (mutexes s) (conds s) (rwlocks s) (barriers s) (msgports s) (messages
    s) (attrs s) (f (cleanup_recs s)) (ints s) (cleanvecs s) (fdsets s) (sigsets s) (longs s) (pth_initialized
    s) (pth_main s) (pth_sched s) (pth_current s) (pth_NQ s) (pth_RQ s) (pth_WQ s) (pth_SQ s) (pth_DQ s)
    (pth_favournew s) (pth_loadval s) (pth_loadticknext s) (pth_sigpipe s) (pth_sigpending s) (pth_sigblock s)
    (pth_sigcatch s) (pth_sigraised s) (pth_keytab s) (pth_msgport_ring s) (pth_atfork_list s) (pth_atfork_idx
    s) (errno s) (pth_errno_storage s) (pth_errno_flag s) (usr s) (brk s) (kern s).
Definition set_ints (f : gmap N Z → gmap N Z) (s : St) : St :=
    MkSt (threads s) (evs s) (rnodes s) (mutexes s) (conds s) (rwlocks s) (barriers s) (msgports s) (messages
    s) (attrs s) (cleanup_recs s) (f (ints s)) (cleanvecs s) (fdsets s) (sigsets s) (longs s) (pth_initialized
    s) (pth_main s) (pth_sched s) (pth_current s) (pth_NQ s) (pth_RQ s) (pth_WQ s) (pth_SQ s) (pth_DQ s)
    (pth_favournew s) (pth_loadval s) (pth_loadticknext s) (pth_sigpipe s) (pth_sigpending s) (pth_sigblock s)
    (pth_sigcatch s) (pth_sigraised s) (pth_keytab s) (pth_msgport_ring s) (pth_atfork_list s) (pth_atfork_idx
    s) (errno s) (pth_errno_storage s) (pth_errno_flag s) (usr s) (brk s) (kern s).
Definition set_cleanvecs (f : gmap N (N * N) → gmap N (N * N)) (s : St) : St :=
    MkSt (threads s) (evs s) (rnodes s) (mutexes s) (conds s) (rwlocks s) (barriers s) (msgports s) (messages
    s) (attrs s) (cleanup_recs s) (ints s) (f (cleanvecs s)) (fdsets s) (sigsets s) (longs s) (pth_initialized
    s) (pth_main s) (pth_sched s) (pth_current s) (pth_NQ s) (pth_RQ s) (pth_WQ s) (pth_SQ s) (pth_DQ s)
    (pth_favournew s) (pth_loadval s) (pth_loadticknext s) (pth_sigpipe s) (pth_sigpending s) (pth_sigblock s)
    (pth_sigcatch s) (pth_sigraised s) (pth_keytab s) (pth_msgport_ring s) (pth_atfork_list s) (pth_atfork_idx
    s) (errno s) (pth_errno_storage s) (pth_errno_flag s) (usr s) (brk s) (kern s).
Definition set_fdsets (f : gmap N (gset Z) → gmap N (gset Z)) (s : St) : St :=
    MkSt (threads s) (evs s) (rnodes s) (mutexes s) (conds s) (rwlocks s) (barriers s) (msgports s) (messages
    s) (attrs s) (cleanup_recs s) (ints s) (cleanvecs s) (f (fdsets s)) (sigsets s) (longs s) (pth_initialized
    s) (pth_main s) (pth_sched s) (pth_current s) (pth_NQ s) (pth_RQ s) (pth_WQ s) (pth_SQ s) (pth_DQ s)
    (pth_favournew s) (pth_loadval s) (pth_loadticknext s) (pth_sigpipe s) (pth_sigpending s) (pth_sigblock s)
    (pth_sigcatch s) (pth_sigraised s) (pth_keytab s) (pth_msgport_ring s) (pth_atfork_list s) (pth_atfork_idx
    s) (errno s) (pth_errno_storage s) (pth_errno_flag s) (usr s) (brk s) (kern s).
Definition set_sigsets (f : gmap N (gset Z) → gmap N (gset Z)) (s : St) : St :=
    MkSt (threads s) (evs s) (rnodes s) (mutexes s) (conds s) (rwlocks s) (barriers s) (msgports s) (messages
    s) (attrs s) (cleanup_recs s) (ints s) (cleanvecs s) (fdsets s) (f (sigsets s)) (longs s) (pth_initialized
    s) (pth_main s) (pth_sched s) (pth_current s) (pth_NQ s) (pth_RQ s) (pth_WQ s) (pth_SQ s) (pth_DQ s)
    (pth_favournew s) (pth_loadval s) (pth_loadticknext s) (pth_sigpipe s) (pth_sigpending s) (pth_sigblock s)
    (pth_sigcatch s) (pth_sigraised s) (pth_keytab s) (pth_msgport_ring s) (pth_atfork_list s) (pth_atfork_idx
    s) (errno s) (pth_errno_storage s) (pth_errno_flag s) (usr s) (brk s) (kern s).
Definition set_longs (f : gmap N Z → gmap N Z) (s : St) : St :=
    MkSt (threads s) (evs s) (rnodes s) (mutexes s) (conds s) (rwlocks s) (barriers s) (msgports s) (messages
    s) (attrs s) (cleanup_recs s) (ints s) (cleanvecs s) (fdsets s) (sigsets s) (f (longs s)) (pth_initialized
    s) (pth_main s) (pth_sched s) (pth_current s) (pth_NQ s) (pth_RQ s) (pth_WQ s) (pth_SQ s) (pth_DQ s)
    (pth_favournew s) (pth_loadval s) (pth_loadticknext s) (pth_sigpipe s) (pth_sigpending s) (pth_sigblock s)
    (pth_sigcatch s) (pth_sigraised s) (pth_keytab s) (pth_msgport_ring s) (pth_atfork_list s) (pth_atfork_idx
    s) (errno s) (pth_errno_storage s) (pth_errno_flag s) (usr s) (brk s) (kern s).
Definition set_pth_initialized (f : bool → bool) (s : St) : St :=
    MkSt (threads s) (evs s) (rnodes s) (mutexes s) (conds s) (rwlocks s) (barriers s) (msgports s) (messages
    s) (attrs s) (cleanup_recs s) (ints s) (cleanvecs s) (fdsets s) (sigsets s) (longs s) (f (pth_initialized
    s)) (pth_main s) (pth_sched s) (pth_current s) (pth_NQ s) (pth_RQ s) (pth_WQ s) (pth_SQ s) (pth_DQ s)
    (pth_favournew s) (pth_loadval s) (pth_loadticknext s) (pth_sigpipe s) (pth_sigpending s) (pth_sigblock s)
    (pth_sigcatch s) (pth_sigraised s) (pth_keytab s) (pth_msgport_ring s) (pth_atfork_list s) (pth_atfork_idx
    s) (errno s) (pth_errno_storage s) (pth_errno_flag s) (usr s) (brk s) (kern s).
Definition set_pth_main (f : N → N) (s : St) : St :=
    MkSt (threads s) (evs s) (rnodes s) (mutexes s) (conds s) (rwlocks s) (barriers s) (msgports s) (messages
    s) (attrs s) (cleanup_recs s) (ints s) (cleanvecs s) (fdsets s) (sigsets s) (longs s) (pth_initialized s)
    (f (pth_main s)) (pth_sched s) (pth_current s) (pth_NQ s) (pth_RQ s) (pth_WQ s) (pth_SQ s) (pth_DQ s)
    (pth_favournew s) (pth_loadval s) (pth_loadticknext s) (pth_sigpipe s) (pth_sigpending s) (pth_sigblock s)
    (pth_sigcatch s) (pth_sigraised s) (pth_keytab s) (pth_msgport_ring s) (pth_atfork_list s) (pth_atfork_idx
    s) (errno s) (pth_errno_storage s) (pth_errno_flag s) (usr s) (brk s) (kern s).
Definition set_pth_sched (f : N → N) (s : St) : St :=
    MkSt (threads s) (evs s) (rnodes s) (mutexes s) (conds s) (rwlocks s) (barriers s) (msgports s) (messages
    s) (attrs s) (cleanup_recs s) (ints s) (cleanvecs s) (fdsets s) (sigsets s) (longs s) (pth_initialized s)
    (pth_main s) (f (pth_sched s)) (pth_current s) (pth_NQ s) (pth_RQ s) (pth_WQ s) (pth_SQ s) (pth_DQ s)
    (pth_favournew s) (pth_loadval s) (pth_loadticknext s) (pth_sigpipe s) (pth_sigpending s) (pth_sigblock s)
    (pth_sigcatch s) (pth_sigraised s) (pth_keytab s) (pth_msgport_ring s) (pth_atfork_list s) (pth_atfork_idx
    s) (errno s) (pth_errno_storage s) (pth_errno_flag s) (usr s) (brk s) (kern s).
Definition set_pth_current (f : N → N) (s : St) : St :=
    MkSt (threads s) (evs s) (rnodes s) (mutexes s) (conds s) (rwlocks s) (barriers s) (msgports s) (messages
    s) (attrs s) (cleanup_recs s) (ints s) (cleanvecs s) (fdsets s) (sigsets s) (longs s) (pth_initialized s)
    (pth_main s) (pth_sched s) (f (pth_current s)) (pth_NQ s) (pth_RQ s) (pth_WQ s) (pth_SQ s) (pth_DQ s)
    (pth_favournew s) (pth_loadval s) (pth_loadticknext s) (pth_sigpipe s) (pth_sigpending s) (pth_sigblock s)
    (pth_sigcatch s) (pth_sigraised s) (pth_keytab s) (pth_msgport_ring s) (pth_atfork_list s) (pth_atfork_idx
    s) (errno s) (pth_errno_storage s) (pth_errno_flag s) (usr s) (brk s) (kern s).
Definition set_pth_NQ (f : pth_pqueue → pth_pqueue) (s : St) : St :=
    MkSt (threads s) (evs s) (rnodes s) (mutexes s) (conds s) (rwlocks s) (barriers s) (msgports s) (messages
    s) (attrs s) (cleanup_recs s) (ints s) (cleanvecs s) (fdsets s) (sigsets s) (longs s) (pth_initialized s)
    (pth_main s) (pth_sched s) (pth_current s) (f (pth_NQ s)) (pth_RQ s) (pth_WQ s) (pth_SQ s) (pth_DQ s)
    (pth_favournew s) (pth_loadval s) (pth_loadticknext s) (pth_sigpipe s) (pth_sigpending s) (pth_sigblock s)
    (pth_sigcatch s) (pth_sigraised s) (pth_keytab s) (pth_msgport_ring s) (pth_atfork_list s) (pth_atfork_idx
    s) (errno s) (pth_errno_storage s) (pth_errno_flag s) (usr s) (brk s) (kern s).
Definition set_pth_RQ (f : pth_pqueue → pth_pqueue) (s : St) : St :=
    MkSt (threads s) (evs s) (rnodes s) (mutexes s) (conds s) (rwlocks s) (barriers s) (msgports s) (messages
    s) (attrs s) (cleanup_recs s) (ints s) (cleanvecs s) (fdsets s) (sigsets s) (longs s) (pth_initialized s)
    (pth_main s) (pth_sched s) (pth_current s) (pth_NQ s) (f (pth_RQ s)) (pth_WQ s) (pth_SQ s) (pth_DQ s)
    (pth_favournew s) (pth_loadval s) (pth_loadticknext s) (pth_sigpipe s) (pth_sigpending s) (pth_sigblock s)
    (pth_sigcatch s) (pth_sigraised s) (pth_keytab s) (pth_msgport_ring s) (pth_atfork_list s) (pth_atfork_idx
    s) (errno s) (pth_errno_storage s) (pth_errno_flag s) (usr s) (brk s) (kern s).
Definition set_pth_WQ (f : pth_pqueue → pth_pqueue) (s : St) : St :=
    MkSt (threads s) (evs s) (rnodes s) (mutexes s) (conds s) (rwlocks s) (barriers s) (msgports s) (messages
    s) (attrs s) (cleanup_recs s) (ints s) (cleanvecs s) (fdsets s) (sigsets s) (longs s) (pth_initialized s)
    (pth_main s) (pth_sched s) (pth_current s) (pth_NQ s) (pth_RQ s) (f (pth_WQ s)) (pth_SQ s) (pth_DQ s)
    (pth_favournew s) (pth_loadval s) (pth_loadticknext s) (pth_sigpipe s) (pth_sigpending s) (pth_sigblock s)
    (pth_sigcatch s) (pth_sigraised s) (pth_keytab s) (pth_msgport_ring s) (pth_atfork_list s) (pth_atfork_idx
    s) (errno s) (pth_errno_storage s) (pth_errno_flag s) (usr s) (brk s) (kern s).
Definition set_pth_SQ (f : pth_pqueue → pth_pqueue) (s : St) : St :=
    MkSt (threads s) (evs s) (rnodes s) (mutexes s) (conds s) (rwlocks s) (barriers s) (msgports s) (messages
    s) (attrs s) (cleanup_recs s) (ints s) (cleanvecs s) (fdsets s) (sigsets s) (longs s) (pth_initialized s)
    (pth_main s) (pth_sched s) (pth_current s) (pth_NQ s) (pth_RQ s) (pth_WQ s) (f (pth_SQ s)) (pth_DQ s)
    (pth_favournew s) (pth_loadval s) (pth_loadticknext s) (pth_sigpipe s) (pth_sigpending s) (pth_sigblock s)
    (pth_sigcatch s) (pth_sigraised s) (pth_keytab s) (pth_msgport_ring s) (pth_atfork_list s) (pth_atfork_idx
    s) (errno s) (pth_errno_storage s) (pth_errno_flag s) (usr s) (brk s) (kern s).
Definition set_pth_DQ (f : pth_pqueue → pth_pqueue) (s : St) : St :=
    MkSt (threads s) (evs s) (rnodes s) (mutexes s) (conds s) (rwlocks s) (barriers s) (msgports s) (messages
    s) (attrs s) (cleanup_recs s) (ints s) (cleanvecs s) (fdsets s) (sigsets s) (longs s) (pth_initialized s)
    (pth_main s) (pth_sched s) (pth_current s) (pth_NQ s) (pth_RQ s) (pth_WQ s) (pth_SQ s) (f (pth_DQ s))
    (pth_favournew s) (pth_loadval s) (pth_loadticknext s) (pth_sigpipe s) (pth_sigpending s) (pth_sigblock s)
    (pth_sigcatch s) (pth_sigraised s) (pth_keytab s) (pth_msgport_ring s) (pth_atfork_list s) (pth_atfork_idx
    s) (errno s) (pth_errno_storage s) (pth_errno_flag s) (usr s) (brk s) (kern s).
Definition set_pth_favournew (f : Z → Z) (s : St) : St :=
    MkSt (threads s) (evs s) (rnodes s) (mutexes s) (conds s) (rwlocks s) (barriers s) (msgports s) (messages
    s) (attrs s) (cleanup_recs s) (ints s) (cleanvecs s) (fdsets s) (sigsets s) (longs s) (pth_initialized s)
    (pth_main s) (pth_sched s) (pth_current s) (pth_NQ s) (pth_RQ s) (pth_WQ s) (pth_SQ s) (pth_DQ s) (f
    (pth_favournew s)) (pth_loadval s) (pth_loadticknext s) (pth_sigpipe s) (pth_sigpending s) (pth_sigblock
    s) (pth_sigcatch s) (pth_sigraised s) (pth_keytab s) (pth_msgport_ring s) (pth_atfork_list s)
    (pth_atfork_idx s) (errno s) (pth_errno_storage s) (pth_errno_flag s) (usr s) (brk s) (kern s).
Definition set_pth_loadval (f : spec_float → spec_float) (s : St) : St :=
    MkSt (threads s) (evs s) (rnodes s) (mutexes s) (conds s) (rwlocks s) (barriers s) (msgports s) (messages
    s) (attrs s) (cleanup_recs s) (ints s) (cleanvecs s) (fdsets s) (sigsets s) (longs s) (pth_initialized s)
    (pth_main s) (pth_sched s) (pth_current s) (pth_NQ s) (pth_RQ s) (pth_WQ s) (pth_SQ s) (pth_DQ s)
    (pth_favournew s) (f (pth_loadval s)) (pth_loadticknext s) (pth_sigpipe s) (pth_sigpending s)
    (pth_sigblock s) (pth_sigcatch s) (pth_sigraised s) (pth_keytab s) (pth_msgport_ring s) (pth_atfork_list
    s) (pth_atfork_idx s) (errno s) (pth_errno_storage s) (pth_errno_flag s) (usr s) (brk s) (kern s).
Definition set_pth_loadticknext (f : timeval → timeval) (s : St) : St :=
    MkSt (threads s) (evs s) (rnodes s) (mutexes s) (conds s) (rwlocks s) (barriers s) (msgports s) (messages
    s) (attrs s) (cleanup_recs s) (ints s) (cleanvecs s) (fdsets s) (sigsets s) (longs s) (pth_initialized s)
    (pth_main s) (pth_sched s) (pth_current s) (pth_NQ s) (pth_RQ s) (pth_WQ s) (pth_SQ s) (pth_DQ s)
    (pth_favournew s) (pth_loadval s) (f (pth_loadticknext s)) (pth_sigpipe s) (pth_sigpending s)
    (pth_sigblock s) (pth_sigcatch s) (pth_sigraised s) (pth_keytab s) (pth_msgport_ring s) (pth_atfork_list
    s) (pth_atfork_idx s) (errno s) (pth_errno_storage s) (pth_errno_flag s) (usr s) (brk s) (kern s).
Definition set_pth_sigpipe (f : Z * Z → Z * Z) (s : St) : St :=
    MkSt (threads s) (evs s) (rnodes s) (mutexes s) (conds s) (rwlocks s) (barriers s) (msgports s) (messages
    s) (attrs s) (cleanup_recs s) (ints s) (cleanvecs s) (fdsets s) (sigsets s) (longs s) (pth_initialized s)
    (pth_main s) (pth_sched s) (pth_current s) (pth_NQ s) (pth_RQ s) (pth_WQ s) (pth_SQ s) (pth_DQ s)
    (pth_favournew s) (pth_loadval s) (pth_loadticknext s) (f (pth_sigpipe s)) (pth_sigpending s)
    (pth_sigblock s) (pth_sigcatch s) (pth_sigraised s) (pth_keytab s) (pth_msgport_ring s) (pth_atfork_list
    s) (pth_atfork_idx s) (errno s) (pth_errno_storage s) (pth_errno_flag s) (usr s) (brk s) (kern s).
Definition set_pth_sigpending (f : gset Z → gset Z) (s : St) : St :=
    MkSt (threads s) (evs s) (rnodes s) (mutexes s) (conds s) (rwlocks s) (barriers s) (msgports s) (messages
    s) (attrs s) (cleanup_recs s) (ints s) (cleanvecs s) (fdsets s) (sigsets s) (longs s) (pth_initialized s)
    (pth_main s) (pth_sched s) (pth_current s) (pth_NQ s) (pth_RQ s) (pth_WQ s) (pth_SQ s) (pth_DQ s)
    (pth_favournew s) (pth_loadval s) (pth_loadticknext s) (pth_sigpipe s) (f (pth_sigpending s))
    (pth_sigblock s) (pth_sigcatch s) (pth_sigraised s) (pth_keytab s) (pth_msgport_ring s) (pth_atfork_list
    s) (pth_atfork_idx s) (errno s) (pth_errno_storage s) (pth_errno_flag s) (usr s) (brk s) (kern s).
Definition set_pth_sigblock (f : gset Z → gset Z) (s : St) : St :=
    MkSt (threads s) (evs s) (rnodes s) (mutexes s) (conds s) (rwlocks s) (barriers s) (msgports s) (messages
    s) (attrs s) (cleanup_recs s) (ints s) (cleanvecs s) (fdsets s) (sigsets s) (longs s) (pth_initialized s)
    (pth_main s) (pth_sched s) (pth_current s) (pth_NQ s) (pth_RQ s) (pth_WQ s) (pth_SQ s) (pth_DQ s)
    (pth_favournew s) (pth_loadval s) (pth_loadticknext s) (pth_sigpipe s) (pth_sigpending s) (f (pth_sigblock
    s)) (pth_sigcatch s) (pth_sigraised s) (pth_keytab s) (pth_msgport_ring s) (pth_atfork_list s)
    (pth_atfork_idx s) (errno s) (pth_errno_storage s) (pth_errno_flag s) (usr s) (brk s) (kern s).
Definition set_pth_sigcatch (f : gset Z → gset Z) (s : St) : St :=
    MkSt (threads s) (evs s) (rnodes s) (mutexes s) (conds s) (rwlocks s) (barriers s) (msgports s) (messages
    s) (attrs s) (cleanup_recs s) (ints s) (cleanvecs s) (fdsets s) (sigsets s) (longs s) (pth_initialized s)
    (pth_main s) (pth_sched s) (pth_current s) (pth_NQ s) (pth_RQ s) (pth_WQ s) (pth_SQ s) (pth_DQ s)
    (pth_favournew s) (pth_loadval s) (pth_loadticknext s) (pth_sigpipe s) (pth_sigpending s) (pth_sigblock s)
    (f (pth_sigcatch s)) (pth_sigraised s) (pth_keytab s) (pth_msgport_ring s) (pth_atfork_list s)
    (pth_atfork_idx s) (errno s) (pth_errno_storage s) (pth_errno_flag s) (usr s) (brk s) (kern s).
Definition set_pth_sigraised (f : gset Z → gset Z) (s : St) : St :=
    MkSt (threads s) (evs s) (rnodes s) (mutexes s) (conds s) (rwlocks s) (barriers s) (msgports s) (messages
    s) (attrs s) (cleanup_recs s) (ints s) (cleanvecs s) (fdsets s) (sigsets s) (longs s) (pth_initialized s)
    (pth_main s) (pth_sched s) (pth_current s) (pth_NQ s) (pth_RQ s) (pth_WQ s) (pth_SQ s) (pth_DQ s)
    (pth_favournew s) (pth_loadval s) (pth_loadticknext s) (pth_sigpipe s) (pth_sigpending s) (pth_sigblock s)
    (pth_sigcatch s) (f (pth_sigraised s)) (pth_keytab s) (pth_msgport_ring s) (pth_atfork_list s)
    (pth_atfork_idx s) (errno s) (pth_errno_storage s) (pth_errno_flag s) (usr s) (brk s) (kern s).
Definition set_pth_keytab (f : list pth_keytab_st → list pth_keytab_st) (s : St) : St :=
    MkSt (threads s) (evs s) (rnodes s) (mutexes s) (conds s) (rwlocks s) (barriers s) (msgports s) (messages
    s) (attrs s) (cleanup_recs s) (ints s) (cleanvecs s) (fdsets s) (sigsets s) (longs s) (pth_initialized s)
    (pth_main s) (pth_sched s) (pth_current s) (pth_NQ s) (pth_RQ s) (pth_WQ s) (pth_SQ s) (pth_DQ s)
    (pth_favournew s) (pth_loadval s) (pth_loadticknext s) (pth_sigpipe s) (pth_sigpending s) (pth_sigblock s)
    (pth_sigcatch s) (pth_sigraised s) (f (pth_keytab s)) (pth_msgport_ring s) (pth_atfork_list s)
    (pth_atfork_idx s) (errno s) (pth_errno_storage s) (pth_errno_flag s) (usr s) (brk s) (kern s).
Definition set_pth_msgport_ring (f : pth_ring → pth_ring) (s : St) : St :=
    MkSt (threads s) (evs s) (rnodes s) (mutexes s) (conds s) (rwlocks s) (barriers s) (msgports s) (messages
    s) (attrs s) (cleanup_recs s) (ints s) (cleanvecs s) (fdsets s) (sigsets s) (longs s) (pth_initialized s)
    (pth_main s) (pth_sched s) (pth_current s) (pth_NQ s) (pth_RQ s) (pth_WQ s) (pth_SQ s) (pth_DQ s)
    (pth_favournew s) (pth_loadval s) (pth_loadticknext s) (pth_sigpipe s) (pth_sigpending s) (pth_sigblock s)
    (pth_sigcatch s) (pth_sigraised s) (pth_keytab s) (f (pth_msgport_ring s)) (pth_atfork_list s)
    (pth_atfork_idx s) (errno s) (pth_errno_storage s) (pth_errno_flag s) (usr s) (brk s) (kern s).
Definition set_pth_atfork_list (f : list pth_atfork_st → list pth_atfork_st) (s : St) : St :=
    MkSt (threads s) (evs s) (rnodes s) (mutexes s) (conds s) (rwlocks s) (barriers s) (msgports s) (messages
    s) (attrs s) (cleanup_recs s) (ints s) (cleanvecs s) (fdsets s) (sigsets s) (longs s) (pth_initialized s)
    (pth_main s) (pth_sched s) (pth_current s) (pth_NQ s) (pth_RQ s) (pth_WQ s) (pth_SQ s) (pth_DQ s)
    (pth_favournew s) (pth_loadval s) (pth_loadticknext s) (pth_sigpipe s) (pth_sigpending s) (pth_sigblock s)
    (pth_sigcatch s) (pth_sigraised s) (pth_keytab s) (pth_msgport_ring s) (f (pth_atfork_list s))
    (pth_atfork_idx s) (errno s) (pth_errno_storage s) (pth_errno_flag s) (usr s) (brk s) (kern s).
Definition set_pth_atfork_idx (f : Z → Z) (s : St) : St :=
    MkSt (threads s) (evs s) (rnodes s) (mutexes s) (conds s) (rwlocks s) (barriers s) (msgports s) (messages
    s) (attrs s) (cleanup_recs s) (ints s) (cleanvecs s) (fdsets s) (sigsets s) (longs s) (pth_initialized s)
    (pth_main s) (pth_sched s) (pth_current s) (pth_NQ s) (pth_RQ s) (pth_WQ s) (pth_SQ s) (pth_DQ s)
    (pth_favournew s) (pth_loadval s) (pth_loadticknext s) (pth_sigpipe s) (pth_sigpending s) (pth_sigblock s)
    (pth_sigcatch s) (pth_sigraised s) (pth_keytab s) (pth_msgport_ring s) (pth_atfork_list s) (f
    (pth_atfork_idx s)) (errno s) (pth_errno_storage s) (pth_errno_flag s) (usr s) (brk s) (kern s).
Definition set_errno (f : Z → Z) (s : St) : St :=
    MkSt (threads s) (evs s) (rnodes s) (mutexes s) (conds s) (rwlocks s) (barriers s) (msgports s) (messages
    s) (attrs s) (cleanup_recs s) (ints s) (cleanvecs s) (fdsets s) (sigsets s) (longs s) (pth_initialized s)
    (pth_main s) (pth_sched s) (pth_current s) (pth_NQ s) (pth_RQ s) (pth_WQ s) (pth_SQ s) (pth_DQ s)
    (pth_favournew s) (pth_loadval s) (pth_loadticknext s) (pth_sigpipe s) (pth_sigpending s) (pth_sigblock s)
    (pth_sigcatch s) (pth_sigraised s) (pth_keytab s) (pth_msgport_ring s) (pth_atfork_list s) (pth_atfork_idx
    s) (f (errno s)) (pth_errno_storage s) (pth_errno_flag s) (usr s) (brk s) (kern s).
Definition set_pth_errno_storage (f : Z → Z) (s : St) : St :=
    MkSt (threads s) (evs s) (rnodes s) (mutexes s) (conds s) (rwlocks s) (barriers s) (msgports s) (messages
    s) (attrs s) (cleanup_recs s) (ints s) (cleanvecs s) (fdsets s) (sigsets s) (longs s) (pth_initialized s)
    (pth_main s) (pth_sched s) (pth_current s) (pth_NQ s) (pth_RQ s) (pth_WQ s) (pth_SQ s) (pth_DQ s)
    (pth_favournew s) (pth_loadval s) (pth_loadticknext s) (pth_sigpipe s) (pth_sigpending s) (pth_sigblock s)
    (pth_sigcatch s) (pth_sigraised s) (pth_keytab s) (pth_msgport_ring s) (pth_atfork_list s) (pth_atfork_idx
    s) (errno s) (f (pth_errno_storage s)) (pth_errno_flag s) (usr s) (brk s) (kern s).
Definition set_pth_errno_flag (f : bool → bool) (s : St) : St :=
    MkSt (threads s) (evs s) (rnodes s) (mutexes s) (conds s) (rwlocks s) (barriers s) (msgports s) (messages
    s) (attrs s) (cleanup_recs s) (ints s) (cleanvecs s) (fdsets s) (sigsets s) (longs s) (pth_initialized s)
    (pth_main s) (pth_sched s) (pth_current s) (pth_NQ s) (pth_RQ s) (pth_WQ s) (pth_SQ s) (pth_DQ s)
    (pth_favournew s) (pth_loadval s) (pth_loadticknext s) (pth_sigpipe s) (pth_sigpending s) (pth_sigblock s)
    (pth_sigcatch s) (pth_sigraised s) (pth_keytab s) (pth_msgport_ring s) (pth_atfork_list s) (pth_atfork_idx
    s) (errno s) (pth_errno_storage s) (f (pth_errno_flag s)) (usr s) (brk s) (kern s).
Definition set_usr (f : user → user) (s : St) : St :=
    MkSt (threads s) (evs s) (rnodes s) (mutexes s) (conds s) (rwlocks s) (barriers s) (msgports s) (messages
    s) (attrs s) (cleanup_recs s) (ints s) (cleanvecs s) (fdsets s) (sigsets s) (longs s) (pth_initialized s)
    (pth_main s) (pth_sched s) (pth_current s) (pth_NQ s) (pth_RQ s) (pth_WQ s) (pth_SQ s) (pth_DQ s)
    (pth_favournew s) (pth_loadval s) (pth_loadticknext s) (pth_sigpipe s) (pth_sigpending s) (pth_sigblock s)
    (pth_sigcatch s) (pth_sigraised s) (pth_keytab s) (pth_msgport_ring s) (pth_atfork_list s) (pth_atfork_idx
    s) (errno s) (pth_errno_storage s) (pth_errno_flag s) (f (usr s)) (brk s) (kern s).
Definition set_brk (f : N → N) (s : St) : St :=
    MkSt (threads s) (evs s) (rnodes s) (mutexes s) (conds s) (rwlocks s) (barriers s) (msgports s) (messages
    s) (attrs s) (cleanup_recs s) (ints s) (cleanvecs s) (fdsets s) (sigsets s) (longs s) (pth_initialized s)
    (pth_main s) (pth_sched s) (pth_current s) (pth_NQ s) (pth_RQ s) (pth_WQ s) (pth_SQ s) (pth_DQ s)
    (pth_favournew s) (pth_loadval s) (pth_loadticknext s) (pth_sigpipe s) (pth_sigpending s) (pth_sigblock s)
    (pth_sigcatch s) (pth_sigraised s) (pth_keytab s) (pth_msgport_ring s) (pth_atfork_list s) (pth_atfork_idx
    s) (errno s) (pth_errno_storage s) (pth_errno_flag s) (usr s) (f (brk s)) (kern s).
Definition set_kern (f : K → K) (s : St) : St :=
    MkSt (threads s) (evs s) (rnodes s) (mutexes s) (conds s) (rwlocks s) (barriers s) (msgports s) (messages
    s) (attrs s) (cleanup_recs s) (ints s) (cleanvecs s) (fdsets s) (sigsets s) (longs s) (pth_initialized s)
    (pth_main s) (pth_sched s) (pth_current s) (pth_NQ s) (pth_RQ s) (pth_WQ s) (pth_SQ s) (pth_DQ s)
    (pth_favournew s) (pth_loadval s) (pth_loadticknext s) (pth_sigpipe s) (pth_sigpending s) (pth_sigblock s)
    (pth_sigcatch s) (pth_sigraised s) (pth_keytab s) (pth_msgport_ring s) (pth_atfork_list s) (pth_atfork_idx
    s) (errno s) (pth_errno_storage s) (pth_errno_flag s) (usr s) (brk s) (f (kern s)).

(** ** Reading and writing *)
Definition ld {V A} (h : St → gmap N V) (p : ptr) (f : V → A) : M St A :=
  λ s, v ← load (h s) p; Some (f v, s).
Definition st {V} (h : St → gmap N V) (upd : (gmap N V → gmap N V) → St → St)
    (p : ptr) (g : V → V) : M St unit :=
  λ s, v ← load (h s) p; Some (tt, upd (alter g p) s).

Definition on_body {B} (g : B → B) (n : qnode B) : qnode B :=
  Qnode (q_next n) (q_prev n) (q_prio n) (g (q_body n)).
(** Thread members, [t->f] and [t->f = v]. *)
Definition ldt {A} (t : ptr) (f : tcb → A) : M St A := ld threads t (f ∘ q_body).
Definition stt (t : ptr) (g : tcb → tcb) : M St unit := st threads set_threads t (on_body g).
(** Event members. *)
Definition lde {A} (ev : ptr) (f : event → A) : M St A := ld evs ev f.
Definition ste (ev : ptr) (g : event → event) : M St unit := st evs set_evs ev g.

(** [return pth_error(v, e)] *)
Definition pth_error {A} (v : A) (e : Z) : M St A := modify (set_errno (λ _, e)) ;; ret v.

(** [pth_shield { m }] *)
Definition pth_shield (m : M St unit) : M St unit :=
  do e <- gets errno;
  modify (set_pth_errno_storage (λ _, e)) ;;
  modify (set_pth_errno_flag (λ _, true)) ;;
  m ;;
  do e' <- gets pth_errno_storage;
  modify (set_errno (λ _, e')) ;;
  modify (set_pth_errno_flag (λ _, false)).

(** [free(p)] of an object in one of the heaps; [free(NULL)] does nothing. *)
Definition free {V} (h : St → gmap N V) (upd : (gmap N V → gmap N V) → St → St) (p : ptr) : M St unit :=
  if is_null p then ret tt else ld h p (λ _, tt) ;; modify (upd (delete p)).

(** A system call: run it on the kernel state. *)
Definition kcall {A} (f : K → A * K) : M St A :=
  λ s, let '(a, k) := f (kern s) in Some (a, set_kern (λ _, k) s).
(** A call that reports failure through [errno] as well: [errno] changes only then. *)
Definition kcall_errno (f : K → (Z * Z) * K) : M St Z :=
  do (rc, e) <- kcall f;
  (if rc =? -1 then modify (set_errno (λ _, e)) else ret tt) ;; ret rc.

Definition gettimeofday : M St timeval := kcall k_gettimeofday.

(** [malloc(size)]: a new address, or [NULL] with [errno] set. *)
Definition malloc (size : Z) : M St N :=
  do fails <- kcall (k_enomem size);
  if fails then pth_error NULL ENOMEM else
  do p <- gets brk;
  modify (set_brk (λ b, (b + 1 + Z.to_N size)%N)) ;;
  ret p.

(** ** Queues and rings inside the state *)
Inductive qid := NQ | RQ | WQ | SQ | DQ.

#[global] Instance qid_eq_dec : EqDecision qid.
Proof. solve_decision. Defined.

Definition queue (q : qid) : St → pth_pqueue :=
  match q with NQ => pth_NQ | RQ => pth_RQ | WQ => pth_WQ | SQ => pth_SQ | DQ => pth_DQ end.
Definition set_queue (q : qid) : (pth_pqueue → pth_pqueue) → St → St :=
  match q with
  | NQ => set_pth_NQ | RQ => set_pth_RQ | WQ => set_pth_WQ | SQ => set_pth_SQ | DQ => set_pth_DQ
  end.

(** A queue operation on [&pth_NQ] .. [&pth_DQ]. *)
Definition onq {A} (q : qid) (m : M (qstate tcb) A) : M St A :=
  λ s, '(a, s') ← m (QState (threads s) (Some (queue q s)));
       Some (a, set_queue q (λ q0, default q0 (q_obj s')) (set_threads (λ _, tcbs s') s)).

(** A queue operation through a queue pointer that may be [NULL]. *)
Definition onq_opt {A} (q : option qid) (m : M (qstate tcb) A) : M St A :=
  match q with
  | Some q => onq q m
  | None => λ s, '(a, s') ← m (QState (threads s) None); Some (a, set_threads (λ _, tcbs s') s)
  end.

(** A ring operation on a ring stored somewhere in the state. *)
Definition onr {A} (get : St → option pth_ring) (upd : (pth_ring → pth_ring) → St → St)
    (m : M Ring.rstate A) : M St A :=
  λ s, r ← get s;
       '(a, s') ← m (Ring.RState (rnodes s) (Some r) (errno s));
       Some (a, upd (λ r0, default r0 (Ring.ring_obj s'))
                  (set_rnodes (λ _, Ring.nodes s') (set_errno (λ _, Ring.ring_errno s') s))).
(** [&t->mutexring] *)
Definition on_mutexring {A} (t : ptr) (m : M Ring.rstate A) : M St A :=
  onr (λ s, mutexring ∘ q_body <$> load (threads s) t)
      (λ f, set_threads (alter (on_body (set_mutexring f)) t)) m.
(** [&mp->mp_queue] *)
Definition set_mp_queue (f : pth_ring → pth_ring) (mp : pth_msgport) : pth_msgport :=
  Msgport (mp_name mp) (mp_tid mp) (f (mp_queue mp)).
Definition on_mp_queue {A} (mp : ptr) (m : M Ring.rstate A) : M St A :=
  onr (λ s, mp_queue <$> load (msgports s) mp) (λ f, set_msgports (alter (set_mp_queue f) mp)) m.
(** [&pth_msgport] *)
Definition on_msgport_ring {A} (m : M Ring.rstate A) : M St A :=
  onr (λ s, Some (pth_msgport_ring s)) set_pth_msgport_ring m.

(** ** Code that can switch threads *)
Inductive out (A : Type) : Type :=
  | ORet (a : A) (s : St)
  | OSwitch (s : St) (k : St → out A)
  | OExit (code : Z) (s : St)
  | OAbort (s : St)
  | OUndef
  | OFuel.

Definition coro (A : Type) : Type := St → out A.

End state.
#[global] Arguments ORet {_ _} _ _.
#[global] Arguments OSwitch {_ _} _ _.
#[global] Arguments OExit {_ _} _ _.
#[global] Arguments OAbort {_ _} _.
#[global] Arguments OUndef {_ _}.
#[global] Arguments OFuel {_ _}.

Section coro.
Context {Kern : Kernel}.

Fixpoint obind {A B} (o : out A) (k : A → coro B) : out B :=
  match o with
  | ORet a s => k a s
  | OSwitch s k' => OSwitch s (λ s', obind (k' s') k)
  | OExit c s => OExit c s
  | OAbort s => OAbort s
  | OUndef => OUndef
  | OFuel => OFuel
  end.
Definition cbind {A B} (c : coro A) (k : A → coro B) : coro B := λ s, obind (c s) k.
Definition cret {A} (a : A) : coro A := λ s, ORet a s.
(** Code without a switch. *)
Definition atom {A} (m : M St A) : coro A :=
  λ s, match m s with Some (a, s') => ORet a s' | None => OUndef end.
(** Give control to the scheduler; continue when it comes back. *)
Definition to_scheduler : coro unit := λ s, OSwitch s (λ s', ORet tt s').
Definition cexit {A} (code : Z) : coro A := λ s, OExit code s.
Definition cabort {A} : coro A := λ s, OAbort s.
Definition cfuel {A} : coro A := λ _, OFuel.

End coro.

(** ** The application and the knot

[App] is the code of the program that uses the library: what its cleanup
handlers, destructors and start routines do (they may call the library and
switch) and what its event functions return.  Function pointers are numbers; the
library's own functions that are used as pointers have the numbers below.

Running a callback and ending a thread are mutually recursive with most of the
library (a handler may block, a blocked thread may be cancelled, a cancelled
thread runs its handlers).  The components are therefore written against [Knot];
Lib.v ties it. *)
Class App {Kern : Kernel} := {
  app_call : N → N → coro unit;
  app_func : N → N → M St Z;
  app_start : N → N → coro N;
}.
Class Knot {Kern : Kernel} := {
  call : N → N → coro unit;
  kexit : N → coro unit;
}.

Definition fp_event_destructor : N := 3.
Definition fp_cond_cleanup : N := 4.
Definition fp_exit_cb : N := 5.
Definition fp_scheduler : N := 6.

Notation "'do!' x <- m ; k" := (cbind m (λ x, k))
  (at level 100, x pattern, m at next level, k at level 200, right associativity) : pth_scope.
Notation "m ;;! k" := (cbind m (λ _, k))
  (at level 100, k at level 200, right associativity) : pth_scope.

(** ** Symbolic execution *)
Section wp_state.
Context {Kern : Kernel}.

Lemma wp_ld {V A} (h : St → gmap N V) p (f : V → A) Q s v :
  load (h s) p = Some v → wp (ld h p f) Q s = Q (f v) s.
Proof. intros Hl. unfold wp, ld. by rewrite Hl. Qed.

Lemma wp_st {V} (h : St → gmap N V) upd p (g : V → V) Q s v :
  load (h s) p = Some v → wp (st h upd p g) Q s = Q tt (upd (alter g p) s).
Proof. intros Hl. unfold wp, st. by rewrite Hl. Qed.

Lemma wp_ldt {A} t (f : tcb → A) Q s n :
  load (threads s) t = Some n → wp (ldt t f) Q s = Q (f (q_body n)) s.
Proof. intros Hl. unfold ldt. by rewrite (wp_ld _ _ _ _ _ n). Qed.

Lemma wp_stt t g Q s n :
  load (threads s) t = Some n → wp (stt t g) Q s = Q tt (set_threads (alter (on_body g) t) s).
Proof. intros Hl. unfold stt. by rewrite (wp_st _ _ _ _ _ _ n). Qed.

Lemma wp_lde {A} ev (f : event → A) Q s e :
  load (evs s) ev = Some e → wp (lde ev f) Q s = Q (f e) s.
Proof. apply wp_ld. Qed.

Lemma wp_ste ev g Q s e :
  load (evs s) ev = Some e → wp (ste ev g) Q s = Q tt (set_evs (alter g ev) s).
Proof. apply wp_st. Qed.

Lemma wp_error {A} (v : A) e Q s :
  wp (pth_error v e) Q s = Q v (set_errno (λ _, e) s).
Proof. done. Qed.

Lemma load_alter_eq {V} (h : gmap N V) g p v :
  load h p = Some v → load (alter g p h) p = Some (g v).
Proof. intros Hl. rewrite load_alter, decide_True, Hl by done. done. Qed.

Lemma load_alter_ne {V} (h : gmap N V) g p q :
  p ≠ q → load (alter g p h) q = load h q.
Proof. intros. by rewrite load_alter, decide_False. Qed.

(** A run without a switch. *)
Lemma atom_run {A} (m : M St A) a s s' : m s = Some (a, s') → atom m s = ORet a s'.
Proof. intros Hm. unfold atom. by rewrite Hm. Qed.

Lemma cbind_atom {A B} (m : M St A) (k : A → coro B) a s s' :
  m s = Some (a, s') → cbind (atom m) k s = k a s'.
Proof. intros Hm. unfold cbind. by rewrite (atom_run _ _ _ _ Hm). Qed.

Lemma ldt_run {A} t (f : tcb → A) s n :
  load (threads s) t = Some n → ldt t f s = Some (f (q_body n), s).
Proof. intros Hl. unfold ldt, ld. by rewrite Hl. Qed.

Lemma stt_run t g s n :
  load (threads s) t = Some n → stt t g s = Some (tt, set_threads (alter (on_body g) t) s).
Proof. intros Hl. unfold stt, st. by rewrite Hl. Qed.

Lemma bind_run {A B} (m : M St A) (k : A → M St B) a s s' :
  m s = Some (a, s') → bind m k s = k a s'.
Proof. intros Hm. unfold bind. by rewrite Hm. Qed.

Lemma cbind_ret {A B} (c : coro A) (k : A → coro B) a s s' :
  c s = ORet a s' → cbind c k s = k a s'.
Proof. intros Hc. unfold cbind. by rewrite Hc. Qed.

Lemma cbind_switch {A B} (c : coro A) (k : A → coro B) s s' c' :
  c s = OSwitch s' c' → cbind c k s = OSwitch s' (cbind c' k).
Proof. intros Hc. unfold cbind. by rewrite Hc. Qed.

(** A ring inside the state, on a heap [h] of ring nodes. *)
Definition rrepr (h : gmap N pth_ringnode) (r : pth_ring) (l : list N) : Prop :=
  Ring.r_hook r = head_or NULL l ∧ Ring.r_nodes r = u32 (Z.of_nat (length l)) ∧ cyc h l.

Lemma rrepr_ring h r l e : rrepr h r l ↔ Ring.ring_repr (Ring.RState h (Some r) e) l.
Proof. unfold rrepr, Ring.ring_repr. simpl. naive_solver. Qed.

Lemma rrepr_frame h h' r l :
  rrepr h r l → (∀ z, z ∈ l → h' !! z = h !! z) → rrepr h' r l.
Proof.
  intros (? & ? & Hc) He. split_and!; [done..|].
  eapply cyc_ext; [done|intros z Hz; unfold nxf, load|intros z Hz; unfold pvf, load]; by rewrite He.
Qed.

Lemma rrepr_nil h : rrepr h Ring.PTH_RING_INIT [].
Proof. done. Qed.

(** A ring operation in the state follows the ring's own specification. *)
Lemma wp_onr {A} get upd (m : M Ring.rstate A) Q s r :
  get s = Some r →
  wp m (λ a rs, Q a (upd (λ r0, default r0 (Ring.ring_obj rs))
                       (set_rnodes (λ _, Ring.nodes rs) (set_errno (λ _, Ring.ring_errno rs) s))))
    (Ring.RState (rnodes s) (Some r) (errno s)) →
  wp (onr get upd m) Q s.
Proof.
  intros Hg Hm. unfold wp, onr in *. rewrite Hg. simpl.
  by destruct (m (Ring.RState (rnodes s) (Some r) (errno s))) as [[a s']|].
Qed.

(** The same for a queue. *)
Lemma wp_onq {A} q (m : M (qstate tcb) A) Q s :
  wp m (λ a qs, Q a (set_queue q (λ q0, default q0 (q_obj qs)) (set_threads (λ _, tcbs qs) s)))
    (QState (threads s) (Some (queue q s))) →
  wp (onq q m) Q s.
Proof.
  intros Hm. unfold wp, onq in *. simpl.
  by destruct (m (QState (threads s) (Some (queue q s)))) as [[a s']|].
Qed.

Lemma set_errno_id s : set_errno (λ _, errno s) s = s.
Proof. by destruct s. Qed.

End wp_state.
#[export] Hint Rewrite @wp_error : wp.

(** ** A small kernel and state to run examples on

A clock that advances by one second per reading, memory that never runs out,
descriptors that are always ready, no signals, and a log that example callbacks
write to. *)
Record toy := Toy { clock : Z; toylog : list (N * N) }.

Definition toy_kernel : Kernel := {|
  K := toy;
  k_enomem _ k := (false, k);
  k_gettimeofday k := (Tv (clock k) 0, Toy (clock k + 1) (toylog k));
  k_time k := (clock k, k);
  k_getfl _ k := ((0, 0), k);
  k_setfl _ _ k := k;
  k_pipe k := ((0, 0, (3, 4)), k);
  k_close _ k := k;
  k_read _ _ k := ((0, 0, []), k);
  k_write _ b k := ((Z.of_nat (length b), 0), k);
  k_select _ r w e _ k := (SelResult 1 0 r w e [], k);
  k_sigpending _ := ∅;
  k_kill _ k := k;
  k_sigprocmask _ _ k := (∅, k);
  k_sigaction _ _ k := ((0, SIG_DFL), k);
  k_sigsuspend _ k := k;
  k_fork k := ((if clock k <? 0 then 0 else 42, 0), k);
|}.

Definition toy_tcb : tcb :=
  Tcb 0 [109; 97; 105; 110; 0] 0 PTH_STATE_READY pth_time_zero pth_time_zero pth_time_zero NULL ∅ 0 ∅ 0
      NULL 0 NULL false 7 0 1 NULL None 0 false PTH_CANCEL_DEFAULT NULL Ring.PTH_RING_INIT.

(** One running thread, number 100, the scheduler, number 99, and empty queues. *)
Definition toy_state : @St toy_kernel :=
  @MkSt toy_kernel
    (list_to_map [(100%N, Qnode 0 0 0 toy_tcb); (99%N, Qnode 0 0 0 (set_state (λ _, PTH_STATE_SCHEDULER) toy_tcb))])
    ∅ ∅ ∅ ∅ ∅ ∅ ∅ ∅ ∅ ∅ ∅ ∅ ∅ ∅ ∅
    true 100 99 100 (Pqueue 0 0) (Pqueue 0 0) (Pqueue 0 0) (Pqueue 0 0) (Pqueue 0 0) 1
    (S754_finite false 1 0) pth_time_zero (3, 4) ∅ ∅ ∅ ∅
    (replicate 256 (Keytab false 0)) Ring.PTH_RING_INIT [] 0 0 0 false user_init 1000 (Toy 10 []).
