(* ===== verification/Pool.v ===== *)
(** * The queues of the scheduler as sorted lists

[qrepr s P]: each of the five queues of the state [s] represents the list of
threads and priorities that [P] gives, and no thread is in two of them.  The
lemmas lift the specifications of Pqueue.v to operations on a queue of the state:
what they change is the abstract queue, the links of queued threads and nothing
else ([qdelta]). *)
From stdpp Require Import functions.
From S2P Require Import State.

Section pool.
Context {Kern : Kernel}.
Implicit Types (s : St) (P : qid → list (N * Z)).

(** Everything but threads and queues. *)
Definition rest (s : St) : St :=
  set_threads (λ _, ∅) (set_pth_NQ (λ _, Pqueue 0 0) (set_pth_RQ (λ _, Pqueue 0 0)
    (set_pth_WQ (λ _, Pqueue 0 0) (set_pth_SQ (λ _, Pqueue 0 0) (set_pth_DQ (λ _, Pqueue 0 0) s))))).

(** Only links and queues differ. *)
Definition qdelta (s s' : St) : Prop :=
  rest s' = rest s ∧ ∀ x, q_body <$> threads s' !! x = q_body <$> threads s !! x.

Definition unqueued P (x : N) : Prop := ∀ q, x ∉ (P q).*1.

Definition qrepr s P : Prop :=
  (∀ q, pq_repr (QState (threads s) (Some (queue q s))) (P q)) ∧
  (∀ q q' x, x ∈ (P q).*1 → x ∈ (P q').*1 → q = q').

#[export] Instance qdelta_refl : Reflexive qdelta.
Proof. by split. Qed.
#[export] Instance qdelta_trans : Transitive qdelta.
Proof. intros s1 s2 s3 [E1 H1] [E2 H2]. split; [congruence|]. intros x. by rewrite H2, H1. Qed.

Lemma qrepr_ext s P P' : (∀ q, P' q = P q) → qrepr s P → qrepr s P'.
Proof. intros He [H1 H2]. split; intros q; [rewrite He; apply H1|]. intros q' x. rewrite !He. apply H2. Qed.

Lemma rest_set_queue q f g s : rest (set_queue q f (set_threads g s)) = rest s.
Proof. by destruct q. Qed.

Lemma threads_set_queue q f s : threads (set_queue q f s) = threads s.
Proof. by destruct q. Qed.

Lemma queue_set_queue q q' f s : queue q' (set_queue q f s) = if decide (q = q') then f (queue q' s) else queue q' s.
Proof. by destruct q, q'. Qed.

Lemma queue_set_threads q f s : queue q (set_threads f s) = queue q s.
Proof. by destruct q. Qed.

(** A queue whose threads are untouched is represented as before. *)
Lemma pq_repr_heap (h h' : gmap N (qnode tcb)) q l :
  pq_repr (QState h (Some q)) l → (∀ x, x ∈ l.*1 → h' !! x = h !! x) → pq_repr (QState h' (Some q)) l.
Proof.
  intros (q' & Hq & Hh & Hn & Hc & Hv) He. exists q'. split_and!; [done..| |].
  - eapply cyc_ext; [done|..]; intros z Hz; simpl; unfold nxf, pvf, load; by rewrite He.
  - eapply pq_vals_ext; [done|]. intros x Hx. simpl. unfold prf, load. by rewrite He.
Qed.

(** Any operation on one queue that stays within it and unqueued threads. *)
Lemma onq_spec {A} q (m : M (qstate tcb) A) s P l' D (φ : A → Prop) :
  qrepr s P →
  (∀ x, x ∈ l'.*1 ∨ x ∈ D → x ∈ (P q).*1 ∨ unqueued P x) →
  wp m (λ a qs, φ a ∧ pq_repr qs l' ∧ pq_frame D (threads s) (tcbs qs)) (QState (threads s) (Some (queue q s))) →
  wp (onq q m) (λ a s', φ a ∧ qrepr s' (<[q := l']> P) ∧ qdelta s s') s.
Proof.
  intros [Hq Hdisj] HD Hm. apply wp_onq. eapply wp_mono; [exact Hm|].
  intros a [h' o] (Ha & Hr & Hf & Hb). simpl in *. destruct Hr as (q0 & Ho & Hr). simpl in Ho. subst o. simpl.
  split_and!; [done| |split; [apply rest_set_queue|by rewrite threads_set_queue]].
  assert (∀ q' x, q' ≠ q → x ∈ (P q').*1 → x ∉ l'.*1 ∧ x ∉ D) as Hother.
  { intros q' x Hne Hx. split; intros Hx'; (destruct (HD x) as [Hx2|Hx2]; [by auto|..]);
      [by apply Hne, (Hdisj _ _ x)|by apply (Hx2 q')|by apply Hne, (Hdisj _ _ x)|by apply (Hx2 q')]. }
  split.
  - intros q'. rewrite threads_set_queue, queue_set_queue, queue_set_threads. simpl.
    destruct (decide (q = q')) as [<-|Hne].
    + rewrite fn_lookup_insert. by exists q0.
    + rewrite fn_lookup_insert_ne by done. eapply pq_repr_heap; [apply Hq|].
      intros x Hx. apply Hf. by apply (Hother q').
  - intros q1 q2 x. destruct (decide (q = q1)) as [<-|Hne1], (decide (q = q2)) as [<-|Hne2];
      rewrite ?fn_lookup_insert, ?fn_lookup_insert_ne by done; try done.
    + intros Hx Hx2. by destruct (Hother q2 x) as [? _].
    + intros Hx Hx2. by destruct (Hother q1 x) as [? _].
    + apply Hdisj.
Qed.

Lemma onq_insert_spec q p t s P :
  qrepr s P → pq_ok (P q) → prio_ok p → unqueued P t → is_Some (load (threads s) t) →
  wp (onq q (pth_pqueue_insert p t)) (λ _ s', qrepr s' (<[q := pq_ins p t (P q)]> P) ∧ qdelta s s') s.
Proof.
  intros Hs Hok Hp Ht Hl. eapply wp_mono; [apply (onq_spec _ _ _ P (pq_ins p t (P q)) (t :: (P q).*1) (λ _, True)); [done|..]|].
  - intros x [Hx|[->|Hx]%elem_of_cons]; [|by right|by left].
    rewrite (pq_ins_elems p t (P q)) in Hx. csimpl in Hx. apply elem_of_cons in Hx as [->|Hx]; [by right|by left].
  - eapply wp_mono; [apply pth_pqueue_insert_spec; [apply Hs|done..|apply Ht|done]|]. intros ? ? [? ?]. done.
  - by intros ? ? (_ & ? & ?).
Qed.

Lemma onq_delete_spec q t s P :
  qrepr s P → pq_ok (P q) → t ∈ (P q).*1 →
  wp (onq q (pth_pqueue_delete t)) (λ _ s', qrepr s' (<[q := pq_del t (P q)]> P) ∧ qdelta s s') s.
Proof.
  intros Hs Hok Ht. eapply wp_mono; [apply (onq_spec _ _ _ P (pq_del t (P q)) (P q).*1 (λ _, True)); [done|..]|].
  - intros x [Hx|Hx]; left; [|done]. apply list_elem_of_fmap in Hx as (y & -> & [_ Hy]%list_elem_of_filter).
    by apply list_elem_of_fmap_2.
  - eapply wp_mono; [apply pth_pqueue_delete_spec; [apply Hs|done..]|]. intros ? ? [? ?]. done.
  - by intros ? ? (_ & ? & ?).
Qed.

Lemma onq_delmax_spec q s P :
  qrepr s P → pq_ok (P q) →
  wp (onq q pth_pqueue_delmax)
    (λ v s', v = head_or NULL (P q).*1 ∧ qrepr s' (<[q := tail (P q)]> P) ∧ qdelta s s') s.
Proof.
  intros Hs Hok. apply (onq_spec _ _ _ P (tail (P q)) (P q).*1); [done|..].
  - intros x [Hx|Hx]; left; [|done]. by destruct (P q) as [|? l]; [|csimpl; right].
  - eapply wp_mono; [apply pth_pqueue_delmax_spec; [apply Hs|done..]|]. by intros ? ? (? & ? & ?).
Qed.

Lemma onq_increase_spec q s P :
  qrepr s P → pq_ok (P q) →
  wp (onq q pth_pqueue_increase) (λ _ s', qrepr s' (<[q := pq_incr (P q)]> P) ∧ qdelta s s') s.
Proof.
  intros Hs Hok. eapply wp_mono; [apply (onq_spec _ _ _ P (pq_incr (P q)) (P q).*1 (λ _, True)); [done|..]|].
  - intros x [Hx|Hx]; left; [|done]. unfold pq_incr in Hx. rewrite <- list_fmap_compose in Hx. exact Hx.
  - eapply wp_mono; [apply pth_pqueue_increase_spec; [apply Hs|done..]|]. intros ? ? [? ?]. done.
  - by intros ? ? (_ & ? & ?).
Qed.

Lemma onq_favorite_spec q t s P :
  qrepr s P → pq_ok (P q) → t ∈ (P q).*1 → prio_ok (pq_fav_prio (pq_del t (P q))) →
  wp (onq q (pth_pqueue_favorite t)) (λ b s', b = true ∧ qrepr s' (<[q := pq_fav t (P q)]> P) ∧ qdelta s s') s.
Proof.
  intros Hs Hok Ht Hp. apply (onq_spec _ _ _ P (pq_fav t (P q)) (P q).*1); [done|..].
  - intros x [Hx|Hx]; left; [|done]. unfold pq_fav in Hx.
    destruct (P q) as [|a [|b l]] eqn:Hl; [done..|]. csimpl in Hx. apply elem_of_cons in Hx as [->|Hx]; [done|].
    apply list_elem_of_fmap in Hx as (y & -> & [_ Hy]%list_elem_of_filter). by apply (list_elem_of_fmap_2 fst).
  - eapply wp_mono; [apply pth_pqueue_favorite_spec; [apply Hs|done..]|]. by intros ? ? (? & ? & ?).
Qed.

(** Operations that only look at a queue. *)
Lemma onq_read {A} q (m : M (qstate tcb) A) s P (φ : A → Prop) :
  qrepr s P →
  wp m (λ a qs, φ a ∧ qs = QState (threads s) (Some (queue q s))) (QState (threads s) (Some (queue q s))) →
  wp (onq q m) (λ a s', φ a ∧ s' = s) s.
Proof.
  intros Hs Hm. apply wp_onq. eapply wp_mono; [exact Hm|]. intros a ? [Ha ->]. split; [done|]. simpl.
  destruct s, q; done.
Qed.

Lemma onq_contains_spec q t s P :
  qrepr s P → wp (onq q (pth_pqueue_contains t)) (λ b s', b = bool_decide (t ∈ (P q).*1) ∧ s' = s) s.
Proof. intros Hs. eapply onq_read; [done|]. apply pth_pqueue_contains_spec, Hs. Qed.

Lemma onq_tail_spec q s P :
  qrepr s P → wp (onq q pth_pqueue_tail) (λ v s', v = last_or NULL (P q).*1 ∧ s' = s) s.
Proof. intros Hs. eapply onq_read; [done|]. apply pth_pqueue_tail_spec, Hs. Qed.

Lemma onq_favorite_prio_spec q s P :
  qrepr s P → prio_ok (pq_fav_prio (P q)) →
  wp (onq q pth_pqueue_favorite_prio) (λ v s', v = pq_fav_prio (P q) ∧ s' = s) s.
Proof. intros Hs Hp. eapply onq_read; [done|]. by apply favorite_prio_spec; [apply Hs|]. Qed.

Lemma onq_elements_spec q s P :
  qrepr s P → wp (onq q pth_pqueue_elements) (λ v s', v = Z.of_nat (length (P q)) ∧ s' = s) s.
Proof.
  intros Hs. eapply onq_read; [done|]. destruct (proj1 Hs q) as (q0 & Hq & _ & Hn & _). simpl in Hq. simplify_eq.
  unfold pth_pqueue_elements. repeat q_step. done.
Qed.

Lemma onq_head_spec q s P :
  qrepr s P → wp (onq q pth_pqueue_head) (λ v s', v = head_or NULL (P q).*1 ∧ s' = s) s.
Proof.
  intros Hs. eapply onq_read; [done|]. destruct (proj1 Hs q) as (q0 & Hq & Hh & _). simpl in Hq. simplify_eq.
  unfold pth_pqueue_head. repeat q_step. done.
Qed.

Lemma onq_walk_spec q s P l1 t p l2 :
  qrepr s P → P q = l1 ++ (t, p) :: l2 →
  wp (onq q (pth_pqueue_walk t PTH_WALK_NEXT)) (λ v s', v = head_or NULL l2.*1 ∧ s' = s) s.
Proof.
  intros Hs Hq. eapply onq_read; [done|]. apply (walk_next_spec _ l1 t p l2). rewrite <- Hq. apply Hs.
Qed.

(** ** Threads *)
Lemma qdelta_load s s' t n :
  qdelta s s' → load (threads s) t = Some n → ∃ n', load (threads s') t = Some n' ∧ q_body n' = q_body n.
Proof.
  intros [_ Hb] [Ht Hn]%load_Some. specialize (Hb t). rewrite Hn in Hb. simpl in Hb.
  destruct (threads s' !! t) as [n'|] eqn:Hn'; simplify_eq/=. exists n'. split; [|done]. by apply load_Some.
Qed.

Lemma qdelta_fmap {A} (f : tcb → A) s s' :
  qdelta s s' → (f ∘ q_body <$> threads s') = (f ∘ q_body <$> threads s).
Proof.
  intros [_ Hb]. apply map_eq. intros x. rewrite !lookup_fmap. specialize (Hb x).
  destruct (threads s' !! x), (threads s !! x); simplify_eq/=; congruence.
Qed.

(** A thread's members other than its links can change without a queue noticing. *)
Lemma qrepr_alter s P t g : qrepr s P → qrepr (set_threads (alter (on_body g) t) s) P.
Proof.
  intros [Hq Hd]. split; [|done]. intros q. rewrite queue_set_threads. simpl.
  destruct (Hq q) as (q0 & Hq0 & Hh & Hn & Hc & Hv). exists q0. split_and!; [done..| |].
  - eapply cyc_ext; [exact Hc|..]; intros z Hz; simpl; [apply nxf_alter_other|apply pvf_alter_other]; done.
  - eapply pq_vals_ext; [exact Hv|]. intros x Hx. simpl. unfold prf. rewrite load_alter. case_decide; [|done].
    subst. by destruct (load (threads s) x).
Qed.

(** Other parts of the state. *)
Lemma qrepr_same s s' P :
  threads s' = threads s → (∀ q, queue q s' = queue q s) → qrepr s P → qrepr s' P.
Proof. intros Ht Hq [H1 H2]. split; [|done]. intros q. rewrite Ht, Hq. apply H1. Qed.

Lemma qrepr_load s P q t : qrepr s P → t ∈ (P q).*1 → is_Some (load (threads s) t).
Proof. intros [Hq _] Ht. by eapply (pq_repr_load (QState (threads s) (Some (queue q s)))). Qed.

Lemma qrepr_NoDup s P q : qrepr s P → NoDup (P q).*1.
Proof. intros [Hq _]. by eapply pq_repr_NoDup. Qed.

Lemma qrepr_length s P q : qrepr s P → (length (P q) ≤ size (threads s))%nat.
Proof.
  intros [Hq _]. destruct (Hq q) as (q0 & _ & _ & _ & Hc & _). apply cyc_size in Hc. by rewrite length_fmap in Hc.
Qed.

End pool.
