(* ===== verification/Data.v ===== *)
(** * Per-thread storage (pth_data.c) and cleanup handlers (pth_clean.c)

Keys index the static table [pth_keytab]; a thread's values are an array of
[PTH_KEY_MAX] pointers that is allocated on the first store.  [data_wf] is the
invariant of a thread's storage: the array has the table's length and
[data_count] counts its non-[NULL] entries. *)
From S2P Require Import State.

Section data.
Context {Kern : Kernel}.

Definition keytab_at (key : Z) : M St pth_keytab_st :=
  λ s, kt ← pth_keytab s !! Z.to_nat key; Some (kt, s).
Definition set_keytab_at (key : Z) (kt : pth_keytab_st) : M St unit :=
  modify (set_pth_keytab (λ l, <[Z.to_nat key := kt]> l)).

(** The loop [for ( *key = 0; *key < PTH_KEY_MAX; ++*key )]; the table has 256 entries,
    so [fuel] 257 covers every run. *)
Fixpoint key_create_loop (fuel : nat) (key func : ptr) : M St bool :=
  match fuel with
  | O => ub
  | S fuel' =>
      do k <- ld ints key id;
      if k <? PTH_KEY_MAX then
        do kt <- keytab_at k;
        if used kt then st ints set_ints key (Z.add 1) ;; key_create_loop fuel' key func
        else
          set_keytab_at k (Keytab true func) ;;
          ret true
      else pth_error false EAGAIN
  end.

Definition pth_key_create (key func : ptr) : M St bool :=
  if is_null key then pth_error false EINVAL else
  st ints set_ints key (λ _, 0) ;;
  key_create_loop 257 key func.

Definition key_bad (key : Z) : bool := (key <? 0) || (PTH_KEY_MAX <=? key).

Definition pth_key_delete (key : Z) : M St bool :=
  if key_bad key then pth_error false EINVAL else
  do kt <- keytab_at key;
  if negb (used kt) then pth_error false ENOENT else
  set_keytab_at key (Keytab false (destructor kt)) ;;
  ret true.

(** [t->data_value[key]] *)
Definition ld_data (t : ptr) (key : Z) : M St N :=
  do dv <- ldt t data_value;
  lift_opt (l ← dv; l !! Z.to_nat key).
Definition st_data (t : ptr) (key : Z) (v : ptr) : M St unit :=
  do _ <- ld_data t key;
  stt t (set_data_value (fmap (λ l, <[Z.to_nat key := v]> l))).
Definition add_data_count (t : ptr) (d : Z) : M St unit :=
  do c <- ldt t data_count;
  do c' <- int_chk (c + d);
  stt t (set_data_count (λ _, c')).

(** [pth_current->data_value = calloc(1, sizeof(void * ) * PTH_KEY_MAX)], 2048 bytes *)
Definition data_zero : list N := replicate 256 NULL.
#[global] Arguments data_zero : simpl never.
Definition calloc_data (t : ptr) : M St bool :=
  do p <- malloc 2048;
  if is_null p then stt t (set_data_value (λ _, None)) ;; ret false
  else stt t (set_data_value (λ _, Some data_zero)) ;; ret true.

Definition pth_key_setdata (key : Z) (value : ptr) : M St bool :=
  if key_bad key then pth_error false EINVAL else
  do kt <- keytab_at key;
  if negb (used kt) then pth_error false ENOENT else
  do cur <- gets pth_current;
  do dv <- ldt cur data_value;
  do ok <- (match dv with None => calloc_data cur | Some _ => ret true end);
  if negb ok then pth_error false ENOMEM else
  do old <- ld_data cur key;
  (if is_null old then
     if negb (is_null value) then add_data_count cur 1 else ret tt
   else
     if is_null value then add_data_count cur (-1) else ret tt) ;;
  st_data cur key value ;;
  ret true.

Definition pth_key_getdata (key : Z) : M St N :=
  if key_bad key then pth_error NULL EINVAL else
  do kt <- keytab_at key;
  if negb (used kt) then pth_error NULL ENOENT else
  do cur <- gets pth_current;
  do dv <- ldt cur data_value;
  match dv with
  | None => ret NULL
  | Some _ => ld_data cur key
  end.

(** The body of the inner loop of [pth_key_destroydata] up to the call: which
    destructor to run on which value, [NULL] for none. *)
Definition destroy_pick (t : ptr) (key : Z) : M St (N * N) :=
  do kt <- keytab_at key;
  if used kt then
    do v <- ld_data t key;
    if negb (is_null v) then
      st_data t key NULL ;; add_data_count t (-1) ;; ret (destructor kt, v)
    else ret (NULL, NULL)
  else ret (NULL, NULL).

Context {Kn : Knot}.

(** [for (key = 0; key < PTH_KEY_MAX; key++)], with [n] keys left. *)
Fixpoint destroy_keys (n : nat) (key : Z) (t : ptr) : coro unit :=
  match n with
  | O => cret tt
  | S n' =>
      do! c <- atom (ldt t data_count);
      (if 0 <? c then
         do! (d, v) <- atom (destroy_pick t key);
         if negb (is_null d) then call d v else cret tt
       else cret tt) ;;!
      do! c' <- atom (ldt t data_count);
      if c' =? 0 then cret tt else destroy_keys n' (key + 1) t
  end.

Fixpoint destroy_iters (itr : nat) (t : ptr) : coro unit :=
  match itr with
  | O => cret tt
  | S itr' =>
      destroy_keys (Z.to_nat PTH_KEY_MAX) 0 t ;;!
      do! c <- atom (ldt t data_count);
      if c =? 0 then cret tt else destroy_iters itr' t
  end.

Definition pth_key_destroydata (t : ptr) : coro unit :=
  if is_null t then cret tt else
  do! dv <- atom (ldt t data_value);
  match dv with
  | None => cret tt
  | Some _ =>
      destroy_iters PTH_DESTRUCTOR_ITERATIONS t ;;!
      atom (stt t (set_data_value (λ _, None)))
  end.

(** ** Cleanup handlers *)
Definition pth_cleanup_push (func arg : ptr) : M St bool :=
  if is_null func then pth_error false EINVAL else
  do c <- malloc 24;
  if is_null c then pth_error false ENOMEM else
  do cur <- gets pth_current;
  do top <- ldt cur cleanups;
  modify (set_cleanup_recs (<[c := Cleanup top func arg]>)) ;;
  stt cur (set_cleanups (λ _, c)) ;;
  ret true.

(** One step of unwinding: the top record is unlinked, its handler called when
    [execute] holds, and the record freed. *)
Definition pop_top (t : ptr) (execute : bool) (c : ptr) : coro unit :=
  do! nxt <- atom (ld cleanup_recs c cl_next);
  atom (stt t (set_cleanups (λ _, nxt))) ;;!
  (if execute then
     do! f <- atom (ld cleanup_recs c cl_func);
     do! a <- atom (ld cleanup_recs c cl_arg);
     call f a
   else cret tt) ;;!
  atom (free cleanup_recs set_cleanup_recs c).

Definition pth_cleanup_pop (execute : bool) : coro bool :=
  do! cur <- atom (gets pth_current);
  do! c <- atom (ldt cur cleanups);
  if is_null c then cret false else pop_top cur execute c ;;! cret true.

Fixpoint popall_loop (fuel : nat) (t : ptr) (execute : bool) : coro unit :=
  match fuel with
  | O => cfuel
  | S fuel' =>
      do! c <- atom (ldt t cleanups);
      if is_null c then cret tt else pop_top t execute c ;;! popall_loop fuel' t execute
  end.

(** Every step frees a record; [fuel] bounds the records pushed while it runs. *)
Definition pth_cleanup_popall (fuel : nat) (t : ptr) (execute : bool) : coro unit :=
  popall_loop fuel t execute.

End data.

(** [pth_cleanup_popall(t, FALSE)]: no handler runs, so there is no switch. *)
Section popall_noexec.
Context {Kern : Kernel}.

Fixpoint popall_drop (fuel : nat) (t : ptr) : M St unit :=
  match fuel with
  | O => ub
  | S fuel' =>
      do c <- ldt t cleanups;
      if is_null c then ret tt else
      do nxt <- ld cleanup_recs c cl_next;
      stt t (set_cleanups (λ _, nxt)) ;;
      free cleanup_recs set_cleanup_recs c ;;
      popall_drop fuel' t
  end.

(** The loop frees one record of the heap per step. *)
Definition pth_cleanup_dropall (t : ptr) : M St unit :=
  λ s, popall_drop (S (size (cleanup_recs s))) t s.

End popall_noexec.

(** ** Correctness *)
Section data_proofs.
Context {Kern : Kernel}.
Implicit Types (s : St) (t : N).

Definition nonnull (l : list N) : list N := filter (λ v, v ≠ NULL) l.
Definition data_wf (b : tcb) : Prop :=
  match data_value b with
  | None => data_count b = 0
  | Some l => length l = 256%nat ∧ data_count b = Z.of_nat (length (nonnull l))
  end.

(** The thread [t] exists and its storage is well formed. *)
Definition storage_ok (s : St) (t : N) : Prop :=
  ∃ n, load (threads s) t = Some n ∧ data_wf (q_body n).

Lemma nonnull_insert l k v :
  (k < length l)%nat →
  Z.of_nat (length (nonnull (<[k := v]> l))) =
    Z.of_nat (length (nonnull l))
    - (if is_null (default NULL (l !! k)) then 0 else 1) + (if is_null v then 0 else 1).
Proof.
  intros Hk. destruct (lookup_lt_is_Some_2 l k Hk) as [x Hx]. rewrite Hx. simpl.
  rewrite <- (take_drop_middle l k x Hx) at 2. rewrite insert_take_drop by done. unfold nonnull, is_null.
  rewrite !filter_app, !filter_cons, !length_app.
  repeat case_bool_decide; repeat case_decide; simpl; (done || lia).
Qed.

Lemma nonnull_bound l : (length (nonnull l) ≤ length l)%nat.
Proof. apply length_filter. Qed.

(** *** Key creation *)
Lemma key_create_loop_run fuel key func s i (kts : list pth_keytab_st) :
  load (ints s) key = Some (Z.of_nat i) → pth_keytab s = kts → length kts = 256%nat →
  (i ≤ 256)%nat → (256 - i < fuel)%nat →
  key_create_loop fuel key func s =
    Some (match list_find (λ kt, used kt = false) (drop i kts) with
          | Some (j, _) =>
              (true, set_pth_keytab (<[(i + j)%nat := Keytab true func]>)
                       (set_ints (<[key := Z.of_nat (i + j)]>) s))
          | None => (false, set_errno (λ _, EAGAIN) (set_ints (<[key := 256]>) s))
          end).
Proof.
  revert s i. induction fuel as [|fuel IH]; intros s i Hkey Hkts Hlen Hi Hfuel; [lia|].
  assert (∀ z, load (ints s) key = Some z → set_ints (<[key := z]>) s = s) as Hid.
  { intros z [_ Hz]%load_Some. unfold set_ints. rewrite insert_id by done. by destruct s. }
  cbn [key_create_loop]. erewrite bind_run; [|unfold ld; rewrite Hkey; reflexivity]. unfold id.
  unfold PTH_KEY_MAX. destruct (Z.ltb_spec (Z.of_nat i) 256); cbv beta iota.
  - destruct (lookup_lt_is_Some_2 kts i) as [kt Hkt]; [lia|].
    erewrite bind_run; [|unfold keytab_at; rewrite Nat2Z.id, Hkts, Hkt; reflexivity].
    rewrite (drop_S kts kt i Hkt). simpl. destruct (used kt) eqn:Hu.
    + rewrite decide_False by done.
      erewrite bind_run; [|unfold st; rewrite Hkey; reflexivity].
      specialize (IH (set_ints (alter (Z.add 1) key) s) (S i)). simpl in IH.
      assert (set_ints (alter (Z.add 1) key) s = set_ints (<[key := Z.of_nat (S i)]>) s) as Hset.
      { unfold set_ints. f_equal. apply load_Some in Hkey as [_ Hkey].
        apply map_eq. intros x. rewrite lookup_alter, lookup_insert. repeat case_decide; subst; try done.
        rewrite Hkey. simpl. f_equal. lia. }
      rewrite (load_alter_eq _ _ _ _ Hkey) in IH.
      specialize (IH ltac:(f_equal; lia) Hkts Hlen ltac:(lia) ltac:(lia)).
      rewrite IH, Hset. destruct (list_find _ (drop (S i) kts)) as [[j kt']|]; simpl; do 2 f_equal.
      * unfold set_pth_keytab, set_ints. simpl. rewrite insert_insert, Nat.add_succ_r. by rewrite decide_True.
      * unfold set_errno, set_ints. simpl. rewrite insert_insert. by rewrite decide_True.
    + rewrite decide_True by done. rewrite Nat.add_0_r.
      unfold set_keytab_at, bind, modify, ret. rewrite Nat2Z.id. do 2 f_equal.
      by rewrite (Hid _ Hkey).
  - assert (i = 256%nat) as -> by lia. rewrite drop_ge by lia. simpl.
    unfold pth_error, bind, modify, ret. change 256 with (Z.of_nat 256). by rewrite (Hid _ Hkey).
Qed.

(** C29: [pth_key_create] hands out the smallest free key: with a table of 256
    entries it stores the index of the first unused entry through the pointer,
    marks that entry used with the given destructor and changes no other entry;
    when every entry is used it fails with [EAGAIN] and changes no entry. *)
Theorem key_create_smallest key func s z :
  load (ints s) key = Some z → length (pth_keytab s) = 256%nat →
  match list_find (λ kt, used kt = false) (pth_keytab s) with
  | Some (k, _) =>
      pth_key_create key func s =
        Some (true, set_pth_keytab (<[k := Keytab true func]>) (set_ints (<[key := Z.of_nat k]>) s))
  | None =>
      pth_key_create key func s =
        Some (false, set_errno (λ _, EAGAIN) (set_ints (<[key := 256]>) s))
  end.
Proof.
  intros Hkey Hlen. pose proof (proj1 (load_Some _ _ _) Hkey) as [Hnn Hl]. unfold pth_key_create.
  rewrite is_null_false by done. erewrite bind_run by (unfold st; rewrite Hkey; reflexivity).
  assert (set_ints (alter (λ _, 0) key) s = set_ints (<[key := 0]>) s) as ->.
  { unfold set_ints. f_equal. apply map_eq. intros x. rewrite lookup_alter, lookup_insert.
    repeat case_decide; subst; [|done..]. by rewrite Hl. }
  rewrite (key_create_loop_run 257 key func _ 0 (pth_keytab s)); [|simpl..]; try (done || lia).
  2: { rewrite load_insert. repeat case_decide; done. }
  simpl. destruct (list_find _ _) as [[k kt]|]; do 2 f_equal.
  - unfold set_pth_keytab, set_ints. simpl. rewrite insert_insert. by rewrite decide_True.
  - unfold set_errno, set_ints. simpl. rewrite insert_insert. by rewrite decide_True.
Qed.

(** *** Storing and reading values *)
Lemma data_zero_length : length data_zero = 256%nat.
Proof. done. Qed.

Definition data_at (b : tcb) (k : nat) : N := default NULL (l ← data_value b; l !! k).

(** The control block after a store. *)
Definition put_data (k : nat) (v : N) (b : tcb) : tcb :=
  let l := default data_zero (data_value b) in
  set_data_count (λ c, c - (if is_null (data_at b k) then 0 else 1) + (if is_null v then 0 else 1))
    (set_data_value (λ _, Some (<[k := v]> l)) b).

Lemma put_data_wf k v b : (k < 256)%nat → data_wf b → data_wf (put_data k v b).
Proof.
  intros Hk. unfold data_wf, put_data, data_at. simpl. destruct (data_value b) as [l|]; simpl.
  - intros [Hlen ->]. rewrite length_insert. split; [done|]. rewrite nonnull_insert by lia.
    by destruct (l !! k).
  - intros ->. rewrite length_insert, data_zero_length. split; [done|].
    rewrite nonnull_insert by (rewrite data_zero_length; lia).
    unfold data_zero. rewrite lookup_replicate_2 by done. done.
Qed.

Lemma put_data_at k v b j :
  (k < 256)%nat → data_wf b → data_at (put_data k v b) j = if decide (j = k) then v else data_at b j.
Proof.
  intros Hk Hwf. unfold data_at, put_data. simpl.
  assert (k < length (default data_zero (data_value b)))%nat.
  { unfold data_wf in Hwf. destruct (data_value b); [simpl; lia|exact Hk]. }
  case_decide as Hj; [subst j; by rewrite list_lookup_insert_eq|].
  rewrite list_lookup_insert_ne by done. destruct (data_value b); simpl; [done|].
  destruct (data_zero !! j) eqn:E; [|done]. apply lookup_replicate in E as [-> _]. done.
Qed.

Lemma alter_on_body_comp (f g : tcb → tcb) t (h : gmap N (qnode tcb)) :
  alter (on_body f) t (alter (on_body g) t h) = alter (on_body (f ∘ g)) t h.
Proof. rewrite alter_alter_eq. done. Qed.

Lemma alter_on_body_ext (f g : tcb → tcb) t (h : gmap N (qnode tcb)) n :
  h !! t = Some n → f (q_body n) = g (q_body n) →
  alter (on_body f) t h = alter (on_body g) t h.
Proof.
  intros Hn Hfg. apply map_eq. intros x. rewrite !lookup_alter. case_decide; [|done].
  subst. rewrite Hn. simpl. f_equal. unfold on_body. by rewrite Hfg.
Qed.

(** A key that may be used. *)
Definition key_live (s : St) (key : Z) : Prop :=
  0 ≤ key < 256 ∧ ∃ kt, pth_keytab s !! Z.to_nat key = Some kt ∧ used kt = true.

Lemma key_bad_false key : 0 ≤ key < 256 → key_bad key = false.
Proof.
  intros. unfold key_bad, PTH_KEY_MAX. rewrite orb_false_iff, Z.ltb_ge, Z.leb_gt. lia.
Qed.

Lemma keytab_at_run key s kt :
  pth_keytab s !! Z.to_nat key = Some kt → keytab_at key s = Some (kt, s).
Proof. intros Hk. unfold keytab_at. by rewrite Hk. Qed.

Lemma ld_data_run t key s n l v :
  load (threads s) t = Some n → data_value (q_body n) = Some l → l !! Z.to_nat key = Some v →
  ld_data t key s = Some (v, s).
Proof.
  intros Hn Hl Hv. unfold ld_data. erewrite bind_run by (by eapply ldt_run). rewrite Hl. simpl.
  by rewrite Hv.
Qed.

Lemma st_data_run t key s n l x v :
  load (threads s) t = Some n → data_value (q_body n) = Some l → l !! Z.to_nat key = Some x →
  st_data t key v s =
    Some (tt, set_threads (alter (on_body (set_data_value (λ _, Some (<[Z.to_nat key := v]> l)))) t) s).
Proof.
  intros Hn Hl Hv. unfold st_data. erewrite bind_run by (by eapply ld_data_run).
  erewrite stt_run by done. do 2 f_equal. unfold set_threads. f_equal.
  apply load_Some in Hn as [_ Hn]. eapply alter_on_body_ext; [done|].
  unfold set_data_value. f_equal. by rewrite Hl.
Qed.

Lemma add_data_count_run t d s n :
  load (threads s) t = Some n → INT_MIN ≤ data_count (q_body n) + d ≤ INT_MAX →
  add_data_count t d s = Some (tt, set_threads (alter (on_body (set_data_count (λ c, c + d))) t) s).
Proof.
  intros Hn Hd. unfold add_data_count. erewrite bind_run by (by eapply ldt_run).
  unfold int_chk. rewrite (proj2 (int_ok_true _) Hd). unfold bind at 1, ret. erewrite stt_run by done.
  do 2 f_equal. unfold set_threads. f_equal. apply load_Some in Hn as [_ Hn].
  by eapply alter_on_body_ext.
Qed.

Lemma getdata_run key s n :
  load (threads s) (pth_current s) = Some n → data_wf (q_body n) → key_live s key →
  pth_key_getdata key s = Some (data_at (q_body n) (Z.to_nat key), s).
Proof.
  intros Hn Hwf [Hk (kt & Hkt & Hu)]. unfold pth_key_getdata. rewrite key_bad_false by done.
  erewrite bind_run by (by apply keytab_at_run). rewrite Hu. cbn [negb].
  erewrite bind_run by done. erewrite bind_run by (by eapply ldt_run). unfold data_at, data_wf in *.
  destruct (data_value (q_body n)) as [l|] eqn:Hl; [|done]. destruct Hwf as [Hlen _].
  destruct (lookup_lt_is_Some_2 l (Z.to_nat key)) as [v Hv]; [lia|].
  erewrite ld_data_run by done. simpl. by rewrite Hv.
Qed.

Lemma data_count_range b : data_wf b → 0 ≤ data_count b ≤ 256.
Proof.
  unfold data_wf. destruct (data_value b) as [l|]; [|lia]. intros [Hlen ->].
  pose proof (nonnull_bound l). lia.
Qed.

Lemma set_threads_id s t n g :
  load (threads s) t = Some n → g (q_body n) = q_body n → set_threads (alter (on_body g) t) s = s.
Proof.
  intros [_ Hn]%load_Some Hg. unfold set_threads.
  assert (alter (on_body g) t (threads s) = threads s) as ->; [|by destruct s].
  apply map_eq. intros x. rewrite lookup_alter. case_decide; [|done]. subst. rewrite Hn. simpl.
  unfold on_body. rewrite Hg. by destruct n.
Qed.

Lemma set_threads_comp f g s :
  set_threads f (set_threads g s) = set_threads (f ∘ g) s.
Proof. done. Qed.

(** The second half of [pth_key_setdata], once the array is there. *)
Lemma setdata_store t key v s n l :
  load (threads s) t = Some n → data_wf (q_body n) → data_value (q_body n) = Some l → 0 ≤ key < 256 →
  (do old <- ld_data t key;
   (if is_null old then if negb (is_null v) then add_data_count t 1 else ret tt
    else if is_null v then add_data_count t (-1) else ret tt) ;;
   st_data t key v ;; ret true) s =
  Some (true, set_threads (alter (on_body (put_data (Z.to_nat key) v)) t) s).
Proof.
  intros Hn Hwf Hl Hk. pose proof (data_count_range _ Hwf) as Hr. pose proof Hn as [_ Hn']%load_Some.
  pose proof Hwf as Hwf'. unfold data_wf in Hwf'. rewrite Hl in Hwf'. destruct Hwf' as [Hlen _].
  destruct (lookup_lt_is_Some_2 l (Z.to_nat key)) as [x Hx]; [lia|].
  erewrite bind_run by (by eapply ld_data_run).
  set (d := (if is_null v then 0 else 1) - (if is_null x then 0 else 1)).
  assert ((if is_null x then if negb (is_null v) then add_data_count t 1 else ret tt
           else if is_null v then add_data_count t (-1) else ret tt) s =
          Some (tt, set_threads (alter (on_body (set_data_count (λ c, c + d))) t) s)) as Hc.
  { unfold d. destruct (is_null x), (is_null v); cbn [negb].
    2,3: apply (add_data_count_run _ _ _ n); [done|unfold INT_MIN, INT_MAX; lia].
    all: unfold ret; rewrite (set_threads_id s t n); [done..|].
    all: unfold set_data_count; rewrite Z.add_0_r; by destruct (q_body n). }
  erewrite bind_run by exact Hc.
  erewrite bind_run by (eapply st_data_run; [simpl; by apply load_alter_eq|exact Hl|exact Hx]).
  unfold ret. rewrite set_threads_comp. do 2 f_equal. unfold set_threads, compose. f_equal.
  rewrite alter_on_body_comp. eapply alter_on_body_ext; [done|].
  unfold compose, put_data, data_at. simpl. rewrite Hl. simpl. rewrite Hx. simpl.
  unfold set_data_value, set_data_count. simpl. f_equal. unfold d. lia.
Qed.

(** The allocation that a first store needs succeeds. *)
Definition data_alloc_ok (s : St) (b : tcb) : Prop :=
  data_value b = None → brk s ≠ NULL ∧ (k_enomem 2048 (kern s)).1 = false.

Lemma setdata_run key v s n :
  load (threads s) (pth_current s) = Some n → data_wf (q_body n) → key_live s key →
  data_alloc_ok s (q_body n) →
  ∃ s', pth_key_setdata key v s = Some (true, s') ∧
    threads s' = alter (on_body (put_data (Z.to_nat key) v)) (pth_current s) (threads s) ∧
    pth_keytab s' = pth_keytab s ∧ pth_current s' = pth_current s ∧ errno s' = errno s.
Proof.
  intros Hn Hwf [Hk (kt & Hkt & Hu)] Halloc. unfold pth_key_setdata. rewrite key_bad_false by done.
  erewrite bind_run by (by apply keytab_at_run). rewrite Hu. cbn [negb].
  erewrite bind_run by done. erewrite bind_run by (by eapply ldt_run).
  destruct (data_value (q_body n)) as [l|] eqn:Hl.
  - erewrite bind_run by done. cbn [negb]. erewrite setdata_store by done.
    eexists. split; [done|]. done.
  - destruct (Halloc Hl) as [Hbrk Hmem]. unfold calloc_data, malloc.
    destruct (k_enomem 2048 (kern s)) as [fails k'] eqn:Hek. simpl in Hmem. subst fails.
    erewrite bind_run. 2: { unfold bind, kcall. rewrite Hek. unfold ret, gets, modify. cbn [brk set_kern].
      rewrite is_null_false by done. erewrite stt_run by (exact Hn). reflexivity. }
    cbn [negb].
    erewrite setdata_store; [|cbn; by apply load_alter_eq| |done|done].
    2: { unfold data_wf. cbn. split; [done|]. unfold data_wf in Hwf. rewrite Hl in Hwf. rewrite Hwf. done. }
    eexists. split; [done|]. split_and!; try done. cbn. rewrite alter_on_body_comp.
    apply load_Some in Hn as [_ Hn]. eapply alter_on_body_ext; [done|].
    unfold compose, put_data, data_at. cbn. rewrite Hl. cbn. unfold set_data_value, set_data_count. cbn.
    f_equal. unfold data_zero. rewrite lookup_replicate_2 by lia. done.
Qed.

(** C28: A value stored under a live key is what [pth_key_getdata] returns; the
    values of the other keys and all other threads are untouched, and the
    invariant of the storage (256 slots, [data_count] the number of non-[NULL]
    ones) is preserved, also by the first store, which allocates the slots. *)
Theorem key_set_get key v s n :
  load (threads s) (pth_current s) = Some n → data_wf (q_body n) → key_live s key →
  data_alloc_ok s (q_body n) →
  ∃ s', pth_key_setdata key v s = Some (true, s') ∧ storage_ok s' (pth_current s') ∧
    pth_key_getdata key s' = Some (v, s') ∧
    (∀ key', key_live s key' → key' ≠ key →
       ∃ w, pth_key_getdata key' s = Some (w, s) ∧ pth_key_getdata key' s' = Some (w, s')) ∧
    (∀ t, t ≠ pth_current s → threads s' !! t = threads s !! t).
Proof.
  intros Hn Hwf Hkey Halloc. pose proof Hkey as [Hk _].
  destruct (setdata_run key v s n) as (s' & Hrun & Ht & Hkt & Hcur & _); [done..|].
  assert (load (threads s') (pth_current s') = Some (on_body (put_data (Z.to_nat key) v) n)) as Hn'.
  { rewrite Ht, Hcur. by apply load_alter_eq. }
  assert (data_wf (put_data (Z.to_nat key) v (q_body n))) as Hwf' by (apply put_data_wf; [lia|done]).
  assert (∀ k, key_live s k → pth_key_getdata k s' =
            Some (if decide (k = key) then v else data_at (q_body n) (Z.to_nat k), s')) as Hget.
  { intros k Hlive. erewrite getdata_run; [|done|done|unfold key_live in *; by rewrite Hkt].
    unfold on_body, q_body. rewrite put_data_at by (lia || done). destruct Hlive as [? _].
    do 2 f_equal. repeat case_decide; subst; (done || lia). }
  exists s'. split_and!; [done|by eexists|by rewrite Hget, decide_True| |].
  - intros key' Hlive Hne. eexists. split; [by apply getdata_run|]. by rewrite Hget, decide_False.
  - intros t Hne. rewrite Ht. by apply lookup_alter_ne.
Qed.

End data_proofs.

(** *** Destructors and cleanup handlers *)

(** Callbacks that act on the outside world only: [kc f a] is the effect of
    calling [f] with [a] on the kernel state. *)
Section callbacks.
Context {Kern : Kernel} {Kn : Knot}.
Context (kc : N → N → K → K).
Hypothesis call_kern : ∀ f a s, call f a s = ORet tt (set_kern (kc f a) s).
Implicit Types (s : St) (t : N).

Definition run_calls (l : list (N * N)) (k : K) : K := foldl (λ k fa, kc fa.1 fa.2 k) k l.

(** The calls that destroying the values [l] under the table [kts] makes. *)
Definition destroy_calls (kts : list pth_keytab_st) (l : list N) : list (N * N) :=
  filter (λ fa, fa.1 ≠ NULL ∧ fa.2 ≠ NULL) (zip (destructor <$> kts) l).

(** Every non-[NULL] value belongs to a key that is still used. *)
Definition keys_used (kts : list pth_keytab_st) (l : list N) : Prop :=
  ∀ j v kt, l !! j = Some v → v ≠ NULL → kts !! j = Some kt → used kt = true.

Definition with_data (l : list N) : tcb → tcb :=
  set_data_count (λ _, Z.of_nat (length (nonnull l))) ∘ set_data_value (λ _, Some l).

Lemma nonnull_nil l : nonnull l = [] → l = replicate (length l) NULL.
Proof.
  intros Hl. symmetry. apply replicate_as_elem_of. split; [done|]. intros x Hx.
  destruct (decide (x = NULL)); [done|].
  assert (x ∈ nonnull l) as Hin by (by apply list_elem_of_filter). rewrite Hl in Hin. by apply not_elem_of_nil in Hin.
Qed.

Lemma destroy_calls_zero kts n : destroy_calls kts (replicate n NULL) = [].
Proof.
  unfold destroy_calls. revert n. induction kts as [|kt kts IH]; intros [|n]; simpl; try done.
  rewrite filter_cons, decide_False by naive_solver. apply IH.
Qed.

Lemma destroy_calls_cons kt kts v l :
  destroy_calls (kt :: kts) (v :: l) = destroy_calls [kt] [v] ++ destroy_calls kts l.
Proof. unfold destroy_calls. simpl. rewrite !filter_cons. by case_decide. Qed.

Lemma with_data_comp l l' : with_data l ∘ with_data l' = with_data l.
Proof. done. Qed.

Lemma threads_kern_swap f g s : set_threads f (set_kern g s) = set_kern g (set_threads f s).
Proof. done. Qed.

Lemma set_kern_comp f g s : set_kern f (set_kern g s) = set_kern (f ∘ g) s.
Proof. done. Qed.

Lemma set_threads_ext f g s : f (threads s) = g (threads s) → set_threads f s = set_threads g s.
Proof. intros Hfg. unfold set_threads. by rewrite Hfg. Qed.

Lemma kern_threads_comp k1 k2 f g t s :
  set_kern k2 (set_threads (alter (on_body f) t) (set_kern k1 (set_threads (alter (on_body g) t) s))) =
  set_kern (k2 ∘ k1) (set_threads (alter (on_body (f ∘ g)) t) s).
Proof.
  rewrite threads_kern_swap, set_threads_comp, set_kern_comp. f_equal.
  apply set_threads_ext. apply alter_on_body_comp.
Qed.

(** One key: pick the destructor, then call it. *)
Lemma destroy_one t s nd l key kt v :
  load (threads s) t = Some nd → q_body nd = with_data l (q_body nd) →
  l !! key = Some v → pth_keytab s !! key = Some kt → (length l ≤ 256)%nat → (v ≠ NULL → used kt = true) →
  (do! (d, v) <- atom (destroy_pick t (Z.of_nat key)); if negb (is_null d) then call d v else cret tt) s =
    ORet tt (set_kern (run_calls (destroy_calls [kt] [v]))
               (set_threads (alter (on_body (with_data (<[key := NULL]> l))) t) s)).
Proof.
  intros Hn Hwf Hv Hkt Hlen Hu. pose proof Hn as [_ Hn']%load_Some.
  assert (data_value (q_body nd) = Some l) as Hl by (by rewrite Hwf).
  assert (data_count (q_body nd) = Z.of_nat (length (nonnull l))) as Hc by (by rewrite Hwf).
  pose proof (nonnull_bound l) as Hb.
  pose proof (nonnull_insert l key NULL ltac:(by eapply lookup_lt_Some)) as Hins. rewrite Hv in Hins. simpl in Hins.
  assert (destroy_pick t (Z.of_nat key) s =
            Some ((if is_null v then NULL else destructor kt, v),
                  set_threads (alter (on_body (with_data (<[key := NULL]> l))) t) s)) as Hpick.
  { unfold destroy_pick. erewrite bind_run by (apply keytab_at_run; by rewrite Nat2Z.id).
    assert (v = NULL → set_threads (alter (on_body (with_data (<[key := NULL]> l))) t) s = s) as Hid.
    { intros ->. eapply set_threads_id; [done|]. rewrite list_insert_id by done. done. }
    unfold is_null in *. case_bool_decide as Hnull; subst; cbn [negb].
    - rewrite Hid by done. destruct (used kt); [|done].
      erewrite bind_run; [|eapply ld_data_run; [done|done|by rewrite Nat2Z.id]]. done.
    - rewrite Hu by done.
      erewrite bind_run; [|eapply ld_data_run; [done|done|by rewrite Nat2Z.id]].
      rewrite bool_decide_eq_false_2 by done. cbn [negb].
      erewrite bind_run; [|eapply st_data_run; [done|done|by rewrite Nat2Z.id]].
      erewrite bind_run; [|eapply add_data_count_run; [simpl; by apply load_alter_eq|simpl]].
      2: { rewrite Hc. unfold INT_MIN, INT_MAX. lia. }
      unfold ret. do 2 f_equal. unfold set_threads. cbn. f_equal. rewrite alter_on_body_comp.
      eapply alter_on_body_ext; [done|]. rewrite Nat2Z.id.
      unfold compose, with_data, set_data_count, set_data_value. cbn. f_equal. rewrite Hc. lia. }
  erewrite cbind_atom by done. cbn beta iota. unfold destroy_calls. simpl. rewrite filter_cons. simpl.
  unfold is_null in *. destruct (decide (v = NULL)) as [->|Hnn].
  - rewrite (decide_False (P := _ ∧ _)) by naive_solver. done.
  - rewrite (bool_decide_eq_false_2 (v = NULL)) by done. destruct (decide (destructor kt = NULL)) as [->|Hd].
    + rewrite (decide_False (P := _ ∧ _)) by naive_solver. done.
    + rewrite decide_True by done. rewrite bool_decide_eq_false_2 by done. cbn [negb]. by rewrite call_kern.
Qed.

Lemma destroy_keys_run n key t s nd l kts :
  load (threads s) t = Some nd → q_body nd = with_data l (q_body nd) → pth_keytab s = kts →
  length l = 256%nat → length kts = 256%nat → (n + key = 256)%nat →
  nonnull (take key l) = [] → keys_used kts l →
  destroy_keys n (Z.of_nat key) t s =
    ORet tt (set_kern (run_calls (destroy_calls (drop key kts) (drop key l)))
               (set_threads (alter (on_body (with_data data_zero)) t) s)).
Proof.
  revert key s nd l. induction n as [|n IH]; intros key s nd l Hn Hwf Hkts Hlen Hklen Hkey Hdone Hused.
  - rewrite !drop_ge by lia. rewrite take_ge in Hdone by lia. apply nonnull_nil in Hdone. rewrite Hlen in Hdone.
    simpl. unfold cret. rewrite (set_threads_id s t nd); [by destruct s|done|]. unfold data_zero. by rewrite <- Hdone.
  - assert (data_count (q_body nd) = Z.of_nat (length (nonnull l))) as Hc by (by rewrite Hwf).
    destruct (lookup_lt_is_Some_2 l key) as [v Hv]; [lia|].
    destruct (lookup_lt_is_Some_2 kts key) as [kt Hkt]; [lia|].
    rewrite (drop_S kts kt key Hkt), (drop_S l v key Hv), destroy_calls_cons.
    set (l1 := <[key := NULL]> l).
    set (s1 := set_kern (run_calls (destroy_calls [kt] [v])) (set_threads (alter (on_body (with_data l1)) t) s)).
    assert (length l1 = 256%nat) as Hlen1 by (unfold l1; by rewrite length_insert).
    assert (nonnull (take (S key) l1) = []) as Hdone1.
    { unfold l1. rewrite take_insert_snoc by lia. unfold nonnull in *. by rewrite filter_app, Hdone. }
    cbn [destroy_keys]. erewrite cbind_atom by (by eapply ldt_run).
    assert ((if 0 <? data_count (q_body nd) then
               do! (d, v) <- atom (destroy_pick t (Z.of_nat key)); if negb (is_null d) then call d v else cret tt
             else cret tt) s = ORet tt s1) as Hstep.
    { destruct (Z.ltb_spec 0 (data_count (q_body nd))) as [Hpos|Hpos].
      - apply (destroy_one t s nd l key kt v); try done; [by rewrite Hkts|lia|]. intros. by eapply Hused.
      - unfold cret, s1. f_equal. assert (nonnull l = []) as Hz%nonnull_nil by (apply length_zero_iff_nil; lia).
        rewrite Hlen in Hz. assert (v = NULL) as -> by (rewrite Hz in Hv; by apply lookup_replicate in Hv as [-> _]).
        change [NULL] with (replicate 1 NULL). rewrite destroy_calls_zero. unfold l1. rewrite list_insert_id by done.
        rewrite (set_threads_id s t nd) by done. by destruct s. }
    erewrite cbind_ret by exact Hstep.
    assert (load (threads s1) t = Some (on_body (with_data l1) nd)) as Hn1 by (cbn; by apply load_alter_eq).
    erewrite cbind_atom by (by eapply ldt_run). cbn [q_body on_body with_data compose data_count set_data_count].
    assert (∀ k, set_kern (run_calls k) (set_threads (alter (on_body (with_data data_zero)) t) s1) =
                 set_kern (run_calls (destroy_calls [kt] [v] ++ k)) (set_threads (alter (on_body (with_data data_zero)) t) s)) as Hfin.
    { intros k. unfold s1. rewrite kern_threads_comp, with_data_comp. unfold run_calls. unfold set_kern. f_equal.
      by rewrite foldl_app. }
    destruct (Z.eqb_spec (Z.of_nat (length (nonnull l1))) 0) as [Hz|Hz].
    + assert (nonnull l1 = []) as Hz1%nonnull_nil by (apply length_zero_iff_nil; lia). rewrite Hlen1 in Hz1.
      assert (drop (S key) l = replicate (256 - S key) NULL) as ->.
      { rewrite <- (drop_insert_snoc l key NULL) by lia. fold l1. rewrite Hz1. by rewrite drop_replicate. }
      rewrite destroy_calls_zero, app_nil_r, <- (app_nil_r (destroy_calls [kt] [v])), <- Hfin. unfold cret. f_equal.
      rewrite (set_threads_id s1 t _ _ Hn1); [by destruct s1|]. unfold data_zero. rewrite <- Hz1. done.
    + replace (Z.of_nat key + 1) with (Z.of_nat (S key)) by lia.
      rewrite (IH (S key) s1 _ l1 Hn1); try done; [|lia|].
      * rewrite Hfin. unfold l1. by rewrite drop_insert_snoc by lia.
      * intros j x kt' Hj Hx. apply Hused with (v := x); [|done]. unfold l1 in Hj.
        destruct (decide (j = key)) as [->|]; [|by rewrite list_lookup_insert_ne in Hj].
        rewrite list_lookup_insert_eq in Hj by lia. by simplify_eq.
Qed.

(** [pth_key_destroydata] runs every destructor exactly once: for a thread
    with well-formed storage whose values all belong to live keys, and for
    destructors that store no new values, it calls in key order each non-[NULL]
    destructor on its non-[NULL] value, clears all values and drops the array;
    nothing else changes. *)
Theorem key_destroydata_all t s nd l :
  load (threads s) t = Some nd → data_value (q_body nd) = Some l → data_wf (q_body nd) →
  length (pth_keytab s) = 256%nat → keys_used (pth_keytab s) l →
  pth_key_destroydata t s =
    ORet tt (set_kern (run_calls (destroy_calls (pth_keytab s) l))
               (set_threads (alter (on_body (set_data_value (λ _, None) ∘ set_data_count (λ _, 0))) t) s)).
Proof.
  intros Hn Hl Hwf Hklen Hused. pose proof Hn as [Hnn Hn']%load_Some. unfold data_wf in Hwf. rewrite Hl in Hwf.
  destruct Hwf as [Hlen Hc].
  assert (q_body nd = with_data l (q_body nd)) as Hwith.
  { unfold with_data, compose, set_data_count, set_data_value. cbn. rewrite <- Hc, <- Hl. by destruct (q_body nd). }
  unfold pth_key_destroydata. rewrite is_null_false by done. erewrite cbind_atom by (by eapply ldt_run).
  rewrite Hl. unfold PTH_DESTRUCTOR_ITERATIONS. cbn [destroy_iters].
  set (s1 := set_kern (run_calls (destroy_calls (pth_keytab s) l))
               (set_threads (alter (on_body (with_data data_zero)) t) s)).
  assert (load (threads s1) t = Some (on_body (with_data data_zero) nd)) as Hn1 by (cbn; by apply load_alter_eq).
  pose proof (destroy_keys_run 256 0 t s nd l _ Hn Hwith eq_refl Hlen Hklen eq_refl eq_refl Hused) as Hkeys.
  fold s1 in Hkeys. erewrite cbind_ret.
  2: { change (Z.to_nat PTH_KEY_MAX) with 256%nat. erewrite cbind_ret by exact Hkeys.
       erewrite cbind_atom by (by eapply ldt_run). reflexivity. }
  erewrite atom_run by (by eapply stt_run). unfold s1. rewrite threads_kern_swap, set_threads_comp. do 2 f_equal.
  apply set_threads_ext. etrans; [apply alter_on_body_comp|]. done.
Qed.

(** The stack of cleanup records below [c], as (address, (function, argument)). *)
Fixpoint cl_chain (recs : gmap N pth_cleanup) (c : N) (l : list (N * (N * N))) : Prop :=
  match l with
  | [] => c = NULL
  | (a, (f, x)) :: l' => c = a ∧ ∃ n, load recs a = Some (Cleanup n f x) ∧ cl_chain recs n l'
  end.

Lemma cl_chain_delete recs c l a :
  a ∉ l.*1 → cl_chain recs c l → cl_chain (delete a recs) c l.
Proof.
  revert c. induction l as [|[b [f x]] l IH]; intros c Ha; simpl; [done|].
  intros (-> & n & [? Hl]%load_Some & Hch). split; [done|]. exists n.
  apply not_elem_of_cons in Ha as [Hab Ha]. split; [|by apply IH].
  apply load_Some. split; [done|]. by rewrite lookup_delete_ne.
Qed.

Lemma recs_kern_swap f g s : set_cleanup_recs f (set_kern g s) = set_kern g (set_cleanup_recs f s).
Proof. done. Qed.

Lemma pop_top_run t execute c s nd nxt f x :
  load (threads s) t = Some nd → load (cleanup_recs s) c = Some (Cleanup nxt f x) →
  pop_top t execute c s =
    ORet tt (set_kern (if execute then kc f x else id)
               (set_cleanup_recs (delete c) (set_threads (alter (on_body (set_cleanups (λ _, nxt))) t) s))).
Proof.
  intros Hn Hc. pose proof Hc as [Hnn _]%load_Some. unfold pop_top.
  erewrite cbind_atom by (unfold ld; rewrite Hc; reflexivity). erewrite cbind_atom by (by eapply stt_run).
  set (s1 := set_threads _ s). assert (load (cleanup_recs s1) c = Some (Cleanup nxt f x)) as Hc1 by done.
  assert ((if execute then
            do! f <- atom (ld cleanup_recs c cl_func); do! a <- atom (ld cleanup_recs c cl_arg); call f a
           else cret tt) s1 = ORet tt (set_kern (if execute then kc f x else id) s1)) as Hcall.
  { destruct execute; [|unfold cret; by destruct s1].
    erewrite cbind_atom by (unfold ld; rewrite Hc1; reflexivity).
    erewrite cbind_atom by (unfold ld; rewrite Hc1; reflexivity). by rewrite call_kern. }
  erewrite cbind_ret by exact Hcall. unfold atom, free. rewrite is_null_false by done.
  unfold bind, ld. change (cleanup_recs (set_kern _ s1)) with (cleanup_recs s1). by rewrite Hc1.
Qed.

(** Cleanup handlers run last in, first out: [pth_cleanup_popall] walks the
    thread's stack from the top, calls every handler once with its argument when
    [execute] is set (and none otherwise), frees every record and leaves an empty
    stack. *)
Theorem cleanup_popall_lifo fuel t execute s nd l :
  load (threads s) t = Some nd → cl_chain (cleanup_recs s) (cleanups (q_body nd)) l → NoDup l.*1 →
  (length l < fuel)%nat →
  pth_cleanup_popall fuel t execute s =
    ORet tt (set_kern (if execute then run_calls l.*2 else id)
               (set_cleanup_recs (λ m, foldl (λ m a, delete a m) m l.*1)
                  (set_threads (alter (on_body (set_cleanups (λ _, NULL))) t) s))).
Proof.
  unfold pth_cleanup_popall. revert s nd l. induction fuel as [|fuel IH]; intros s nd l Hn Hch Hnd Hlen; [lia|].
  cbn [popall_loop]. erewrite cbind_atom by (by eapply ldt_run).
  destruct l as [|[a [f x]] l]; simpl in Hch.
  - rewrite Hch. unfold cret. cbn. rewrite (set_threads_id s t nd); [|done|].
    + f_equal. destruct execute; by destruct s.
    + unfold set_cleanups. rewrite <- Hch. by destruct (q_body nd).
  - destruct Hch as (Hc & nxt & Ha & Hch). rewrite Hc. pose proof Ha as [Hnn _]%load_Some.
    rewrite is_null_false by done. erewrite cbind_ret by (by apply (pop_top_run t execute a s nd nxt f x)).
    apply NoDup_cons in Hnd as [Hna Hnd]. simpl in Hlen.
    erewrite IH; [|cbn; by apply load_alter_eq|cbn; by apply cl_chain_delete|done|lia].
    rewrite threads_kern_swap, recs_kern_swap, set_kern_comp.
    f_equal. transitivity (set_kern ((if execute then run_calls l.*2 else id) ∘ (if execute then kc f x else id))
      (set_cleanup_recs (λ m, foldl (λ m a, delete a m) (delete a m) l.*1)
         (set_threads (alter (on_body (set_cleanups (λ _, NULL))) t ∘ alter (on_body (set_cleanups (λ _, nxt))) t) s))); [done|].
    f_equal; [|f_equal; apply set_threads_ext; apply alter_on_body_comp]. by destruct execute.
Qed.

End callbacks.

(** ** Examples on the toy kernel *)
Definition toy_kc (f a : N) (k : toy) : toy := Toy (clock k) (toylog k ++ [(f, a)]).
Definition toy_knot : @Knot toy_kernel :=
  {| call f a := λ s, ORet tt (@set_kern toy_kernel (toy_kc f a) s); kexit _ := λ _, OFuel |}.

(** Keys 0 (destructor 50) and 1 (destructor 51) in use, an [int] at 8. *)
Definition toy_keys : @St toy_kernel :=
  set_ints (λ _, {[ 8%N := -1 ]})
    (set_pth_keytab (λ l, <[0%nat := Keytab true 50]> (<[1%nat := Keytab true 51]> l)) toy_state).

Lemma key_create_smallest_witness :
  pth_key_create 8 77 toy_keys =
    Some (true, set_pth_keytab (<[2%nat := Keytab true 77]>) (set_ints (<[8%N := 2]>) toy_keys)).
Proof. apply (key_create_smallest 8 77 toy_keys (-1)); reflexivity. Defined.

Lemma key_set_get_witness :
  ∃ s', pth_key_setdata 1 9 toy_keys = Some (true, s') ∧ storage_ok s' (pth_current s') ∧
    pth_key_getdata 1 s' = Some (9%N, s') ∧
    (∀ key', key_live toy_keys key' → key' ≠ 1 →
       ∃ w, pth_key_getdata key' toy_keys = Some (w, toy_keys) ∧ pth_key_getdata key' s' = Some (w, s')) ∧
    (∀ t, t ≠ 100%N → threads s' !! t = threads toy_keys !! t).
Proof.
  apply (key_set_get 1 9 toy_keys (Qnode 0 0 0 toy_tcb)).
  - reflexivity.
  - reflexivity.
  - split; [lia|]. eexists. split; reflexivity.
  - intros _. split; [discriminate|reflexivity].
Defined.

(** The same thread with values 60 and 61 stored under the two keys. *)
Definition toy_values : list N := <[0%nat := 60%N]> (<[1%nat := 61%N]> data_zero).
Definition toy_stored : @St toy_kernel :=
  set_threads (alter (on_body (set_data_count (λ _, 2) ∘ set_data_value (λ _, Some toy_values))) 100%N) toy_keys.

Lemma toy_keys_used : keys_used (pth_keytab toy_stored) toy_values.
Proof.
  intros [|[|j]] v kt Hv Hnn Hkt; [vm_compute in Hkt; by simplify_eq..|].
  exfalso. apply Hnn. change (data_zero !! S (S j) = Some v) in Hv. by apply lookup_replicate in Hv as [-> _].
Qed.

Lemma key_destroydata_all_witness :
  ∃ s', @pth_key_destroydata toy_kernel toy_knot 100 toy_stored = ORet tt s' ∧
        toylog (kern s') = [(50%N, 60%N); (51%N, 61%N)].
Proof.
  eexists. split.
  - apply (@key_destroydata_all toy_kernel toy_knot toy_kc (λ _ _ _, eq_refl) 100 toy_stored
             (Qnode 0 0 0 (set_data_count (λ _, 2) (set_data_value (λ _, Some toy_values) toy_tcb))) toy_values).
    + reflexivity.
    + reflexivity.
    + split; reflexivity.
    + reflexivity.
    + exact toy_keys_used.
  - vm_compute. reflexivity.
Defined.

(** Two handlers pushed, 70 first. *)
Definition toy_pushed : @St toy_kernel :=
  match (pth_cleanup_push 70 1 ;; pth_cleanup_push 71 2) toy_state with
  | Some (_, s) => s
  | None => toy_state
  end.

Lemma cleanup_popall_lifo_witness :
  ∃ s', @pth_cleanup_popall toy_kernel toy_knot 3 100 true toy_pushed = ORet tt s' ∧
        toylog (kern s') = [(71%N, 2%N); (70%N, 1%N)] ∧ cleanup_recs s' = ∅.
Proof.
  eexists. split.
  - apply (@cleanup_popall_lifo toy_kernel toy_knot toy_kc (λ _ _ _, eq_refl) 3 100 true toy_pushed
             (Qnode 0 0 0 (set_cleanups (λ _, 1025%N) toy_tcb))
             [(1025%N, (71%N, 2%N)); (1000%N, (70%N, 1%N))]).
    + reflexivity.
    + split; [reflexivity|]. eexists. split; [reflexivity|]. split; [reflexivity|]. eexists. split; reflexivity.
    + by apply (bool_decide_eq_true_1 (NoDup _)).
    + simpl. lia.
  - split; vm_compute; reflexivity.
Defined.
