(* ===== verification/Msg.v ===== *)
(** * Message ports (pth_msg.c)

A port holds a ring of pending messages; all ports are on the global ring
[pth_msgport].  [msg_repr s a] says that the state represents the abstract ports
[a]: every port with its name and its queue of messages, and the order in which
the ports were created. *)
From S2P Require Import State.
From S2P Require Ring.

Section msg.
Context {Kern : Kernel}.

(** The two stores before the ring operations of [pth_msgport_create]. *)
Definition init_port (mp : ptr) (name : option (list Z)) : M St unit :=
  do cur <- gets pth_current;
  modify (set_msgports (<[mp := Msgport name cur Ring.PTH_RING_INIT]>)) ;;
  modify (set_rnodes (<[mp := Ring.Ringnode NULL NULL]>)).

Definition pth_msgport_create (name : option (list Z)) : M St N :=
  do mp <- malloc 48;
  if is_null mp then pth_error NULL ENOMEM else
  init_port mp name ;;
  on_mp_queue mp Ring.pth_ring_init ;;
  on_msgport_ring (Ring.pth_ring_append mp) ;;
  ret mp.

Definition pth_msgport_pending (mp : ptr) : M St Z :=
  if is_null mp then pth_error (-1) EINVAL else on_mp_queue mp Ring.pth_ring_elements.

Definition pth_msgport_put (mp m : ptr) : M St bool :=
  if is_null mp then pth_error false EINVAL else
  on_mp_queue mp (Ring.pth_ring_append m) ;;
  ret true.

Definition pth_msgport_get (mp : ptr) : M St N :=
  if is_null mp then pth_error NULL EINVAL else on_mp_queue mp Ring.pth_ring_pop.

Definition pth_msgport_reply (m : ptr) : M St bool :=
  if is_null m then pth_error false EINVAL else
  do rp <- ld messages m m_replyport;
  pth_msgport_put rp m.

(** [while ((m = pth_msgport_get(mp)) != NULL) pth_msgport_reply(m);] *)
Fixpoint reply_all (fuel : nat) (mp : ptr) : M St unit :=
  match fuel with
  | O => ub
  | S fuel' =>
      do m <- pth_msgport_get mp;
      if is_null m then ret tt else do _ <- pth_msgport_reply m; reply_all fuel' mp
  end.

(** A message that replies to the port itself would be taken off and put back for
    ever; otherwise there are no more steps than messages. *)
Definition pth_msgport_destroy (mp : ptr) : M St unit :=
  if is_null mp then ret tt else
  (λ s, reply_all (S (size (messages s))) mp s) ;;
  on_msgport_ring (Ring.pth_ring_delete mp) ;;
  free msgports set_msgports mp ;;
  modify (set_rnodes (delete mp)).

(** The search loop of [pth_msgport_find] from port [mp] on; [mpf] is the first one. *)
Fixpoint find_loop (fuel : nat) (name : list Z) (mpf mp : ptr) : M St N :=
  match fuel with
  | O => ub
  | S fuel' =>
      if is_null mp then ret NULL else
      do nm <- ld msgports mp mp_name;
      if bool_decide (nm = Some name) then ret mp else
      do nxt <- on_msgport_ring (Ring.pth_ring_next mp);
      if bool_decide (nxt = mpf) then ret NULL else find_loop fuel' name mpf nxt
  end.

Definition pth_msgport_find (name : option (list Z)) : M St N :=
  match name with
  | None => pth_error NULL EINVAL
  | Some name =>
      do mp <- on_msgport_ring Ring.pth_ring_first;
      λ s, find_loop (S (size (rnodes s))) name mp mp s
  end.

End msg.

(** ** The abstract ports *)
Record ports := Ports {
  a_ports : gmap N (option (list Z) * list N);  (* name and pending messages *)
  a_order : list N;                             (* ports in order of creation *)
  a_reply : gmap N N;                           (* messages and their reply ports *)
  a_next : N                                    (* next address of the allocator *)
}.

Definition set_queue_of (mp : N) (f : list N → list N) (a : ports) : ports :=
  Ports (alter (prod_map id f) mp (a_ports a)) (a_order a) (a_reply a) (a_next a).

(** The message is on no port. *)
Definition idle (a : ports) (m : N) : Prop := map_Forall (λ _ x, m ∉ x.2) (a_ports a).

Section msg_proofs.
Context {Kern : Kernel}.
Implicit Types (s : St) (a : ports).

(** All rings in use are disjoint: the ring of ports and the message queues. *)
Record msg_repr (s : St) (a : ports) : Prop := {
  mr_ring : rrepr (rnodes s) (pth_msgport_ring s) (a_order a);
  mr_port mp nm l : a_ports a !! mp = Some (nm, l) →
     mp ∈ a_order a ∧ (∀ m, m ∈ l → is_Some (a_reply a !! m)) ∧
     ∃ p, load (msgports s) mp = Some p ∧ mp_name p = nm ∧ rrepr (rnodes s) (mp_queue p) l;
  mr_order mp : mp ∈ a_order a → is_Some (a_ports a !! mp);
  mr_disj mp1 mp2 nm1 nm2 l1 l2 : mp1 ≠ mp2 → a_ports a !! mp1 = Some (nm1, l1) →
     a_ports a !! mp2 = Some (nm2, l2) → l1 ## l2;
  mr_reply m r : a_reply a !! m = Some r →
     m ∉ a_order a ∧ is_Some (load (rnodes s) m) ∧ ∃ x, load (messages s) m = Some x ∧ m_replyport x = r;
  mr_brk : brk s = a_next a ∧ a_next a ≠ NULL ∧ ∀ z, z ∈ dom (rnodes s) → (z < a_next a)%N
}.

Lemma lookup_queue_of a mp f x :
  a_ports (set_queue_of mp f a) !! x =
  if decide (mp = x) then prod_map id f <$> a_ports a !! x else a_ports a !! x.
Proof. simpl. rewrite lookup_alter. case_decide; by subst. Qed.

(** Replacing the queue of one port keeps the representation. *)
Lemma msg_repr_queue s a mp nm l f p r' h' e :
  msg_repr s a → a_ports a !! mp = Some (nm, l) → load (msgports s) mp = Some p →
  rrepr h' r' (f l) → (∀ z, z ∉ l → z ∉ f l → h' !! z = rnodes s !! z) → dom h' = dom (rnodes s) →
  (∀ z, z ∈ f l → z ∉ l → is_Some (a_reply a !! z) ∧ idle a z) →
  msg_repr (set_msgports (alter (set_mp_queue (λ _, r')) mp)
              (set_rnodes (λ _, h') (set_errno (λ _, e) s))) (set_queue_of mp f a).
Proof.
  intros Ha Hmp Hp Hr Hframe Hdom Hnew.
  assert (∀ z, z ∈ f l → is_Some (a_reply a !! z)) as Hreg.
  { intros z Hz. destruct (decide (z ∈ l)); [|by apply Hnew]. by apply (mr_port _ _ Ha mp nm l). }
  assert (∀ z, z ∈ a_order a → z ∉ l ∧ z ∉ f l) as Hord.
  { intros z Hz. split; intros Hin; [apply (mr_port _ _ Ha mp nm l Hmp) in Hin|apply Hreg in Hin];
      destruct Hin as [r Hr0]; by apply (mr_reply _ _ Ha) in Hr0 as [? _]. }
  assert (∀ x nx lx, x ≠ mp → a_ports a !! x = Some (nx, lx) → lx ## f l) as Hdisj.
  { intros x nx lx Hne Hx z Hz Hzl. destruct (decide (z ∈ l)) as [Hzin|Hzout].
    - by apply (mr_disj _ _ Ha x mp nx nm lx l Hne Hx Hmp z).
    - destruct (Hnew z Hzl Hzout) as [_ Hidle]. by apply (Hidle x _ Hx). }
  split; simpl.
  - eapply rrepr_frame; [by apply mr_ring|]. intros z Hz. apply Hframe; by apply Hord.
  - intros x nx lx. rewrite lookup_alter. case_decide as Hx.
    + subst x. rewrite Hmp. simpl. intros [= <- <-].
      split; [by apply (mr_port _ _ Ha mp nm l)|]. split; [done|].
      eexists. split; [by apply load_alter_eq|]. split; [|done].
      destruct (mr_port _ _ Ha mp nm l Hmp) as (_ & _ & p' & Hp' & <- & _). by simplify_eq.
    + intros Hlx. destruct (mr_port _ _ Ha x nx lx Hlx) as (? & ? & p' & Hp' & <- & Hrx).
      split; [done|]. split; [done|]. exists p'. split; [by rewrite load_alter_ne|]. split; [done|].
      eapply rrepr_frame; [done|]. intros z Hz. apply Hframe.
      * intros Hzl. by apply (mr_disj _ _ Ha x mp _ nm lx l (not_eq_sym Hx) Hlx Hmp z).
      * intros Hzl. by apply (Hdisj x _ lx (not_eq_sym Hx) Hlx z).
  - intros x Hx. rewrite lookup_alter. case_decide; [|by apply (mr_order _ _ Ha)].
    subst. rewrite Hmp. by eexists.
  - intros x y nx ny lx ly Hne. rewrite !lookup_alter. repeat case_decide; subst; try done.
    + rewrite Hmp. simpl. intros [= <- <-] Hy z Hz Hz'. by apply (Hdisj y ny ly (not_eq_sym Hne) Hy z).
    + intros Hx. rewrite Hmp. simpl. intros [= <- <-]. by apply (Hdisj x nx).
    + by apply (mr_disj _ _ Ha).
  - intros m r Hm. destruct (mr_reply _ _ Ha m r Hm) as (? & [n Hn] & ?). split; [done|]. split; [|done].
    apply load_Some in Hn as [? Hn]. apply load_dom; [|done]. rewrite Hdom. by apply elem_of_dom.
  - rewrite Hdom. by apply mr_brk.
Qed.

Lemma put_spec s a mp nm l m :
  msg_repr s a → a_ports a !! mp = Some (nm, l) → is_Some (a_reply a !! m) → idle a m →
  wp (pth_msgport_put mp m)
    (λ b s', b = true ∧ msg_repr s' (set_queue_of mp (λ l, l ++ [m]) a)) s.
Proof.
  intros Ha Hmp [r Hm] Hidle. destruct (mr_port _ _ Ha mp nm l Hmp) as (_ & _ & p & Hp & _ & Hr).
  pose proof Hp as [Hnn _]%load_Some. unfold pth_msgport_put. rewrite is_null_false by done. rewrite wp_bind.
  eapply wp_onr; [by rewrite Hp|].
  eapply wp_mono; [apply (Ring.pth_ring_append_spec _ l m)|].
  - by apply rrepr_ring.
  - by apply (Hidle mp _ Hmp).
  - by apply (mr_reply _ _ Ha m r).
  - intros _ [h' o e] [(r' & Ho & Hr') (Hf & Hd & _)]. simpl in *. subst o. wps. split; [done|].
    eapply (msg_repr_queue s a mp nm l (λ l, l ++ [m])); try done.
    + intros z Hz Hz'. apply Hf. set_solver.
    + intros z [?|Hz%list_elem_of_singleton]%elem_of_app Hzl; [done|]. subst. split; [by eexists|done].
Qed.

Lemma get_spec s a mp nm l :
  msg_repr s a → a_ports a !! mp = Some (nm, l) →
  wp (pth_msgport_get mp)
    (λ v s', v = head_or NULL l ∧ msg_repr s' (set_queue_of mp tail a)) s.
Proof.
  intros Ha Hmp. destruct (mr_port _ _ Ha mp nm l Hmp) as (_ & _ & p & Hp & _ & Hr).
  pose proof Hp as [Hnn _]%load_Some. unfold pth_msgport_get. rewrite is_null_false by done.
  eapply wp_onr; [by rewrite Hp|].
  eapply wp_mono; [apply (Ring.pth_ring_pop_spec _ l); by apply rrepr_ring|].
  intros v [h' o e] (-> & (r' & Ho & Hr') & (Hf & Hd & _)). simpl in *. subst o. simpl. split; [done|].
  assert (∀ z, z ∈ tail l → z ∈ l) as Htl by (destruct l; set_solver).
  eapply (msg_repr_queue s a mp nm l tail); try done.
  - intros z Hz Hz'. by apply Hf.
  - intros z Hz Hzl. by apply Htl in Hz.
Qed.

(** What a reply does to the abstract ports. *)
Definition reply_to (m : N) (a : ports) : ports :=
  match a_reply a !! m with
  | Some r => if decide (r = NULL) then a else set_queue_of r (λ l, l ++ [m]) a
  | None => a
  end.

(** The reply port of [m] is [NULL] or an existing port. *)
Definition can_reply (a : ports) (m : N) : Prop :=
  match a_reply a !! m with
  | Some r => r = NULL ∨ is_Some (a_ports a !! r)
  | None => False
  end.

Lemma msg_repr_errno s a e : msg_repr s a → msg_repr (set_errno (λ _, e) s) a.
Proof. intros []. by split. Qed.

Lemma reply_spec s a m :
  msg_repr s a → m ≠ NULL → can_reply a m → idle a m →
  wp (pth_msgport_reply m)
    (λ b s', b = bool_decide (a_reply a !! m ≠ Some NULL) ∧ msg_repr s' (reply_to m a)) s.
Proof.
  intros Ha Hnn Hcan Hidle. unfold can_reply in Hcan. destruct (a_reply a !! m) as [r|] eqn:Hm; [|done].
  destruct (mr_reply _ _ Ha m r Hm) as (_ & _ & x & Hx & Hr).
  unfold pth_msgport_reply. rewrite is_null_false by done. rewrite wp_bind, (wp_ld _ _ _ _ _ x Hx), Hr.
  unfold reply_to. rewrite Hm. destruct (decide (r = NULL)) as [->|Hrn].
  - rewrite bool_decide_eq_false_2 by naive_solver. split; [done|by apply msg_repr_errno].
  - rewrite bool_decide_eq_true_2 by naive_solver. destruct Hcan as [|[[nm l] Hp]]; [done|].
    by eapply put_spec.
Qed.

(** *** Destroying a port *)

(** The state in which [mp] has the messages [l] left to be answered. *)
Definition answering (mp : N) (l : list N) (a : ports) : Prop :=
  ∃ nm, a_ports a !! mp = Some (nm, l) ∧ NoDup l ∧
        Forall (λ m, m ≠ NULL ∧ can_reply a m ∧ a_reply a !! m ≠ Some mp) l.

Lemma can_reply_queue_of a mp f m : can_reply (set_queue_of mp f a) m ↔ can_reply a m.
Proof.
  unfold can_reply. simpl. destruct (a_reply a !! m) as [r|]; [|done].
  rewrite lookup_alter. case_decide; [|done]. subst. rewrite fmap_is_Some. done.
Qed.

Lemma can_reply_reply_to a m x : can_reply (reply_to m a) x ↔ can_reply a x.
Proof.
  unfold reply_to. destruct (a_reply a !! m); [|done]. case_decide; [done|]. apply can_reply_queue_of.
Qed.

Lemma reply_to_reply a m : a_reply (reply_to m a) = a_reply a ∧ a_order (reply_to m a) = a_order a.
Proof. unfold reply_to. destruct (a_reply a !! m); [|done]. by case_decide. Qed.

Lemma reply_to_other a m mp : a_reply a !! m ≠ Some mp → a_ports (reply_to m a) !! mp = a_ports a !! mp.
Proof.
  intros Hm. unfold reply_to. destruct (a_reply a !! m) as [r|]; [|done]. case_decide; [done|].
  simpl. rewrite lookup_alter_ne; [done|]. naive_solver.
Qed.

(** Taking [m] off its port makes it idle. *)
Lemma idle_after_get s a mp nm m l :
  msg_repr s a → a_ports a !! mp = Some (nm, m :: l) → NoDup (m :: l) → idle (set_queue_of mp tail a) m.
Proof.
  intros Ha Hmp Hnd x [nx lx]. rewrite lookup_queue_of. case_decide.
  - subst. rewrite Hmp. simpl. intros [= <- <-]. by apply NoDup_cons in Hnd as [? _].
  - intros Hx Hin. apply (mr_disj _ _ Ha x mp nx nm lx (m :: l) (not_eq_sym H) Hx Hmp m Hin). left.
Qed.

Lemma reply_all_spec fuel s a mp l :
  msg_repr s a → answering mp l a → (length l < fuel)%nat →
  wp (reply_all fuel mp)
    (λ _ s', let a' := foldl (λ a m, reply_to m (set_queue_of mp tail a)) a l in
             msg_repr s' a' ∧ answering mp [] a' ∧ a_order a' = a_order a) s.
Proof.
  revert s a l. induction fuel as [|fuel IH]; intros s a l Ha (nm & Hmp & Hnd & Hall) Hlen; [lia|].
  cbn [reply_all]. rewrite wp_bind. eapply wp_mono; [by eapply get_spec|]. intros v s1 [-> Hs1].
  destruct l as [|m l].
  - simpl. wps. split; [|by split; [exists nm|]]. replace a with (set_queue_of mp tail a); [done|]. destruct a. unfold set_queue_of. simpl in *.
    f_equal. apply alter_id. intros [nx lx] Hx. by simplify_eq.
  - rewrite head_or_cons. apply Forall_cons in Hall as [(Hnn & Hcan & Hne) Hall].
    rewrite is_null_false by done. rewrite wp_bind.
    eapply wp_mono; [apply (reply_spec _ (set_queue_of mp tail a) m Hs1 Hnn)|].
    + by apply can_reply_queue_of.
    + by eapply idle_after_get.
    + intros b s2 [_ Hs2]. apply NoDup_cons in Hnd as [_ Hnd]. simpl.
      destruct (reply_to_reply (set_queue_of mp tail a) m) as [Hrep Hord].
      eapply wp_mono; [apply (IH s2 _ l Hs2); [|simpl in Hlen; lia]|].
      2: { intros _ s3 (? & ? & Ho). split_and!; [done..|]. by rewrite Ho, Hord. }
      exists nm. split.
      { rewrite reply_to_other by done. rewrite lookup_queue_of, decide_True, Hmp by done. done. }
      split; [done|]. eapply Forall_impl; [done|]. intros x (? & Hcx & Hx). simpl.
      rewrite can_reply_reply_to, can_reply_queue_of. split; [done|]. split; [done|].
      by rewrite Hrep.
Qed.

Definition drop_port (mp : N) (a : ports) : ports :=
  Ports (delete mp (a_ports a)) (filter (.≠ mp) (a_order a)) (a_reply a) (a_next a).

Lemma filter_ne_mid (l1 l2 : list N) x :
  NoDup (l1 ++ x :: l2) → filter (.≠ x) (l1 ++ x :: l2) = l1 ++ l2.
Proof.
  intros Hnd. apply NoDup_app in Hnd as (_ & H1 & H2). apply NoDup_cons in H2 as [H2 _].
  assert (∀ l : list N, x ∉ l → filter (.≠ x) l = l) as Hf.
  { induction l as [|y l IH]; intros Hx; [done|]. apply not_elem_of_cons in Hx as [? ?].
    rewrite filter_cons, decide_True by done. by rewrite IH. }
  rewrite filter_app, filter_cons, decide_False by (intros Hx; by apply Hx). rewrite !Hf; [done|done|].
  intros Hx. apply (H1 x Hx). left.
Qed.

Lemma drop_port_spec s a mp :
  msg_repr s a → answering mp [] a →
  wp (on_msgport_ring (Ring.pth_ring_delete mp) ;; free msgports set_msgports mp ;; modify (set_rnodes (delete mp)))
    (λ _ s', msg_repr s' (drop_port mp a)) s.
Proof.
  intros Ha (nm & Hmp & _). destruct (mr_port _ _ Ha mp nm [] Hmp) as (Hin & _ & p & Hp & _).
  pose proof (mr_ring _ _ Ha) as Hring. pose proof Hring as (_ & _ & Hcyc). pose proof (cyc_NoDup _ _ Hcyc) as Hnd.
  pose proof Hp as [Hnn _]%load_Some. apply list_elem_of_split in Hin as (l1 & l2 & Ho). rewrite Ho in Hring, Hnd.
  rewrite wp_bind. eapply wp_onr; [done|].
  eapply wp_mono; [by apply Ring.pth_ring_delete_spec, rrepr_ring|].
  intros _ [h' o e] [(r' & Ho' & Hr') (Hf & Hd & _)]. simpl in Ho', Hr', Hf, Hd. subst o.
  unfold free. rewrite is_null_false by done. rewrite !wp_bind, (wp_ld _ _ _ _ _ p) by exact Hp. wps.
  assert (∀ x : N, x ∈ a_order a ↔ x ∈ l1 ++ l2 ∨ x = mp) as Hord by (intros x; rewrite Ho; set_solver).
  pose proof (filter_ne_mid l1 l2 mp Hnd) as Hfil. rewrite <- Ho in Hfil.
  apply NoDup_app in Hnd as (_ & Hmp1 & [Hmp2 _]%NoDup_cons).
  assert (mp ∉ l1 ++ l2) as Hmpn by (intros [Hx|Hx]%elem_of_app; [by apply (Hmp1 _ Hx); left|done]).
  assert (∀ x nx lx, a_ports a !! x = Some (nx, lx) → ∀ m, m ∈ lx → m ∉ a_order a) as Hsep.
  { intros x nx lx Hx m Hm. destruct (mr_port _ _ Ha x nx lx Hx) as (_ & Hreg & _).
    destruct (Hreg m Hm) as [r Hr]. by apply (mr_reply _ _ Ha) in Hr as [? _]. }
  split; simpl; rewrite ?Hfil.
  - eapply rrepr_frame; [exact Hr'|]. intros z Hz. rewrite lookup_delete_ne; [done|]. by intros ->.
  - intros x nx lx [Hne Hx]%lookup_delete_Some. destruct (mr_port _ _ Ha x nx lx Hx) as (Hxo & ? & p' & Hp' & <- & Hrx).
    apply Hord in Hxo as [Hxo|]; [|by subst]. split; [done|]. split; [done|].
    exists p'. apply load_Some in Hp' as [? Hp']. split; [apply load_Some; by rewrite lookup_delete_ne|].
    split; [done|]. eapply rrepr_frame; [done|]. intros z Hz. pose proof (Hsep _ _ _ Hx z Hz) as Hzo.
    rewrite Hord in Hzo. rewrite lookup_delete_ne by naive_solver. apply Hf. naive_solver.
  - intros x Hx. rewrite lookup_delete_ne by (by intros ->). apply (mr_order _ _ Ha), Hord. by left.
  - intros x y nx ny lx ly Hne [_ Hx]%lookup_delete_Some [_ Hy]%lookup_delete_Some. by apply (mr_disj _ _ Ha x y nx ny).
  - intros m r Hm. destruct (mr_reply _ _ Ha m r Hm) as (Hmo & [n Hn] & ?). rewrite Hord in Hmo.
    split; [naive_solver|]. split; [|done]. apply load_Some in Hn as [? Hn]. exists n. apply load_Some. split; [done|].
    rewrite lookup_delete_ne by naive_solver. rewrite Hf by naive_solver. done.
  - destruct (mr_brk _ _ Ha) as (? & ? & Hb). split_and!; [done..|]. intros z. rewrite dom_delete, Hd. set_solver.
Qed.

Lemma messages_bound s a mp nm l :
  msg_repr s a → a_ports a !! mp = Some (nm, l) → (length l ≤ size (messages s))%nat.
Proof.
  intros Ha Hmp. destruct (mr_port _ _ Ha mp nm l Hmp) as (_ & Hreg & p & _ & _ & (_ & _ & Hc)).
  rewrite <- size_dom, <- (size_list_to_set (C := gset N) l (cyc_NoDup _ _ Hc)).
  apply subseteq_size. intros m [r Hr]%elem_of_list_to_set%Hreg.
  destruct (mr_reply _ _ Ha m r Hr) as (_ & _ & x & [_ Hx]%load_Some & _). apply elem_of_dom. by eexists.
Qed.

Definition destroyed (mp : N) (l : list N) (a : ports) : ports :=
  drop_port mp (foldl (λ a m, reply_to m (set_queue_of mp tail a)) a l).

Lemma destroy_spec s a mp l :
  msg_repr s a → answering mp l a →
  wp (pth_msgport_destroy mp) (λ _ s', msg_repr s' (destroyed mp l a)) s.
Proof.
  intros Ha Hans. pose proof Hans as (nm & Hmp & _). destruct (mr_port _ _ Ha mp nm l Hmp) as (_ & _ & p & Hp & _).
  pose proof Hp as [Hnn _]%load_Some. unfold pth_msgport_destroy. rewrite is_null_false by done. rewrite wp_bind.
  pose proof (messages_bound _ _ _ _ _ Ha Hmp).
  pose proof (reply_all_spec (S (size (messages s))) s a mp l Ha Hans ltac:(lia)) as Hw.
  apply wp_run in Hw as ([] & s1 & Hrun & Hs1 & Hans1 & _). unfold wp at 1. rewrite Hrun.
  by apply drop_port_spec.
Qed.

(** *** Counting and finding *)
Lemma onr_read {A} get upd (m : M Ring.rstate A) s r v :
  get s = Some r → upd (λ _, r) s = s →
  wp m (λ v' rs, v' = v ∧ rs = Ring.RState (rnodes s) (Some r) (errno s))
    (Ring.RState (rnodes s) (Some r) (errno s)) →
  onr get upd m s = Some (v, s).
Proof.
  intros Hg Hu Hm. unfold onr. rewrite Hg. simpl.
  apply wp_run in Hm as (v' & rs & Hrun & -> & ->). rewrite Hrun. simpl.
  assert (set_rnodes (λ _, rnodes s) (set_errno (λ _, errno s) s) = s) as -> by (by destruct s).
  by rewrite Hu.
Qed.

Lemma pending_spec s a mp nm l :
  msg_repr s a → a_ports a !! mp = Some (nm, l) → Z.of_nat (length l) ≤ INT_MAX →
  pth_msgport_pending mp s = Some (Z.of_nat (length l), s).
Proof.
  intros Ha Hmp Hb. destruct (mr_port _ _ Ha mp nm l Hmp) as (_ & _ & p & Hp & _ & Hr).
  pose proof Hp as [Hnn Hp']%load_Some. unfold pth_msgport_pending. rewrite is_null_false by done.
  eapply onr_read; [by rewrite Hp| |].
  - assert (alter (set_mp_queue (λ _, mp_queue p)) mp (msgports s) = msgports s) as Hid.
    { apply alter_id. intros x Hx. simplify_eq. by destruct p. }
    unfold set_msgports. rewrite Hid. by destruct s.
  - eapply wp_mono; [apply (Ring.pth_ring_elements_spec _ l); [by apply rrepr_ring|done]|]. intros v rs [-> ->]. done.
Qed.

Definition named (a : ports) (name : list Z) (mp : N) : Prop := fst <$> a_ports a !! mp = Some (Some name).

#[local] Instance named_dec a name mp : Decision (named a name mp).
Proof. unfold named. apply _. Defined.

(** The first port of that name in order of creation, [NULL] if there is none. *)
Definition first_named (a : ports) (name : list Z) (l : list N) : N := head_or NULL (filter (named a name) l).

Lemma find_loop_spec fuel s a name l1 l2 :
  msg_repr s a → a_order a = l1 ++ l2 → (length l2 < fuel)%nat →
  find_loop fuel name (head_or NULL (a_order a)) (head_or NULL l2) s = Some (first_named a name l2, s).
Proof.
  intros Ha. revert l1 l2. induction fuel as [|fuel IH]; intros l1 l2 Ho Hlen; [lia|]. cbn [find_loop].
  pose proof (mr_ring _ _ Ha) as Hring. pose proof Hring as (_ & _ & Hc).
  destruct l2 as [|mp l2]; [done|]. rewrite head_or_cons.
  assert (mp ∈ a_order a) as Hin by (rewrite Ho; set_solver).
  rewrite (is_null_false mp (cyc_nonnull _ _ _ Hc Hin)).
  destruct (mr_order _ _ Ha mp Hin) as [[nm l] Hmp].
  destruct (mr_port _ _ Ha mp nm l Hmp) as (_ & _ & p & Hp & Hname & _).
  erewrite bind_run by (unfold ld; rewrite Hp; reflexivity). rewrite Hname.
  unfold first_named. rewrite filter_cons.
  assert (named a name mp ↔ nm = Some name) as Hnamed.
  { unfold named. rewrite Hmp. simpl. split; [by intros [= ->]|by intros ->]. }
  case_bool_decide as Hnm.
  - rewrite decide_True by (by apply Hnamed). done.
  - rewrite decide_False by (by rewrite Hnamed).
    assert (on_msgport_ring (Ring.pth_ring_next mp) s = Some (head_or NULL l2, s)) as Hnext.
    { eapply onr_read; [done|by destruct s|]. rewrite Ho in Hring.
      eapply wp_mono; [by apply (Ring.pth_ring_next_spec _ l1 mp l2), rrepr_ring|]. intros v rs [-> ->]. done. }
    erewrite bind_run by exact Hnext. pose proof (cyc_NoDup _ _ Hc) as Hnd. rewrite Ho in Hnd.
    rewrite bool_decide_eq_false_2.
    + apply (IH (l1 ++ [mp])); [by rewrite <- app_assoc|simpl in Hlen; lia].
    + destruct l2 as [|y l2]; simpl.
      * intros Hx. eapply (cyc_nonnull _ _ _ Hc); [|symmetry; exact Hx]. rewrite Ho. destruct l1; simpl; set_solver.
      * rewrite Ho. rewrite head_or_cons. by apply NoDup_head_ne.
Qed.

Lemma find_spec s a name :
  msg_repr s a → pth_msgport_find (Some name) s = Some (first_named a name (a_order a), s).
Proof.
  intros Ha. pose proof (mr_ring _ _ Ha) as Hring. unfold pth_msgport_find.
  assert (on_msgport_ring Ring.pth_ring_first s = Some (head_or NULL (a_order a), s)) as Hfirst.
  { eapply onr_read; [done|by destruct s|].
    eapply wp_mono; [by apply (Ring.ring_first_run _ (a_order a)), rrepr_ring|]. intros v rs [-> ->]. done. }
  erewrite bind_run by exact Hfirst. apply (find_loop_spec _ s a name []); [done..|].
  destruct Hring as (_ & _ & Hc). pose proof (cyc_size _ _ Hc). lia.
Qed.

(** *** Creating a port *)
Definition add_port (name : option (list Z)) (a : ports) : ports :=
  Ports (<[a_next a := (name, [])]> (a_ports a)) (a_order a ++ [a_next a]) (a_reply a) (a_next a + 49).

Definition mem_ok : Prop := ∀ sz k, (k_enomem sz k).1 = false.

Lemma malloc_run sz s :
  mem_ok → 0 ≤ sz →
  ∃ k, malloc sz s = Some (brk s, set_brk (λ b, (b + 1 + Z.to_N sz)%N) (set_kern (λ _, k) s)).
Proof.
  intros Hmem Hsz. specialize (Hmem sz (kern s)). unfold malloc, bind, kcall.
  destruct (k_enomem sz (kern s)) as [b k]. simpl in Hmem. subst b. by exists k.
Qed.

(** The new port once it is in the heap, before it is put on the ring of ports. *)
Lemma add_port_repr s a mp h' r' name cur b e k :
  msg_repr s a → mp = a_next a → b = (a_next a + 49)%N →
  rrepr h' r' (a_order a ++ [mp]) → dom h' = {[mp]} ∪ dom (rnodes s) →
  (∀ z, z ∉ mp :: a_order a → h' !! z = rnodes s !! z) →
  ∀ s', msgports s' = <[mp := Msgport name cur Ring.PTH_RING_INIT]> (msgports s) →
    rnodes s' = h' → pth_msgport_ring s' = r' → messages s' = messages s → brk s' = b → errno s' = e → kern s' = k →
    msg_repr s' (add_port name a).
Proof.
  intros Ha -> -> Hr Hdom Hf s' Hports Hnodes Hring Hmsgs Hbrk _ _. set (mp := a_next a) in *.
  destruct (mr_brk _ _ Ha) as (_ & Hnn & Hlt). pose proof (mr_ring _ _ Ha) as (_ & _ & Hc).
  assert (∀ z, is_Some (load (rnodes s) z) → z ≠ mp) as Hfresh.
  { intros z [n [_ Hn]%load_Some] ->. specialize (Hlt mp). rewrite elem_of_dom, Hn in Hlt.
    specialize (Hlt ltac:(by eexists)). unfold mp in Hlt. lia. }
  assert (mp ∉ a_order a) as Hnew by (intros Hin; by apply (Hfresh mp); [eapply cyc_load|]).
  assert (∀ m, is_Some (a_reply a !! m) → m ∉ mp :: a_order a) as Hreg.
  { intros m [r Hm]. destruct (mr_reply _ _ Ha m r Hm) as (? & Hl & _). apply Hfresh in Hl. set_solver. }
  split; simpl; fold mp; rewrite ?Hports, ?Hnodes, ?Hring, ?Hmsgs, ?Hbrk.
  - done.
  - intros x nx lx. rewrite lookup_insert. case_decide as Hx.
    + subst x. intros [= <- <-]. split; [set_solver|]. split; [set_solver|].
      eexists. split; [rewrite load_insert, decide_False, decide_True by done; done|]. split; [done|apply rrepr_nil].
    + intros Hlx. destruct (mr_port _ _ Ha x nx lx Hlx) as (? & Hregs & p & [? Hp]%load_Some & <- & Hrx).
      split; [set_solver|]. split; [done|]. exists p. split; [apply load_Some; by rewrite lookup_insert_ne|].
      split; [done|]. eapply rrepr_frame; [done|]. intros z Hz. by apply Hf, Hreg, Hregs.
  - intros x [Hx|Hx%list_elem_of_singleton]%elem_of_app; rewrite lookup_insert.
    + case_decide; [by eexists|by apply (mr_order _ _ Ha)].
    + subst. rewrite decide_True by done. by eexists.
  - intros x y nx ny lx ly Hne. rewrite !lookup_insert. repeat case_decide; subst; try done.
    + intros [= <- <-] _ z Hz. set_solver.
    + intros _ [= <- <-] z _ Hz. set_solver.
    + by apply (mr_disj _ _ Ha).
  - intros m r Hm. destruct (mr_reply _ _ Ha m r Hm) as (Hmo & [n Hn] & ?).
    specialize (Hreg m ltac:(by eexists)). split; [set_solver|]. split; [|done].
    exists n. apply load_Some in Hn as [? Hn]. apply load_Some. split; [done|]. by rewrite Hf.
  - split; [done|]. split; [unfold mp; lia|]. intros z. rewrite Hdom, elem_of_union, elem_of_singleton. intros [->|Hz].
    + unfold mp. lia.
    + specialize (Hlt z Hz). lia.
Qed.

Lemma create_spec s a name :
  mem_ok → msg_repr s a →
  wp (pth_msgport_create name) (λ v s', v = a_next a ∧ msg_repr s' (add_port name a)) s.
Proof.
  intros Hmem Ha. destruct (mr_brk _ _ Ha) as (Hbrk & Hnn & Hlt). unfold pth_msgport_create.
  destruct (malloc_run 48 s Hmem ltac:(lia)) as [k Hmal]. rewrite wp_bind. unfold wp at 1. rewrite Hmal, Hbrk.
  rewrite is_null_false by done. unfold init_port. wps.
  set (s1 := set_rnodes _ _).
  assert (load (msgports s1) (a_next a) = Some (Msgport name (pth_current s) Ring.PTH_RING_INIT)) as Hp.
  { simpl. rewrite load_insert, decide_False, decide_True by done. done. }
  eapply wp_onr; [by rewrite Hp|]. unfold Ring.pth_ring_init, Ring.ring_null. wps.
  eapply wp_onr; [done|].
  assert (a_next a ∉ a_order a) as Hnew.
  { intros Hin. destruct (mr_ring _ _ Ha) as (_ & _ & Hc). destruct (cyc_load _ _ _ Hc Hin) as [n [_ Hn]%load_Some].
    specialize (Hlt (a_next a)). rewrite elem_of_dom, Hn in Hlt. specialize (Hlt ltac:(by eexists)). lia. }
  eapply wp_mono; [apply (Ring.pth_ring_append_spec _ (a_order a) (a_next a))|].
  - apply rrepr_ring. simpl. eapply rrepr_frame; [by apply mr_ring|]. intros z Hz.
    rewrite lookup_insert_ne; [done|]. intros Heq. by rewrite Heq in Hnew.
  - done.
  - simpl. rewrite load_insert, decide_False, decide_True by done. by eexists.
  - intros _ [h' o e] [(r' & Ho & Hr') (Hf & Hd & _)]. simpl in Ho, Hr', Hf, Hd. subst o. wps. split; [done|].
    eapply (add_port_repr s a (a_next a) h' r' name (pth_current s) _ e k); try done.
    + by rewrite Hd, dom_insert_L.
    + intros z Hz. rewrite Hf by done. rewrite lookup_insert_ne by set_solver. done.
    + simpl. rewrite alter_insert_eq. done.
    + simpl. rewrite Hbrk. lia.
Qed.

(** ** Refinement: sequences of port operations against the abstract ports *)
Inductive msg_op :=
  | MCreate (name : option (list Z)) | MPut (mp m : N) | MGet (mp : N) | MReply (m : N)
  | MPending (mp : N) | MFind (name : list Z) | MDestroy (mp : N).
Inductive msg_ret := MPtr (p : N) | MBool (b : bool) | MInt (z : Z) | MUnit.

Definition msg_exec (op : msg_op) : M St msg_ret :=
  match op with
  | MCreate name => do v <- pth_msgport_create name; ret (MPtr v)
  | MPut mp m => do b <- pth_msgport_put mp m; ret (MBool b)
  | MGet mp => do v <- pth_msgport_get mp; ret (MPtr v)
  | MReply m => do b <- pth_msgport_reply m; ret (MBool b)
  | MPending mp => do z <- pth_msgport_pending mp; ret (MInt z)
  | MFind name => do v <- pth_msgport_find (Some name); ret (MPtr v)
  | MDestroy mp => pth_msgport_destroy mp ;; ret MUnit
  end.

Fixpoint msg_exec_all (ops : list msg_op) : M St (list msg_ret) :=
  match ops with
  | [] => ret []
  | op :: ops' => do v <- msg_exec op; do vs <- msg_exec_all ops'; ret (v :: vs)
  end.

#[local] Instance idle_dec a m : Decision (idle a m).
Proof. unfold idle. apply _. Defined.
#[local] Instance can_reply_dec a m : Decision (can_reply a m).
Proof. unfold can_reply. destruct (a_reply a !! m); apply _. Defined.

(** Ports are queues: a message is appended to a port it is not already waiting
    on, the oldest message is taken first, a reply appends to the reply port, and
    destroying a port first replies to everything that is pending on it.  [None]
    where the code has no meaning, e.g. when a message is queued twice. *)
Definition msg_spec (op : msg_op) (a : ports) : option (msg_ret * ports) :=
  match op with
  | MCreate name => Some (MPtr (a_next a), add_port name a)
  | MPut mp m =>
      if decide (is_Some (a_ports a !! mp) ∧ is_Some (a_reply a !! m) ∧ idle a m)
      then Some (MBool true, set_queue_of mp (λ l, l ++ [m]) a) else None
  | MGet mp => x ← a_ports a !! mp; Some (MPtr (head_or NULL x.2), set_queue_of mp tail a)
  | MReply m =>
      if decide (m ≠ NULL ∧ can_reply a m ∧ idle a m)
      then Some (MBool (bool_decide (a_reply a !! m ≠ Some NULL)), reply_to m a) else None
  | MPending mp =>
      x ← a_ports a !! mp;
      if decide (Z.of_nat (length x.2) ≤ INT_MAX) then Some (MInt (Z.of_nat (length x.2)), a) else None
  | MFind name => Some (MPtr (first_named a name (a_order a)), a)
  | MDestroy mp =>
      x ← a_ports a !! mp;
      if decide (NoDup x.2 ∧ Forall (λ m, m ≠ NULL ∧ can_reply a m ∧ a_reply a !! m ≠ Some mp) x.2)
      then Some (MUnit, destroyed mp x.2 a) else None
  end.

Fixpoint msg_spec_all (ops : list msg_op) (a : ports) : option (list msg_ret * ports) :=
  match ops with
  | [] => Some ([], a)
  | op :: ops' => '(v, a1) ← msg_spec op a; '(vs, a2) ← msg_spec_all ops' a1; Some (v :: vs, a2)
  end.

Lemma msg_exec_refines s a op v a' :
  mem_ok → msg_repr s a → msg_spec op a = Some (v, a') →
  wp (msg_exec op) (λ v' s', v' = v ∧ msg_repr s' a') s.
Proof.
  intros Hmem Ha Hop.
  destruct op as [name|mp m|mp|m|mp|name|mp]; simpl in Hop; cbn [msg_exec]; rewrite wp_bind;
    try (destruct (a_ports a !! mp) as [[nm l]|] eqn:Hmp; simpl in Hop; [|done]);
    repeat (case_decide; [|done]); destruct_and?; simplify_eq.
  - eapply wp_mono; [by apply create_spec|]. intros ? ? [-> ?]. done.
  - eapply wp_mono; [by eapply put_spec|]. intros ? ? [-> ?]. done.
  - eapply wp_mono; [by eapply get_spec|]. intros ? ? [-> ?]. done.
  - eapply wp_mono; [by apply reply_spec|]. intros ? ? [-> ?]. done.
  - unfold wp at 1. by erewrite pending_spec.
  - unfold wp at 1. by erewrite find_spec.
  - eapply wp_mono; [apply (destroy_spec s a mp l Ha); by exists nm|]. done.
Qed.

(** C19: Every sequence of message port operations refines the abstract ports:
    messages leave a port in the order in which they were put there, replies go to
    the reply port, a port is found by its name, and destroying a port answers
    everything pending on it; the code runs without undefined behaviour, its loops
    end, and it returns the specified values. *)
Theorem msgport_refinement ops s a vs a' :
  mem_ok → msg_repr s a → msg_spec_all ops a = Some (vs, a') →
  ∃ s', msg_exec_all ops s = Some (vs, s') ∧ msg_repr s' a'.
Proof.
  intros Hmem. revert s a vs. induction ops as [|op ops IH]; intros s a vs Ha Hops; simpl in Hops.
  - simplify_eq. by exists s.
  - destruct (msg_spec op a) as [[v a1]|] eqn:Hop; [|done]. simpl in Hops.
    destruct (msg_spec_all ops a1) as [[vs1 a2]|] eqn:Hrest; [|done]. simpl in Hops. simplify_eq.
    apply (msg_exec_refines s a op v a1 Hmem Ha), wp_run in Hop as (v' & s1 & Hrun & -> & Ha1).
    destruct (IH s1 a1 vs1 Ha1 Hrest) as (s2 & Hrun2 & Ha2).
    exists s2. split; [|done]. simpl. unfold bind. by rewrite Hrun, Hrun2.
Qed.

End msg_proofs.

(** Two messages, 51 answered on port 1000 (the first to be created) and 52 on none. *)
Definition toy_messages : @St toy_kernel :=
  set_messages (λ _, list_to_map [(51%N, Message 1000 4 0); (52%N, Message 0 4 0)])
    (set_rnodes (λ _, list_to_map [(51%N, Ring.Ringnode 0 0); (52%N, Ring.Ringnode 0 0)]) toy_state).
Definition toy_ports : ports := Ports ∅ [] (list_to_map [(51%N, 1000%N); (52%N, 0%N)]) 1000.

Lemma toy_messages_repr : msg_repr toy_messages toy_ports.
Proof.
  split; try (by intros; set_solver).
  - done.
  - intros m r. unfold toy_ports. simpl. rewrite lookup_insert_Some, lookup_insert_Some, lookup_empty.
    intros [[<- <-]|[_ [[<- <-]|[_ ?]]]]; [..|done]; (split; [set_solver|]);
      split; eexists; (reflexivity || (split; reflexivity)).
Qed.

Lemma msgport_refinement_witness :
  ∃ s', msg_exec_all [MCreate None; MCreate (Some [97]); MPut 1049 51; MPut 1049 52; MFind [97]; MPending 1049;
                      MGet 1049; MPut 1049 51; MDestroy 1049; MGet 1000] toy_messages =
          Some ([MPtr 1000; MPtr 1049; MBool true; MBool true; MPtr 1049; MInt 2;
                 MPtr 51; MBool true; MUnit; MPtr 51], s') ∧
        msg_repr s' (Ports {[1000%N := (None, [])]} [1000%N] (list_to_map [(51%N, 1000%N); (52%N, 0%N)]) 1098).
Proof.
  apply (msgport_refinement _ toy_messages toy_ports).
  - by intros sz k.
  - exact toy_messages_repr.
  - vm_compute. reflexivity.
Defined.
