(* ===== verification/Sys.v ===== *)
(** * Kernel helpers and the context switch

[pth_util_fd_valid], [pth_util_sigdelete] (pth_util.c), [pth_fdmode],
[pth_yield] (pth_lib.c), [pth_timeout] (pth_time.c), the context switch macro of
pth_p.h and the cancellation point of pth_cancel.c: what every blocking function
is built from. *)
From S2P Require Import State.

Section sys.
Context {Kern : Kernel}.

(** ** Descriptors and signals *)
Definition pth_util_fd_valid (fd : Z) : M St bool :=
  if (fd <? 0) || (FD_SETSIZE <=? fd) then ret false else
  do rc <- kcall_errno (k_getfl fd);
  do e <- gets errno;
  ret (negb ((rc =? -1) && (e =? EBADF))).

(** [sigfillset]: the signals 1 to 64 of Linux *)
Definition sig_all : gset Z := list_to_set (Z.of_nat <$> seq 1 64).
(** the address of [pth_util_sigdelete_sighandler] *)
Definition fp_sigdelete : N := 7.

Definition sigprocmask (how : sig_how) (ss : gset Z) : M St (gset Z) := kcall (k_sigprocmask how ss).
(** The only error of [sigaction] with valid pointers is [EINVAL]. *)
Definition sigaction (sig : Z) (act : option sigact) : M St (Z * sigact) :=
  do (rc, old) <- kcall (k_sigaction sig act);
  (if rc =? -1 then modify (set_errno (λ _, EINVAL)) else ret tt) ;;
  ret (rc, old).

Definition pth_util_sigdelete (sig : Z) : M St bool :=
  do pend <- gets (k_sigpending ∘ kern);
  if negb (bool_decide (sig ∈ pend)) then ret false else
  do oss <- sigprocmask SIG_BLOCK {[ sig ]};
  do (rc, osa) <- sigaction sig (Some (SIG_HANDLER fp_sigdelete));
  if negb (rc =? 0) then do _ <- sigprocmask SIG_SETMASK oss; ret false else
  modify (set_kern (k_sigsuspend (sig_all ∖ {[ sig ]}))) ;;
  do _ <- sigaction sig (Some osa);
  do _ <- sigprocmask SIG_SETMASK oss;
  ret true.

Definition pth_fdmode (fd newmode : Z) : M St Z :=
  do fdmode <- kcall_errno (k_getfl fd);
  let oldmode :=
    if fdmode =? -1 then PTH_FDMODE_ERROR
    else if has fdmode O_NONBLOCKING then PTH_FDMODE_NONBLOCK
    else PTH_FDMODE_BLOCK in
  (if (oldmode =? PTH_FDMODE_BLOCK) && (newmode =? PTH_FDMODE_NONBLOCK)
   then modify (set_kern (k_setfl fd (Z.lor fdmode O_NONBLOCKING))) else ret tt) ;;
  (if (oldmode =? PTH_FDMODE_NONBLOCK) && (newmode =? PTH_FDMODE_BLOCK)
   then modify (set_kern (k_setfl fd (Z.land fdmode (Z.lnot O_NONBLOCKING)))) else ret tt) ;;
  ret oldmode.

(** [pth_timeout(sec, usec)] *)
Definition pth_timeout (sec usec : Z) : M St timeval :=
  do tv <- gettimeofday;
  ret (pth_time_add tv (Tv sec usec)).

(** ** Switching *)

(** [pth_mctx_switch(&pth_current->mctx, &pth_sched->mctx)]: [errno] is saved in
    the thread's context and restored from the context of the thread that is
    current when control comes back. *)
Definition switch_to_sched : coro unit :=
  do! cur <- atom (gets pth_current);
  do! e <- atom (gets errno);
  atom (stt cur (set_mctx_error (λ _, e))) ;;!
  do! sched <- atom (gets pth_sched);
  atom (ldt sched (λ _, tt)) ;;!
  to_scheduler ;;!
  do! cur' <- atom (gets pth_current);
  do! e' <- atom (ldt cur' mctx_error);
  atom (modify (set_errno (λ _, e'))).

(** The queue that [switch (t->state)] selects in [pth_yield]. *)
Definition yield_queue (x : pth_state) : option qid :=
  match x with
  | PTH_STATE_NEW => Some NQ
  | PTH_STATE_READY => Some RQ
  | _ => None
  end.

(** The part of [pth_yield] before the switch: [false] when the request is refused. *)
Definition yield_favour (to : ptr) : M St bool :=
  if is_null to then ret true else
  do x <- ldt to state;
  match yield_queue x with
  | None => pth_error false EINVAL
  | Some q =>
      do here <- onq q (pth_pqueue_contains to);
      if negb here then pth_error false EINVAL else
      do _ <- onq q (pth_pqueue_favorite to);
      ret true
  end.

Definition pth_yield (to : ptr) : coro bool :=
  do! ok <- atom (yield_favour to);
  if negb ok then cret false else
  switch_to_sched ;;!
  cret true.

(** [pth_cancel_point] *)
Definition pth_cancel_point {Kn : Knot} : coro unit :=
  do! cur <- atom (gets pth_current);
  do! req <- atom (ldt cur cancelreq);
  do! cs <- atom (ldt cur cancelstate);
  if req && has cs PTH_CANCEL_ENABLE then
    atom (stt cur (set_cancelreq (λ _, false))) ;;!
    kexit PTH_CANCELED
  else cret tt.

End sys.
