(* ===== verification/Event.v ===== *)
(** * Events (pth_event.c)

Events are nodes of circular doubly linked rings, kept in the heap [evs].  The
variable arguments of [pth_event] are a list; reading an argument that is not
there, or with another type, is undefined. *)
From S2P Require Import State Data Sys.

Inductive va := VInt (z : Z) | VPtr (p : N) | VTime (t : timeval).

Section event.
Context {Kern : Kernel}.

Definition va_int (ap : list va) : M St (Z * list va) :=
  lift_opt (match ap with VInt z :: ap' => Some (z, ap') | _ => None end).
Definition va_ptr (ap : list va) : M St (N * list va) :=
  lift_opt (match ap with VPtr p :: ap' => Some (p, ap') | _ => None end).
Definition va_time (ap : list va) : M St (timeval * list va) :=
  lift_opt (match ap with VTime t :: ap' => Some (t, ap') | _ => None end).

(** A structure fresh from [malloc]; no member is read before it is set. *)
Definition raw_event : event := Event NULL NULL PTH_STATUS_PENDING 0 0 (FD 0).
Definition new_event : M St N :=
  do ev <- malloc 72;
  (if is_null ev then ret tt else modify (set_evs (<[ev := raw_event]>))) ;;
  ret ev.

(** ** The constructor *)

(** Which structure to use: the given one, the thread's own for this key, or a new one. *)
Definition event_storage (spec : Z) (ap : list va) : M St (N * list va) :=
  if has spec PTH_MODE_REUSE then va_ptr ap
  else if has spec PTH_MODE_STATIC then
    do (ev_key, ap) <- va_ptr ap;
    do k <- ld ints ev_key id;
    (if k =? PTH_KEY_INIT then do _ <- pth_key_create ev_key fp_event_destructor; ret tt else ret tt) ;;
    do k <- ld ints ev_key id;
    do ev <- pth_key_getdata k;
    if is_null ev then
      do ev <- new_event;
      do k <- ld ints ev_key id;
      do _ <- pth_key_setdata k ev;
      ret (ev, ap)
    else ret (ev, ap)
  else do ev <- new_event; ret (ev, ap).

(** Put the event in front of [ch] in its ring, or make it a ring of its own. *)
Definition event_link (spec : Z) (ev : ptr) (ap : list va) : M St (list va) :=
  if has spec PTH_MODE_CHAIN then
    do (ch, ap) <- va_ptr ap;
    do p <- lde ch ev_prev; ste ev (set_ev_prev (λ _, p)) ;;
    ste ev (set_ev_next (λ _, ch)) ;;
    do p <- lde ev ev_prev; ste p (set_ev_next (λ _, ev)) ;;
    do n <- lde ev ev_next; ste n (set_ev_prev (λ _, ev)) ;;
    ret ap
  else
    ste ev (set_ev_prev (λ _, ev)) ;;
    ste ev (set_ev_next (λ _, ev)) ;;
    ret ap.

(** [ev->ev_type = type; ev->ev_goal = goal; ev->ev_args.. = args] *)
Definition event_fill (ev : ptr) (type goal : Z) (args : ev_union) : M St N :=
  ste ev (set_ev_type (λ _, type)) ;;
  ste ev (set_ev_goal (λ _, goal)) ;;
  ste ev (set_ev_args (λ _, args)) ;;
  ret ev.

Definition tid_goal (spec : Z) : Z :=
  state_num (if has spec PTH_UNTIL_TID_NEW then PTH_STATE_NEW
             else if has spec PTH_UNTIL_TID_READY then PTH_STATE_READY
             else if has spec PTH_UNTIL_TID_WAITING then PTH_STATE_WAITING
             else if has spec PTH_UNTIL_TID_DEAD then PTH_STATE_DEAD
             else PTH_STATE_READY).

Definition event_args (spec : Z) (ev : ptr) (ap : list va) : M St N :=
  let occ := Z.land spec PTH_UNTIL_OCCURRED in
  if has spec PTH_EVENT_FD then
    do (fd, _) <- va_int ap;
    do valid <- pth_util_fd_valid fd;
    if negb valid then pth_error NULL EBADF else
    event_fill ev PTH_EVENT_FD
      (Z.land spec (Z.lor (Z.lor PTH_UNTIL_FD_READABLE PTH_UNTIL_FD_WRITEABLE) PTH_UNTIL_FD_EXCEPTION)) (FD fd)
  else if has spec PTH_EVENT_SELECT then
    do (n, ap) <- va_ptr ap;
    do (nfd, ap) <- va_int ap;
    do (rfds, ap) <- va_ptr ap;
    do (wfds, ap) <- va_ptr ap;
    do (efds, ap) <- va_ptr ap;
    event_fill ev PTH_EVENT_SELECT occ (SELECT n nfd rfds wfds efds)
  else if has spec PTH_EVENT_SIGS then
    do (sigs, ap) <- va_ptr ap;
    do (sig, ap) <- va_ptr ap;
    event_fill ev PTH_EVENT_SIGS occ (SIGS sigs sig)
  else if has spec PTH_EVENT_TIME then
    do (tv, _) <- va_time ap; event_fill ev PTH_EVENT_TIME occ (TIME tv)
  else if has spec PTH_EVENT_MSG then
    do (mp, _) <- va_ptr ap; event_fill ev PTH_EVENT_MSG occ (MSG mp)
  else if has spec PTH_EVENT_MUTEX then
    do (mutex, _) <- va_ptr ap; event_fill ev PTH_EVENT_MUTEX occ (MUTEX mutex)
  else if has spec PTH_EVENT_COND then
    do (cond, _) <- va_ptr ap; event_fill ev PTH_EVENT_COND occ (COND cond)
  else if has spec PTH_EVENT_TID then
    do (tid, _) <- va_ptr ap; event_fill ev PTH_EVENT_TID (tid_goal spec) (TID tid)
  else if has spec PTH_EVENT_FUNC then
    do (func, ap) <- va_ptr ap;
    do (arg, ap) <- va_ptr ap;
    do (tv, _) <- va_time ap;
    event_fill ev PTH_EVENT_FUNC occ (FUNC func arg tv)
  else pth_error NULL EINVAL.

Definition pth_event (spec : Z) (ap : list va) : M St N :=
  do (ev, ap) <- event_storage spec ap;
  if is_null ev then do e <- gets errno; pth_error NULL e else
  do ap <- event_link spec ev ap;
  ste ev (set_ev_status (λ _, PTH_STATUS_PENDING)) ;;
  event_args spec ev ap.

(** ** Operations on events and rings *)
Definition pth_event_typeof (ev : ptr) : M St Z :=
  if is_null ev then pth_error 0 EINVAL else
  do ty <- lde ev ev_type;
  do goal <- lde ev ev_goal;
  ret (Z.lor ty goal).

(** The values that [pth_event_extract] stores through its pointer arguments. *)
Definition pth_event_extract (ev : ptr) : M St (bool * list va) :=
  if is_null ev then pth_error (false, []) EINVAL else
  do ty <- lde ev ev_type;
  do args <- lde ev ev_args;
  if has ty PTH_EVENT_FD then
    match args with FD fd => ret (true, [VInt fd]) | _ => ub end
  else if has ty PTH_EVENT_SIGS then
    match args with SIGS sigs sig => ret (true, [VPtr sigs; VPtr sig]) | _ => ub end
  else if has ty PTH_EVENT_TIME then
    match args with TIME tv => ret (true, [VTime tv]) | _ => ub end
  else if has ty PTH_EVENT_MSG then
    match args with MSG mp => ret (true, [VPtr mp]) | _ => ub end
  else if has ty PTH_EVENT_MUTEX then
    match args with MUTEX mutex => ret (true, [VPtr mutex]) | _ => ub end
  else if has ty PTH_EVENT_COND then
    match args with COND cond => ret (true, [VPtr cond]) | _ => ub end
  else if has ty PTH_EVENT_TID then
    match args with TID tid => ret (true, [VPtr tid]) | _ => ub end
  else if has ty PTH_EVENT_FUNC then
    match args with FUNC func arg tv => ret (true, [VPtr func; VPtr arg; VTime tv]) | _ => ub end
  else pth_error (false, []) EINVAL.

(** [while ((evn = va_arg(ap, pth_event_t)) != NULL)]; the list ends with the
    terminating [NULL]. *)
Fixpoint concat_loop (evc : ptr) (rings : list N) : M St N :=
  match rings with
  | [] => ub
  | evn :: rings' =>
      if is_null evn then ret evc else
      ste evc (set_ev_next (λ _, evn)) ;;
      do evt <- lde evn ev_prev;
      ste evn (set_ev_prev (λ _, evc)) ;;
      concat_loop evt rings'
  end.

Definition pth_event_concat (evf : ptr) (rings : list N) : M St N :=
  if is_null evf then pth_error NULL EINVAL else
  do evl <- lde evf ev_next;
  do evc <- concat_loop evf rings;
  ste evc (set_ev_next (λ _, evl)) ;;
  ste evl (set_ev_prev (λ _, evc)) ;;
  ret evf.

Definition pth_event_isolate (ev : ptr) : M St N :=
  if is_null ev then pth_error NULL EINVAL else
  do n <- lde ev ev_next;
  do p <- lde ev ev_prev;
  if bool_decide (n = ev) && bool_decide (p = ev) then ret NULL else
  do ring <- lde ev ev_next;
  do p <- lde ev ev_prev; do n <- lde ev ev_next; ste p (set_ev_next (λ _, n)) ;;
  do n <- lde ev ev_next; do p <- lde ev ev_prev; ste n (set_ev_prev (λ _, p)) ;;
  ste ev (set_ev_prev (λ _, ev)) ;;
  ste ev (set_ev_next (λ _, ev)) ;;
  ret ring.

(** [FALSE] is [PTH_STATUS_PENDING]. *)
Definition pth_event_status (ev : ptr) : M St pth_status :=
  if is_null ev then pth_error PTH_STATUS_PENDING EINVAL else lde ev ev_status.

(** One turn around the ring finds an occurred event if there is one; without
    one the loop does not end, whatever the fuel. *)
Fixpoint walk_loop (fuel : nat) (ev : ptr) (direction : Z) : M St N :=
  match fuel with
  | O => ub
  | S fuel' =>
      if has direction PTH_WALK_NEXT || has direction PTH_WALK_PREV then
        do ev <- (if has direction PTH_WALK_NEXT then lde ev ev_next else lde ev ev_prev);
        do x <- (if has direction PTH_UNTIL_OCCURRED then lde ev ev_status else ret PTH_STATUS_OCCURRED);
        if has direction PTH_UNTIL_OCCURRED && negb (bool_decide (x = PTH_STATUS_OCCURRED))
        then walk_loop fuel' ev direction else ret ev
      else pth_error NULL EINVAL
  end.
Definition pth_event_walk (ev : ptr) (direction : Z) : M St N :=
  if is_null ev then pth_error NULL EINVAL else λ s, walk_loop (S (size (evs s))) ev direction s.

(** Every turn frees an event, so the heap's size is fuel enough. *)
Fixpoint free_loop (fuel : nat) (ev evc : ptr) : M St unit :=
  match fuel with
  | O => ub
  | S fuel' =>
      do evn <- lde evc ev_next;
      free evs set_evs evc ;;
      if bool_decide (evn = ev) then ret tt else free_loop fuel' ev evn
  end.

Definition pth_event_free (ev : ptr) (mode : Z) : M St bool :=
  if is_null ev then pth_error false EINVAL else
  (if mode =? PTH_FREE_THIS then
     do p <- lde ev ev_prev; do n <- lde ev ev_next; ste p (set_ev_next (λ _, n)) ;;
     do n <- lde ev ev_next; do p <- lde ev ev_prev; ste n (set_ev_prev (λ _, p)) ;;
     free evs set_evs ev
   else if mode =? PTH_FREE_ALL then
     λ s, free_loop (size (evs s)) ev ev s
   else ret tt) ;;
  ret true.

Definition pth_event_destructor (vp : ptr) : M St unit :=
  do _ <- pth_event_free vp PTH_FREE_THIS; ret tt.

(** ** Waiting *)

(** [do { f(ev); ev = ev->ev_next; } while (ev != ev_ring);]; a ring has no more
    events than the heap. *)
Fixpoint ring_loop {A} (fuel : nat) (ev_ring ev : ptr) (f : ptr → A → M St A) (acc : A) : M St A :=
  match fuel with
  | O => ub
  | S fuel' =>
      do acc <- f ev acc;
      do n <- lde ev ev_next;
      if bool_decide (n = ev_ring) then ret acc else ring_loop fuel' ev_ring n f acc
  end.
Definition over_ring {A} (ev_ring : ptr) (f : ptr → A → M St A) (acc : A) : M St A :=
  λ s, ring_loop (size (evs s)) ev_ring ev_ring f acc s.

Definition mark_pending (ev : ptr) (_ : unit) : M St unit :=
  ste ev (set_ev_status (λ _, PTH_STATUS_PENDING)).
Definition count_nonpending (ev : ptr) (n : Z) : M St Z :=
  do x <- lde ev ev_status;
  if bool_decide (x = PTH_STATUS_PENDING) then ret n else int_chk (n + 1).

Definition pth_wait {Kn : Knot} (ev_ring : ptr) : coro Z :=
  if is_null ev_ring then atom (pth_error (-1) EINVAL) else
  atom (over_ring ev_ring mark_pending tt) ;;!
  do! cur <- atom (gets pth_current);
  atom (stt cur (set_events (λ _, ev_ring))) ;;!
  atom (stt cur (set_state (λ _, PTH_STATE_WAITING))) ;;!
  pth_yield NULL ;;!
  pth_cancel_point ;;!
  do! cur <- atom (gets pth_current);
  atom (stt cur (set_events (λ _, NULL))) ;;!
  atom (over_ring ev_ring count_nonpending 0).

End event.

(** ** Rings of events *)
Section event_proofs.
Context {Kern : Kernel}.
Implicit Types (s : St) (h : gmap N event).

Lemma wp_ev_next s p v (Q : N → St → Prop) :
  nxf (evs s) p = Some v → Q v s → wp (lde p ev_next) Q s.
Proof. intros (n & Hn & <-)%nxf_Some HQ. by rewrite (wp_lde _ _ _ _ n). Qed.

Lemma wp_ev_prev s p v (Q : N → St → Prop) :
  pvf (evs s) p = Some v → Q v s → wp (lde p ev_prev) Q s.
Proof. intros (n & Hn & <-)%pvf_Some HQ. by rewrite (wp_lde _ _ _ _ n). Qed.

Lemma wp_set_next s p v (Q : unit → St → Prop) :
  is_Some (nxf (evs s) p) → Q tt (set_evs (alter (set_nx v) p) s) → wp (ste p (set_ev_next (λ _, v))) Q s.
Proof. intros [w (n & Hn & _)%nxf_Some] HQ. by rewrite (wp_ste _ _ _ _ n). Qed.

Lemma wp_set_prev s p v (Q : unit → St → Prop) :
  is_Some (nxf (evs s) p) → Q tt (set_evs (alter (set_pv v) p) s) → wp (ste p (set_ev_prev (λ _, v))) Q s.
Proof. intros [w (n & Hn & _)%nxf_Some] HQ. by rewrite (wp_ste _ _ _ _ n). Qed.

(** Ring operations write links of the events in [D] only. *)
Definition ev_data (e : event) := (ev_status e, ev_type e, ev_goal e, ev_args e).
Definition ev_frame (D : list N) (h h' : gmap N event) : Prop :=
  (∀ z, z ∉ D → h' !! z = h !! z) ∧ (∀ z, ev_data <$> h' !! z = ev_data <$> h !! z).

Lemma ev_frame_refl D h : ev_frame D h h.
Proof. done. Qed.

Lemma ev_frame_alter D h h' f p :
  ev_frame D h h' → p ∈ D → (∀ e, ev_data (f e) = ev_data e) → ev_frame D h (alter f p h').
Proof.
  intros [H1 H2] Hp Hf. split; intros z.
  - intros Hz. rewrite lookup_alter_ne; [by apply H1|]. by intros ->.
  - rewrite <- H2, lookup_alter. case_decide; [|done]. subst. destruct (h' !! z); simpl; [by rewrite Hf|done].
Qed.

Lemma ev_frame_trans D h1 h2 h3 : ev_frame D h1 h2 → ev_frame D h2 h3 → ev_frame D h1 h3.
Proof. intros [A1 B1] [A2 B2]. split; intros z; [intros Hz; by rewrite A2, A1|by rewrite B2, B1]. Qed.

Lemma isolate_spec s ev l :
  cyc (evs s) (ev :: l) →
  wp (pth_event_isolate ev)
    (λ r s', r = head_or NULL l ∧ cyc (evs s') [ev] ∧ cyc (evs s') l ∧
             ev_frame (ev :: l) (evs s) (evs s') ∧ s' = set_evs (λ _, evs s') s) s.
Proof.
  intros Hc. assert (ev ≠ NULL) by (eapply cyc_nonnull; [done|left]).
  unfold pth_event_isolate. rewrite is_null_false by done.
  destruct (cyc_neighbours (evs s) [] ev l Hc) as [[_ ->]|(y & p & Hy & Hp & Hny & Hpp & Hnp & Hnn & Hpn & Hyr & Hpr & Hyl & Hpl)].
  - pose proof (cyc_head_next _ _ _ Hc) as Hn. pose proof (cyc_head_prev _ _ _ Hc) as Hp.
    rewrite head_or_nil in Hn. rewrite last_or_nil in Hp. rewrite wp_bind. eapply wp_ev_next; [done|].
    rewrite wp_bind. eapply wp_ev_prev; [done|]. rewrite !bool_decide_eq_true_2 by done. simpl. wps.
    split_and!; [done..|]. by destruct s.
  - rewrite app_nil_r in Hy, Hp. simpl in Hyl, Hpl.
    destruct Hnp as [np Hnp], Hnn as [yn Hnn], Hpn as [yp Hpn].
    rewrite wp_bind. eapply wp_ev_next; [done|]. rewrite wp_bind. eapply wp_ev_prev; [done|].
    rewrite bool_decide_eq_false_2 by done. cbn [andb].
    do 3 (rewrite wp_bind; first [eapply wp_ev_next; [done|]|eapply wp_ev_prev; [done|]]).
    rewrite wp_bind. eapply wp_set_next; [links|].
    rewrite wp_bind. eapply wp_ev_next; [links|]. rewrite wp_bind. eapply wp_ev_prev; [links|].
    rewrite wp_bind. eapply wp_set_prev; [links|]. rewrite wp_bind. eapply wp_set_prev; [links|].
    rewrite wp_bind. eapply wp_set_next; [links|]. wps.
    split_and!; [unfold head_or; by rewrite Hy| | | |done].
    + apply cyc_singleton; links.
    + apply (cyc_unlink_mid (evs s) _ ev [] l y p); [done|by rewrite app_nil_r|by rewrite app_nil_r|..];
        intros z Hz; links.
    + repeat (apply ev_frame_alter; [|set_solver|done]). apply ev_frame_refl.
Qed.

Lemma concat_spec s f l g l' :
  cyc (evs s) (f :: l) → cyc (evs s) (g :: l') → (∀ z, z ∈ f :: l → z ∉ g :: l') →
  wp (pth_event_concat f [g; NULL])
    (λ r s', r = f ∧ cyc (evs s') (f :: (g :: l') ++ l) ∧
             ev_frame (f :: (g :: l') ++ l) (evs s) (evs s') ∧ s' = set_evs (λ _, evs s') s) s.
Proof.
  intros Hf Hg Hdisj. pose proof (cyc_head_next _ _ _ Hf) as Hfn. pose proof (cyc_head_prev _ _ _ Hg) as Hgp.
  assert (is_Some (nxf (evs s) f)) as Hf1 by eauto.
  assert (∀ z, z ∈ g :: l' → is_Some (nxf (evs s) z)) as Hg1.
  { intros z Hz. destruct (cyc_load _ _ _ Hg Hz) as [n Hn]. erewrite nxf_load by done. eauto. }
  assert (head_or f l ∈ f :: l) as Hhin by (destruct l; [rewrite head_or_nil|rewrite head_or_cons]; set_solver).
  destruct (cyc_load _ _ _ Hf Hhin) as [hd Hhd]. pose proof (nxf_load _ _ _ Hhd) as Hhn.
  pose proof (pvf_load _ _ _ Hhd) as Hhp.
  assert (last_or g l' ∈ g :: l') as Hlin by apply last_or_elem.
  assert (f ≠ NULL) by (eapply cyc_nonnull; [exact Hf|left]).
  assert (g ≠ NULL) by (eapply cyc_nonnull; [exact Hg|left]).
  assert (f ≠ last_or g l') as Hfl by (intros Heq; apply (Hdisj f); [left|by rewrite Heq]).
  assert (g ≠ head_or f l) as Hgh by (intros Heq; apply (Hdisj g); [by rewrite Heq|left]).
  assert (f ≠ g) as Hfg by (intros ->; apply (Hdisj g); left).
  assert (last_or g l' ≠ head_or f l) as Hlh by (intros Heq; apply (Hdisj (head_or f l)); [done|by rewrite <- Heq]).
  destruct (Hg1 g ltac:(left)) as [gn Hgn]. destruct (Hg1 _ Hlin) as [ln Hln].
  unfold pth_event_concat. rewrite is_null_false by done. rewrite wp_bind. eapply wp_ev_next; [done|].
  rewrite wp_bind. cbn [concat_loop]. rewrite is_null_false by done.
  rewrite wp_bind. eapply wp_set_next; [links|]. rewrite wp_bind. eapply wp_ev_prev; [links|].
  rewrite wp_bind. eapply wp_set_prev; [links|]. cbn [is_null]. wps.
  eapply wp_set_next; [links|]. rewrite wp_bind. eapply wp_set_prev; [links|]. wps.
  split_and!; [done| | |done].
  - eapply (cyc_splice (evs s)); [done..| |]; intros z; links.
  - repeat (apply ev_frame_alter; [|set_solver|done]). apply ev_frame_refl.
Qed.

(** A ring determines the links of its members. *)
Lemma cyc_links_eq h h' (l : list N) z :
  cyc h l → cyc h' l → z ∈ l → nxf h' z = nxf h z ∧ pvf h' z = pvf h z.
Proof.
  intros Hc Hc' (l1 & l2 & ->)%list_elem_of_split.
  destruct (cyc_mid _ _ _ _ Hc) as [-> ->], (cyc_mid _ _ _ _ Hc') as [-> ->]. done.
Qed.

Lemma event_ext h h' z :
  z ≠ NULL → ev_data <$> h' !! z = ev_data <$> h !! z → nxf h' z = nxf h z → pvf h' z = pvf h z → h' !! z = h !! z.
Proof.
  intros Hz Hd Hn Hp. change (ev_next <$> load h' z = ev_next <$> load h z) in Hn.
  change (ev_prev <$> load h' z = ev_prev <$> load h z) in Hp.
  unfold load in Hn, Hp. rewrite !decide_False in Hn by done. rewrite !decide_False in Hp by done. unfold ev_data in Hd.
  destruct (h' !! z) as [[]|], (h !! z) as [[]|]; simpl in Hd, Hn, Hp; by simplify_eq.
Qed.


(** *** Waiting *)

(** The loop over a ring visits its events in order. *)
Lemma over_ring_spec {A} (f : N → A → M St A) (P : list N → A → St → Prop) ev l acc s :
  cyc (evs s) (ev :: l) →
  (∀ done x todo a s, ev :: l = done ++ x :: todo → P done a s → cyc (evs s) (ev :: l) →
     wp (f x a) (λ a' s', P (done ++ [x]) a' s' ∧ cyc (evs s') (ev :: l)) s) →
  P [] acc s → wp (over_ring ev f acc) (λ a s', P (ev :: l) a s' ∧ cyc (evs s') (ev :: l)) s.
Proof.
  intros Hc Hf HP. unfold over_ring. pose proof (cyc_size _ _ Hc) as Hfuel.
  enough (∀ fuel done x todo a s, ev :: l = done ++ x :: todo → (length todo < fuel)%nat → P done a s →
            cyc (evs s) (ev :: l) →
            wp (ring_loop fuel ev x f a) (λ a s', P (ev :: l) a s' ∧ cyc (evs s') (ev :: l)) s) as Hloop.
  { apply (Hloop (size (evs s)) [] ev l acc s); try done. }
  clear Hc HP Hfuel acc s. induction fuel as [|fuel IH]; intros done x todo a s Hl Hlen HP Hc; [lia|].
  cbn [ring_loop]. rewrite wp_bind. eapply wp_mono; [by eapply Hf|]. intros a' s' [HP' Hc']. rewrite wp_bind.
  pose proof Hc' as Hc2. rewrite Hl in Hc2. destruct (cyc_mid _ _ _ _ Hc2) as [Hn _].
  eapply wp_ev_next; [exact Hn|]. pose proof (cyc_NoDup _ _ Hc2) as Hnd. destruct todo as [|y todo].
  - assert (head_or x ([] ++ done) = ev) as -> by (destruct done; simpl in *; simplify_eq; done).
    rewrite bool_decide_eq_true_2 by done. wps. split; [|done]. by rewrite Hl.
  - change (head_or x ((y :: todo) ++ done)) with y. rewrite bool_decide_eq_false_2.
    + apply (IH (done ++ [x]) y todo); [by rewrite <- app_assoc|simpl in Hlen; lia|done..].
    + pose proof (NoDup_head_ne ev x y done todo Hnd) as Hne. rewrite <- Hl, head_or_cons in Hne. done.
Qed.

Definition mark_all (l : list N) (h : gmap N event) : gmap N event :=
  foldl (λ h x, alter (set_ev_status (λ _, PTH_STATUS_PENDING)) x h) h l.

Lemma mark_all_cyc h l l' : cyc h l → cyc (mark_all l' h) l.
Proof.
  intros Hc. unfold mark_all. revert h Hc. induction l' as [|x l' IH]; intros h Hc; simpl; [done|].
  apply IH. eapply cyc_ext; [done|..]; intros z _; [apply nxf_alter_other|apply pvf_alter_other]; by intros [].
Qed.

Lemma set_evs_id s : set_evs (λ _, evs s) s = s.
Proof. by destruct s. Qed.

Lemma set_evs_ext f g s : f (evs s) = g (evs s) → set_evs f s = set_evs g s.
Proof. intros Hfg. unfold set_evs. by rewrite Hfg. Qed.

Lemma set_evs_comp f g s : set_evs f (set_evs g s) = set_evs (f ∘ g) s.
Proof. done. Qed.

Lemma mark_pending_run s ev l :
  cyc (evs s) (ev :: l) → over_ring ev mark_pending tt s = Some (tt, set_evs (mark_all (ev :: l)) s).
Proof.
  intros Hc.
  set (P := λ (done : list N) (_ : unit) s', s' = set_evs (mark_all done) s).
  enough (wp (over_ring ev mark_pending tt) (λ a s', P (ev :: l) a s' ∧ cyc (evs s') (ev :: l)) s) as Hw.
  { by apply wp_run in Hw as ([] & s' & Hrun & -> & _). }
  apply over_ring_spec; [done| |symmetry; apply set_evs_id]. intros done x todo a s1 Hl -> Hc1.
  destruct (cyc_load _ _ x Hc1) as [e He]; [rewrite Hl; set_solver|].
  unfold mark_pending. rewrite (wp_ste _ _ _ _ e He). split.
  - unfold P. rewrite set_evs_comp. apply set_evs_ext. unfold mark_all. by rewrite foldl_snoc.
  - eapply cyc_ext; [done|..]; intros z _; [apply nxf_alter_other|apply pvf_alter_other]; by intros [].
Qed.

(** How many events of a list are no longer pending. *)
Definition occurred_in (h : gmap N event) (l : list N) : list N :=
  filter (λ x, ev_status <$> h !! x ≠ Some PTH_STATUS_PENDING) l.

Lemma count_nonpending_run s ev l :
  cyc (evs s) (ev :: l) → Z.of_nat (length l) < INT_MAX →
  over_ring ev count_nonpending 0 s = Some (Z.of_nat (length (occurred_in (evs s) (ev :: l))), s).
Proof.
  intros Hc Hb.
  set (P := λ (done : list N) (n : Z) s', s' = s ∧ n = Z.of_nat (length (occurred_in (evs s) done))).
  enough (wp (over_ring ev count_nonpending 0) (λ a s', P (ev :: l) a s' ∧ cyc (evs s') (ev :: l)) s) as Hw.
  { by apply wp_run in Hw as (n & s' & Hrun & [-> ->] & _). }
  apply over_ring_spec; [done| |done]. intros done x todo a s1 Hl [-> ->] Hc1.
  destruct (cyc_load _ _ x Hc1) as [e He]; [rewrite Hl; set_solver|]. pose proof He as [_ He']%load_Some.
  unfold count_nonpending. rewrite wp_bind, (wp_lde _ _ _ _ e He). unfold P, occurred_in.
  rewrite filter_app, length_app, filter_cons, He'. simpl.
  pose proof (length_filter (λ x, ev_status <$> evs s !! x ≠ Some PTH_STATUS_PENDING) done) as Hlen.
  apply (f_equal length) in Hl. rewrite length_app in Hl. simpl in Hl.
  case_bool_decide as Hst; case_decide as Hst'; simpl;
    try (exfalso; first [congruence|apply Hst'; congruence]).
  - wps. split_and!; [done|lia|done].
  - apply wp_int_chk; [unfold INT_MIN, INT_MAX in *; lia|]. split_and!; [done|lia|done].
Qed.

(** [pth_yield(NULL)] and the switch underneath it. *)
Lemma switch_run s n n' :
  load (threads s) (pth_current s) = Some n → load (threads s) (pth_sched s) = Some n' →
  ∃ k, switch_to_sched s =
         OSwitch (set_threads (alter (on_body (set_mctx_error (λ _, errno s))) (pth_current s)) s) k ∧
       ∀ s2 n2, load (threads s2) (pth_current s2) = Some n2 →
         k s2 = ORet tt (set_errno (λ _, mctx_error (q_body n2)) s2).
Proof.
  intros Hn Hn'. unfold switch_to_sched. erewrite cbind_atom by done. erewrite cbind_atom by done.
  erewrite cbind_atom by (by eapply stt_run). erewrite cbind_atom by done.
  set (s1 := set_threads _ s).
  assert (∃ m, load (threads s1) (pth_sched s1) = Some m) as [m Hm].
  { simpl. rewrite load_alter. case_decide; rewrite Hn'; by eexists. }
  erewrite cbind_atom by (by eapply ldt_run). erewrite cbind_switch by done. eexists. split; [done|].
  intros s2 n2 Hn2. erewrite cbind_ret by done. erewrite cbind_atom by done.
  erewrite cbind_atom by (by eapply ldt_run). done.
Qed.

Lemma cancel_point_idle {Kn : Knot} s n :
  load (threads s) (pth_current s) = Some n →
  cancelreq (q_body n) && has (cancelstate (q_body n)) PTH_CANCEL_ENABLE = false →
  pth_cancel_point s = ORet tt s.
Proof.
  intros Hn Hc. unfold pth_cancel_point. erewrite cbind_atom by done.
  erewrite cbind_atom by (by eapply ldt_run). erewrite cbind_atom by (by eapply ldt_run). by rewrite Hc.
Qed.

(** ** Events of a thread's own

The thread's event for a [static] key exists already. *)
Definition has_event (s : St) (ev_key ev : N) : Prop :=
  ∃ k e, load (ints s) ev_key = Some k ∧ k ≠ PTH_KEY_INIT ∧ pth_key_getdata k s = Some (ev, s) ∧
         load (evs s) ev = Some e.

(** A ring of its own, pending, and the three members that describe the event. *)
Definition fresh_event (ev : N) (type goal : Z) (args : ev_union) (_ : event) : event :=
  Event ev ev PTH_STATUS_PENDING type goal args.

Lemma ste_run ev g s e : load (evs s) ev = Some e → ste ev g s = Some (tt, set_evs (alter g ev) s).
Proof. intros He. unfold ste, st. by rewrite He. Qed.

Lemma static_event_run s spec key ap ev :
  has_event s key ev → has spec PTH_MODE_REUSE = false → has spec PTH_MODE_STATIC = true →
  has spec PTH_MODE_CHAIN = false →
  ∃ e, load (evs s) ev = Some e ∧
  pth_event spec (VPtr key :: ap) s =
    event_args spec ev ap (set_evs (alter (fresh_event ev (ev_type e) (ev_goal e) (ev_args e)) ev) s).
Proof.
  intros (k & e & Hk & Hki & Hget & He) H1 H2 H3. pose proof He as [Hnz Hl]%load_Some. exists e. split; [done|].
  assert (event_storage spec (VPtr key :: ap) s = Some ((ev, ap), s)) as Hst.
  { unfold event_storage. rewrite H1, H2. erewrite bind_run by done. cbv beta iota.
    erewrite bind_run by (unfold ld; rewrite Hk; simpl; reflexivity). rewrite (proj2 (Z.eqb_neq _ _) Hki).
    erewrite bind_run by done. erewrite bind_run by (unfold ld; rewrite Hk; simpl; reflexivity).
    erewrite bind_run by exact Hget. by rewrite is_null_false. }
  unfold pth_event. erewrite bind_run by exact Hst. cbv beta iota. rewrite is_null_false by done.
  erewrite bind_run.
  2: { unfold event_link. rewrite H3. erewrite bind_run by (by eapply ste_run).
       erewrite bind_run by (eapply ste_run; by apply load_alter_eq). reflexivity. }
  erewrite bind_run by (eapply ste_run; by apply load_alter_eq, load_alter_eq).
  f_equal. rewrite !set_evs_comp. apply set_evs_ext. unfold compose. rewrite !alter_alter_eq.
  apply map_eq. intros x. rewrite !lookup_alter. case_decide; [subst|done]. rewrite Hl. simpl. by destruct e.
Qed.

Lemma event_fill_run s ev ty g ar type goal args e :
  load (evs s) ev = Some e →
  event_fill ev type goal args (set_evs (alter (fresh_event ev ty g ar) ev) s) =
    Some (ev, set_evs (alter (fresh_event ev type goal args) ev) s).
Proof.
  intros He. unfold event_fill. erewrite bind_run by (eapply ste_run; by apply load_alter_eq).
  erewrite bind_run by (eapply ste_run; by apply load_alter_eq, load_alter_eq).
  erewrite bind_run by (eapply ste_run; by apply load_alter_eq, load_alter_eq, load_alter_eq).
  unfold ret. rewrite !set_evs_comp. do 2 f_equal. apply set_evs_ext. unfold compose. rewrite !alter_alter_eq.
  apply alter_ext. by intros [].
Qed.

Lemma fresh_event_cyc s ev ty g ar e :
  load (evs s) ev = Some e → cyc (alter (fresh_event ev ty g ar) ev (evs s)) [ev].
Proof. intros He. apply cyc_singleton; unfold nxf, pvf; simpl; by rewrite (load_alter_eq _ _ _ _ He). Qed.

(** The thread's control block while it waits for [ring]. *)
Definition waiting_on (ring : N) (e : Z) (b : tcb) : tcb :=
  set_mctx_error (λ _, e) (set_state (λ _, PTH_STATE_WAITING) (set_events (λ _, ring) b)).

Lemma pth_wait_run {Kn : Knot} s ev l n n' :
  cyc (evs s) (ev :: l) → load (threads s) (pth_current s) = Some n → load (threads s) (pth_sched s) = Some n' →
  Z.of_nat (length l) < INT_MAX →
  ∃ k, pth_wait ev s =
         OSwitch (set_threads (alter (on_body (waiting_on ev (errno s))) (pth_current s))
                    (set_evs (mark_all (ev :: l)) s)) k ∧
    ∀ s2 n2, load (threads s2) (pth_current s2) = Some n2 → cyc (evs s2) (ev :: l) →
      cancelreq (q_body n2) && has (cancelstate (q_body n2)) PTH_CANCEL_ENABLE = false →
      k s2 = ORet (Z.of_nat (length (occurred_in (evs s2) (ev :: l))))
               (set_threads (alter (on_body (set_events (λ _, NULL))) (pth_current s2))
                  (set_errno (λ _, mctx_error (q_body n2)) s2)).
Proof.
  intros Hc Hn Hn' Hb. assert (ev ≠ NULL) by (eapply cyc_nonnull; [exact Hc|left]).
  unfold pth_wait. rewrite is_null_false by done. erewrite cbind_atom by (by apply mark_pending_run).
  set (s1 := set_evs (mark_all (ev :: l)) s). erewrite cbind_atom by done.
  change (pth_current s1) with (pth_current s).
  erewrite cbind_atom by (eapply stt_run; exact Hn).
  erewrite cbind_atom by (eapply stt_run; simpl; by apply load_alter_eq).
  set (s2 := set_threads _ (set_threads _ s1)).
  assert (load (threads s2) (pth_current s2) =
            Some (on_body (set_state (λ _, PTH_STATE_WAITING)) (on_body (set_events (λ _, ev)) n))) as Hn2.
  { simpl. by do 2 apply load_alter_eq. }
  assert (∃ m, load (threads s2) (pth_sched s2) = Some m) as [m Hm].
  { simpl. rewrite !load_alter. repeat case_decide; rewrite Hn'; by eexists. }
  destruct (switch_run s2 _ _ Hn2 Hm) as (k & Hk & Hback).
  erewrite cbind_switch.
  2: { unfold pth_yield. erewrite cbind_atom by done. cbn [negb]. erewrite cbind_switch by exact Hk. reflexivity. }
  eexists. split.
  - f_equal. unfold s2. rewrite !set_threads_comp. apply set_threads_ext. unfold compose. rewrite !alter_on_body_comp. done.
  - intros s3 n3 Hn3 Hc3 Hcan. erewrite cbind_ret; [|erewrite cbind_ret by (by eapply Hback); reflexivity].
    erewrite cbind_ret by (by apply (cancel_point_idle _ n3)). erewrite cbind_atom by done.
    erewrite cbind_atom by (eapply stt_run; exact Hn3).
    erewrite atom_run; [|apply (count_nonpending_run _ ev l); [exact Hc3|done]]. done.
Qed.

(** C26: [pth_wait] on a ring of events gives up the processor exactly once, in the
    state in which every event of the ring is pending, the calling thread is
    marked waiting and linked to the ring, and nothing else has changed.  When the
    thread is resumed, whatever has happened to the statuses, it returns the number
    of events of the ring that are no longer pending, unlinks the ring and restores
    [errno], unless a cancellation request is pending. *)
Theorem wait_counts {Kn : Knot} s ev l n n' :
  cyc (evs s) (ev :: l) → load (threads s) (pth_current s) = Some n → load (threads s) (pth_sched s) = Some n' →
  Z.of_nat (length l) < INT_MAX →
  ∃ k, pth_wait ev s =
         OSwitch (set_threads (alter (on_body (waiting_on ev (errno s))) (pth_current s))
                    (set_evs (mark_all (ev :: l)) s)) k ∧
    ∀ s2 n2, load (threads s2) (pth_current s2) = Some n2 → cyc (evs s2) (ev :: l) →
      cancelreq (q_body n2) && has (cancelstate (q_body n2)) PTH_CANCEL_ENABLE = false →
      k s2 = ORet (Z.of_nat (length (occurred_in (evs s2) (ev :: l))))
               (set_threads (alter (on_body (set_events (λ _, NULL))) (pth_current s2))
                  (set_errno (λ _, mctx_error (q_body n2)) s2)).
Proof. apply pth_wait_run. Qed.

End event_proofs.

(** A single event 10 and a ring of two others. *)
Definition toy_events : @St toy_kernel :=
  set_evs (λ _, list_to_map
    [(10%N, Event 10 10 PTH_STATUS_PENDING PTH_EVENT_MUTEX 0 (MUTEX 60));
     (11%N, Event 12 12 PTH_STATUS_PENDING PTH_EVENT_TIME 0 (TIME (Tv 5 0)));
     (12%N, Event 11 11 PTH_STATUS_OCCURRED PTH_EVENT_FD 0 (FD 3))]) toy_state.


Lemma wait_counts_witness :
  ∃ k, @pth_wait toy_kernel toy_knot 11 toy_events =
         OSwitch (set_threads (alter (on_body (waiting_on 11 0)) 100%N) (set_evs (mark_all [11%N; 12%N]) toy_events)) k ∧
    ∀ s2 n2, load (threads s2) (pth_current s2) = Some n2 → cyc (evs s2) [11%N; 12%N] →
      cancelreq (q_body n2) && has (cancelstate (q_body n2)) PTH_CANCEL_ENABLE = false →
      k s2 = ORet (Z.of_nat (length (occurred_in (evs s2) [11%N; 12%N])))
               (set_threads (alter (on_body (set_events (λ _, NULL))) (pth_current s2))
                  (set_errno (λ _, mctx_error (q_body n2)) s2)).
Proof.
  eapply (@wait_counts toy_kernel toy_knot toy_events 11 [12%N]).
  - split; [by apply (bool_decide_eq_true_1 (NoDup [11%N; 12%N]))|]. done.
  - reflexivity.
  - reflexivity.
  - unfold INT_MAX. simpl. lia.
Defined.
