(* ===== verification/Tcb.v ===== *)
(** * Thread control blocks (pth_tcb.c), machine contexts (pth_mctx.c) and thread
      attributes (pth_attr.c)

An attribute object is either unbound, with values of its own, or bound to a
thread ([a_tid]), in which case reading and writing an attribute goes to the
thread.  The value that a get operation stores through the caller's pointer is
returned. *)
From S2P Require Import State Data.

Section tcb.
Context {Kern : Kernel}.

Definition SIGSTKSZ : Z := 8192.
(** [sizeof(struct pth_st)] and [sizeof(struct pth_attr_st)] on x86-64 *)
Definition sizeof_tcb : Z := 592.
Definition sizeof_attr : Z := 80.
(** A structure fresh from [malloc]; no member is read before it is set. *)
Definition raw_tcb : tcb :=
  Tcb 0 (replicate PTH_TCB_NAMELEN 0) 0 PTH_STATE_NEW pth_time_zero pth_time_zero pth_time_zero NULL ∅ 0 ∅ 0
      NULL 0 NULL false NULL NULL 0 NULL None 0 false 0 NULL Ring.PTH_RING_INIT.

(** [*t->stackguard = 0xDEAD], at the lowest address of the stack *)
Definition set_guard (t stk : ptr) : M St unit :=
  stt t (set_stackguard (λ _, stk)) ;;
  if is_null stk then ub else modify (set_longs (<[stk := 0xDEAD]>)).

Definition pth_tcb_alloc (stacksize0 : Z) (stackaddr : ptr) : M St N :=
  let stacksize := if (0 <? stacksize0) && (stacksize0 <? SIGSTKSZ) then SIGSTKSZ else stacksize0 in
  do t <- malloc sizeof_tcb;
  if is_null t then ret NULL else
  modify (set_threads (<[t := Qnode NULL NULL 0 raw_tcb]>)) ;;
  stt t (set_stacksize (λ _, stacksize)) ;;
  stt t (set_stack (λ _, NULL)) ;;
  stt t (set_stackguard (λ _, NULL)) ;;
  stt t (set_stackloan (λ _, negb (is_null stackaddr))) ;;
  if 0 <? stacksize then
    if negb (is_null stackaddr) then
      stt t (set_stack (λ _, stackaddr)) ;; set_guard t stackaddr ;; ret t
    else
      do stk <- malloc stacksize;
      stt t (set_stack (λ _, stk)) ;;
      if is_null stk then pth_shield (free threads set_threads t) ;; ret NULL
      else set_guard t stk ;; ret t
  else ret t.

Definition pth_tcb_free (t : ptr) : M St unit :=
  if is_null t then ret tt else
  do stk <- ldt t stack;
  do loan <- ldt t stackloan;
  (if negb (is_null stk) && negb loan then free longs set_longs stk else ret tt) ;;
  (** [free(t->data_value)]: the array has no identity of its own *)
  do cl <- ldt t cleanups;
  (if negb (is_null cl) then pth_cleanup_dropall t else ret tt) ;;
  free threads set_threads t.

(** [pth_mctx_set]: a fresh context that starts [func] on the stack [lo, hi). *)
Definition pth_mctx_set (t func lo hi : ptr) : M St bool :=
  if is_null func || is_null lo || is_null hi then ret false
  else if (hi <=? lo)%N then ret false
  else stt t (set_mctx_sigs (λ _, ∅)) ;; stt t (set_mctx_error (λ _, 0)) ;; ret true.

End tcb.

(** ** Attributes *)
Inductive attr_op :=
  | PTH_ATTR_PRIO | PTH_ATTR_NAME | PTH_ATTR_JOINABLE | PTH_ATTR_CANCEL_STATE | PTH_ATTR_STACK_SIZE
  | PTH_ATTR_STACK_ADDR | PTH_ATTR_DISPATCHES | PTH_ATTR_TIME_SPAWN | PTH_ATTR_TIME_LAST | PTH_ATTR_TIME_RAN
  | PTH_ATTR_START_FUNC | PTH_ATTR_START_ARG | PTH_ATTR_STATE | PTH_ATTR_EVENTS | PTH_ATTR_BOUND.

(** The [switch (op)] of [pth_attr_ctrl]; [None] is its default case. *)
Definition attr_op_of (op : Z) : option attr_op :=
  if op <? 0 then None else
  [PTH_ATTR_PRIO; PTH_ATTR_NAME; PTH_ATTR_JOINABLE; PTH_ATTR_CANCEL_STATE; PTH_ATTR_STACK_SIZE;
   PTH_ATTR_STACK_ADDR; PTH_ATTR_DISPATCHES; PTH_ATTR_TIME_SPAWN; PTH_ATTR_TIME_LAST; PTH_ATTR_TIME_RAN;
   PTH_ATTR_START_FUNC; PTH_ATTR_START_ARG; PTH_ATTR_STATE; PTH_ATTR_EVENTS; PTH_ATTR_BOUND] !! Z.to_nat op.

(** Values of attributes; a name is read as a pointer to the [name] member of a
    thread or of an attribute object, and written from a string. *)
Inductive attr_val :=
  | AInt (z : Z) | AUint (z : Z) | AStr (src : list Z) | ANameOfThread (t : N) | ANameOfAttr (a : N)
  | AChars (p : N) | ATime (tv : timeval) | AFunc (f : N) | AArg (p : N) | AState (x : pth_state) | AEvents (ev : N).

Section attr.
Context {Kern : Kernel}.

Definition lda {A} (a : ptr) (f : pth_attr → A) : M St A := ld attrs a f.
Definition sta (a : ptr) (g : pth_attr → pth_attr) : M St unit := st attrs set_attrs a g.

Definition set_a_prio (z : Z) (x : pth_attr) : pth_attr :=
  Attr (a_tid x) z (a_dispatches x) (a_name x) (a_joinable x) (a_cancelstate x) (a_stacksize x) (a_stackaddr x).
Definition set_a_dispatches (z : Z) (x : pth_attr) : pth_attr :=
  Attr (a_tid x) (a_prio x) z (a_name x) (a_joinable x) (a_cancelstate x) (a_stacksize x) (a_stackaddr x).
Definition set_a_name (z : list Z) (x : pth_attr) : pth_attr :=
  Attr (a_tid x) (a_prio x) (a_dispatches x) z (a_joinable x) (a_cancelstate x) (a_stacksize x) (a_stackaddr x).
Definition set_a_joinable (z : Z) (x : pth_attr) : pth_attr :=
  Attr (a_tid x) (a_prio x) (a_dispatches x) (a_name x) z (a_cancelstate x) (a_stacksize x) (a_stackaddr x).
Definition set_a_cancelstate (z : Z) (x : pth_attr) : pth_attr :=
  Attr (a_tid x) (a_prio x) (a_dispatches x) (a_name x) (a_joinable x) z (a_stacksize x) (a_stackaddr x).
Definition set_a_stacksize (z : Z) (x : pth_attr) : pth_attr :=
  Attr (a_tid x) (a_prio x) (a_dispatches x) (a_name x) (a_joinable x) (a_cancelstate x) z (a_stackaddr x).
Definition set_a_stackaddr (z : N) (x : pth_attr) : pth_attr :=
  Attr (a_tid x) (a_prio x) (a_dispatches x) (a_name x) (a_joinable x) (a_cancelstate x) (a_stacksize x) z.

Definition raw_attr (tid : N) : pth_attr := Attr tid 0 0 (replicate PTH_TCB_NAMELEN 0) 0 0 0 NULL.

Definition pth_attr_of (t : ptr) : M St N :=
  if is_null t then pth_error NULL EINVAL else
  do a <- malloc sizeof_attr;
  if is_null a then pth_error NULL ENOMEM else
  modify (set_attrs (<[a := raw_attr t]>)) ;;
  ret a.

(** ["unknown"] *)
Definition str_unknown : list Z := [117; 110; 107; 110; 111; 119; 110; 0].

Definition pth_attr_init (a : ptr) : M St bool :=
  if is_null a then pth_error false EINVAL else
  do tid <- lda a a_tid;
  if negb (is_null tid) then pth_error false EPERM else
  sta a (set_a_prio PTH_PRIO_STD) ;;
  do nm <- lda a a_name;
  do (nm', _) <- lift_opt (pth_util_cpystrn nm str_unknown PTH_TCB_NAMELEN);
  sta a (set_a_name nm') ;;
  sta a (set_a_dispatches 0) ;;
  sta a (set_a_joinable 1) ;;
  sta a (set_a_cancelstate PTH_CANCEL_DEFAULT) ;;
  sta a (set_a_stacksize 65536) ;;
  sta a (set_a_stackaddr NULL) ;;
  ret true.

Definition pth_attr_new : M St N :=
  do a <- malloc sizeof_attr;
  if is_null a then pth_error NULL ENOMEM else
  modify (set_attrs (<[a := raw_attr NULL]>)) ;;
  do _ <- pth_attr_init a;
  ret a.

Definition pth_attr_destroy (a : ptr) : M St bool :=
  if is_null a then pth_error false EINVAL else free attrs set_attrs a ;; ret true.

(** [(a->a_tid != NULL ? a->a_tid->x : a->x)] *)
Definition attr_read {A} (a : ptr) (ft : tcb → A) (fa : pth_attr → A) : M St A :=
  do tid <- lda a a_tid;
  if is_null tid then lda a fa else ldt tid ft.
Definition attr_write (a : ptr) (gt : tcb → tcb) (ga : pth_attr → pth_attr) : M St unit :=
  do tid <- lda a a_tid;
  if is_null tid then sta a ga else stt tid gt.

(** [PTH_ATTR_GET] *)
Definition attr_get (a : ptr) (op : attr_op) : M St (bool * option attr_val) :=
  do tid <- lda a a_tid;
  (** the attributes that exist for threads only *)
  let of_thread (m : M St attr_val) :=
    if is_null tid then pth_error (false, None) EACCES else do v <- m; ret (true, Some v) in
  let time (f : tcb → timeval) :=
    do tv <- (if is_null tid then ret pth_time_zero else ldt tid f); ret (true, Some (ATime tv)) in
  match op with
  | PTH_ATTR_PRIO => do v <- attr_read a prio a_prio; ret (true, Some (AInt v))
  | PTH_ATTR_NAME => ret (true, Some (if is_null tid then ANameOfAttr a else ANameOfThread tid))
  | PTH_ATTR_DISPATCHES => do v <- attr_read a dispatches a_dispatches; ret (true, Some (AInt v))
  | PTH_ATTR_JOINABLE => do v <- attr_read a joinable a_joinable; ret (true, Some (AInt v))
  | PTH_ATTR_CANCEL_STATE => do v <- attr_read a cancelstate a_cancelstate; ret (true, Some (AUint v))
  | PTH_ATTR_STACK_SIZE => do v <- attr_read a stacksize a_stacksize; ret (true, Some (AUint v))
  | PTH_ATTR_STACK_ADDR => do v <- attr_read a stack a_stackaddr; ret (true, Some (AChars v))
  | PTH_ATTR_TIME_SPAWN => time spawned
  | PTH_ATTR_TIME_LAST => time lastran
  | PTH_ATTR_TIME_RAN => time running
  | PTH_ATTR_START_FUNC => of_thread (do v <- ldt tid start_func; ret (AFunc v))
  | PTH_ATTR_START_ARG => of_thread (do v <- ldt tid start_arg; ret (AArg v))
  | PTH_ATTR_STATE => of_thread (do v <- ldt tid state; ret (AState v))
  | PTH_ATTR_EVENTS => of_thread (do v <- ldt tid events; ret (AEvents v))
  | PTH_ATTR_BOUND => ret (true, Some (AInt (if is_null tid then 0 else 1)))
  end.

Definition attr_readonly (op : attr_op) : bool :=
  match op with
  | PTH_ATTR_TIME_SPAWN | PTH_ATTR_TIME_LAST | PTH_ATTR_TIME_RAN | PTH_ATTR_START_FUNC | PTH_ATTR_START_ARG
  | PTH_ATTR_STATE | PTH_ATTR_EVENTS | PTH_ATTR_BOUND => true
  | _ => false
  end.

(** [PTH_ATTR_SET]; a value of another type than [va_arg] asks for is undefined. *)
Definition attr_set (a : ptr) (op : attr_op) (v : attr_val) : M St bool :=
  if attr_readonly op then pth_error false EPERM else
  do tid <- lda a a_tid;
  match op, v with
  | PTH_ATTR_PRIO, AInt z => attr_write a (set_prio (λ _, z)) (set_a_prio z) ;; ret true
  | PTH_ATTR_NAME, AStr src =>
      do nm <- attr_read a name a_name;
      do (nm', _) <- lift_opt (pth_util_cpystrn nm src PTH_TCB_NAMELEN);
      attr_write a (set_name (λ _, nm')) (set_a_name nm') ;; ret true
  | PTH_ATTR_DISPATCHES, AInt z => attr_write a (set_dispatches (λ _, z)) (set_a_dispatches z) ;; ret true
  | PTH_ATTR_JOINABLE, AInt z => attr_write a (set_joinable (λ _, z)) (set_a_joinable z) ;; ret true
  | PTH_ATTR_CANCEL_STATE, AUint z => attr_write a (set_cancelstate (λ _, z)) (set_a_cancelstate z) ;; ret true
  | PTH_ATTR_STACK_SIZE, AUint z =>
      if negb (is_null tid) then pth_error false EPERM else sta a (set_a_stacksize z) ;; ret true
  | PTH_ATTR_STACK_ADDR, AChars p =>
      if negb (is_null tid) then pth_error false EPERM else sta a (set_a_stackaddr p) ;; ret true
  | _, _ => ub
  end.

(** [pth_attr_ctrl]: a get when [v] is absent, a set otherwise. *)
Definition pth_attr_ctrl (v : option attr_val) (a : ptr) (op : Z) : M St (bool * option attr_val) :=
  if is_null a then pth_error (false, None) EINVAL else
  match attr_op_of op with
  | None => pth_error (false, None) EINVAL
  | Some op =>
      match v with
      | None => attr_get a op
      | Some v => do b <- attr_set a op v; ret (b, None)
      end
  end.
Definition pth_attr_get (a : ptr) (op : Z) : M St (bool * option attr_val) := pth_attr_ctrl None a op.
Definition pth_attr_set (a : ptr) (op : Z) (v : attr_val) : M St bool :=
  do r <- pth_attr_ctrl (Some v) a op; ret r.1.

End attr.

(** ** What attributes do *)
Section attr_proofs.
Context {Kern : Kernel}.
Implicit Types (s : St) (a : N).

(** An attribute object, bound to an existing thread or to none. *)
Definition attr_ok (s : St) (a : N) (x : pth_attr) : Prop :=
  load (attrs s) a = Some x ∧ (a_tid x ≠ NULL → is_Some (load (threads s) (a_tid x))).

(** The attributes that hold a number or an address, with a value of their type. *)
Definition plain_val (op : attr_op) (v : attr_val) : bool :=
  match op, v with
  | (PTH_ATTR_PRIO | PTH_ATTR_DISPATCHES | PTH_ATTR_JOINABLE), AInt _
  | (PTH_ATTR_CANCEL_STATE | PTH_ATTR_STACK_SIZE), AUint _ | PTH_ATTR_STACK_ADDR, AChars _ => true
  | _, _ => false
  end.
Definition stack_attr (op : attr_op) : bool :=
  match op with PTH_ATTR_STACK_SIZE | PTH_ATTR_STACK_ADDR => true | _ => false end.

Lemma lda_run {A} a (f : pth_attr → A) s x : load (attrs s) a = Some x → lda a f s = Some (f x, s).
Proof. intros Hx. unfold lda, ld. by rewrite Hx. Qed.

Lemma sta_run a g s x : load (attrs s) a = Some x → sta a g s = Some (tt, set_attrs (alter g a) s).
Proof. intros Hx. unfold sta, st. by rewrite Hx. Qed.

Lemma attr_read_run {A} a (ft : tcb → A) fa s x :
  load (attrs s) a = Some x →
  attr_read a ft fa s =
    if decide (a_tid x = NULL) then Some (fa x, s)
    else n ← load (threads s) (a_tid x); Some (ft (q_body n), s).
Proof.
  intros Hx. unfold attr_read. erewrite bind_run by (by eapply lda_run). unfold is_null.
  case_bool_decide; case_decide; try done. by eapply lda_run.
Qed.

Lemma attr_write_run a gt ga s x :
  load (attrs s) a = Some x →
  attr_write a gt ga s =
    if decide (a_tid x = NULL) then Some (tt, set_attrs (alter ga a) s)
    else _n ← load (threads s) (a_tid x); Some (tt, set_threads (alter (on_body gt) (a_tid x)) s).
Proof.
  intros Hx. unfold attr_write. erewrite bind_run by (by eapply lda_run). unfold is_null.
  case_bool_decide; case_decide; try done. by eapply sta_run.
Qed.


End attr_proofs.

(** An attribute object bound to the running thread. *)
Definition toy_attr : @St toy_kernel := set_attrs (λ _, {[ 500%N := raw_attr 100 ]}) toy_state.

