(* ===== verification/Sync.v ===== *)
(** * Mutexes, read-write locks, condition variables and barriers (pth_sync.c)

The blocking operations are in [coro]; their loops take fuel, one unit per time
the thread is woken up. *)
From S2P Require Import State Data Sys Event.
From S2P Require Ring.

Section sync.
Context {Kern : Kernel}.

(** The [static pth_key_t ev_key] of [pth_mutex_acquire] and [pth_cond_await]. *)
Definition mutex_ev_key : N := 1.
Definition cond_ev_key : N := 2.

Definition ldm {A} (m : ptr) (f : pth_mutex → A) : M St A := ld mutexes m f.
Definition stm (m : ptr) (g : pth_mutex → pth_mutex) : M St unit := st mutexes set_mutexes m g.
Definition set_mx_state (f : Z → Z) (m : pth_mutex) : pth_mutex := Mutex (f (mx_state m)) (mx_owner m) (mx_count m).
Definition set_mx_owner (o : N) (m : pth_mutex) : pth_mutex := Mutex (mx_state m) o (mx_count m).
Definition set_mx_count (f : Z → Z) (m : pth_mutex) : pth_mutex := Mutex (mx_state m) (mx_owner m) (f (mx_count m)).

(** ** Mutexes *)
Definition pth_mutex_init (mutex : ptr) : M St bool :=
  if is_null mutex then pth_error false EINVAL else
  stm mutex (set_mx_state (λ _, PTH_MUTEX_INITIALIZED)) ;;
  stm mutex (set_mx_owner NULL) ;;
  stm mutex (set_mx_count (λ _, 0)) ;;
  ret true.

(** The four statements that take an unlocked mutex. *)
Definition mutex_lock (mutex : ptr) : M St unit :=
  do cur <- gets pth_current;
  stm mutex (set_mx_state (λ x, Z.lor x PTH_MUTEX_LOCKED)) ;;
  stm mutex (set_mx_owner cur) ;;
  stm mutex (set_mx_count (λ _, 1)) ;;
  on_mutexring cur (Ring.pth_ring_append mutex).

(** What [pth_mutex_acquire] does without waiting: its result, or [None] when it has to wait. *)
Definition mutex_try (mutex : ptr) (tryonly : bool) : M St (option bool) :=
  if is_null mutex then pth_error (Some false) EINVAL else
  do x <- ldm mutex mx_state;
  if negb (has x PTH_MUTEX_INITIALIZED) then pth_error (Some false) EDEADLK else
  if negb (has x PTH_MUTEX_LOCKED) then mutex_lock mutex ;; ret (Some true) else
  do count <- ldm mutex mx_count;
  do owner <- ldm mutex mx_owner;
  do cur <- gets pth_current;
  if (1 <=? count) && bool_decide (owner = cur) then
    stm mutex (set_mx_count (λ c, u64 (c + 1))) ;; ret (Some true)
  else if tryonly then pth_error (Some false) EBUSY
  else ret None.

Definition pth_mutex_release (mutex : ptr) : M St bool :=
  if is_null mutex then pth_error false EINVAL else
  do x <- ldm mutex mx_state;
  if negb (has x PTH_MUTEX_INITIALIZED) then pth_error false EDEADLK else
  if negb (has x PTH_MUTEX_LOCKED) then pth_error false EDEADLK else
  do owner <- ldm mutex mx_owner;
  do cur <- gets pth_current;
  if negb (bool_decide (owner = cur)) then pth_error false EACCES else
  stm mutex (set_mx_count (λ c, u64 (c - 1))) ;;
  do count <- ldm mutex mx_count;
  (if count <=? 0 then
     stm mutex (set_mx_state (λ x, Z.land x (Z.lnot PTH_MUTEX_LOCKED))) ;;
     stm mutex (set_mx_owner NULL) ;;
     stm mutex (set_mx_count (λ _, 0)) ;;
     on_mutexring cur (Ring.pth_ring_delete mutex)
   else ret tt) ;;
  ret true.

(** [while (rn != NULL) { .. }] of [pth_mutex_releaseall] *)
Fixpoint releaseall_loop (fuel : nat) (thread rnf rn : ptr) : M St unit :=
  match fuel with
  | O => ub
  | S fuel' =>
      if is_null rn then ret tt else
      do _ <- pth_mutex_release rn;
      do nxt <- on_mutexring thread (Ring.pth_ring_next rn);
      if bool_decide (nxt = rnf) then ret tt else releaseall_loop fuel' thread rnf nxt
  end.
Definition pth_mutex_releaseall (thread : ptr) : M St unit :=
  if is_null thread then ret tt else
  do rn <- on_mutexring thread Ring.pth_ring_first;
  λ s, releaseall_loop (S (size (rnodes s))) thread rn rn s.

(** ** Condition variables and cancellation state *)
Definition ldc {A} (c : ptr) (f : pth_cond → A) : M St A := ld conds c f.
Definition stc (c : ptr) (g : pth_cond → pth_cond) : M St unit := st conds set_conds c g.
Definition set_cn_state (f : Z → Z) (c : pth_cond) : pth_cond := Cond (f (cn_state c)) (cn_waiters c).
Definition set_cn_waiters (f : Z → Z) (c : pth_cond) : pth_cond := Cond (cn_state c) (f (cn_waiters c)).

Definition pth_cond_init (cond : ptr) : M St bool :=
  if is_null cond then pth_error false EINVAL else
  stc cond (set_cn_state (λ _, PTH_COND_INITIALIZED)) ;;
  stc cond (set_cn_waiters (λ _, 0)) ;;
  ret true.

(** The three statements that clear a signal. *)
Definition clear_signal (x : Z) : Z :=
  Z.land (Z.land (Z.land x (Z.lnot PTH_COND_SIGNALED)) (Z.lnot PTH_COND_BROADCAST)) (Z.lnot PTH_COND_HANDLED).

(** [pth_cancel_state(newstate, &oldstate)]: the old state is returned. *)
Definition pth_cancel_state (newstate : Z) : M St Z :=
  do cur <- gets pth_current;
  do old <- ldt cur cancelstate;
  (if negb (newstate =? 0) then stt cur (set_cancelstate (λ _, newstate)) else ret tt) ;;
  ret old.

Definition pth_cond_notify (cond : ptr) (broadcast : bool) : coro bool :=
  if is_null cond then atom (pth_error false EINVAL) else
  do! x <- atom (ldc cond cn_state);
  if negb (has x PTH_COND_INITIALIZED) then atom (pth_error false EDEADLK) else
  do! waiters <- atom (ldc cond cn_waiters);
  (if 0 <? waiters then
     atom (stc cond (set_cn_state (λ x, Z.lor x PTH_COND_SIGNALED))) ;;!
     atom (stc cond (set_cn_state (λ x, if broadcast then Z.lor x PTH_COND_BROADCAST
                                        else Z.land x (Z.lnot PTH_COND_BROADCAST)))) ;;!
     atom (stc cond (set_cn_state (λ x, Z.land x (Z.lnot PTH_COND_HANDLED)))) ;;!
     do! _ <- pth_yield NULL; cret tt
   else cret tt) ;;!
  cret true.

Context {Kn : Knot}.

(** [for (;;) { .. }] of [pth_mutex_acquire]: [true] once the mutex is unlocked,
    [false] when the extra events ended the wait. *)
Fixpoint mutex_wait (fuel : nat) (mutex ev_extra : ptr) : coro bool :=
  match fuel with
  | O => cfuel
  | S fuel' =>
      do! ev <- atom (pth_event (Z.lor PTH_EVENT_MUTEX PTH_MODE_STATIC) [VPtr mutex_ev_key; VPtr mutex]);
      (if negb (is_null ev_extra) then do! _ <- atom (pth_event_concat ev [ev_extra; NULL]); cret tt else cret tt) ;;!
      do! _ <- pth_wait ev;
      do! x <- (if negb (is_null ev_extra) then
                  do! _ <- atom (pth_event_isolate ev); atom (pth_event_status ev)
                else cret PTH_STATUS_OCCURRED);
      if negb (is_null ev_extra) && bool_decide (x = PTH_STATUS_PENDING) then atom (pth_error false EINTR) else
      do! x <- atom (ldm mutex mx_state);
      if negb (has x PTH_MUTEX_LOCKED) then cret true else mutex_wait fuel' mutex ev_extra
  end.

Definition pth_mutex_acquire (fuel : nat) (mutex : ptr) (tryonly : bool) (ev_extra : ptr) : coro bool :=
  do! r <- atom (mutex_try mutex tryonly);
  match r with
  | Some b => cret b
  | None =>
      do! ok <- mutex_wait fuel mutex ev_extra;
      if negb ok then cret false else atom (mutex_lock mutex) ;;! cret true
  end.

(** ** Read-write locks *)
Definition ldrw {A} (l : ptr) (f : pth_rwlock → A) : M St A := ld rwlocks l f.
Definition strw (l : ptr) (g : pth_rwlock → pth_rwlock) : M St unit := st rwlocks set_rwlocks l g.
Definition set_rw_state (z : Z) (l : pth_rwlock) : pth_rwlock :=
  Rwlock z (rw_mode l) (rw_readers l) (rw_mutex_rd l) (rw_mutex_rw l).
Definition set_rw_mode (z : Z) (l : pth_rwlock) : pth_rwlock :=
  Rwlock (rw_state l) z (rw_readers l) (rw_mutex_rd l) (rw_mutex_rw l).
Definition set_rw_readers (f : Z → Z) (l : pth_rwlock) : pth_rwlock :=
  Rwlock (rw_state l) (rw_mode l) (f (rw_readers l)) (rw_mutex_rd l) (rw_mutex_rw l).

Definition pth_rwlock_init (rwlock : ptr) : M St bool :=
  if is_null rwlock then pth_error false EINVAL else
  strw rwlock (set_rw_state PTH_RWLOCK_INITIALIZED) ;;
  strw rwlock (set_rw_readers (λ _, 0)) ;;
  do rd <- ldrw rwlock rw_mutex_rd;
  do _ <- pth_mutex_init rd;
  do rw <- ldrw rwlock rw_mutex_rw;
  do _ <- pth_mutex_init rw;
  ret true.

(** Locking for writing, for reading, and releasing a lock for reading, once the
    arguments are checked. *)
Definition rwlock_write (fuel : nat) (rwlock rw : ptr) (tryonly : bool) (ev_extra : ptr) : coro bool :=
  do! ok <- pth_mutex_acquire fuel rw tryonly ev_extra;
  if negb ok then cret false else
  atom (strw rwlock (set_rw_mode PTH_RWLOCK_RW)) ;;! cret true.

Definition rwlock_read (fuel : nat) (rwlock rd rw : ptr) (tryonly : bool) (ev_extra : ptr) : coro bool :=
  do! ok <- pth_mutex_acquire fuel rd tryonly ev_extra;
  if negb ok then cret false else
  atom (strw rwlock (set_rw_readers (λ n, u64 (n + 1)))) ;;!
  do! n <- atom (ldrw rwlock rw_readers);
  do! ok <- (if n =? 1 then pth_mutex_acquire fuel rw tryonly ev_extra else cret true);
  if negb ok then
    atom (strw rwlock (set_rw_readers (λ n, u64 (n - 1)))) ;;!
    atom (pth_shield (do _ <- pth_mutex_release rd; ret tt)) ;;!
    cret false
  else
    atom (strw rwlock (set_rw_mode PTH_RWLOCK_RD)) ;;!
    do! _ <- atom (pth_mutex_release rd);
    cret true.

Definition rwlock_unread (fuel : nat) (rwlock rd rw : ptr) : coro bool :=
  do! ok <- pth_mutex_acquire fuel rd false NULL;
  if negb ok then cret false else
  atom (strw rwlock (set_rw_readers (λ n, u64 (n - 1)))) ;;!
  do! n <- atom (ldrw rwlock rw_readers);
  do! ok <- (if n =? 0 then atom (pth_mutex_release rw) else cret true);
  if negb ok then
    atom (strw rwlock (set_rw_readers (λ n, u64 (n + 1)))) ;;!
    atom (pth_shield (do _ <- pth_mutex_release rd; ret tt)) ;;!
    cret false
  else
    atom (strw rwlock (set_rw_mode PTH_RWLOCK_RD)) ;;!
    do! _ <- atom (pth_mutex_release rd);
    cret true.

Definition pth_rwlock_acquire (fuel : nat) (rwlock : ptr) (op : Z) (tryonly : bool) (ev_extra : ptr) : coro bool :=
  if is_null rwlock then atom (pth_error false EINVAL) else
  do! x <- atom (ldrw rwlock rw_state);
  if negb (has x PTH_RWLOCK_INITIALIZED) then atom (pth_error false EDEADLK) else
  do! rd <- atom (ldrw rwlock rw_mutex_rd);
  do! rw <- atom (ldrw rwlock rw_mutex_rw);
  if op =? PTH_RWLOCK_RW then rwlock_write fuel rwlock rw tryonly ev_extra
  else rwlock_read fuel rwlock rd rw tryonly ev_extra.

Definition pth_rwlock_release (fuel : nat) (rwlock : ptr) : coro bool :=
  if is_null rwlock then atom (pth_error false EINVAL) else
  do! x <- atom (ldrw rwlock rw_state);
  if negb (has x PTH_RWLOCK_INITIALIZED) then atom (pth_error false EDEADLK) else
  do! mode <- atom (ldrw rwlock rw_mode);
  do! rd <- atom (ldrw rwlock rw_mutex_rd);
  do! rw <- atom (ldrw rwlock rw_mutex_rw);
  if mode =? PTH_RWLOCK_RW then
    do! ok <- atom (pth_mutex_release rw);
    cret ok
  else rwlock_unread fuel rwlock rd rw.

(** ** Waiting for a condition *)

(** The local array [void *cleanvec[2] = { mutex, cond }]. *)
Definition new_cleanvec (mutex cond : ptr) : M St N :=
  do v <- gets brk;
  modify (set_brk (λ b, (b + 16)%N)) ;;
  modify (set_cleanvecs (<[v := (mutex, cond)]>)) ;;
  ret v.

(** [pth_cond_cleanup_handler(cleanvec)] *)
Definition pth_cond_cleanup_handler (fuel : nat) (cleanvec : ptr) : coro unit :=
  do! mutex <- atom (ld cleanvecs cleanvec fst);
  do! cond <- atom (ld cleanvecs cleanvec snd);
  do! _ <- pth_mutex_acquire fuel mutex false NULL;
  atom (stc cond (set_cn_waiters (λ n, u32 (n - 1)))).

Definition pth_cond_await (fuel : nat) (cond mutex ev_extra : ptr) : coro bool :=
  if is_null cond || is_null mutex then atom (pth_error false EINVAL) else
  do! x <- atom (ldc cond cn_state);
  if negb (has x PTH_COND_INITIALIZED) then atom (pth_error false EDEADLK) else
  if has x PTH_COND_SIGNALED && negb (has x PTH_COND_BROADCAST) then
    atom (stc cond (set_cn_state clear_signal)) ;;! cret true
  else
  atom (stc cond (set_cn_waiters (λ n, u32 (n + 1)))) ;;!
  do! _ <- atom (pth_mutex_release mutex);
  do! ev <- atom (pth_event (Z.lor PTH_EVENT_COND PTH_MODE_STATIC) [VPtr cond_ev_key; VPtr cond]);
  (if negb (is_null ev_extra) then do! _ <- atom (pth_event_concat ev [ev_extra; NULL]); cret tt else cret tt) ;;!
  do! cleanvec <- atom (new_cleanvec mutex cond);
  do! _ <- atom (pth_cleanup_push fp_cond_cleanup cleanvec);
  do! _ <- pth_wait ev;
  do! _ <- pth_cleanup_pop false;
  (if negb (is_null ev_extra) then do! _ <- atom (pth_event_isolate ev); cret tt else cret tt) ;;!
  do! _ <- pth_mutex_acquire fuel mutex false NULL;
  atom (stc cond (set_cn_waiters (λ n, u32 (n - 1)))) ;;!
  atom (modify (set_cleanvecs (delete cleanvec))) ;;!
  cret true.

(** ** Barriers *)
Definition ldb {A} (b : ptr) (f : pth_barrier → A) : M St A := ld barriers b f.
Definition stb (b : ptr) (g : pth_barrier → pth_barrier) : M St unit := st barriers set_barriers b g.
Definition set_br_count (z : Z) (b : pth_barrier) : pth_barrier :=
  Barrier (br_state b) (br_threshold b) z (br_cycle b) (br_cond b) (br_mutex b).
Definition set_br_cycle (c : bool) (b : pth_barrier) : pth_barrier :=
  Barrier (br_state b) (br_threshold b) (br_count b) c (br_cond b) (br_mutex b).

Definition pth_barrier_init (barrier : ptr) (threshold : Z) : M St bool :=
  if is_null barrier || (threshold <=? 0) then pth_error false EINVAL else
  do mx <- ldb barrier br_mutex;
  do ok <- pth_mutex_init mx;
  if negb ok then ret false else
  do cn <- ldb barrier br_cond;
  do ok <- pth_cond_init cn;
  if negb ok then ret false else
  stb barrier (λ b, Barrier PTH_BARRIER_INITIALIZED threshold threshold false (br_cond b) (br_mutex b)) ;;
  ret true.

(** [while (cycle == barrier->br_cycle) if (!(rv = pth_cond_await(..))) break;] *)
Fixpoint barrier_wait (fuel : nat) (barrier : ptr) (cycle : bool) (rv : Z) : coro Z :=
  match fuel with
  | O => cfuel
  | S fuel' =>
      do! now <- atom (ldb barrier br_cycle);
      if bool_decide (cycle = now) then
        do! cn <- atom (ldb barrier br_cond);
        do! mx <- atom (ldb barrier br_mutex);
        do! ok <- pth_cond_await fuel' cn mx NULL;
        if negb ok then cret 0 else barrier_wait fuel' barrier cycle 1
      else cret rv
  end.

Definition pth_barrier_reach (fuel : nat) (barrier : ptr) : coro Z :=
  if is_null barrier then atom (pth_error 0 EINVAL) else
  do! x <- atom (ldb barrier br_state);
  if negb (has x PTH_BARRIER_INITIALIZED) then atom (pth_error 0 EINVAL) else
  do! mx <- atom (ldb barrier br_mutex);
  do! ok <- pth_mutex_acquire fuel mx false NULL;
  if negb ok then cret 0 else
  do! cycle <- atom (ldb barrier br_cycle);
  do! count <- atom (ldb barrier br_count);
  do! count <- atom (int_chk (count - 1));
  atom (stb barrier (set_br_count count)) ;;!
  do! rv <-
    (if count =? 0 then
       atom (stb barrier (set_br_cycle (negb cycle))) ;;!
       do! th <- atom (ldb barrier br_threshold);
       atom (stb barrier (set_br_count th)) ;;!
       do! cn <- atom (ldb barrier br_cond);
       do! ok <- pth_cond_notify cn true;
       cret (if ok then PTH_BARRIER_TAILLIGHT else 0)
     else
       do! cancel <- atom (pth_cancel_state PTH_CANCEL_DISABLE);
       do! th <- atom (ldb barrier br_threshold);
       do! cnt <- atom (ldb barrier br_count);
       do! rv <- barrier_wait fuel barrier cycle (if th =? cnt then PTH_BARRIER_HEADLIGHT else 1);
       do! _ <- atom (pth_cancel_state cancel);
       cret rv);
  do! _ <- atom (pth_mutex_release mx);
  cret rv.

End sync.
