(* ===== verification/Sched.v ===== *)
(** * The scheduler (pth_sched.c)

The endless loop of [pth_scheduler] is cut at the context switch: [sched_dispatch]
runs from the top of the loop to the switch into the selected thread, and
[sched_back] from the return of control to the end of the loop body.  The local
variable [snapshot] is passed from one to the other.  Fuel: queue walks are
bounded by the number of threads, ring walks by the number of events; the loops
that repeat a system call ([read] of the signal pipe, [select] on [EINTR]) and the
internal loop of the event manager take explicit fuel. *)
From S2P Require Import State Data Sys Event Tcb.
From S2P Require Ring.

Section sched.
Context {Kern : Kernel} {Ap : App}.

(** ** Initialisation and shutdown *)
Definition pth_scheduler_init : M St bool :=
  do (rc, e, fds) <- kcall k_pipe;
  if rc =? -1 then pth_error false e else
  modify (set_pth_sigpipe (λ _, fds)) ;;
  do m <- pth_fdmode fds.1 PTH_FDMODE_NONBLOCK;
  if m =? PTH_FDMODE_ERROR then do e <- gets errno; pth_error false e else
  do m <- pth_fdmode fds.2 PTH_FDMODE_NONBLOCK;
  if m =? PTH_FDMODE_ERROR then do e <- gets errno; pth_error false e else
  modify (set_pth_sched (λ _, NULL)) ;;
  modify (set_pth_current (λ _, NULL)) ;;
  onq NQ pth_pqueue_init ;;
  onq RQ pth_pqueue_init ;;
  onq WQ pth_pqueue_init ;;
  onq SQ pth_pqueue_init ;;
  onq DQ pth_pqueue_init ;;
  modify (set_pth_favournew (λ _, 1)) ;;
  modify (set_pth_loadval (λ _, S754_finite false 1 0)) ;;
  do now <- gettimeofday;
  modify (set_pth_loadticknext (λ _, now)) ;;
  ret true.

(** [while ((t = pth_pqueue_delmax(&q)) != NULL) pth_tcb_free(t);] *)
Fixpoint drop_queue (fuel : nat) (q : qid) : M St unit :=
  match fuel with
  | O => ub
  | S fuel' =>
      do t <- onq q pth_pqueue_delmax;
      if is_null t then onq q pth_pqueue_init else pth_tcb_free t ;; drop_queue fuel' q
  end.
Definition drop_all (q : qid) : M St unit := λ s, drop_queue (S (size (threads s))) q s.
Definition pth_scheduler_drop : M St unit :=
  drop_all NQ ;; drop_all RQ ;; drop_all WQ ;; drop_all SQ ;; drop_all DQ.

Definition pth_scheduler_kill : M St unit :=
  pth_scheduler_drop ;;
  do (r, w) <- gets pth_sigpipe;
  modify (set_kern (k_close r)) ;;
  modify (set_kern (k_close w)).

(** ** Load average

[float] and [double] arithmetic in the formats of IEEE 754. *)
Definition round32 (x : spec_float) : spec_float :=
  match x with
  | S754_finite s m e => binary_normalize 24 128 (if s then Z.neg m else Z.pos m) e s
  | _ => x
  end.
(** [(numready*0.25) + (pth_loadval*0.75)] *)
Definition load_step (numready : Z) (lv : spec_float) : spec_float :=
  round32 (SFadd 53 1024
    (SFmul 53 1024 (binary_normalize 53 1024 numready 0 false) (S754_finite false 1 (-2)))
    (SFmul 53 1024 lv (S754_finite false 3 (-2)))).

Definition pth_loadtickgap : timeval := Tv 1 0.

(** The [do .. while] loop; at most 201 rounds, then [loop_count > 200]. *)
Fixpoint load_loop (n : nat) (numready : Z) (next ttmp : timeval) (lv : spec_float) : spec_float :=
  match n with
  | O => lv
  | S n' =>
      let lv' := load_step numready lv in
      let ttmp' := pth_time_sub ttmp pth_loadtickgap in
      if 0 <=? pth_time_cmp ttmp' next then load_loop n' numready next ttmp' lv' else lv'
  end.
Definition pth_scheduler_load (now : timeval) : M St unit :=
  do next <- gets pth_loadticknext;
  if 0 <=? pth_time_cmp now next then
    do numready <- onq RQ pth_pqueue_elements;
    modify (set_pth_loadval (load_loop 201 numready next now)) ;;
    modify (set_pth_loadticknext (λ _, pth_time_add now pth_loadtickgap))
  else ret tt.

(** ** From the top of the loop to the thread *)

(** Move threads from the new queue to the ready queue, from the tail. *)
Fixpoint new_to_ready (fuel : nat) : M St unit :=
  match fuel with
  | O => ub
  | S fuel' =>
      do t <- onq NQ pth_pqueue_tail;
      if is_null t then ret tt else
      onq NQ (pth_pqueue_delete t) ;;
      stt t (set_state (λ _, PTH_STATE_READY)) ;;
      do fav <- gets pth_favournew;
      do p <- (if negb (fav =? 0) then onq RQ pth_pqueue_favorite_prio else ret PTH_PRIO_STD);
      onq RQ (pth_pqueue_insert p t) ;;
      new_to_ready fuel'
  end.

(** [for (sig = 1; sig < PTH_NSIG; sig++)] *)
Definition sig_range : list Z := Z.of_nat <$> seq 1 31.
Fixpoint for_sigs {A} (sigs : list Z) (f : Z → A → M St A) (acc : A) : M St A :=
  match sigs with
  | [] => ret acc
  | sig :: sigs' => do acc <- f sig acc; for_sigs sigs' f acc
  end.

(** Raise the thread's own signals. *)
Definition raise_thread_sigs (t : ptr) : M St unit :=
  do c <- ldt t sigpendcnt;
  if 0 <? c then
    do pend <- gets (k_sigpending ∘ kern);
    modify (set_pth_sigpending (λ _, pend)) ;;
    for_sigs sig_range (λ sig _,
      do tp <- ldt t sigpending;
      do pp <- gets pth_sigpending;
      if bool_decide (sig ∈ tp) && negb (bool_decide (sig ∈ pp)) then modify (set_kern (k_kill sig)) else ret tt) tt
  else ret tt.

(** Take the thread with the highest priority. *)
Definition sched_pick : M St N :=
  do t <- onq RQ pth_pqueue_delmax;
  modify (set_pth_current (λ _, t)) ;;
  ret t.

(** The book-keeping between the choice of a thread and the switch to it. *)
Definition dispatch_rest (snapshot : timeval) (t : ptr) : M St unit :=
  raise_thread_sigs t ;;
  do now <- gettimeofday;
  stt t (set_lastran (λ _, now)) ;;
  do sched <- gets pth_sched;
  stt sched (set_running (λ r, pth_time_add r (pth_time_sub now snapshot))) ;;
  do d <- ldt t dispatches;
  do d' <- int_chk (d + 1);
  stt t (set_dispatches (λ _, d')) ;;
  do e <- gets errno;
  stt sched (set_mctx_error (λ _, e)).

(** Up to the switch. *)
Definition sched_dispatch (snapshot : timeval) : coro unit :=
  atom (λ s, new_to_ready (S (size (threads s))) s) ;;!
  atom (pth_scheduler_load snapshot) ;;!
  do! t <- atom sched_pick;
  if is_null t then cabort else atom (dispatch_rest snapshot t).

(** ** The event manager *)

(** The local variables of a pass; [em_next] is the next timer, if any. *)
Record em := Em {
  em_rfds : gset Z; em_wfds : gset Z; em_efds : gset Z; em_fdmax : Z;
  em_next : option (N * N); em_next_value : timeval; em_any : bool }.

Definition em_init : em := Em ∅ ∅ ∅ (-1) None pth_time_zero false.
Definition em_fds (x : em) (r w e : gset Z) (fdmax : Z) : em :=
  Em r w e fdmax (em_next x) (em_next_value x) (em_any x).
Definition em_timer (x : em) (t ev : N) (tv : timeval) : em :=
  Em (em_rfds x) (em_wfds x) (em_efds x) (em_fdmax x) (Some (t, ev)) tv (em_any x).
Definition em_occurred (x : em) : em :=
  Em (em_rfds x) (em_wfds x) (em_efds x) (em_fdmax x) (em_next x) (em_next_value x) true.

(** [if (ev_goal & flag) FD_SET(fd, &set)] *)
Definition fd_add (goal flag fd : Z) (f : gset Z) : M St (gset Z) :=
  if has goal flag then lift_opt (FD_SET fd f) else ret f.
(** A set that a [fd_set *] member points to, [None] for [NULL]. *)
Definition ld_fdset (p : ptr) : M St (option (gset Z)) :=
  if is_null p then ret None else do f <- ld fdsets p id; ret (Some f).
Definition st_fdset (p : ptr) (f : option (gset Z)) : M St unit :=
  match f with
  | Some f => if is_null p then ret tt else st fdsets set_fdsets p (λ _, f)
  | None => ret tt
  end.

(** Remember the timer if there is none yet or if it elapses earlier. *)
Definition em_remember (x : em) (t ev : N) (tv : timeval) : em :=
  match em_next x with
  | None => em_timer x t ev tv
  | Some _ => if pth_time_cmp tv (em_next_value x) <? 0 then em_timer x t ev tv else x
  end.

Definition del_tcb_sig (t : ptr) (sig : Z) : M St unit :=
  stt t (set_sigpending (λ ss, ss ∖ {[ sig ]})) ;;
  do c <- ldt t sigpendcnt;
  do c' <- int_chk (c - 1);
  stt t (set_sigpendcnt (λ _, c')).

(** One signal of a signal event in the first pass. *)
Definition em_sig (t sigs sigp : ptr) (sig : Z) (occ : bool) : M St bool :=
  do ss <- ld sigsets sigs id;
  if negb (bool_decide (sig ∈ ss)) then ret occ else
  do tp <- ldt t sigpending;
  do occ <- (if bool_decide (sig ∈ tp) then
               st ints set_ints sigp (λ _, sig) ;; del_tcb_sig t sig ;; ret true
             else ret occ);
  do pp <- gets pth_sigpending;
  if bool_decide (sig ∈ pp) then
    (if is_null sigp then ret tt else st ints set_ints sigp (λ _, sig)) ;;
    do _ <- pth_util_sigdelete sig;
    modify (set_pth_sigpending (λ ss, ss ∖ {[ sig ]})) ;;
    ret true
  else
    modify (set_pth_sigblock (λ ss, ss ∖ {[ sig ]})) ;;
    modify (set_pth_sigcatch (λ ss, {[ sig ]} ∪ ss)) ;;
    ret occ.

(** [pth_exit_cb] (pth_lib.c): is the calling thread the only one left? *)
Definition pth_exit_cb : M St Z :=
  do a <- onq NQ pth_pqueue_elements;
  do b <- onq RQ pth_pqueue_elements;
  do c <- onq WQ pth_pqueue_elements;
  do d <- onq SQ pth_pqueue_elements;
  do rc <- int_chk (a + b); do rc <- int_chk (rc + c); do rc <- int_chk (rc + d);
  ret (if rc =? 1 then 1 else 0).

Definition call_func (f arg : ptr) : M St Z :=
  if bool_decide (f = fp_exit_cb) then pth_exit_cb else app_func f arg.

(** A pending event in the first pass: did it occur? *)
Definition em_check (now : timeval) (t ev : ptr) (x : em) : M St (bool * em) :=
  do ty <- lde ev ev_type;
  do goal <- lde ev ev_goal;
  do args <- lde ev ev_args;
  if ty =? PTH_EVENT_FD then
    match args with
    | FD fd =>
        do r <- fd_add goal PTH_UNTIL_FD_READABLE fd (em_rfds x);
        do w <- fd_add goal PTH_UNTIL_FD_WRITEABLE fd (em_wfds x);
        do e <- fd_add goal PTH_UNTIL_FD_EXCEPTION fd (em_efds x);
        ret (false, em_fds x r w e (if em_fdmax x <? fd then fd else em_fdmax x))
    | _ => ub
    end
  else if ty =? PTH_EVENT_SELECT then
    match args with
    | SELECT _ nfd rp wp ep =>
        do rf <- ld_fdset rp; do wf <- ld_fdset wp; do ef <- ld_fdset ep;
        do (r, w, e) <- lift_opt (pth_util_fds_merge nfd rf (em_rfds x) wf (em_wfds x) ef (em_efds x));
        ret (false, em_fds x r w e (if em_fdmax x <? nfd - 1 then nfd - 1 else em_fdmax x))
    | _ => ub
    end
  else if ty =? PTH_EVENT_SIGS then
    match args with
    | SIGS sigs sigp => do occ <- for_sigs sig_range (em_sig t sigs sigp) false; ret (occ, x)
    | _ => ub
    end
  else if ty =? PTH_EVENT_TIME then
    match args with
    | TIME tv => if pth_time_cmp tv now <? 0 then ret (true, x) else ret (false, em_remember x t ev tv)
    | _ => ub
    end
  else if ty =? PTH_EVENT_MSG then
    match args with
    | MSG mp => do n <- on_mp_queue mp Ring.pth_ring_elements; ret (0 <? n, x)
    | _ => ub
    end
  else if ty =? PTH_EVENT_MUTEX then
    match args with
    | MUTEX mutex => do m <- ld mutexes mutex mx_state; ret (negb (has m PTH_MUTEX_LOCKED), x)
    | _ => ub
    end
  else if ty =? PTH_EVENT_COND then
    match args with
    | COND cond =>
        do c <- ld conds cond cn_state;
        if has c PTH_COND_SIGNALED then
          if has c PTH_COND_BROADCAST then ret (true, x)
          else if negb (has c PTH_COND_HANDLED) then
            st conds set_conds cond (λ c, Cond (Z.lor (cn_state c) PTH_COND_HANDLED) (cn_waiters c)) ;; ret (true, x)
          else ret (false, x)
        else ret (false, x)
    | _ => ub
    end
  else if ty =? PTH_EVENT_TID then
    match args with
    | TID tid =>
        if is_null tid then do n <- onq DQ pth_pqueue_elements; ret (0 <? n, x)
        else do z <- ldt tid state; ret (state_num z =? goal, x)
    | _ => ub
    end
  else if ty =? PTH_EVENT_FUNC then
    match args with
    | FUNC func arg tv =>
        do rc <- call_func func arg;
        if negb (rc =? 0) then ret (true, x) else ret (false, em_remember x t ev (pth_time_add now tv))
    | _ => ub
    end
  else ret (false, x).

Definition em_event (now : timeval) (t ev : ptr) (x : em) : M St em :=
  do st <- lde ev ev_status;
  if bool_decide (st = PTH_STATUS_PENDING) then
    do (occ, x) <- em_check now t ev x;
    if (occ : bool) then ste ev (set_ev_status (λ _, PTH_STATUS_OCCURRED)) ;; ret (em_occurred x)
    else ret x
  else ret x.

(** One thread of the waiting queue in the first pass. *)
Definition em_thread (now : timeval) (t : ptr) (x : em) : M St em :=
  do sigs <- ldt t mctx_sigs;
  for_sigs sig_range (λ sig _,
    if negb (bool_decide (sig ∈ sigs)) then modify (set_pth_sigblock (λ ss, ss ∖ {[ sig ]})) else ret tt) tt ;;
  do req <- ldt t cancelreq;
  let x := if req then em_occurred x else x in
  do evh <- ldt t events;
  if is_null evh then ret x else over_ring evh (em_event now t) x.

(** [for (t = pth_pqueue_head(&pth_WQ); t != NULL; t = pth_pqueue_walk(..))] *)
Fixpoint em_threads (fuel : nat) (now : timeval) (t : ptr) (x : em) : M St em :=
  match fuel with
  | O => ub
  | S fuel' =>
      if is_null t then ret x else
      do x <- em_thread now t x;
      do t' <- onq WQ (pth_pqueue_walk t PTH_WALK_NEXT);
      em_threads fuel' now t' x
  end.

Definition pth_sched_eventmanager_sighandler (sig : Z) : M St unit :=
  modify (set_pth_sigraised (λ ss, {[ sig ]} ∪ ss)) ;;
  do (_, w) <- gets pth_sigpipe;
  do (rc, e) <- kcall (k_write w [sig mod 256]);
  (if rc =? -1 then modify (set_errno (λ _, e)) else ret tt).

Fixpoint run_handlers (sigs : list Z) : M St unit :=
  match sigs with
  | [] => ret tt
  | sig :: sigs' =>
      do catch <- gets pth_sigcatch;
      (if bool_decide (sig ∈ catch) then pth_sched_eventmanager_sighandler sig else ret tt) ;;
      run_handlers sigs'
  end.

(** [while ((rc = select(..)) < 0 && errno == EINTR) ;], with the handlers of the
    signals that arrive meanwhile *)
Fixpoint select_loop (fuel : nat) (nfd : Z) (r w e : option fdset) (tv : option timeval)
  : M St (Z * option fdset * option fdset * option fdset) :=
  match fuel with
  | O => ub
  | S fuel' =>
      do res <- kcall (k_select nfd r w e tv);
      run_handlers (sel_sigs res) ;;
      (if sel_rc res <? 0 then modify (set_errno (λ _, sel_errno res)) else ret tt) ;;
      if (sel_rc res <? 0) && (sel_errno res =? EINTR) then select_loop fuel' nfd r w e tv
      else ret (sel_rc res, sel_rfds res, sel_wfds res, sel_efds res)
  end.

(** [while (read(pth_sigpipe[0], minibuf, 128) > 0) ;] *)
Fixpoint drain_pipe (fuel : nat) (fd : Z) : M St unit :=
  match fuel with
  | O => ub
  | S fuel' =>
      do (rc, e, _) <- kcall (k_read fd 128);
      (if rc =? -1 then modify (set_errno (λ _, e)) else ret tt) ;;
      if 0 <? rc then drain_pipe fuel' fd else ret tt
  end.

(** the address of [pth_sched_eventmanager_sighandler] *)
Definition fp_em_sighandler : N := 8.

(** Replace the actions of the signals to catch; the old ones are returned. *)
Definition install_handlers : M St (gmap Z sigact) :=
  for_sigs sig_range (λ sig osa,
    do catch <- gets pth_sigcatch;
    if bool_decide (sig ∈ catch) then
      do (_, old) <- sigaction sig (Some (SIG_HANDLER fp_em_sighandler)); ret (<[sig := old]> osa)
    else ret osa) ∅.
Definition restore_handlers (osa : gmap Z sigact) : M St unit :=
  for_sigs sig_range (λ sig _,
    do catch <- gets pth_sigcatch;
    if bool_decide (sig ∈ catch) then
      do old <- lift_opt (osa !! sig); do _ <- sigaction sig (Some old); ret tt
    else ret tt) tt.

(** The waiting itself: the result of [select] and its sets. *)
Definition em_select (fuel : nat) (now : timeval) (dopoll : bool) (x : em) : M St (Z * em) :=
  let pdelay :=
    if dopoll then Some pth_time_zero
    else match em_next x with
         | Some _ => Some (pth_time_sub (em_next_value x) now)
         | None => None
         end in
  do (r, _) <- gets pth_sigpipe;
  drain_pipe fuel r ;;
  do rf <- lift_opt (FD_SET r (em_rfds x));
  let fdmax := if em_fdmax x <? r then r else em_fdmax x in
  do osa <- install_handlers;
  do blk <- gets pth_sigblock;
  do oss <- sigprocmask SIG_SETMASK blk;
  do (rc, rf, wf, ef) <-
    (if negb (dopoll && (fdmax =? -1)) then
       select_loop fuel (fdmax + 1) (Some rf) (Some (em_wfds x)) (Some (em_efds x)) pdelay
     else ret (-1, Some rf, Some (em_wfds x), Some (em_efds x)));
  do _ <- sigprocmask SIG_SETMASK oss;
  restore_handlers osa ;;
  ret (rc, em_fds x (default ∅ rf) (default ∅ wf) (default ∅ ef) fdmax).

(** The elapsed timer: [true] when the manager has to run again because the timer
    belongs to a function event. *)
Definition em_elapsed (dopoll : bool) (rc : Z) (x : em) : M St bool :=
  match em_next x with
  | Some (_, ev) =>
      if negb dopoll && (rc =? 0) then
        do ty <- lde ev ev_type;
        if ty =? PTH_EVENT_FUNC then ret true
        else ste ev (set_ev_status (λ _, PTH_STATUS_OCCURRED)) ;; ret false
      else ret false
  | None => ret false
  end.

(** [FD_ISSET] guarded by the goal: [(ev_goal & flag && FD_ISSET(fd, &set))] *)
Definition fd_hit (goal flag fd : Z) (f : gset Z) : M St bool :=
  if has goal flag then lift_opt (FD_ISSET fd f) else ret false.

(** The descriptor sets of the second pass. *)
Abbreviation fds3 := (gset Z * gset Z * gset Z)%type (only parsing).

(** A pending descriptor event in the second pass. *)
Definition late_fd (fuel : nat) (rc : Z) (ev : ptr) (goal fd : Z) (sets : fds3) : M St fds3 :=
  let '(r, w, e) := sets in
  do h1 <- fd_hit goal PTH_UNTIL_FD_READABLE fd r;
  do h2 <- (if (h1 : bool) then ret true else fd_hit goal PTH_UNTIL_FD_WRITEABLE fd w);
  do h3 <- (if (h2 : bool) then ret true else fd_hit goal PTH_UNTIL_FD_EXCEPTION fd e);
  if (h3 : bool) then ste ev (set_ev_status (λ _, PTH_STATUS_OCCURRED)) ;; ret sets
  else if rc <? 0 then
    do r <- fd_add goal PTH_UNTIL_FD_READABLE fd r;
    do w <- fd_add goal PTH_UNTIL_FD_WRITEABLE fd w;
    do e <- fd_add goal PTH_UNTIL_FD_EXCEPTION fd e;
    do (rc2, r', w', e') <- select_loop fuel (fd + 1) (Some r) (Some w) (Some e) (Some pth_time_zero);
    let '(r, w, e) := (default ∅ r', default ∅ w', default ∅ e') in
    if 0 <? rc2 then
      do r <- lift_opt (FD_CLR fd r); do w <- lift_opt (FD_CLR fd w); do e <- lift_opt (FD_CLR fd e);
      ret (r, w, e)
    else if rc2 <? 0 then
      ste ev (set_ev_status (λ _, PTH_STATUS_FAILED)) ;; ret (∅, ∅, ∅)
    else ret (r, w, e)
  else ret sets.

(** A pending descriptor set event in the second pass. *)
Definition late_select (fuel : nat) (rc : Z) (ev n : ptr) (nfd : Z) (rp wp ep : ptr) (sets : fds3) : M St unit :=
  let '(r, w, e) := sets in
  do rf <- ld_fdset rp; do wf <- ld_fdset wp; do ef <- ld_fdset ep;
  do hit <- lift_opt (pth_util_fds_test nfd rf r wf w ef e);
  if (hit : bool) then
    do (rf, wf, ef, cnt) <- lift_opt (pth_util_fds_select nfd rf r wf w ef e);
    st_fdset rp rf ;; st_fdset wp wf ;; st_fdset ep ef ;;
    (if is_null n then ret tt else st ints set_ints n (λ _, cnt)) ;;
    ste ev (set_ev_status (λ _, PTH_STATUS_OCCURRED))
  else if rc <? 0 then
    do (rc2, _, _, _) <- select_loop fuel (nfd + 1) rf wf ef (Some pth_time_zero);
    if rc2 <? 0 then ste ev (set_ev_status (λ _, PTH_STATUS_FAILED)) else ret tt
  else ret tt.

(** One signal of a signal event in the second pass. *)
Definition late_sig (ev sigs sigp : ptr) (sig : Z) (_ : unit) : M St unit :=
  do ss <- ld sigsets sigs id;
  do raised <- gets pth_sigraised;
  if bool_decide (sig ∈ ss) && bool_decide (sig ∈ raised) then
    (if is_null sigp then ret tt else st ints set_ints sigp (λ _, sig)) ;;
    modify (set_pth_sigraised (λ ss, ss ∖ {[ sig ]})) ;;
    ste ev (set_ev_status (λ _, PTH_STATUS_OCCURRED))
  else ret tt.

(** One event in the second pass; the result also says whether some event of the
    thread is no longer pending. *)
Definition late_event (fuel : nat) (rc : Z) (ev : ptr) (acc : fds3 * bool) : M St (fds3 * bool) :=
  let '(sets, any) := acc in
  do x <- lde ev ev_status;
  do ty <- lde ev ev_type;
  do goal <- lde ev ev_goal;
  do args <- lde ev ev_args;
  do sets <-
    (if bool_decide (x = PTH_STATUS_PENDING) then
       if ty =? PTH_EVENT_FD then
         match args with FD fd => late_fd fuel rc ev goal fd sets | _ => ub end
       else if ty =? PTH_EVENT_SELECT then
         match args with SELECT n nfd rp wp ep => late_select fuel rc ev n nfd rp wp ep sets ;; ret sets | _ => ub end
       else if ty =? PTH_EVENT_SIGS then
         match args with SIGS sigs sigp => for_sigs sig_range (late_sig ev sigs sigp) tt ;; ret sets | _ => ub end
       else ret sets
     else if ty =? PTH_EVENT_COND then
       match args with
       | COND cond =>
           do c <- ld conds cond cn_state;
           (if has c PTH_COND_SIGNALED then
              st conds set_conds cond (λ c,
                Cond (Z.land (Z.land (Z.land (cn_state c) (Z.lnot PTH_COND_SIGNALED)) (Z.lnot PTH_COND_BROADCAST))
                             (Z.lnot PTH_COND_HANDLED)) (cn_waiters c))
            else ret tt) ;; ret sets
       | _ => ub
       end
     else ret sets);
  do x <- lde ev ev_status;
  ret (sets, any || negb (bool_decide (x = PTH_STATUS_PENDING))).

(** Move a woken thread to the ready queue with a slightly increased priority. *)
Definition wake (t : ptr) : M St unit :=
  onq WQ (pth_pqueue_delete t) ;;
  stt t (set_state (λ _, PTH_STATE_READY)) ;;
  do p <- ldt t prio;
  do p' <- int_chk (p + 1);
  onq RQ (pth_pqueue_insert p' t).

(** The second pass: late handling, then the threads with an event are moved. *)
Fixpoint em_late (fuel n : nat) (rc : Z) (t : ptr) (sets : fds3) : M St unit :=
  match n with
  | O => ub
  | S n' =>
      if is_null t then ret tt else
      do evh <- ldt t events;
      do (sets, any) <- (if is_null evh then ret (sets, false) else over_ring evh (late_event fuel rc) (sets, false));
      do req <- ldt t cancelreq;
      do t' <- onq WQ (pth_pqueue_walk t PTH_WALK_NEXT);
      (if (any || req : bool) then wake t else ret tt) ;;
      em_late fuel n' rc t' sets
  end.

(** From [loop_entry] to the end of the body; [true] to loop again. *)
Definition em_round (fuel : nat) (now : timeval) (dopoll : bool) : M St bool :=
  do pend <- gets (k_sigpending ∘ kern);
  modify (set_pth_sigpending (λ _, pend)) ;;
  modify (set_pth_sigblock (λ _, sig_all)) ;;
  modify (set_pth_sigcatch (λ _, ∅)) ;;
  modify (set_pth_sigraised (λ _, ∅)) ;;
  do nthreads <- gets (λ s, S (size (threads s)));
  do t <- onq WQ pth_pqueue_head;
  do x <- em_threads nthreads now t em_init;
  let dopoll := dopoll || em_any x in
  do (rc, x) <- em_select fuel now dopoll x;
  do rep <- em_elapsed dopoll rc x;
  do (r, _) <- gets pth_sigpipe;
  do (rc, rf) <- (if negb dopoll && (0 <? rc) then
                    do b <- lift_opt (FD_ISSET r (em_rfds x));
                    if (b : bool) then do rf <- lift_opt (FD_CLR r (em_rfds x)); ret (rc - 1, rf)
                    else ret (rc, em_rfds x)
                  else ret (rc, em_rfds x));
  let sets := if rc <=? 0 then (∅, ∅, ∅) else (rf, em_wfds x, em_efds x) in
  do t <- onq WQ pth_pqueue_head;
  em_late fuel nthreads rc t sets ;;
  ret rep.

(** [pth_sched_eventmanager(&now, dopoll)]; the new value of [now] is returned.  A
    repetition keeps the [dopoll] of the call: it only happens when waiting. *)
Fixpoint pth_sched_eventmanager (fuel : nat) (now : timeval) (dopoll : bool) : M St timeval :=
  match fuel with
  | O => ub
  | S fuel' =>
      do rep <- em_round fuel now dopoll;
      if (rep : bool) then do now' <- gettimeofday; pth_sched_eventmanager fuel' now' dopoll else ret now
  end.

(** ** From the thread back to the top of the loop *)

(** Remove the thread's signals that are still pending for the process. *)
Definition drop_thread_sigs (t : ptr) : M St unit :=
  do c <- ldt t sigpendcnt;
  if 0 <? c then
    do still <- gets (k_sigpending ∘ kern);
    for_sigs sig_range (λ sig _,
      do tp <- ldt t sigpending;
      if bool_decide (sig ∈ tp) then
        if negb (bool_decide (sig ∈ still)) then del_tcb_sig t sig
        else
          do pp <- gets pth_sigpending;
          if negb (bool_decide (sig ∈ pp)) then do _ <- pth_util_sigdelete sig; ret tt else ret tt
      else ret tt) tt
  else ret tt.

Definition SIGSEGV : Z := 11.

(** [true] when the process has to be aborted. *)
Definition check_stack (t : ptr) : M St bool :=
  do g <- ldt t stackguard;
  if is_null g then ret false else
  do v <- ld longs g id;
  if v =? 0xDEAD then ret false else
  do (rc, act) <- sigaction SIGSEGV None;
  if (rc =? 0) && match act with SIG_DFL => true | _ => false end then
    modify (set_kern (k_kill SIGSEGV)) ;;
    modify (set_kern (k_sigsuspend (sig_all ∖ {[ SIGSEGV ]}))) ;;
    ret true
  else
    stt t (set_join_arg (λ _, 0xDEAD%N)) ;;
    stt t (set_state (λ _, PTH_STATE_DEAD)) ;;
    modify (set_kern (k_kill SIGSEGV)) ;;
    ret false.

(** A dead thread is reaped or kept for joining, a waiting one is queued. *)
Definition retire (t : ptr) : M St unit :=
  do x <- ldt t state;
  (if bool_decide (x = PTH_STATE_DEAD) then
     do j <- ldt t joinable;
     (if j =? 0 then pth_tcb_free t else onq DQ (pth_pqueue_insert PTH_PRIO_STD t)) ;;
     modify (set_pth_current (λ _, NULL))
   else ret tt) ;;
  do cur <- gets pth_current;
  if is_null cur then ret tt else
  do x <- ldt cur state;
  if bool_decide (x = PTH_STATE_WAITING) then
    do p <- ldt cur prio;
    onq WQ (pth_pqueue_insert p cur) ;;
    modify (set_pth_current (λ _, NULL))
  else ret tt.

(** Age the ready queue and put the thread back if it is still running. *)
Definition requeue : M St unit :=
  onq RQ pth_pqueue_increase ;;
  do cur <- gets pth_current;
  if is_null cur then ret tt else
  do p <- ldt cur prio;
  onq RQ (pth_pqueue_insert p cur).

(** From the return of control on; the new [snapshot] is returned. *)
Definition sched_back (fuel : nat) : coro timeval :=
  do! snapshot <- atom (
    do sched <- gets pth_sched;
    do e <- ldt sched mctx_error;
    modify (set_errno (λ _, e)) ;;
    do snapshot <- gettimeofday;
    do t <- gets pth_current;
    do last <- ldt t lastran;
    stt t (set_running (λ r, pth_time_add r (pth_time_sub snapshot last))) ;;
    drop_thread_sigs t ;;
    ret snapshot);
  do! t <- atom (gets pth_current);
  do! dead <- atom (check_stack t);
  if (dead : bool) then cabort else
  atom (
    retire t ;;
    requeue ;;
    do nr <- onq RQ pth_pqueue_elements;
    do nn <- onq NQ pth_pqueue_elements;
    pth_sched_eventmanager fuel snapshot (negb ((nr =? 0) && (nn =? 0)))).

(** What [pth_scheduler] does before its loop. *)
Definition sched_boot : M St timeval :=
  do sched <- gets pth_sched;
  stt sched (set_state (λ _, PTH_STATE_SCHEDULER)) ;;
  do _ <- sigprocmask SIG_SETMASK sig_all;
  gettimeofday.

End sched.
