(* ===== verification/Fork.v ===== *)
(** * Forking (pth_fork.c)

The table of fork handlers and [pth_fork].  [fork] itself is a system call of the
[Kernel]: result 0 in the child, the child's process number in the parent, -1 on
failure.  A handler is a callback of the program and runs through [call]; the
loops over the table read [pth_atfork_idx] again before every handler where the
code does. *)
From S2P Require Import State Data Sys Tcb Sched.

Section fork.
Context {Kern : Kernel}.

Definition pth_atfork_push (prepare parent child arg : ptr) : M St bool :=
  do idx <- gets pth_atfork_idx;
  if PTH_ATFORK_MAX - 1 <? idx then pth_error false ENOMEM else
  do l <- gets pth_atfork_list;
  (if (0 <=? idx) && (idx <? Z.of_nat (length l)) then ret tt else ub) ;;
  modify (set_pth_atfork_list (<[Z.to_nat idx := Atfork prepare parent child arg]>)) ;;
  modify (set_pth_atfork_idx (λ i, i + 1)) ;;
  ret true.

Definition pth_atfork_pop : M St bool :=
  do idx <- gets pth_atfork_idx;
  if idx <=? 0 then ret false else
  modify (set_pth_atfork_idx (λ i, i - 1)) ;;
  ret true.

Context {Kn : Knot}.

(** [if (pth_atfork_list[i].h != NULL) pth_atfork_list[i].h(pth_atfork_list[i].arg)] *)
Definition atfork_handler (h : pth_atfork_st → N) (i : nat) : coro unit :=
  do! l <- atom (gets pth_atfork_list);
  do! e <- atom (lift_opt (l !! i));
  if is_null (h e) then cret tt else call (h e) (af_arg e).

(** [for (i = pth_atfork_idx-1; i >= 0; i--)], from [i = n - 1] *)
Fixpoint prepare_loop (n : nat) : coro unit :=
  match n with
  | O => cret tt
  | S i => atfork_handler af_prepare i ;;! prepare_loop i
  end.
(** [for (i = 0; i <= pth_atfork_idx-1; i++)]; the table has [PTH_ATFORK_MAX]
    entries, so that many turns and one more test are enough. *)
Fixpoint fifo_loop (fuel : nat) (h : pth_atfork_st → N) (i : nat) : coro unit :=
  match fuel with
  | O => cfuel
  | S fuel' =>
      do! idx <- atom (gets pth_atfork_idx);
      if Z.of_nat i <=? idx - 1 then atfork_handler h i ;;! fifo_loop fuel' h (S i) else cret tt
  end.
Definition fifo_fuel : nat := S (Z.to_nat PTH_ATFORK_MAX).

Definition pth_fork : coro Z :=
  do! idx <- atom (gets pth_atfork_idx);
  prepare_loop (Z.to_nat idx) ;;!
  do! pid <- atom (kcall_errno k_fork);
  if pid =? -1 then cret 0 else
  (if negb (pid =? 0) then fifo_loop fifo_fuel af_parent 0
   else atom pth_scheduler_drop ;;! fifo_loop fifo_fuel af_child 0) ;;!
  cret pid.

End fork.
