(* ===== verification/Lib.v ===== *)
(** * The main library (pth_lib.c, pth_cancel.c) and the running system

Threads are created, queried, suspended, cancelled, ended and joined here, and the
library is initialised and shut down.  The file also ties the [Knot] of State.v
([knot]) and closes the system: [world] is a state together with the suspended
computation of every thread, and [world_step] runs the thread that the scheduler
has dispatched until it gives up control, then the scheduler up to its next
dispatch. *)
From S2P Require Import State Data Sys Event Tcb Sync Sched.
From S2P Require Str Ring.

(** ** Control and query *)
Definition PTH_CTRL_GETAVLOAD : Z := BIT 1.
Definition PTH_CTRL_GETPRIO : Z := BIT 2.
Definition PTH_CTRL_GETNAME : Z := BIT 3.
Definition PTH_CTRL_GETTHREADS_NEW : Z := BIT 4.
Definition PTH_CTRL_GETTHREADS_READY : Z := BIT 5.
Definition PTH_CTRL_GETTHREADS_RUNNING : Z := BIT 6.
Definition PTH_CTRL_GETTHREADS_WAITING : Z := BIT 7.
Definition PTH_CTRL_GETTHREADS_SUSPENDED : Z := BIT 8.
Definition PTH_CTRL_GETTHREADS_DEAD : Z := BIT 9.
Definition PTH_CTRL_GETTHREADS : Z :=
  Z.lor (Z.lor (Z.lor (Z.lor (Z.lor PTH_CTRL_GETTHREADS_NEW PTH_CTRL_GETTHREADS_READY)
    PTH_CTRL_GETTHREADS_RUNNING) PTH_CTRL_GETTHREADS_WAITING) PTH_CTRL_GETTHREADS_SUSPENDED)
    PTH_CTRL_GETTHREADS_DEAD.
Definition PTH_CTRL_DUMPSTATE : Z := BIT 10.
Definition PTH_CTRL_FAVOURNEW : Z := BIT 11.

(** The [static pth_key_t ev_key] of [pth_join] and [pth_nap]. *)
Definition join_ev_key : N := 3.
Definition nap_ev_key : N := 4.

(** [offsetof(struct pth_st, name)]: two links and two integers precede it. *)
Definition off_name : N := 24.

Section lib.
Context {Kern : Kernel}.

(** [rc += pth_pqueue_elements(&q)] when the bit is asked for *)
Definition ctrl_add (query bit : Z) (q : qid) (rc : Z) : M St Z :=
  if has query bit then do n <- onq q pth_pqueue_elements; ret (s64 (rc + n)) else ret rc.

(** The [long] that is returned, and the [float] that [PTH_CTRL_GETAVLOAD] stores.
    [PTH_CTRL_DUMPSTATE] only prints. *)
Definition pth_ctrl (query : Z) (ap : list va) : M St (Z * option spec_float) :=
  if has query PTH_CTRL_GETTHREADS then
    do rc <- ctrl_add query PTH_CTRL_GETTHREADS_NEW NQ 0;
    do rc <- ctrl_add query PTH_CTRL_GETTHREADS_READY RQ rc;
    let rc := if has query PTH_CTRL_GETTHREADS_RUNNING then s64 (rc + 1) else rc in
    do rc <- ctrl_add query PTH_CTRL_GETTHREADS_WAITING WQ rc;
    do rc <- ctrl_add query PTH_CTRL_GETTHREADS_SUSPENDED SQ rc;
    do rc <- ctrl_add query PTH_CTRL_GETTHREADS_DEAD DQ rc;
    if rc =? -1 then pth_error (-1, None) EINVAL else ret (rc, None)
  else if has query PTH_CTRL_GETAVLOAD then
    do lv <- gets pth_loadval; ret (0, Some lv)
  else if has query PTH_CTRL_GETPRIO then
    do (t, _) <- va_ptr ap;
    do rc <- ldt t prio;
    if rc =? -1 then pth_error (-1, None) EINVAL else ret (rc, None)
  else if has query PTH_CTRL_GETNAME then
    do (t, _) <- va_ptr ap;
    ldt t (λ _, tt) ;;
    let rc := s64 (Z.of_N (t + off_name)) in
    if rc =? -1 then pth_error (-1, None) EINVAL else ret (rc, None)
  else if has query PTH_CTRL_DUMPSTATE then ret (0, None)
  else if has query PTH_CTRL_FAVOURNEW then
    do (favournew, _) <- va_int ap;
    modify (set_pth_favournew (λ _, if favournew =? 0 then 0 else 1)) ;;
    ret (0, None)
  else pth_error (-1, None) EINVAL.

(** ** Creating threads *)

(** [(void *( * )(void * ))(-1)], the start routine of the main thread *)
Definition fp_main : N := 18446744073709551615.
(** the address of [pth_spawn_trampoline] *)
Definition fp_trampoline : N := 9.

(** ["%s.child@%d=0x%lx"] and ["user/%x"] *)
Definition fmt_child : list Z :=
  [37; 115; 46; 99; 104; 105; 108; 100; 64; 37; 100; 61; 48; 120; 37; 108; 120; 0].
Definition fmt_user : list Z := [117; 115; 101; 114; 47; 37; 120; 0].

(** [pth_snprintf(t->name, PTH_TCB_NAMELEN, fmt, ..)] *)
Definition snprintf_name (t : ptr) (fmt : list Z) (args : list Str.arg) : M St unit :=
  do nm <- ldt t name;
  do p <- lift_opt (Str.pth_snprintf (Some nm) (Z.of_nat PTH_TCB_NAMELEN) fmt args);
  do nm' <- lift_opt (Str.p_buf p);
  stt t (set_name (λ _, nm')).

(** The attributes of a new thread. *)
Definition spawn_attrs (t attr : ptr) : M St unit :=
  if negb (is_null attr) then
    do p <- lda attr a_prio; stt t (set_prio (λ _, p)) ;;
    do j <- lda attr a_joinable; stt t (set_joinable (λ _, j)) ;;
    do c <- lda attr a_cancelstate; stt t (set_cancelstate (λ _, c)) ;;
    do d <- lda attr a_dispatches; stt t (set_dispatches (λ _, d)) ;;
    do nm <- ldt t name;
    do src <- lda attr a_name;
    do (nm', _) <- lift_opt (pth_util_cpystrn nm src PTH_TCB_NAMELEN);
    stt t (set_name (λ _, nm'))
  else
  do cur <- gets pth_current;
  if negb (is_null cur) then
    do p <- ldt cur prio; stt t (set_prio (λ _, p)) ;;
    do j <- ldt cur joinable; stt t (set_joinable (λ _, j)) ;;
    do c <- ldt cur cancelstate; stt t (set_cancelstate (λ _, c)) ;;
    stt t (set_dispatches (λ _, 0)) ;;
    do nm <- ldt cur name;
    do now <- kcall k_time;
    snprintf_name t fmt_child [Str.AString (Some nm); Str.AInt32 (s32 now); Str.ALong (s64 (Z.of_N cur))]
  else
    stt t (set_prio (λ _, PTH_PRIO_STD)) ;;
    stt t (set_joinable (λ _, 1)) ;;
    stt t (set_cancelstate (λ _, PTH_CANCEL_DEFAULT)) ;;
    stt t (set_dispatches (λ _, 0)) ;;
    do now <- kcall k_time;
    snprintf_name t fmt_user [Str.AInt32 (s32 now)].

(** The members that every new thread starts with. *)
Definition spawn_fields (t func arg : ptr) : M St unit :=
  do ts <- gettimeofday;
  stt t (set_spawned (λ _, ts)) ;;
  stt t (set_lastran (λ _, ts)) ;;
  stt t (set_running (λ _, pth_time_zero)) ;;
  stt t (set_events (λ _, NULL)) ;;
  stt t (set_sigpending (λ _, ∅)) ;;
  stt t (set_sigpendcnt (λ _, 0)) ;;
  stt t (set_start_func (λ _, func)) ;;
  stt t (set_start_arg (λ _, arg)) ;;
  stt t (set_join_arg (λ _, NULL)) ;;
  stt t (set_data_value (λ _, None)) ;;
  stt t (set_data_count (λ _, 0)) ;;
  stt t (set_cancelreq (λ _, false)) ;;
  stt t (set_cleanups (λ _, NULL)) ;;
  on_mutexring t Ring.pth_ring_init.

Definition pth_spawn (attr func arg : ptr) : M St N :=
  if is_null func then pth_error NULL EINVAL else
  let func := if bool_decide (func = fp_main) then NULL else func in
  do stacksize0 <- (if is_null attr then ret 65536 else lda attr a_stacksize);
  do stackaddr <- (if is_null attr then ret NULL else lda attr a_stackaddr);
  do t <- pth_tcb_alloc stacksize0 stackaddr;
  if is_null t then do e <- gets errno; pth_error NULL e else
  spawn_attrs t attr ;;
  spawn_fields t func arg ;;
  do ssz <- ldt t stacksize;
  do stk <- ldt t stack;
  do ok <- (if 0 <? ssz then pth_mctx_set t fp_trampoline stk (stk + Z.to_N ssz)%N else ret true);
  if negb ok then
    pth_shield (pth_tcb_free t) ;; do e <- gets errno; pth_error NULL e
  else
  (if negb (bool_decide (func = fp_scheduler)) then
     stt t (set_state (λ _, PTH_STATE_NEW)) ;;
     do p <- ldt t prio;
     onq NQ (pth_pqueue_insert p t)
   else ret tt) ;;
  ret t.

Definition pth_self : M St N := gets pth_current.

(** ** Queues a thread may be in *)

(** [switch (t->state)] of [pth_suspend], [pth_resume] and [pth_cancel] *)
Definition state_queue (x : pth_state) : option qid :=
  match x with
  | PTH_STATE_NEW => Some NQ
  | PTH_STATE_READY => Some RQ
  | PTH_STATE_WAITING => Some WQ
  | _ => None
  end.

Definition pth_thread_exists (t : ptr) : M St bool :=
  do a <- onq NQ (pth_pqueue_contains t); if (a : bool) then ret true else
  do a <- onq RQ (pth_pqueue_contains t); if (a : bool) then ret true else
  do a <- onq WQ (pth_pqueue_contains t); if (a : bool) then ret true else
  do a <- onq SQ (pth_pqueue_contains t); if (a : bool) then ret true else
  do a <- onq DQ (pth_pqueue_contains t); if (a : bool) then ret true else
  pth_error false ESRCH.

Definition pth_suspend (t : ptr) : M St bool :=
  if is_null t then pth_error false EINVAL else
  do sched <- gets pth_sched;
  do cur <- gets pth_current;
  if bool_decide (t = sched) || bool_decide (t = cur) then pth_error false EPERM else
  do x <- ldt t state;
  match state_queue x with
  | None => pth_error false EPERM
  | Some q =>
      do here <- onq q (pth_pqueue_contains t);
      if negb here then pth_error false ESRCH else
      onq q (pth_pqueue_delete t) ;;
      onq SQ (pth_pqueue_insert PTH_PRIO_STD t) ;;
      ret true
  end.

Definition pth_resume (t : ptr) : M St bool :=
  if is_null t then pth_error false EINVAL else
  do sched <- gets pth_sched;
  do cur <- gets pth_current;
  if bool_decide (t = sched) || bool_decide (t = cur) then pth_error false EPERM else
  do here <- onq SQ (pth_pqueue_contains t);
  if negb here then pth_error false EPERM else
  onq SQ (pth_pqueue_delete t) ;;
  do x <- ldt t state;
  onq_opt (state_queue x) (pth_pqueue_insert PTH_PRIO_STD t) ;;
  ret true.

(** [pth_raise]: the signal is noted before the thread is favoured. *)
Definition raise_note (t : ptr) (sig : Z) : M St unit :=
  do tp <- ldt t sigpending;
  if bool_decide (sig ∈ tp) then ret tt else
  stt t (set_sigpending (λ ss, {[ sig ]} ∪ ss)) ;;
  do c <- ldt t sigpendcnt;
  do c' <- int_chk (c + 1);
  stt t (set_sigpendcnt (λ _, c')).
Definition pth_raise (t : ptr) (sig : Z) : coro bool :=
  do! cur <- atom (gets pth_current);
  if is_null t || bool_decide (t = cur) || ((sig <? 0) || (PTH_NSIG <? sig)) then atom (pth_error false EINVAL)
  else if sig =? 0 then atom (pth_thread_exists t)
  else
    do! (rc, sa) <- atom (sigaction sig None);
    if negb (rc =? 0) then cret false else
    match sa with
    | SIG_IGN => cret true
    | _ => atom (raise_note t sig) ;;! do! _ <- pth_yield t; cret true
    end.

(** ** Ending threads *)
Context {Kn : Knot}.

Definition pth_thread_cleanup (fuel : nat) (thread : ptr) : coro unit :=
  do! cl <- atom (ldt thread cleanups);
  (if negb (is_null cl) then pth_cleanup_popall fuel thread true else cret tt) ;;!
  do! dv <- atom (ldt thread data_value);
  (match dv with Some _ => pth_key_destroydata thread | None => cret tt end) ;;!
  atom (pth_mutex_releaseall thread).

(** [pth_syscall_init] and [pth_syscall_kill] do nothing without hard syscall
    mapping, which pth.h switches off. *)
Definition pth_syscall_init : M St unit := ret tt.
Definition pth_syscall_kill : M St unit := ret tt.

Definition pth_kill (fuel : nat) : coro bool :=
  do! ini <- atom (gets pth_initialized);
  if negb ini then atom (pth_error false EINVAL) else
  do! cur <- atom (gets pth_current);
  do! main <- atom (gets pth_main);
  if negb (bool_decide (cur = main)) then atom (pth_error false EPERM) else
  pth_thread_cleanup fuel main ;;!
  atom (pth_scheduler_kill ;;
        modify (set_pth_initialized (λ _, false)) ;;
        do sched <- gets pth_sched;
        pth_tcb_free sched ;;
        do main <- gets pth_main;
        pth_tcb_free main ;;
        pth_syscall_kill) ;;!
  cret true.

(** [pth_event(PTH_EVENT_FUNC, pth_exit_cb)] passes fewer arguments than the
    function event reads: [garbage] is what [va_arg] finds in their place. *)
Definition pth_exit (garbage : N * timeval) (fuel : nat) (value : ptr) : coro unit :=
  do! cur <- atom (gets pth_current);
  do! main <- atom (gets pth_main);
  (if bool_decide (cur = main) then
     do! rc <- atom pth_exit_cb;
     if rc =? 0 then
       do! ev <- atom (pth_event PTH_EVENT_FUNC [VPtr fp_exit_cb; VPtr garbage.1; VTime garbage.2]);
       do! _ <- pth_wait ev;
       do! _ <- atom (pth_event_free ev PTH_FREE_THIS);
       cret tt
     else cret tt
   else cret tt) ;;!
  do! cur <- atom (gets pth_current);
  pth_thread_cleanup fuel cur ;;!
  do! cur <- atom (gets pth_current);
  do! main <- atom (gets pth_main);
  (if negb (bool_decide (cur = main)) then
     atom (stt cur (set_join_arg (λ _, value))) ;;!
     atom (stt cur (set_state (λ _, PTH_STATE_DEAD))) ;;!
     switch_to_sched
   else
     do! _ <- pth_kill fuel;
     cexit (s32 (Z.of_N value))) ;;!
  cabort.

(** The result and, through [value], the exit value of the joined thread. *)
Definition pth_join (tid : ptr) : coro (bool * option N) :=
  do! cur <- atom (gets pth_current);
  if bool_decide (tid = cur) then atom (pth_error (false, None) EDEADLK) else
  do! j <- (if is_null tid then cret 1 else atom (ldt tid joinable));
  if j =? 0 then atom (pth_error (false, None) EINVAL) else
  do! (n, _) <- atom (pth_ctrl PTH_CTRL_GETTHREADS []);
  if n =? 1 then atom (pth_error (false, None) EDEADLK) else
  do! tid <- (if is_null tid then atom (onq DQ pth_pqueue_head) else cret tid);
  do! dead <- (if is_null tid then cret false else
               do! x <- atom (ldt tid state); cret (bool_decide (x = PTH_STATE_DEAD)));
  (if negb dead then
     do! ev <- atom (pth_event (Z.lor (Z.lor PTH_EVENT_TID PTH_UNTIL_TID_DEAD) PTH_MODE_STATIC)
                               [VPtr join_ev_key; VPtr tid]);
     do! _ <- pth_wait ev; cret tt
   else cret tt) ;;!
  do! tid <- (if is_null tid then atom (onq DQ pth_pqueue_head) else cret tid);
  do! dead <- (if is_null tid then cret false else
               do! x <- atom (ldt tid state); cret (bool_decide (x = PTH_STATE_DEAD)));
  if negb dead then atom (pth_error (false, None) EIO) else
  do! v <- atom (ldt tid join_arg);
  atom (onq DQ (pth_pqueue_delete tid)) ;;!
  atom (pth_tcb_free tid) ;;!
  cret (true, Some v).

Definition pth_cancel (fuel : nat) (thread : ptr) : coro bool :=
  if is_null thread then atom (pth_error false EINVAL) else
  do! cur <- atom (gets pth_current);
  if bool_decide (thread = cur) then atom (pth_error false EINVAL) else
  do! x <- atom (ldt thread state);
  if bool_decide (x = PTH_STATE_DEAD) then atom (pth_error false EPERM) else
  atom (stt thread (set_cancelreq (λ _, true))) ;;!
  do! cs <- atom (ldt thread cancelstate);
  if has cs PTH_CANCEL_ENABLE && has cs PTH_CANCEL_ASYNCHRONOUS then
    do! x <- atom (ldt thread state);
    match state_queue x with
    | None => atom (pth_error false ESRCH)
    | Some q =>
        do! here <- atom (onq q (pth_pqueue_contains thread));
        if negb here then atom (pth_error false ESRCH) else
        atom (onq q (pth_pqueue_delete thread)) ;;!
        pth_thread_cleanup fuel thread ;;!
        do! j <- atom (ldt thread joinable);
        (if j =? 0 then atom (pth_tcb_free thread)
         else
           atom (stt thread (set_join_arg (λ _, PTH_CANCELED))) ;;!
           atom (stt thread (set_state (λ _, PTH_STATE_DEAD))) ;;!
           atom (onq DQ (pth_pqueue_insert PTH_PRIO_STD thread))) ;;!
        cret true
    end
  else cret true.

Definition pth_abort (fuel : nat) (thread : ptr) : coro bool :=
  if is_null thread then atom (pth_error false EINVAL) else
  do! cur <- atom (gets pth_current);
  if bool_decide (thread = cur) then atom (pth_error false EINVAL) else
  do! x <- atom (ldt thread state);
  do! j <- atom (ldt thread joinable);
  if bool_decide (x = PTH_STATE_DEAD) && negb (j =? 0) then
    do! (ok, _) <- pth_join thread; cret ok
  else
    atom (stt thread (set_joinable (λ _, 0))) ;;!
    atom (stt thread (set_cancelstate (λ _, Z.lor PTH_CANCEL_ENABLE PTH_CANCEL_ASYNCHRONOUS))) ;;!
    pth_cancel fuel thread.

(** ** Waiting for time to pass, running once *)
Definition pth_nap (naptime : timeval) : coro bool :=
  if pth_time_cmp naptime pth_time_zero =? 0 then atom (pth_error false EINVAL) else
  do! now <- atom gettimeofday;
  let until := pth_time_add now naptime in
  do! ev <- atom (pth_event (Z.lor PTH_EVENT_TIME PTH_MODE_STATIC) [VPtr nap_ev_key; VTime until]);
  do! _ <- pth_wait ev;
  cret true.

Definition pth_once (oncectrl constructor arg : ptr) : coro bool :=
  if is_null oncectrl || is_null constructor then atom (pth_error false EINVAL) else
  do! o <- atom (ld ints oncectrl id);
  (if negb (o =? 1) then call constructor arg else cret tt) ;;!
  atom (st ints set_ints oncectrl (λ _, 1)) ;;!
  cret true.

(** ** Initialisation *)

(** ["**SCHEDULER**"] and ["main"] *)
Definition str_scheduler : list Z := [42; 42; 83; 67; 72; 69; 68; 85; 76; 69; 82; 42; 42; 0].
Definition str_main : list Z := [109; 97; 105; 110; 0].

(** The six [pth_attr_set] calls before a spawn, in the order of [PTH_ATTR_PRIO]. *)
Definition init_attrs (a : ptr) (prio : Z) (nm : list Z) (joinable cancel stacksize : Z) : M St unit :=
  do _ <- pth_attr_set a 0 (AInt prio);
  do _ <- pth_attr_set a 1 (AStr nm);
  do _ <- pth_attr_set a 2 (AInt joinable);
  do _ <- pth_attr_set a 3 (AUint cancel);
  do _ <- pth_attr_set a 4 (AUint stacksize);
  do _ <- pth_attr_set a 5 (AChars NULL);
  ret tt.
Definition init_failed (a : ptr) : M St bool :=
  pth_shield (do _ <- pth_attr_destroy a; pth_scheduler_kill ;; pth_syscall_kill) ;; ret false.

(** Up to the first switch: [true] when both threads were created. *)
Definition init_threads : M St bool :=
  do a <- pth_attr_new;
  init_attrs a PTH_PRIO_MAX str_scheduler 0 PTH_CANCEL_DISABLE 65536 ;;
  do sched <- pth_spawn a fp_scheduler NULL;
  modify (set_pth_sched (λ _, sched)) ;;
  if is_null sched then init_failed a else
  init_attrs a PTH_PRIO_STD str_main 1 (Z.lor PTH_CANCEL_ENABLE PTH_CANCEL_DEFERRED) 0 ;;
  do main <- pth_spawn a fp_main NULL;
  modify (set_pth_main (λ _, main)) ;;
  if is_null main then init_failed a else
  do _ <- pth_attr_destroy a;
  do sched <- gets pth_sched;
  modify (set_pth_current (λ _, sched)) ;;
  ret true.

Definition pth_init : coro bool :=
  do! ini <- atom (gets pth_initialized);
  if (ini : bool) then atom (pth_error false EPERM) else
  atom (modify (set_pth_initialized (λ _, true))) ;;!
  atom pth_syscall_init ;;!
  do! ok <- atom pth_scheduler_init;
  if negb ok then atom (pth_shield pth_syscall_kill ;; pth_error false EAGAIN) else
  do! ok <- atom init_threads;
  if negb ok then cret false else
  do! main <- atom (gets pth_main);
  do! e <- atom (gets errno);
  atom (stt main (set_mctx_error (λ _, e))) ;;!
  to_scheduler ;;!
  do! main <- atom (gets pth_main);
  do! e <- atom (ldt main mctx_error);
  atom (modify (set_errno (λ _, e))) ;;!
  cret true.

End lib.

(** ** Tying the knot

[fuel] bounds the nesting of callbacks and exits, and every loop inside them. *)
Section knot.
Context {Kern : Kernel} {Ap : App} (garbage : N * timeval).

Fixpoint knot (fuel : nat) : Knot :=
  match fuel with
  | O => {| call := λ _ _, cfuel; kexit := λ _, cfuel |}
  | S n =>
      let Kn := knot n in
      {| call := λ f a,
           if bool_decide (f = fp_event_destructor) then atom (pth_event_destructor a)
           else if bool_decide (f = fp_cond_cleanup) then pth_cond_cleanup_handler n a
           else app_call f a;
         kexit := pth_exit garbage n |}
  end.

(** [pth_spawn_trampoline] *)
Definition pth_spawn_trampoline (fuel : nat) : coro unit :=
  do! cur <- atom (gets pth_current);
  do! f <- atom (ldt cur start_func);
  do! a <- atom (ldt cur start_arg);
  do! data <- app_start f a;
  pth_exit (Kn := knot fuel) garbage fuel data ;;!
  cabort.

(** ** The running system *)
Record world := World {
  w_st : St;
  w_conts : gmap N (coro unit);  (** where each thread that has run continues *)
}.
Inductive progress :=
  | Running (w : world) (snapshot : timeval)
  | Exited (code : Z) (s : St) | Aborted (s : St) | Undefined | OutOfFuel.

(** The scheduler from the top of its loop to the dispatch. *)
Definition world_dispatch (conts : gmap N (coro unit)) (snapshot : timeval) (s : St) : progress :=
  match sched_dispatch snapshot s with
  | ORet _ s' => Running (World s' conts) snapshot
  | OAbort s' => Aborted s'
  | OExit c s' => Exited c s'
  | OFuel => OutOfFuel
  | _ => Undefined
  end.

(** The scheduler from the return of control to the next dispatch. *)
Definition world_sched (fuel : nat) (conts : gmap N (coro unit)) (s : St) : progress :=
  match sched_back fuel s with
  | ORet snapshot s' => world_dispatch conts snapshot s'
  | OAbort s' => Aborted s'
  | OExit c s' => Exited c s'
  | OFuel => OutOfFuel
  | _ => Undefined
  end.

(** The dispatched thread runs until its next switch; a thread that has not run
    before starts in the trampoline.  A main thread that returns ends the process. *)
Definition world_step (fuel : nat) (w : world) : progress :=
  let cur := pth_current (w_st w) in
  match default (pth_spawn_trampoline fuel) (w_conts w !! cur) (w_st w) with
  | ORet _ s => Exited 0 s
  | OSwitch s k => world_sched fuel (<[pth_current s := k]> (w_conts w)) s
  | OExit c s => Exited c s
  | OAbort s => Aborted s
  | OUndef => Undefined
  | OFuel => OutOfFuel
  end.

(** [main] starts before there are threads; its first switch is in [pth_init], on
    behalf of the main thread, and starts the scheduler. *)
Definition world_boot (main : coro unit) (s : St) : progress :=
  match main s with
  | OSwitch s k =>
      match sched_boot s with
      | Some (snapshot, s') => world_dispatch {[ pth_main s := k ]} snapshot s'
      | None => Undefined
      end
  | ORet _ s => Exited 0 s
  | OExit c s => Exited c s
  | OAbort s => Aborted s
  | OUndef => Undefined
  | OFuel => OutOfFuel
  end.

Fixpoint world_run (steps fuel : nat) (p : progress) : progress :=
  match steps with
  | O => p
  | S n => match p with Running w _ => world_run n fuel (world_step fuel w) | _ => p end
  end.

End knot.
