(* ===== verification/High.v ===== *)
(** * High-level replacement functions (pth_high.c, first part)

The thread-aware variants of [nanosleep], [usleep], [sleep], [sigprocmask],
[sigwait], [waitpid], [system], [select], [pselect] and [poll].  The system calls
that only pth_high.c makes are the class [IoKernel].  Objects that the caller
passes by address are in the heaps of the state ([fdsets], [ints], [sigsets],
[pollfds], [mem]); a [struct timeval] or [struct timespec] is passed by value and
the new value returned where the code writes it.  [select] leaves its sets and its
timeout alone when it fails.  Loops that repeat an interrupted system call, and
waiting loops, take fuel. *)
From S2P Require Import State Data Sys Event Tcb Sync Sched Fork Lib.

(** The results carry the return value and [errno]. *)
Class IoKernel {Kern : Kernel} := {
  k_waitpid : Z → Z → K → (Z * Z * Z) * K;              (** pid, options: and the status *)
  k_stat_binsh : K → bool;
  k_execl_sh : N → K → option Z * K;                     (** the exit code of the new program, unless it fails *)
  k_connect : Z → list Z → K → (Z * Z) * K;
  k_so_error : Z → K → (Z * Z * Z) * K;                  (** [getsockopt(s, SOL_SOCKET, SO_ERROR)] *)
  k_accept : Z → K → (Z * Z * list Z) * K;               (** and the peer's address *)
  k_peek : Z → Z → K → (Z * Z) * K;                      (** [recv(fd, data, n, MSG_PEEK)] *)
  k_recvfrom : Z → Z → Z → K → (Z * Z * list Z * list Z) * K;
  k_sendto : Z → list Z → Z → option (list Z) → K → (Z * Z) * K;
  k_readv : Z → list Z → K → (Z * Z * list Z) * K;       (** the lengths; the data *)
  k_writev : Z → list (list Z) → K → (Z * Z) * K;
  k_lseek : Z → Z → bool → K → (Z * Z) * K;              (** [true]: [SEEK_SET], [false]: [SEEK_CUR] *)
}.

Definition ECONNABORTED : Z := 103.
Definition ECONNRESET : Z := 104.
Definition ENETRESET : Z := 102.
Definition ESHUTDOWN : Z := 108.
Definition EINPROGRESS : Z := 115.
Definition EWOULDBLOCK : Z := EAGAIN.
Definition SIGINT : Z := 2.
Definition SIGQUIT : Z := 3.
Definition SIGCHLD : Z := 17.
Definition WNOHANG : Z := 1.

(** The [static pth_key_t ev_key] of each function. *)
Definition nanosleep_ev_key : N := 11.
Definition usleep_ev_key : N := 12.
Definition sleep_ev_key : N := 13.
Definition sigwait_ev_key : N := 14.
Definition waitpid_ev_key : N := 15.
Definition select_ev_key_select : N := 16.
Definition select_ev_key_timeout : N := 17.

Section high.
Context {Kern : Kernel} {IoK : IoKernel}.

(** ** Stack cells and user memory *)
Definition ldu {V A} (h : user → gmap N V) (p : ptr) (f : V → A) : M St A := ld (h ∘ usr) p f.
Definition stu {V} (h : user → gmap N V) (upd : (gmap N V → gmap N V) → user → user) (p : ptr) (g : V → V)
  : M St unit := st (h ∘ usr) (λ f, set_usr (upd f)) p g.

(** A local variable of type [int], or [fd_set], whose address is taken. *)
Definition new_int (v : Z) : M St N :=
  do p <- gets brk;
  modify (set_brk (λ b, (b + 4)%N)) ;; modify (set_ints (<[p := v]>)) ;; ret p.
Definition new_fdset (f : gset Z) : M St N :=
  do p <- gets brk;
  modify (set_brk (λ b, (b + 128)%N)) ;; modify (set_fdsets (<[p := f]>)) ;; ret p.
Definition drop_int (p : ptr) : M St unit := modify (set_ints (delete p)).
Definition drop_fdset (p : ptr) : M St unit := modify (set_fdsets (delete p)).
Definition st_int (p : ptr) (v : Z) : M St unit := st ints set_ints p (λ _, v).

(** [while ((n = call) < 0 && errno == EINTR) ;] *)
Fixpoint retry (fuel : nat) (m : M St Z) : M St Z :=
  match fuel with
  | O => ub
  | S fuel' =>
      do n <- m;
      do e <- gets errno;
      if (n <? 0) && (e =? EINTR) then retry fuel' m else ret n
  end.

(** The same for [select]; no signal of the event manager is caught here. *)
Fixpoint poll_select (fuel : nat) (nfd : Z) (r w e : option fdset) (tv : option timeval)
  : M St (Z * option fdset * option fdset * option fdset) :=
  match fuel with
  | O => ub
  | S fuel' =>
      do res <- kcall (k_select nfd r w e tv);
      (if sel_rc res <? 0 then modify (set_errno (λ _, sel_errno res)) else ret tt) ;;
      if (sel_rc res <? 0) && (sel_errno res =? EINTR) then poll_select fuel' nfd r w e tv
      else ret (sel_rc res, sel_rfds res, sel_wfds res, sel_efds res)
  end.

(** [pth_implicit_init()] *)
Definition pth_implicit_init : coro unit :=
  do! ini <- atom (gets pth_initialized);
  if (ini : bool) then cret tt else do! _ <- pth_init; cret tt.

Context {Ap : App} {Kn : Knot}.

(** [if (ev_extra != NULL) pth_event_concat(ev, ev_extra, NULL); pth_wait(ev);
    if (ev_extra != NULL) { pth_event_isolate(ev); .. }]: [false] when the extra
    events ended the wait, [ev] having not occurred. *)
Definition concat_extra (ev ev_extra : ptr) : M St unit :=
  if is_null ev_extra then ret tt else do _ <- pth_event_concat ev [ev_extra; NULL]; ret tt.
Definition isolate_extra (ev ev_extra : ptr) : M St bool :=
  if is_null ev_extra then ret true else
  do _ <- pth_event_isolate ev;
  do x <- pth_event_status ev;
  ret (bool_decide (x = PTH_STATUS_OCCURRED)).
Definition wait_extra (ev ev_extra : ptr) : coro bool :=
  atom (concat_extra ev ev_extra) ;;!
  do! _ <- pth_wait ev;
  atom (isolate_extra ev ev_extra).

(** ** Sleeping *)

(** [struct timespec] *)
Record timespec := Ts { ts_sec : Z; ts_nsec : Z }.

(** [pth_time_usleep(usec)] of pth_time.c, which blocks the whole process: the system's
    [nanosleep(&ts, &ts)], a parameter, is repeated while it is interrupted. *)
Fixpoint usleep_loop (nanosleep : timespec → M St (Z * timespec)) (fuel : nat) (ts : timespec) : M St unit :=
  match fuel with
  | O => ub
  | S fuel' =>
      do (rc, ts) <- nanosleep ts;
      do e <- gets errno;
      if (rc <? 0) && (e =? EINTR) then usleep_loop nanosleep fuel' ts else ret tt
  end.
Definition pth_time_usleep (nanosleep : timespec → M St (Z * timespec)) (fuel : nat) (usec : Z) : M St unit :=
  usleep_loop nanosleep fuel (Ts (usec / 1000000) (usec mod 1000000 * 1000)).

(** It ends if every interruption leaves less time to sleep. *)
Lemma usleep_ends nanosleep fuel ts s :
  let ns ts := ts_sec ts * 1000000000 + ts_nsec ts in
  (∀ ts s, ∃ rc ts' s', nanosleep ts s = Some ((rc, ts'), s') ∧ (rc < 0 → 0 ≤ ns ts' < ns ts)) →
  0 ≤ ns ts < Z.of_nat fuel → is_Some (usleep_loop nanosleep fuel ts s).
Proof.
  intros ns Hns. revert ts s. induction fuel as [|fuel IH]; intros ts s Hts; [lia|]. cbn [usleep_loop].
  destruct (Hns ts s) as (rc & ts' & s' & Hrun & Hless). rewrite (bind_run _ _ _ _ _ Hrun). erewrite bind_run by reflexivity.
  destruct (Z.ltb_spec rc 0); [|by eexists]. cbn [andb]. destruct (errno s' =? EINTR); [|by eexists]. apply IH. lia.
Qed.

(** The result and what is stored in [*rmtp]. *)
Definition pth_nanosleep (rqtp : option timespec) (rmtp : bool) : coro (Z * option timespec) :=
  match rqtp with
  | None => atom (pth_error (-1, None) EFAULT)
  | Some ts =>
      if (ts_nsec ts <? 0) || (1000 * 1000000 <? ts_nsec ts) then atom (pth_error (-1, None) EINVAL)
      else if (ts_sec ts =? 0) && (ts_nsec ts =? 0) then cret (0, None)
      else
        let offset := pth_time (ts_sec ts) (ts_nsec ts ÷ 1000) in
        do! now <- atom gettimeofday;
        let until := pth_time_add now offset in
        do! ev <- atom (pth_event (Z.lor PTH_EVENT_TIME PTH_MODE_STATIC) [VPtr nanosleep_ev_key; VTime until]);
        if is_null ev then do! e <- atom (gets errno); atom (pth_error (-1, None) e) else
        do! _ <- pth_wait ev;
        if rmtp then
          do! now <- atom gettimeofday;
          let left := pth_time_sub until now in
          cret (0, Some (Ts (tv_sec left) (s64 (tv_usec left * 1000))))
        else cret (0, None)
  end.

Definition pth_usleep (usec : Z) : coro Z :=
  if usec =? 0 then cret 0 else
  let offset := pth_time (usec / 1000000) (usec mod 1000000) in
  do! now <- atom gettimeofday;
  let until := pth_time_add now offset in
  do! ev <- atom (pth_event (Z.lor PTH_EVENT_TIME PTH_MODE_STATIC) [VPtr usleep_ev_key; VTime until]);
  if is_null ev then do! e <- atom (gets errno); atom (pth_error (-1) e) else
  do! _ <- pth_wait ev;
  cret 0.

Definition pth_sleep (sec : Z) : coro Z :=
  if sec =? 0 then cret 0 else
  let offset := pth_time sec 0 in
  do! now <- atom gettimeofday;
  let until := pth_time_add now offset in
  do! ev <- atom (pth_event (Z.lor PTH_EVENT_TIME PTH_MODE_STATIC) [VPtr sleep_ev_key; VTime until]);
  if is_null ev then cret sec else
  do! _ <- pth_wait ev;
  cret 0.

(** ** Signals *)

(** [sigprocmask] with a possibly missing new set. *)
Definition sigprocmask_opt (how : sig_how) (set : option (gset Z)) : M St (gset Z) :=
  match set with Some ss => sigprocmask how ss | None => sigprocmask SIG_BLOCK ∅ end.

(** The return value and the mask stored in [*oset]. *)
Definition pth_sigmask (how : sig_how) (set : option (gset Z)) : M St (Z * gset Z) :=
  (match set with
   | Some _ =>
       do cur <- gets pth_current;
       do ms <- ldt cur mctx_sigs;
       do _ <- sigprocmask how ms; ret tt
   | None => ret tt
   end) ;;
  do old <- sigprocmask_opt how set;
  ret (0, old).

(** The first signal of [sig_range] that is waited for and pending is consumed. *)
Fixpoint sigwait_scan (sigs : list Z) (set pending : gset Z) (sigp : ptr) : M St bool :=
  match sigs with
  | [] => ret false
  | sig :: sigs' =>
      if bool_decide (sig ∈ set) && bool_decide (sig ∈ pending) then
        do _ <- pth_util_sigdelete sig; st_int sigp sig ;; ret true
      else sigwait_scan sigs' set pending sigp
  end.

Definition pth_sigwait_ev (set sigp ev_extra : ptr) : coro Z :=
  if is_null set || is_null sigp then atom (pth_error EINVAL EINVAL) else
  do! pending <- atom (gets (k_sigpending ∘ kern));
  do! ss <- atom (ld sigsets set id);
  do! found <- atom (sigwait_scan sig_range ss pending sigp);
  if (found : bool) then cret 0 else
  do! ev <- atom (pth_event (Z.lor PTH_EVENT_SIGS PTH_MODE_STATIC) [VPtr sigwait_ev_key; VPtr set; VPtr sigp]);
  if is_null ev then do! e <- atom (gets errno); atom (pth_error e e) else
  do! ok <- wait_extra ev ev_extra;
  if negb ok then atom (pth_error EINTR EINTR) else cret 0.
Definition pth_sigwait (set sigp : ptr) : coro Z := pth_sigwait_ev set sigp NULL.

(** ** Processes *)

(** [waitpid(wpid, status, options|WNOHANG)], storing the status of a child *)
Definition waitpid_poll (wpid : Z) (status : ptr) (options : Z) : M St Z :=
  do (pid, e, stat) <- kcall (k_waitpid wpid (Z.lor options WNOHANG));
  (if pid =? -1 then modify (set_errno (λ _, e)) else ret tt) ;;
  (if (0 <? pid) && negb (is_null status) then st_int status stat else ret tt) ;;
  ret pid.

Fixpoint pth_waitpid (fuel : nat) (wpid : Z) (status : ptr) (options : Z) : coro Z :=
  match fuel with
  | O => cfuel
  | S fuel' =>
      do! pid <- atom (retry fuel (waitpid_poll wpid status options));
      if (pid =? -1) || (0 <? pid) || ((pid =? 0) && has options WNOHANG) then cret pid else
      do! until <- atom (pth_timeout 0 250000);
      do! ev <- atom (pth_event (Z.lor PTH_EVENT_TIME PTH_MODE_STATIC) [VPtr waitpid_ev_key; VTime until]);
      do! _ <- pth_wait ev;
      pth_waitpid fuel' wpid status options
  end.

(** Restore the dispositions that [pth_system] has changed. *)
Definition system_restore (sa_int sa_quit : sigact) (ss_old : gset Z) : M St unit :=
  do _ <- sigaction SIGINT (Some sa_int);
  do _ <- sigaction SIGQUIT (Some sa_quit);
  do _ <- sigprocmask SIG_SETMASK ss_old;
  ret tt.

Definition pth_system (fuel : nat) (cmd : ptr) : coro Z :=
  if is_null cmd then do! sh <- atom (gets (k_stat_binsh ∘ kern)); cret (if (sh : bool) then 1 else 0) else
  do! (_, sa_int) <- atom (sigaction SIGINT (Some SIG_IGN));
  do! (_, sa_quit) <- atom (sigaction SIGQUIT (Some SIG_IGN));
  do! ss_old <- atom (sigprocmask SIG_BLOCK {[ SIGCHLD ]});
  do! pstat <- atom (new_int (-1));
  do! pid <- pth_fork;
  do! pid <-
    (if pid =? -1 then cret pid
     else if pid =? 0 then
       atom (system_restore sa_int sa_quit ss_old) ;;!
       atom pth_scheduler_kill ;;!
       do! r <- atom (kcall (k_execl_sh cmd));
       match r with Some code => cexit code | None => cexit 127 end
     else pth_waitpid fuel pid pstat 0);
  atom (system_restore sa_int sa_quit ss_old) ;;!
  do! stat <- atom (ld ints pstat id);
  atom (drop_int pstat) ;;!
  cret (if pid =? -1 then -1 else stat).

(** ** [select] *)
Definition fd_zero (p : ptr) : M St unit := st_fdset p (Some ∅).

(** The checks at the start: [None] when they fail, else the timeout to use. *)
Definition select_timeout (nfd : Z) (timeout : option timeval) : option (option timeval) :=
  if FD_SETSIZE <? nfd then None else
  match timeout with
  | None => Some None
  | Some tv =>
      if (tv_sec tv <? 0) || (tv_usec tv <? 0) || (1000000 <=? tv_usec tv) then None
      else Some (Some (if 31 * 24 * 60 * 60 <? tv_sec tv then Tv (31 * 24 * 60 * 60) (tv_usec tv) else tv))
  end.

(** A plain delay: no descriptors at all. *)
Definition select_delay (fuel : nat) (tv : timeval) (ev_extra : ptr) : coro Z :=
  if (tv_sec tv =? 0) && (tv_usec tv <=? 10000) then
    do! _ <- atom (poll_select fuel 0 None None None (Some tv)); cret 0
  else
    do! until <- atom (pth_timeout (tv_sec tv) (tv_usec tv));
    do! ev <- atom (pth_event (Z.lor PTH_EVENT_TIME PTH_MODE_STATIC) [VPtr select_ev_key_timeout; VTime until]);
    do! ok <- wait_extra ev ev_extra;
    if negb ok then atom (pth_error (-1) EINTR) else cret 0.

(** Suspend until a descriptor is ready, the timeout or an extra event occurs;
    [rc] is the address of the local variable. *)
Definition select_events (nfd : Z) (rfds wfds efds : ptr) (timeout : option timeval) (ev_extra rc : ptr)
  : coro (N * N) :=
  do! ev <- atom (pth_event (Z.lor PTH_EVENT_SELECT PTH_MODE_STATIC)
                    [VPtr select_ev_key_select; VPtr rc; VInt nfd; VPtr rfds; VPtr wfds; VPtr efds]);
  do! ev_timeout <-
    (match timeout with
     | None => cret NULL
     | Some tv =>
         do! until <- atom (pth_timeout (tv_sec tv) (tv_usec tv));
         do! evt <- atom (pth_event (Z.lor PTH_EVENT_TIME PTH_MODE_STATIC) [VPtr select_ev_key_timeout; VTime until]);
         do! _ <- atom (pth_event_concat ev [evt; NULL]);
         cret evt
     end);
  atom (concat_extra ev ev_extra) ;;!
  do! _ <- pth_wait ev;
  (if is_null ev_extra then cret tt else do! _ <- atom (pth_event_isolate ev_extra); cret tt) ;;!
  (match timeout with None => cret tt | Some _ => do! _ <- atom (pth_event_isolate ev_timeout); cret tt end) ;;!
  cret (ev, ev_timeout).

(** The return code once the thread has been woken up. *)
Definition select_result (rfds wfds efds : ptr) (timeout : option timeval) (ev_extra rc ev ev_timeout : ptr)
  : M St Z :=
  do x <- pth_event_status ev;
  if bool_decide (x = PTH_STATUS_FAILED) then pth_error (-1) EBADF else
  do y <- (match timeout with None => ret PTH_STATUS_PENDING | Some _ => pth_event_status ev_timeout end);
  let timed := bool_decide (y = PTH_STATUS_OCCURRED) in
  (if (timed : bool) then fd_zero rfds ;; fd_zero wfds ;; fd_zero efds ;; st_int rc 0 else ret tt) ;;
  if negb (is_null ev_extra) && negb (bool_decide (x = PTH_STATUS_OCCURRED) || timed) then pth_error (-1) EINTR
  else ld ints rc id.

(** Poll the sets directly first; when nothing is ready and the timeout is not
    zero, wait through the scheduler. *)
Definition select_fds (fuel : nat) (nfd : Z) (rfds wfds efds : ptr) (timeout : option timeval) (ev_extra : ptr)
  : coro Z :=
  do! r <- atom (ld_fdset rfds);
  do! w <- atom (ld_fdset wfds);
  do! e <- atom (ld_fdset efds);
  do! (rc, r, w, e) <- atom (poll_select fuel nfd r w e (Some pth_time_zero));
  if rc <? 0 then do! en <- atom (gets errno); atom (pth_error (-1) en) else
  if (0 <? rc) || (match timeout with Some tv => pth_time_cmp tv pth_time_zero =? 0 | None => false end) then
    atom (st_fdset rfds r ;; st_fdset wfds w ;; st_fdset efds e ;; ret rc)
  else
    do! rcp <- atom (new_int (-1));
    do! (ev, ev_timeout) <- select_events nfd rfds wfds efds timeout ev_extra rcp;
    do! v <- atom (select_result rfds wfds efds timeout ev_extra rcp ev ev_timeout);
    atom (drop_int rcp) ;;!
    cret v.

(** The result and the possibly shortened [*timeout]. *)
Definition pth_select_ev (fuel : nat) (nfd : Z) (rfds wfds efds : ptr) (timeout : option timeval) (ev_extra : ptr)
  : coro (Z * option timeval) :=
  pth_implicit_init ;;!
  match select_timeout nfd timeout with
  | None => atom (pth_error (-1, timeout) EINVAL)
  | Some timeout =>
      let delay_only := (nfd =? 0) && is_null rfds && is_null wfds && is_null efds in
      match timeout with
      | Some tv =>
          if delay_only then do! r <- select_delay fuel tv ev_extra; cret (r, timeout) else
          do! r <- select_fds fuel nfd rfds wfds efds timeout ev_extra; cret (r, timeout)
      | None => do! r <- select_fds fuel nfd rfds wfds efds timeout ev_extra; cret (r, timeout)
      end
  end.

Definition pth_select (fuel : nat) (nfds : Z) (rfds wfds efds : ptr) (timeout : option timeval)
  : coro (Z * option timeval) := pth_select_ev fuel nfds rfds wfds efds timeout NULL.

Definition pth_pselect (fuel : nat) (nfds : Z) (rfds wfds efds : ptr) (ts : option timespec) (mask : option (gset Z))
  : coro Z :=
  let tv := (λ ts, Tv (ts_sec ts) (ts_nsec ts ÷ 1000)) <$> ts in
  do! omask <- (match mask with
                | Some ss => do! o <- atom (sigprocmask SIG_SETMASK ss); cret (Some o)
                | None => cret None
                end);
  do! (rv, _) <- pth_select fuel nfds rfds wfds efds tv;
  (match omask with
   | Some o => atom (pth_shield (do _ <- sigprocmask SIG_SETMASK o; ret tt))
   | None => cret tt
   end) ;;!
  cret rv.

(** ** [poll] *)
Definition POLLIN : Z := 1.
Definition POLLPRI : Z := 2.
Definition POLLOUT : Z := 4.
Definition POLLHUP : Z := 16.
Definition POLLNVAL : Z := 32.
Definition POLLRDNORM : Z := 64.
Definition POLLRDBAND : Z := 128.
Definition POLLWRNORM : Z := 256.
Definition POLLWRBAND : Z := 512.
Definition INFTIM : Z := -1.

(** [&pfd[i]] *)
Definition pfd_at (pfd : ptr) (i : nat) : N := (pfd + 8 * N.of_nat i)%N.
Definition set_revents (z : Z) (p : pollfd) : pollfd := Pollfd (pfd_fd p) (pfd_events p) z.

(** The sets that the conversion of the array builds, and the largest descriptor. *)
Record poll_sets := PollSets { ps_r : fdset; ps_w : fdset; ps_e : fdset; ps_x : fdset; ps_max : Z }.

Definition fd_set_if (c : bool) (fd : Z) (f : fdset) : M St fdset :=
  if c then lift_opt (FD_SET fd f) else ret f.

Definition poll_add (p : pollfd) (x : poll_sets) : M St poll_sets :=
  let fd := pfd_fd p in let ev := pfd_events p in
  do valid <- pth_util_fd_valid fd;
  if negb valid then
    do xf <- lift_opt (FD_SET fd (ps_x x)); ret (PollSets (ps_r x) (ps_w x) (ps_e x) xf (ps_max x))
  else
  do r <- fd_set_if (has ev (Z.lor POLLIN POLLRDNORM)) fd (ps_r x);
  do w <- fd_set_if (has ev (Z.lor (Z.lor POLLOUT POLLWRNORM) POLLWRBAND)) fd (ps_w x);
  do e <- fd_set_if (has ev (Z.lor POLLPRI POLLRDBAND)) fd (ps_e x);
  let any := has ev (foldr Z.lor 0 [POLLIN; POLLOUT; POLLPRI; POLLRDNORM; POLLRDBAND; POLLWRNORM; POLLWRBAND]) in
  ret (PollSets r w e (ps_x x) (if (ps_max x <=? fd) && any then fd else ps_max x)).

(** [for (i = 0; i < nfd; i++)] of the conversion *)
Fixpoint poll_convert (n i : nat) (pfd : ptr) (x : poll_sets) : M St poll_sets :=
  match n with
  | O => ret x
  | S n' =>
      do p <- ldu pollfds (pfd_at pfd i) id;
      do x <- poll_add p x;
      poll_convert n' (S i) pfd x
  end.

(** [recv(fd, data, 64, MSG_PEEK)] failed because the peer hung up. *)
Definition poll_hup (fd : Z) : M St bool :=
  do rc <- kcall_errno (k_peek fd 64);
  do e <- gets errno;
  ret ((rc =? -1) && ((e =? ESHUTDOWN) || (e =? ECONNRESET) || (e =? ECONNABORTED) || (e =? ENETRESET))).

(** The bits of [events] in [bits] that are asked for. *)
Definition asked (ev : Z) (bits : list Z) : Z := foldl (λ a b, if has ev b then Z.lor a b else a) 0 bits.

(** [revents] of one entry, and whether it counts. *)
Definition poll_entry (p : pollfd) (x : poll_sets) : M St (Z * Z) :=
  let fd := pfd_fd p in let ev := pfd_events p in
  do in_x <- lift_opt (FD_ISSET fd (ps_x x));
  if (in_x : bool) then ret (if 0 <=? fd then (POLLNVAL, 1) else (0, 0)) else
  if ps_max x =? -1 then ret (0, 0) else
  do in_r <- lift_opt (FD_ISSET fd (ps_r x));
  if (in_r : bool) then
    let rev := asked ev [POLLIN; POLLRDNORM] in
    do hup <- poll_hup fd;
    ret (if (hup : bool) then Z.lor (Z.land (Z.land rev (Z.lnot POLLIN)) (Z.lnot POLLRDNORM)) POLLHUP else rev, 1)
  else
  do in_w <- lift_opt (FD_ISSET fd (ps_w x));
  if (in_w : bool) then ret (asked ev [POLLOUT; POLLWRNORM; POLLWRBAND], 1) else
  do in_e <- lift_opt (FD_ISSET fd (ps_e x));
  if (in_e : bool) then ret (asked ev [POLLPRI; POLLRDBAND], 1) else ret (0, 0).

(** [for (i = 0; i < nfd; i++)] of the result *)
Fixpoint poll_results (n i : nat) (pfd : ptr) (x : poll_sets) (count : Z) : M St Z :=
  match n with
  | O => ret count
  | S n' =>
      do p <- ldu pollfds (pfd_at pfd i) id;
      do (rev, c) <- poll_entry p x;
      stu pollfds upd_pollfds (pfd_at pfd i) (set_revents rev) ;;
      poll_results n' (S i) pfd x (count + c)
  end.

(** The timeout in milliseconds as a [struct timeval]; [None]: refused. *)
Definition poll_timeout (timeout : Z) : option (option timeval) :=
  if timeout =? 0 then Some (Some (Tv 0 0))
  else if timeout =? INFTIM then Some None
  else if 0 <? timeout then Some (Some (Tv (timeout / 1000) (timeout mod 1000 * 1000)))
  else None.

(** The sets are local variables whose addresses go to [pth_select_ev]. *)
Definition poll_select_ev (fuel : nat) (x : poll_sets) (tv : option timeval) (ev_extra : ptr)
  : coro (Z * poll_sets) :=
  do! r <- atom (new_fdset (ps_r x));
  do! w <- atom (new_fdset (ps_w x));
  do! e <- atom (new_fdset (ps_e x));
  do! (rc, _) <- pth_select_ev fuel (ps_max x + 1) r w e tv ev_extra;
  do! rf <- atom (ld fdsets r id);
  do! wf <- atom (ld fdsets w id);
  do! ef <- atom (ld fdsets e id);
  atom (drop_fdset r ;; drop_fdset w ;; drop_fdset e) ;;!
  cret (rc, PollSets rf wf ef (ps_x x) (ps_max x)).

Definition pth_poll_ev (fuel : nat) (pfd : ptr) (nfd timeout : Z) (ev_extra : ptr) : coro Z :=
  pth_implicit_init ;;!
  if is_null pfd then atom (pth_error (-1) EFAULT) else
  if FD_SETSIZE <? nfd then atom (pth_error (-1) EINVAL) else
  match poll_timeout timeout with
  | None => atom (pth_error (-1) EINVAL)
  | Some tv =>
      let n := Z.to_nat nfd in
      do! x <- atom (poll_convert n 0 pfd (PollSets ∅ ∅ ∅ ∅ (-1)));
      if negb (ps_max x =? -1) then
        do! (rc, x) <- poll_select_ev fuel x tv ev_extra;
        if rc <? 0 then do! en <- atom (gets errno); atom (pth_error (-1) en)
        else if rc =? 0 then cret 0
        else atom (poll_results n 0 pfd x 0)
      else atom (poll_results n 0 pfd x 0)
  end.
Definition pth_poll (fuel : nat) (pfd : ptr) (nfd timeout : Z) : coro Z := pth_poll_ev fuel pfd nfd timeout NULL.

End high.
