(* ===== verification/Rw.v ===== *)
(** * Thread-aware input and output (pth_high.c, second part)

[connect], [accept], [read], [write], [readv], [writev], [pread], [pwrite],
[recvfrom] and [sendto] on a byte-addressed memory: a buffer that is read or
written outside of the allocated bytes is undefined.  An [struct iovec] array is in
the heap [iovecs], 16 bytes per element, so that comparing and advancing pointers
into it is what the code does.  [errno] is that of the last failed system call. *)
From S2P Require Import State Data Sys Event Tcb Sync Sched Fork Lib High.

(** The [static pth_key_t ev_key] and [static pth_mutex_t mutex] variables. *)
Definition connect_ev_key : N := 18.
Definition accept_ev_key : N := 19.
Definition read_ev_key : N := 20.
Definition write_ev_key : N := 21.
Definition readv_ev_key : N := 22.
Definition writev_ev_key : N := 23.
Definition recvfrom_ev_key : N := 24.
Definition sendto_ev_key : N := 25.
Definition pread_mutex : N := 30.
Definition pwrite_mutex : N := 31.
Definition UIO_MAXIOV : Z := 1024.

(** ** Bytes *)
Fixpoint rd_bytes (m : gmap N Z) (p : N) (n : nat) : option (list Z) :=
  match n with
  | O => Some []
  | S n' => b ← m !! p; l ← rd_bytes m (p + 1)%N n'; Some (b :: l)
  end.
Fixpoint wr_bytes (p : N) (l : list Z) (m : gmap N Z) : option (gmap N Z) :=
  match l with
  | [] => Some m
  | b :: l' => _ ← m !! p; wr_bytes (p + 1)%N l' (<[p := b]> m)
  end.

Section rw.
Context {Kern : Kernel} {IoK : IoKernel}.

(** [n] bytes at [p], and [memcpy(p, l, length l)] *)
Definition rd_mem (p : ptr) (n : Z) : M St (list Z) := λ s,
  l ← rd_bytes (mem (usr s)) p (Z.to_nat n); Some (l, s).
Definition wr_mem (p : ptr) (l : list Z) : M St unit := λ s,
  m ← wr_bytes p l (mem (usr s)); Some (tt, set_usr (upd_mem (λ _, m)) s).

(** A system call that fills a buffer: the return value; [errno] on failure. *)
Definition kcall_data (f : K → (Z * Z * list Z) * K) (buf : ptr) : M St Z :=
  do (rc, e, data) <- kcall f;
  if rc =? -1 then modify (set_errno (λ _, e)) ;; ret rc
  else wr_mem buf data ;; ret rc.

(** [read(fd, buf, nbytes)] and [write(fd, buf, nbytes)] *)
Definition sys_read (fd : Z) (buf : ptr) (nbytes : Z) : M St Z := kcall_data (k_read fd nbytes) buf.
Definition sys_write (fd : Z) (buf : ptr) (nbytes : Z) : M St Z :=
  do l <- rd_mem buf nbytes; kcall_errno (k_write fd l).

(** [addrlen] bytes of a [struct sockaddr] that may be [NULL] *)
Definition ld_addr (addr : ptr) (len : Z) : M St (option (list Z)) :=
  if is_null addr then ret None else do l <- rd_mem addr len; ret (Some l).
(** The address that [accept] and [recvfrom] return: at most [*addrlen] bytes are
    stored, [*addrlen] becomes the real length. *)
Definition st_addr (addr addrlen : ptr) (a : list Z) : M St unit :=
  if is_null addr then ret tt else
  do len <- ld ints addrlen id;
  wr_mem addr (take (Z.to_nat len) a) ;;
  st_int addrlen (Z.of_nat (length a)).

(** ** Vectors *)
Definition iov_at (iov : ptr) (i : nat) : N := (iov + 16 * N.of_nat i)%N.
Definition iov_base (x : N * Z) : N := x.1.
Definition iov_len (x : N * Z) : Z := x.2.
Definition ld_iov (iov : ptr) (i : nat) : M St (N * Z) := ldu iovecs (iov_at iov i) id.
Definition st_iov (iov : ptr) (i : nat) (x : N * Z) : M St unit := stu iovecs upd_iovecs (iov_at iov i) (λ _, x).

(** [for (i = 0; i < iovcnt; i++)] of [pth_writev_iov_bytes]; [ssize_t] arithmetic
    on a [size_t] wraps. *)
Fixpoint iov_bytes_loop (n i : nat) (iov : ptr) (bytes : Z) : M St Z :=
  match n with
  | O => ret bytes
  | S n' =>
      do x <- ld_iov iov i;
      iov_bytes_loop n' (S i) iov (if iov_len x <=? 0 then bytes else s64 (bytes + iov_len x))
  end.
Definition pth_writev_iov_bytes (iov : ptr) (iovcnt : Z) : M St Z := iov_bytes_loop (Z.to_nat iovcnt) 0 iov 0.

(** [for (i = 0; i < riovcnt; i++) tiov[i] = riov[i]] *)
Fixpoint iov_copy_loop (n i : nat) (riov tiov : ptr) : M St unit :=
  match n with
  | O => ret tt
  | S n' => do x <- ld_iov riov i; st_iov tiov i x ;; iov_copy_loop n' (S i) riov tiov
  end.
(** [while ( *liovcnt > 0 && advance > 0)] *)
Fixpoint iov_advance_loop (n : nat) (liov : ptr) (advance : Z) : M St (N * nat) :=
  match n with
  | O => ret (liov, O)
  | S n' =>
      if 0 <? advance then
        do x <- ld_iov liov 0;
        if advance <? iov_len x then
          st_iov liov 0 ((iov_base x + Z.to_N advance)%N, iov_len x - advance) ;; ret (liov, n)
        else iov_advance_loop n' (liov + 16)%N (advance - iov_len x)
      else ret (liov, n)
  end.
(** The new values of [*liov] and [*liovcnt]. *)
Definition pth_writev_iov_advance (riov : ptr) (riovcnt advance : Z) (liov : ptr) (liovcnt : Z) (tiov : ptr)
  : M St (N * Z) :=
  let '(liov, liovcnt) := if is_null liov && (liovcnt =? 0) then (riov, riovcnt) else (liov, liovcnt) in
  if 0 <? advance then
    do liov <- (if bool_decide (liov = riov) && (liovcnt =? riovcnt) then
                  iov_copy_loop (Z.to_nat riovcnt) 0 riov tiov ;; ret tiov
                else ret liov);
    do (liov, n) <- iov_advance_loop (Z.to_nat liovcnt) liov advance;
    ret (liov, Z.of_nat n)
  else ret (liov, liovcnt).

(** The lengths, and the contents, of the first [n] elements. *)
Fixpoint iov_lens (n i : nat) (iov : ptr) : M St (list Z) :=
  match n with
  | O => ret []
  | S n' => do x <- ld_iov iov i; do l <- iov_lens n' (S i) iov; ret (iov_len x :: l)
  end.
Fixpoint iov_data (n i : nat) (iov : ptr) : M St (list (list Z)) :=
  match n with
  | O => ret []
  | S n' =>
      do x <- ld_iov iov i;
      do b <- rd_mem (iov_base x) (iov_len x);
      do l <- iov_data n' (S i) iov; ret (b :: l)
  end.
(** Store [data] into the elements in order. *)
Fixpoint iov_scatter (n i : nat) (iov : ptr) (data : list Z) : M St unit :=
  match n with
  | O => ret tt
  | S n' =>
      do x <- ld_iov iov i;
      wr_mem (iov_base x) (take (Z.to_nat (iov_len x)) data) ;;
      iov_scatter n' (S i) iov (drop (Z.to_nat (iov_len x)) data)
  end.

(** [readv(fd, iov, iovcnt)] and [writev(fd, iov, iovcnt)]: what the system calls do
    with the caller's memory. *)
Definition sys_readv (fd : Z) (iov : ptr) (iovcnt : Z) : M St Z :=
  do lens <- iov_lens (Z.to_nat iovcnt) 0 iov;
  do (rc, e, data) <- kcall (k_readv fd lens);
  if rc =? -1 then modify (set_errno (λ _, e)) ;; ret rc
  else iov_scatter (Z.to_nat iovcnt) 0 iov data ;; ret rc.
Definition sys_writev (fd : Z) (iov : ptr) (iovcnt : Z) : M St Z :=
  do data <- iov_data (Z.to_nat iovcnt) 0 iov; kcall_errno (k_writev fd data).

(** ** Vectors without the system calls *)

(** The total of the lengths; [None] when one is 0 ([size_t] is never negative). *)
Fixpoint faked_bytes (n i : nat) (iov : ptr) (bytes : Z) : M St (option Z) :=
  match n with
  | O => ret (Some bytes)
  | S n' =>
      do x <- ld_iov iov i;
      if iov_len x <=? 0 then ret None else faked_bytes n' (S i) iov (u64 (bytes + iov_len x))
  end.
(** [malloc(bytes)] of a buffer of bytes with arbitrary contents; here zeros *)
Definition malloc_bytes (bytes : Z) : M St N :=
  do p <- malloc bytes;
  if is_null p then ret NULL else
  modify (set_usr (upd_mem (λ m, foldr (λ i m, <[(p + N.of_nat i)%N := 0]> m) m (seq 0 (Z.to_nat bytes))))) ;;
  ret p.
(** [free(p)] of a buffer that [malloc] returned with this size; any other pointer is
    undefined. *)
Definition free_bytes (buffer p : ptr) (bytes : Z) : M St unit :=
  if negb (bool_decide (p = buffer)) then ub else
  modify (set_usr (upd_mem (λ m, foldr (λ i m, delete (p + N.of_nat i)%N m) m (seq 0 (Z.to_nat bytes))))).

(** The scattering loop; the final value of the pointer [buffer]. *)
Fixpoint scatter_loop (n i : nat) (iov buffer : ptr) (bytes : Z) : M St N :=
  match n with
  | O => ret buffer
  | S n' =>
      do x <- ld_iov iov i;
      let copy := if bytes <? iov_len x then bytes else iov_len x in
      do l <- rd_mem buffer copy;
      wr_mem (iov_base x) l ;;
      let buffer := (buffer + Z.to_N copy)%N in
      if bytes - copy <=? 0 then ret buffer else scatter_loop n' (S i) iov buffer (bytes - copy)
  end.
Definition pth_readv_faked (fd : Z) (iov : ptr) (iovcnt : Z) : M St Z :=
  do total <- faked_bytes (Z.to_nat iovcnt) 0 iov 0;
  match total with
  | None => pth_error (-1) EINVAL
  | Some bytes =>
      if bytes <=? 0 then pth_error (-1) EINVAL else
      do buffer <- malloc_bytes bytes;
      if is_null buffer then ret (-1) else
      do rv <- sys_read fd buffer bytes;
      do p <- (if 0 <? u64 rv then scatter_loop (Z.to_nat iovcnt) 0 iov buffer (u64 rv) else ret buffer);
      pth_shield (free_bytes buffer p bytes) ;;
      ret (s64 (u64 rv))
  end.

(** The gathering loop: [cp] stays at the start of the buffer. *)
Fixpoint gather_loop (n i : nat) (iov cp : ptr) (to_copy : Z) : M St unit :=
  match n with
  | O => ret tt
  | S n' =>
      do x <- ld_iov iov i;
      let copy := if to_copy <? iov_len x then to_copy else iov_len x in
      do l <- rd_mem (iov_base x) copy;
      wr_mem cp l ;;
      if to_copy - copy <=? 0 then ret tt else gather_loop n' (S i) iov cp (to_copy - copy)
  end.
Definition pth_writev_faked (fd : Z) (iov : ptr) (iovcnt : Z) : M St Z :=
  do total <- faked_bytes (Z.to_nat iovcnt) 0 iov 0;
  match total with
  | None => pth_error (-1) EINVAL
  | Some bytes =>
      if bytes <=? 0 then pth_error (-1) EINVAL else
      do buffer <- malloc_bytes bytes;
      if is_null buffer then ret (-1) else
      gather_loop (Z.to_nat iovcnt) 0 iov buffer bytes ;;
      do rv <- sys_write fd buffer bytes;
      pth_shield (free_bytes buffer buffer bytes) ;;
      ret (s64 (u64 rv))
  end.

Context {Ap : App} {Kn : Knot}.

(** [pth_event(PTH_EVENT_FD|goal|PTH_MODE_STATIC, &ev_key, fd)] *)
Definition fd_event (goal : Z) (key : ptr) (fd : Z) : M St N :=
  pth_event (Z.lor (Z.lor PTH_EVENT_FD goal) PTH_MODE_STATIC) [VPtr key; VInt fd].

(** The direct poll of one descriptor, for reading or for writing. *)
Definition poll_readable (fuel : nat) (fd : Z) : M St Z :=
  do f <- lift_opt (FD_SET fd ∅);
  do (n, _, _, _) <- poll_select fuel (fd + 1) (Some f) None None (Some pth_time_zero); ret n.
Definition poll_writeable (fuel : nat) (fd : Z) : M St Z :=
  do f <- lift_opt (FD_SET fd ∅);
  do (n, _, _, _) <- poll_select fuel (fd + 1) None (Some f) None (Some pth_time_zero); ret n.

(** [n < 0 && (errno == EINVAL || errno == EBADF)] *)
Definition poll_failed (n : Z) : M St bool :=
  do e <- gets errno; ret ((n <? 0) && ((e =? EINVAL) || (e =? EBADF))).

(** ** Connections *)
Definition pth_connect_ev (fuel : nat) (s : Z) (addr : ptr) (addrlen : Z) (ev_extra : ptr) : coro Z :=
  pth_implicit_init ;;!
  do! ok <- atom (pth_util_fd_valid s);
  if negb ok then atom (pth_error (-1) EBADF) else
  do! fdmode <- atom (pth_fdmode s PTH_FDMODE_NONBLOCK);
  if fdmode =? PTH_FDMODE_ERROR then atom (pth_error (-1) EBADF) else
  do! rv <- atom (retry fuel (do a <- rd_mem addr addrlen; kcall_errno (k_connect s a)));
  atom (pth_shield (do _ <- pth_fdmode s fdmode; ret tt)) ;;!
  do! e <- atom (gets errno);
  if (rv =? -1) && (e =? EINPROGRESS) && negb (fdmode =? PTH_FDMODE_NONBLOCK) then
    do! ev <- atom (fd_event PTH_UNTIL_FD_WRITEABLE connect_ev_key s);
    if is_null ev then do! e <- atom (gets errno); atom (pth_error (-1) e) else
    do! ok <- wait_extra ev ev_extra;
    if negb ok then atom (pth_error (-1) EINTR) else
    do! (rc, e, err) <- atom (kcall (k_so_error s));
    if rc =? -1 then atom (pth_error (-1) e) else
    if err =? 0 then cret 0 else atom (pth_error rv err)
  else cret rv.
Definition pth_connect (fuel : nat) (s : Z) (addr : ptr) (addrlen : Z) : coro Z :=
  pth_connect_ev fuel s addr addrlen NULL.

Definition sys_accept (s : Z) (addr addrlen : ptr) : M St Z :=
  do (rv, e, a) <- kcall (k_accept s);
  if rv =? -1 then pth_error rv e else st_addr addr addrlen a ;; ret rv.

(** The accepting loop.  [(true, rv)]: the loop has ended; [(false, rv)]: the
    function returns [rv] from within the loop.  [ev] is allocated once and the
    extra events are appended only then. *)
Fixpoint accept_loop (fuel : nat) (s : Z) (addr addrlen ev_extra ev : ptr) (fdmode : Z) : coro (bool * Z) :=
  match fuel with
  | O => cfuel
  | S fuel' =>
      do! rv <- atom (sys_accept s addr addrlen);
      do! e <- atom (gets errno);
      if (rv =? -1) && ((e =? EAGAIN) || (e =? EWOULDBLOCK)) && negb (fdmode =? PTH_FDMODE_NONBLOCK) then
        do! ev <- (if is_null ev then
                     do! ev <- atom (fd_event PTH_UNTIL_FD_READABLE accept_ev_key s);
                     if is_null ev then cret NULL else atom (concat_extra ev ev_extra) ;;! cret ev
                   else cret ev);
        if is_null ev then do! e <- atom (gets errno); atom (pth_error (false, -1) e) else
        do! _ <- pth_wait ev;
        do! ok <- atom (isolate_extra ev ev_extra);
        if negb ok then
          atom (do _ <- pth_fdmode s fdmode; pth_error (false, -1) EINTR)
        else accept_loop fuel' s addr addrlen ev_extra ev fdmode
      else cret (true, rv)
  end.

Definition pth_accept_ev (fuel : nat) (s : Z) (addr addrlen ev_extra : ptr) : coro Z :=
  pth_implicit_init ;;!
  do! ok <- atom (pth_util_fd_valid s);
  if negb ok then atom (pth_error (-1) EBADF) else
  do! fdmode <- atom (pth_fdmode s PTH_FDMODE_NONBLOCK);
  if fdmode =? PTH_FDMODE_ERROR then atom (pth_error (-1) EBADF) else
  do! (ended, rv) <- accept_loop fuel s addr addrlen ev_extra NULL fdmode;
  if negb ended then cret rv else
  atom (pth_shield (do _ <- pth_fdmode s fdmode;
                    (if rv =? -1 then ret tt else do _ <- pth_fdmode rv fdmode; ret tt))) ;;!
  cret rv.
Definition pth_accept (fuel : nat) (s : Z) (addr addrlen : ptr) : coro Z := pth_accept_ev fuel s addr addrlen NULL.

(** ** Reading *)

(** What [pth_read_ev], [pth_readv_ev] and [pth_recvfrom_ev] do before the system
    call when the descriptor is in blocking mode: [None] when it can be read now,
    else the result and [errno] of the function.  [lax]: [pth_readv_ev] does not
    look at errors of [select] and waits after one. *)
Definition await_readable (fuel : nat) (lax : bool) (key : ptr) (fd : Z) (ev_extra : ptr) : coro (option Z) :=
  do! n <- atom (poll_readable fuel fd);
  do! bad <- atom (poll_failed n);
  if bad && negb lax then do! e <- atom (gets errno); atom (pth_error (Some (-1)) e) else
  if (if lax then n <? 1 else n =? 0) then
    do! ev <- atom (fd_event PTH_UNTIL_FD_READABLE key fd);
    do! ok <- wait_extra ev ev_extra;
    if negb ok then atom (pth_error (Some (-1)) EINTR) else cret None
  else cret None.

(** The common frame of the reading functions around their system call [sys]; the
    result is an [int] there. *)
Definition read_frame (fuel : nat) (lax : bool) (key : ptr) (fd : Z) (ev_extra : ptr) (sys : M St Z) : coro Z :=
  do! ok <- atom (pth_util_fd_valid fd);
  if negb ok then atom (pth_error (-1) EBADF) else
  do! fdmode <- atom (pth_fdmode fd PTH_FDMODE_POLL);
  if fdmode =? PTH_FDMODE_ERROR then atom (pth_error (-1) EBADF) else
  do! early <- (if fdmode =? PTH_FDMODE_BLOCK then await_readable fuel lax key fd ev_extra else cret None);
  match early with
  | Some rv => cret rv
  | None => atom (retry fuel (do n <- sys; ret (s32 n)))
  end.

Definition pth_read_ev (fuel : nat) (fd : Z) (buf : ptr) (nbytes : Z) (ev_extra : ptr) : coro Z :=
  pth_implicit_init ;;!
  if nbytes =? 0 then cret 0 else
  read_frame fuel false read_ev_key fd ev_extra (sys_read fd buf nbytes).
Definition pth_read (fuel : nat) (fd : Z) (buf : ptr) (nbytes : Z) : coro Z := pth_read_ev fuel fd buf nbytes NULL.

Definition pth_readv_ev (fuel : nat) (fd : Z) (iov : ptr) (iovcnt : Z) (ev_extra : ptr) : coro Z :=
  pth_implicit_init ;;!
  if (iovcnt <=? 0) || (UIO_MAXIOV <? iovcnt) then atom (pth_error (-1) EINVAL) else
  read_frame fuel true readv_ev_key fd ev_extra (sys_readv fd iov iovcnt).
Definition pth_readv (fuel : nat) (fd : Z) (iov : ptr) (iovcnt : Z) : coro Z := pth_readv_ev fuel fd iov iovcnt NULL.

Definition sys_recvfrom (fd : Z) (buf : ptr) (nbytes flags : Z) (from fromlen : ptr) : M St Z :=
  do (rc, e, data, a) <- kcall (k_recvfrom fd nbytes flags);
  if rc =? -1 then pth_error rc e else wr_mem buf data ;; st_addr from fromlen a ;; ret rc.

(** In blocking mode the descriptor is checked a second time, to no effect on a
    valid one. *)
Definition pth_recvfrom_ev (fuel : nat) (fd : Z) (buf : ptr) (nbytes flags : Z) (from fromlen ev_extra : ptr)
  : coro Z :=
  pth_implicit_init ;;!
  if nbytes =? 0 then cret 0 else
  do! ok <- atom (pth_util_fd_valid fd);
  if negb ok then atom (pth_error (-1) EBADF) else
  do! fdmode <- atom (pth_fdmode fd PTH_FDMODE_POLL);
  if fdmode =? PTH_FDMODE_ERROR then atom (pth_error (-1) EBADF) else
  do! early <-
    (if fdmode =? PTH_FDMODE_BLOCK then
       do! ok <- atom (pth_util_fd_valid fd);
       if negb ok then atom (pth_error (Some (-1)) EBADF)
       else await_readable fuel false recvfrom_ev_key fd ev_extra
     else cret None);
  match early with
  | Some rv => cret rv
  | None => atom (retry fuel (do n <- sys_recvfrom fd buf nbytes flags from fromlen; ret (s32 n)))
  end.
Definition pth_recvfrom (fuel : nat) (s : Z) (buf : ptr) (len flags : Z) (from fromlen : ptr) : coro Z :=
  pth_recvfrom_ev fuel s buf len flags from fromlen NULL.
Definition pth_recv_ev (fuel : nat) (s : Z) (buf : ptr) (len flags : Z) (ev : ptr) : coro Z :=
  pth_recvfrom_ev fuel s buf len flags NULL NULL ev.
Definition pth_recv (fuel : nat) (s : Z) (buf : ptr) (len flags : Z) : coro Z := pth_recv_ev fuel s buf len flags NULL.

(** ** Writing *)

(** The loop that mimics a blocking write on a non-blocking descriptor: wait when
    [idle n], write, and go on with the rest after a partial write.  [(false, rv)]:
    the function returns from within the loop. *)
Fixpoint write_loop (fuel : nat) (key : ptr) (idle : Z → bool) (out : N → Z → M St Z) (fd fdmode : Z)
    (buf : ptr) (nbytes : Z) (ev_extra : ptr) (n rv : Z) : coro (bool * Z) :=
  match fuel with
  | O => cfuel
  | S fuel' =>
      do! ok <- (if idle n then
                   do! ev <- atom (fd_event PTH_UNTIL_FD_WRITEABLE key fd); wait_extra ev ev_extra
                 else cret true);
      if negb ok then atom (do _ <- pth_fdmode fd fdmode; pth_error (false, -1) EINTR) else
      do! s <- atom (retry fuel (out buf nbytes));
      let rv := if 0 <? s then rv + s else rv in
      if (0 <? s) && (s <? s64 nbytes) then
        write_loop fuel' key idle out fd fdmode (buf + Z.to_N s)%N (nbytes - s) ev_extra 0 rv
      else cret (true, if (s <? 0) && (rv =? 0) then -1 else rv)
  end.

(** [pth_shield { pth_fdmode(fd, fdmode); } return rv;] unless the function has
    returned before. *)
Definition restore_mode (fd fdmode : Z) (r : bool * Z) : M St Z :=
  if negb r.1 then ret r.2 else
  pth_shield (do _ <- pth_fdmode fd fdmode; ret tt) ;; ret r.2.

Definition pth_write_ev (fuel : nat) (fd : Z) (buf : ptr) (nbytes : Z) (ev_extra : ptr) : coro Z :=
  pth_implicit_init ;;!
  if nbytes =? 0 then cret 0 else
  do! ok <- atom (pth_util_fd_valid fd);
  if negb ok then atom (pth_error (-1) EBADF) else
  do! fdmode <- atom (pth_fdmode fd PTH_FDMODE_NONBLOCK);
  if fdmode =? PTH_FDMODE_ERROR then atom (pth_error (-1) EBADF) else
  do! r <-
    (if negb (fdmode =? PTH_FDMODE_NONBLOCK) then
       do! n <- atom (poll_writeable fuel fd);
       do! bad <- atom (poll_failed n);
       if (bad : bool) then do! e <- atom (gets errno); atom (pth_error (false, -1) e) else
       write_loop fuel write_ev_key (λ n, n <? 1) (sys_write fd) fd fdmode buf nbytes ev_extra n 0
     else do! rv <- atom (retry fuel (sys_write fd buf nbytes)); cret (true, rv));
  atom (restore_mode fd fdmode r).
Definition pth_write (fuel : nat) (fd : Z) (buf : ptr) (nbytes : Z) : coro Z := pth_write_ev fuel fd buf nbytes NULL.

Definition sys_sendto (fd : Z) (flags : Z) (to : ptr) (tolen : Z) (buf : ptr) (nbytes : Z) : M St Z :=
  do l <- rd_mem buf nbytes; do a <- ld_addr to tolen; kcall_errno (k_sendto fd l flags a).

Definition pth_sendto_ev (fuel : nat) (fd : Z) (buf : ptr) (nbytes flags : Z) (to : ptr) (tolen : Z) (ev_extra : ptr)
  : coro Z :=
  pth_implicit_init ;;!
  if nbytes =? 0 then cret 0 else
  do! ok <- atom (pth_util_fd_valid fd);
  if negb ok then atom (pth_error (-1) EBADF) else
  do! fdmode <- atom (pth_fdmode fd PTH_FDMODE_NONBLOCK);
  if fdmode =? PTH_FDMODE_ERROR then atom (pth_error (-1) EBADF) else
  do! r <-
    (if negb (fdmode =? PTH_FDMODE_NONBLOCK) then
       do! ok <- atom (pth_util_fd_valid fd);
       if negb ok then atom (do _ <- pth_fdmode fd fdmode; pth_error (false, -1) EBADF) else
       do! n <- atom (poll_writeable fuel fd);
       do! bad <- atom (poll_failed n);
       if (bad : bool) then do! e <- atom (gets errno); atom (pth_error (false, -1) e) else
       write_loop fuel sendto_ev_key (λ n, n =? 0) (sys_sendto fd flags to tolen) fd fdmode buf nbytes ev_extra n 0
     else do! rv <- atom (retry fuel (sys_sendto fd flags to tolen buf nbytes)); cret (true, rv));
  atom (restore_mode fd fdmode r).
Definition pth_sendto (fuel : nat) (s : Z) (buf : ptr) (len flags : Z) (to : ptr) (tolen : Z) : coro Z :=
  pth_sendto_ev fuel s buf len flags to tolen NULL.
Definition pth_send_ev (fuel : nat) (s : Z) (buf : ptr) (len flags : Z) (ev : ptr) : coro Z :=
  pth_sendto_ev fuel s buf len flags NULL 0 ev.
Definition pth_send (fuel : nat) (s : Z) (buf : ptr) (len flags : Z) : coro Z := pth_send_ev fuel s buf len flags NULL.

(** *** [writev] *)

(** The temporary vector: [iovcnt] is compared with the size of the local array in
    bytes, 512, and the array has 32 elements. *)
Definition new_tiov (n : nat) : M St N :=
  do p <- gets brk;
  modify (set_brk (λ b, (b + 16 * N.of_nat n)%N)) ;;
  modify (set_usr (upd_iovecs (λ m, foldr (λ i m, <[iov_at p i := (NULL, 0)]> m) m (seq 0 n)))) ;;
  ret p.
Definition drop_tiov (p : ptr) (n : nat) : M St unit :=
  modify (set_usr (upd_iovecs (λ m, foldr (λ i m, delete (iov_at p i) m) m (seq 0 n)))).
Definition tiov_bytes : Z := 512.
Definition tiov_len (iovcnt : Z) : nat := if tiov_bytes <? iovcnt then Z.to_nat UIO_MAXIOV else 32%nat.
(** [NULL] when [malloc] fails *)
Definition alloc_tiov (iovcnt : Z) : M St N :=
  if tiov_bytes <? iovcnt then
    do p <- malloc (16 * UIO_MAXIOV);
    if is_null p then ret NULL else
    modify (set_usr (upd_iovecs (λ m, foldr (λ i m, <[iov_at p i := (NULL, 0)]> m) m (seq 0 (Z.to_nat UIO_MAXIOV))))) ;;
    ret p
  else new_tiov 32.

(** The loop of [pth_writev_ev]. *)
Fixpoint writev_loop (fuel : nat) (fd fdmode : Z) (iov : ptr) (iovcnt : Z) (tiov liov : ptr) (liovcnt nbytes : Z)
    (ev_extra : ptr) (n rv : Z) : coro (bool * Z) :=
  match fuel with
  | O => cfuel
  | S fuel' =>
      do! ok <- (if n <? 1 then
                   do! ev <- atom (fd_event PTH_UNTIL_FD_WRITEABLE writev_ev_key fd); wait_extra ev ev_extra
                 else cret true);
      if negb ok then atom (do _ <- pth_fdmode fd fdmode; pth_error (false, -1) EINTR) else
      do! s <- atom (retry fuel (sys_writev fd liov liovcnt));
      let rv := if 0 <? s then rv + s else rv in
      if (0 <? s) && (s <? s64 nbytes) then
        do! (liov, liovcnt) <- atom (pth_writev_iov_advance iov iovcnt s liov liovcnt tiov);
        writev_loop fuel' fd fdmode iov iovcnt tiov liov liovcnt (u64 (nbytes - s)) ev_extra 0 rv
      else cret (true, if (s <? 0) && (rv =? 0) then -1 else rv)
  end.

Definition pth_writev_ev (fuel : nat) (fd : Z) (iov : ptr) (iovcnt : Z) (ev_extra : ptr) : coro Z :=
  pth_implicit_init ;;!
  if (iovcnt <=? 0) || (UIO_MAXIOV <? iovcnt) then atom (pth_error (-1) EINVAL) else
  do! ok <- atom (pth_util_fd_valid fd);
  if negb ok then atom (pth_error (-1) EBADF) else
  do! fdmode <- atom (pth_fdmode fd PTH_FDMODE_NONBLOCK);
  if fdmode =? PTH_FDMODE_ERROR then atom (pth_error (-1) EBADF) else
  do! r <-
    (if negb (fdmode =? PTH_FDMODE_NONBLOCK) then
       do! tiov <- atom (alloc_tiov iovcnt);
       if is_null tiov then do! e <- atom (gets errno); atom (pth_error (false, -1) e) else
       do! b <- atom (pth_writev_iov_bytes iov iovcnt);
       let nbytes := u64 b in
       do! (liov, liovcnt) <- atom (pth_writev_iov_advance iov iovcnt 0 NULL 0 tiov);
       do! n <- atom (poll_writeable fuel fd);
       do! r <- writev_loop fuel fd fdmode iov iovcnt tiov liov liovcnt nbytes ev_extra n 0;
       atom (drop_tiov tiov (tiov_len iovcnt)) ;;!
       cret r
     else do! rv <- atom (retry fuel (sys_writev fd iov iovcnt)); cret (true, rv));
  atom (restore_mode fd fdmode r).
Definition pth_writev (fuel : nat) (fd : Z) (iov : ptr) (iovcnt : Z) : coro Z := pth_writev_ev fuel fd iov iovcnt NULL.

(** ** Positioned access *)

(** The frame of [pth_pread] and [pth_pwrite] around the access [io]. *)
Definition positioned (fuel : nat) (mutex : ptr) (fd offset : Z) (io : coro Z) : coro Z :=
  do! ok <- pth_mutex_acquire fuel mutex false NULL;
  if negb ok then cret (-1) else
  do! old <- atom (kcall_errno (k_lseek fd 0 false));
  if old =? -1 then do! _ <- atom (pth_mutex_release mutex); cret (-1) else
  do! rc <- atom (kcall_errno (k_lseek fd offset true));
  if rc =? -1 then do! _ <- atom (pth_mutex_release mutex); cret (-1) else
  do! rc <- io;
  atom (pth_shield (do _ <- kcall_errno (k_lseek fd old true); ret tt)) ;;!
  do! _ <- atom (pth_mutex_release mutex);
  cret rc.
Definition pth_pread (fuel : nat) (fd : Z) (buf : ptr) (nbytes offset : Z) : coro Z :=
  positioned fuel pread_mutex fd offset (pth_read fuel fd buf nbytes).
Definition pth_pwrite (fuel : nat) (fd : Z) (buf : ptr) (nbytes offset : Z) : coro Z :=
  positioned fuel pwrite_mutex fd offset (pth_write fuel fd buf nbytes).

End rw.
