(* ===== verification/Iov.v ===== *)
(** * Advancing a vector (what [pth_writev_iov_advance] computes)

A vector stands for the addresses of its bytes, in order.  After a partial write
of [n] bytes, the advanced vector stands for the remaining ones and the caller's
array is as it was. *)
From S2P Require Import State Data Sys Event Tcb Sync Sched Fork Lib High Rw.

(** The addresses of the bytes of one element, and of a vector. *)
Definition addrs (x : N * Z) : list N := (λ i, (x.1 + N.of_nat i)%N) <$> seq 0 (Z.to_nat x.2).
Definition segs (l : list (N * Z)) : list N := mjoin (addrs <$> l).

(** [n] bytes further. *)
Fixpoint advanced (l : list (N * Z)) (n : Z) : list (N * Z) :=
  match l with
  | [] => []
  | x :: l' =>
      if 0 <? n then
        if n <? x.2 then ((x.1 + Z.to_N n)%N, x.2 - n) :: l' else advanced l' (n - x.2)
      else l
  end.

Lemma addrs_length x : length (addrs x) = Z.to_nat x.2.
Proof. unfold addrs. by rewrite length_fmap, length_seq. Qed.

Lemma addrs_drop x n : 0 ≤ n ≤ x.2 → addrs ((x.1 + Z.to_N n)%N, x.2 - n) = drop (Z.to_nat n) (addrs x).
Proof.
  intros Hn. unfold addrs. simpl. rewrite <- fmap_drop, drop_seq. simpl.
  replace (Z.to_nat x.2 - Z.to_nat n)%nat with (Z.to_nat (x.2 - n)) by lia.
  apply list_eq. intros i. rewrite !list_lookup_fmap.
  destruct (decide (i < Z.to_nat (x.2 - n))%nat).
  - rewrite !lookup_seq_lt by done. simpl. f_equal. lia.
  - rewrite !lookup_seq_ge by lia. done.
Qed.

Lemma segs_advanced l n :
  Forall (λ x, 0 ≤ x.2) l → 0 ≤ n → segs (advanced l n) = drop (Z.to_nat n) (segs l).
Proof.
  intros Hl. revert n. induction Hl as [|x l Hx Hl IH]; intros n Hn; simpl.
  - change (segs []) with (@nil N). by rewrite drop_nil.
  - destruct (Z.ltb_spec 0 n); [|by replace n with 0 by lia].
    change (segs (x :: l)) with (addrs x ++ segs l). destruct (Z.ltb_spec n x.2).
    + change (segs (_ :: l)) with (addrs ((x.1 + Z.to_N n)%N, x.2 - n) ++ segs l).
      rewrite addrs_drop, drop_app_le by (rewrite ?addrs_length; lia). done.
    + rewrite IH by lia. rewrite drop_app_ge by (rewrite addrs_length; lia). rewrite addrs_length. f_equal. lia.
Qed.

Lemma advanced_length l n : (length (advanced l n) ≤ length l)%nat.
Proof. revert n. induction l as [|x l IH]; intros n; simpl; [done|]. repeat case_match; simpl; try lia. specialize (IH (n - x.2)). lia. Qed.

(** The lengths stay non-negative. *)
Lemma advanced_nonneg l n : Forall (λ x : N * Z, 0 ≤ x.2) l → Forall (λ x, 0 ≤ x.2) (advanced l n).
Proof.
  intros Hl. revert n. induction Hl as [|x l Hx Hl IH]; intros n; simpl; [done|].
  destruct (Z.ltb_spec 0 n); [|by constructor]. destruct (Z.ltb_spec n x.2); [|apply IH]. constructor; [simpl; lia|done].
Qed.

Section iov.
Context {Kern : Kernel}.
Implicit Types (s : St) (l : list (N * Z)).

(** The array at [iov] holds [l]. *)
Definition iov_repr s (iov : N) l : Prop :=
  ∀ i x, l !! i = Some x → load (iovecs (usr s)) (iov_at iov i) = Some x.

Definition set_iovs (f : gmap N (N * Z) → gmap N (N * Z)) : St → St := set_usr (upd_iovecs f).

Lemma iov_at_0 iov : iov_at iov 0 = iov.
Proof. unfold iov_at. lia. Qed.
Lemma iov_at_S iov i : iov_at (iov + 16) i = iov_at iov (S i).
Proof. unfold iov_at. lia. Qed.
Lemma iov_at_add iov i j : iov_at (iov_at iov i) j = iov_at iov (i + j).
Proof. unfold iov_at. lia. Qed.
Lemma iov_at_inj iov i j : iov_at iov i = iov_at iov j → i = j.
Proof. unfold iov_at. lia. Qed.

Lemma iov_repr_cons s iov x l :
  iov_repr s iov (x :: l) ↔ load (iovecs (usr s)) iov = Some x ∧ iov_repr s (iov + 16)%N l.
Proof.
  split.
  - intros H. split; [specialize (H 0%nat x eq_refl); by rewrite iov_at_0 in H|].
    intros i y Hy. rewrite iov_at_S. by apply H.
  - intros [H0 H] [|i] y Hy; simplify_eq/=; [by rewrite iov_at_0|]. rewrite <- iov_at_S. by apply H.
Qed.

Lemma ld_iov_run s iov i x : load (iovecs (usr s)) (iov_at iov i) = Some x → ld_iov iov i s = Some (x, s).
Proof. intros H. unfold ld_iov, ldu, ld. simpl. by rewrite H. Qed.

Lemma st_iov_run s iov i x y :
  load (iovecs (usr s)) (iov_at iov i) = Some y → st_iov iov i x s = Some (tt, set_iovs (<[iov_at iov i := x]>) s).
Proof.
  intros H. unfold st_iov, stu, st. simpl. rewrite H. simpl. unfold set_iovs. do 2 f_equal. unfold set_usr, upd_iovecs.
  repeat f_equal. apply load_Some in H as [_ H]. apply map_eq. intros j. rewrite lookup_alter.
  case_decide; subst; [by rewrite H, lookup_insert_eq|by rewrite lookup_insert_ne].
Qed.

Lemma iov_repr_insert s iov l p x :
  iov_repr s iov l → (∀ i, (i < length l)%nat → iov_at iov i ≠ p) → iov_repr (set_iovs (<[p := x]>) s) iov l.
Proof.
  intros H Hp i y Hy. simpl. rewrite load_insert. specialize (H i y Hy). apply load_Some in H as [Hn H].
  rewrite decide_False by done. rewrite decide_False; [done|]. apply not_eq_sym, Hp. by eapply lookup_lt_Some.
Qed.

(** The loop that moves the pointer. *)
Lemma iov_advance_loop_run l liov n s :
  iov_repr s liov l →
  ∃ s', iov_advance_loop (length l) liov n s =
          Some ((iov_at liov (length l - length (advanced l n)), length (advanced l n)), s') ∧
        iov_repr s' (iov_at liov (length l - length (advanced l n))) (advanced l n) ∧
        (s' = s ∨ ∃ i x, (i < length l)%nat ∧ s' = set_iovs (<[iov_at liov i := x]>) s).
Proof.
  revert liov n. induction l as [|x l IH]; intros liov n Hr.
  - simpl. rewrite iov_at_0. eauto.
  - cbn [iov_advance_loop length advanced]. destruct (0 <? n) eqn:Hn.
    2: { simpl length. rewrite Nat.sub_diag, iov_at_0. eauto. }
    apply iov_repr_cons in Hr as [H0 Hr]. erewrite bind_run by (apply ld_iov_run; by rewrite iov_at_0).
    unfold iov_len. destruct (n <? x.2) eqn:Hlt.
    + cbn [length]. rewrite Nat.sub_diag, iov_at_0. erewrite bind_run by (apply (st_iov_run _ _ _ _ x); by rewrite iov_at_0).
      eexists. split; [done|]. split.
      * apply iov_repr_cons. rewrite iov_at_0. split.
        -- simpl. rewrite load_insert. apply load_Some in H0 as [? _]. by rewrite decide_False, decide_True.
        -- apply iov_repr_insert; [done|]. intros i _. unfold iov_at. lia.
      * right. exists 0%nat. eexists. rewrite iov_at_0. split; [simpl; lia|done].
    + destruct (IH (liov + 16)%N (n - x.2) Hr) as (s' & E & Hr' & Hs').
      pose proof (advanced_length l (n - x.2)).
      replace (S (length l) - length (advanced l (n - x.2)))%nat with (S (length l - length (advanced l (n - x.2)))) by lia.
      rewrite <- iov_at_S. exists s'. split; [exact E|]. split; [done|].
      destruct Hs' as [->|(i & y & Hi & ->)]; [by left|right]. exists (S i), y. rewrite <- iov_at_S. simpl. split; [lia|done].
Qed.

(** Only the first [n] elements of the array at [tiov] differ, and none is lost. *)
Definition iov_frame (tiov : N) (n : nat) s s' : Prop :=
  ∃ m, s' = set_iovs (λ _, m) s ∧
    (∀ p, (∀ i, (i < n)%nat → p ≠ iov_at tiov i) → m !! p = iovecs (usr s) !! p) ∧
    dom (iovecs (usr s)) ⊆ dom m.

Lemma iov_frame_refl tiov n s : iov_frame tiov n s s.
Proof. exists (iovecs (usr s)). split_and!; [|done..]. destruct s. by match goal with u : user |- _ => destruct u end. Qed.

Lemma iov_frame_trans tiov n s1 s2 s3 : iov_frame tiov n s1 s2 → iov_frame tiov n s2 s3 → iov_frame tiov n s1 s3.
Proof.
  intros (m1 & -> & H1 & D1) (m2 & -> & H2 & D2). exists m2. split_and!; [done| |by etrans].
  intros p Hp. rewrite H2 by done. simpl. by apply H1.
Qed.

Lemma iov_frame_insert tiov n s i x :
  (i < n)%nat → iov_frame tiov n s (set_iovs (<[iov_at tiov i := x]>) s).
Proof.
  intros Hi. exists (<[iov_at tiov i := x]> (iovecs (usr s))). split_and!; [done| |rewrite dom_insert; set_solver].
  intros p Hp. rewrite lookup_insert_ne; [done|]. by apply not_eq_sym, Hp.
Qed.

Lemma iov_frame_repr tiov n s s' iov l :
  iov_frame tiov n s s' → iov_repr s iov l →
  (∀ i j, (i < n)%nat → (j < length l)%nat → iov_at iov j ≠ iov_at tiov i) → iov_repr s' iov l.
Proof.
  intros (m & -> & Hm & _) Hr Hd i x Hx. simpl. specialize (Hr i x Hx). apply load_Some in Hr as [? Hr].
  apply load_Some. split; [done|]. rewrite Hm; [done|]. intros j Hj. apply Hd; [done|]. by eapply lookup_lt_Some.
Qed.

(** The temporary array: [n] elements, none of them an element of the caller's. *)
Definition scratch s (riov tiov : N) (n : nat) : Prop :=
  tiov ≠ NULL ∧ (∀ i, (i < n)%nat → is_Some (iovecs (usr s) !! iov_at tiov i)) ∧
  (∀ i j, (i < n)%nat → (j < n)%nat → iov_at riov j ≠ iov_at tiov i).

Lemma scratch_frame s s' riov tiov n : iov_frame tiov n s s' → scratch s riov tiov n → scratch s' riov tiov n.
Proof.
  intros (m & -> & _ & Hd) (Ht & Ha & Hdis). split_and!; [done| |done].
  intros i Hi. simpl. apply elem_of_dom, Hd, elem_of_dom, Ha, Hi.
Qed.

Lemma scratch_load s riov tiov n i : scratch s riov tiov n → (i < n)%nat → is_Some (load (iovecs (usr s)) (iov_at tiov i)).
Proof. intros (Ht & Ha & _) Hi. destruct (Ha i Hi) as [x Hx]. exists x. apply load_Some. split; [unfold iov_at; lia|done]. Qed.

(** Copying the caller's array. *)
Lemma iov_copy_run n i riov tiov l s :
  (i + n = length l)%nat → iov_repr s riov l → scratch s riov tiov (length l) → iov_repr s tiov (take i l) →
  ∃ s', iov_copy_loop n i riov tiov s = Some (tt, s') ∧ iov_repr s' tiov l ∧ iov_frame tiov (length l) s s'.
Proof.
  revert i s. induction n as [|n IH]; intros i s Hi Hr Hsc Ht.
  - exists s. rewrite take_ge in Ht by lia. split_and!; [done..|apply iov_frame_refl].
  - destruct (lookup_lt_is_Some_2 l i) as [x Hx]; [lia|]. cbn [iov_copy_loop].
    erewrite bind_run by (by apply ld_iov_run, Hr).
    destruct (scratch_load _ _ _ _ i Hsc) as [y Hy]; [lia|]. erewrite bind_run by (by apply (st_iov_run _ _ _ _ y)).
    set (s1 := set_iovs _ s).
    assert (iov_frame tiov (length l) s s1) as Hf by (apply iov_frame_insert; lia).
    destruct (IH (S i) s1) as (s' & E & Hr' & Hf'); [lia|..].
    + eapply iov_frame_repr; [done..|]. apply Hsc.
    + by eapply scratch_frame.
    + intros j z Hz. rewrite (take_S_r l i x) in Hz by done. simpl. rewrite load_insert.
      apply load_Some in Hy as [? _]. apply lookup_app_Some in Hz as [Hz|[Hj Hz]].
      * pose proof (Ht j z Hz) as Hl. apply load_Some in Hl as [? Hl].
        rewrite decide_False by done. apply lookup_lt_Some in Hz. rewrite length_take in Hz.
        rewrite decide_False; [done|]. intros E%iov_at_inj. lia.
      * rewrite length_take_le in * by lia. apply list_lookup_singleton_Some in Hz as [? <-].
        replace j with i by lia. by rewrite decide_False, decide_True.
    + exists s'. split_and!; [done..|]. by eapply iov_frame_trans.
Qed.

(** The virtual vector of [pth_writev_ev]: at first the caller's array [riov] that
    holds [l0], later a tail of the temporary one. *)
Definition vec s (riov tiov : N) (l0 : list (N * Z)) (liov : N) l : Prop :=
  iov_repr s riov l0 ∧ iov_repr s liov l ∧ scratch s riov tiov (length l0) ∧
  ((liov = riov ∧ l = l0) ∨ ∃ k, liov = iov_at tiov k ∧ (k + length l = length l0)%nat).

Lemma vec_at_tiov s riov tiov l0 liov l :
  vec s riov tiov l0 liov l → l ≠ [] →
  ∃ s', (if bool_decide (liov = riov) && (Z.of_nat (length l) =? Z.of_nat (length l0)) then
           (iov_copy_loop (Z.to_nat (Z.of_nat (length l0))) 0 riov tiov ;; ret tiov) else ret liov) s =
          Some (if decide (liov = riov) then tiov else liov, s') ∧
        vec s' riov tiov l0 (if decide (liov = riov) then tiov else liov) l ∧ iov_frame tiov (length l0) s s' ∧
        (∃ k, (if decide (liov = riov) then tiov else liov) = iov_at tiov k ∧ (k + length l = length l0)%nat).
Proof.
  intros (Hr & Hl & Hsc & Hw) Hne. assert (0 < length l)%nat as Hpos by (destruct l; [done|simpl; lia]).
  destruct (decide (liov = riov)) as [->|Hd].
  - assert (l = l0) as ->.
    { destruct Hw as [[_ ->]|(k & Hk & Hlen)]; [done|].
      exfalso. apply (proj2 (proj2 Hsc) k 0%nat); [lia..|]. by rewrite iov_at_0. }
    rewrite bool_decide_true, Z.eqb_refl by done. rewrite Nat2Z.id. simpl.
    destruct (iov_copy_run (length l0) 0 riov tiov l0 s) as (s' & E & Hr' & Hf); [done..|].
    exists s'. erewrite bind_run by done. split_and!; [done| |done|exists 0%nat; by rewrite iov_at_0].
    split_and!; [by eapply iov_frame_repr; [done..|apply Hsc]|done|by eapply scratch_frame|].
    right. exists 0%nat. by rewrite iov_at_0.
  - rewrite bool_decide_false by done. exists s. simpl. split_and!; [done| |apply iov_frame_refl|].
    + by split_and!.
    + destruct Hw as [[-> _]|Hw]; [done|done].
Qed.

(** C35: Advancing the vector of [pth_writev_ev] by the [n] bytes that a partial write
    has taken leaves exactly the addresses of the bytes still to be written, in
    order.  The caller's array is never changed (the first time the vector moves,
    it is copied to the temporary array), and nothing else is written but the
    temporary array. *)
Theorem iov_advance_drops s riov tiov l0 liov l n :
  vec s riov tiov l0 liov l → l ≠ [] → liov ≠ NULL → Forall (λ x, 0 ≤ x.2) l → 0 < n →
  ∃ liov' s', let l' := advanced l n in
    pth_writev_iov_advance riov (Z.of_nat (length l0)) n liov (Z.of_nat (length l)) tiov s =
      Some ((liov', Z.of_nat (length l')), s') ∧
    vec s' riov tiov l0 liov' l' ∧ segs l' = drop (Z.to_nat n) (segs l) ∧
    Forall (λ x, 0 ≤ x.2) l' ∧ iov_frame tiov (length l0) s s'.
Proof.
  intros Hv Hne Hnn Hl Hn. unfold pth_writev_iov_advance. rewrite is_null_false by done. cbn [andb].
  rewrite (proj2 (Z.ltb_lt 0 n)) by done.
  destruct (vec_at_tiov _ _ _ _ _ _ Hv Hne) as (s1 & E1 & Hv1 & Hf1 & k & Hk & Hlen).
  erewrite bind_run by exact E1. clear E1. rewrite Hk in *. destruct Hv1 as (Hr1 & Hl1 & Hsc1 & _).
  destruct (iov_advance_loop_run l (iov_at tiov k) n s1 Hl1) as (s2 & E2 & Hl2 & Hs2).
  rewrite Nat2Z.id. erewrite bind_run by exact E2. rewrite iov_at_add in *.
  pose proof (advanced_length l n).
  assert (iov_frame tiov (length l0) s1 s2) as Hf2.
  { destruct Hs2 as [->|(i & x & Hi & ->)]; [apply iov_frame_refl|]. rewrite iov_at_add. apply iov_frame_insert. lia. }
  eexists _, s2. split_and!; [reflexivity| |by apply segs_advanced; [|lia]|by apply advanced_nonneg|by eapply iov_frame_trans].
  split_and!; [by eapply iov_frame_repr; [done..|apply Hsc1]|done|by eapply scratch_frame|].
  right. eexists. split; [done|lia].
Qed.

End iov.

(** Two elements of 3 and 4 bytes, after a write of 5. *)
Definition toy_iov : @St toy_kernel :=
  set_usr (upd_iovecs (λ _, list_to_map
    [(500%N, (10%N, 3)); (516%N, (20%N, 4)); (600%N, (NULL, 0)); (616%N, (NULL, 0))])) toy_state.

Lemma toy_iov_vec : vec toy_iov 500 600 [(10%N, 3); (20%N, 4)] 500 [(10%N, 3); (20%N, 4)].
Proof.
  assert (∀ i j, (i < 2)%nat → (j < 2)%nat → iov_at 500 j ≠ iov_at 600 i) as Hd by (intros; unfold iov_at; lia).
  assert (iov_repr toy_iov 500 [(10%N, 3); (20%N, 4)]) as Hr.
  { intros [|[|i]] x Hx; simplify_eq/=; reflexivity. }
  split_and!; [exact Hr|exact Hr| |left; split; reflexivity].
  split_and!; [discriminate| |exact Hd].
  intros [|[|i]] Hi; [eexists; reflexivity..|simpl in Hi; lia].
Qed.

Lemma iov_advance_drops_witness :
  ∃ liov' s', pth_writev_iov_advance 500 2 5 500 2 600 toy_iov = Some ((liov', 1), s') ∧
    iov_repr s' liov' [(22%N, 2)] ∧ iov_repr s' 500 [(10%N, 3); (20%N, 4)].
Proof.
  destruct (iov_advance_drops toy_iov 500 600 [(10%N, 3); (20%N, 4)] 500 [(10%N, 3); (20%N, 4)] 5)
    as (liov' & s' & E & (Hr & Hl & _) & _).
  - exact toy_iov_vec.
  - discriminate.
  - discriminate.
  - repeat constructor; simpl; lia.
  - lia.
  - exists liov', s'. split; [exact E|]. split; [exact Hl|exact Hr].
Defined.
