(* ===== verification/Write.v ===== *)
(** * Writing everything (what [pth_write] promises)

Code that gives up the processor is proved correct for every behaviour of the
other threads: [wpc R Q o] says that a run [o] finishes, never undefined and never
out of fuel, in a state satisfying [Q], provided that each time the thread is
suspended in [s] it is resumed in some [s'] with [R s s']. *)
From S2P Require Import State Data Sys Event Tcb Sync Sched Fork Lib High Rw.

Section wpc.
Context {Kern : Kernel}.

Inductive wpc {A} (R : St → St → Prop) (Q : A → St → Prop) : out A → Prop :=
  | wpc_ret a s : Q a s → wpc R Q (ORet a s)
  | wpc_switch s k : (∀ s', R s s' → wpc R Q (k s')) → wpc R Q (OSwitch s k).

Lemma wpc_mono {A} R (P Q : A → St → Prop) o : wpc R P o → (∀ a s, P a s → Q a s) → wpc R Q o.
Proof. intros Ho HQ. induction Ho; constructor; auto. Qed.

Lemma wpc_bind {A B} R (Q : B → St → Prop) o (k : A → coro B) :
  wpc R (λ a s, wpc R Q (k a s)) o → wpc R Q (obind o k).
Proof. intros Ho. induction Ho as [a s Ha|s c _ IH]; [done|]. simpl. by constructor. Qed.

Lemma wpc_cbind {A B} R (Q : B → St → Prop) (c : coro A) (k : A → coro B) s :
  wpc R (λ a s, wpc R Q (k a s)) (c s) → wpc R Q (cbind c k s).
Proof. apply wpc_bind. Qed.

Lemma wpc_atom {A} R (Q : A → St → Prop) (m : M St A) s : wp m Q s → wpc R Q (atom m s).
Proof. unfold wp, atom. destruct (m s) as [[a s']|]; [by constructor|done]. Qed.

End wpc.

Section bytes.
Implicit Types (m : gmap N Z).

Lemma rd_bytes_length m p n l : rd_bytes m p n = Some l → length l = n.
Proof.
  revert p l. induction n as [|n IH]; intros p l; simpl; [by intros [= <-]|].
  destruct (m !! p); simpl; [|done]. destruct (rd_bytes m (p + 1) n) eqn:E; simpl; [|done].
  intros [= <-]. simpl. f_equal. by eapply IH.
Qed.

Lemma rd_bytes_drop m p n l i :
  rd_bytes m p n = Some l → (i ≤ n)%nat → rd_bytes m (p + N.of_nat i) (n - i) = Some (drop i l).
Proof.
  revert p n l. induction i as [|i IH]; intros p n l Hl Hi.
  - rewrite Nat.sub_0_r, N.add_0_r, drop_0. done.
  - destruct n as [|n]; [lia|]. simpl in Hl. destruct (m !! p); simpl in Hl; [|done].
    destruct (rd_bytes m (p + 1) n) as [l'|] eqn:E; simplify_eq/=. rewrite <- (IH _ _ _ E) by lia. f_equal. lia.
Qed.

End bytes.

(** ** Descriptors *)
Section write.
Context {Kern : Kernel} {IoK : IoKernel} {Kn : Knot}.
Implicit Types (s : St).

Lemma kcall_run {A} (f : K → A * K) s a k : f (kern s) = (a, k) → kcall f s = Some (a, set_kern (λ _, k) s).
Proof. intros Hf. unfold kcall. by rewrite Hf. Qed.

Lemma kcall_errno_run (f : K → (Z * Z) * K) s rc e k :
  f (kern s) = ((rc, e), k) →
  kcall_errno f s = Some (rc, if rc =? -1 then set_errno (λ _, e) (set_kern (λ _, k) s) else set_kern (λ _, k) s).
Proof.
  intros Hf. unfold kcall_errno. erewrite bind_run by (by apply kcall_run). cbv beta iota. by destruct (rc =? -1).
Qed.

(** An open descriptor.  [flags] are its status flags and [sent] is what it has
    accepted so far, as functions of the kernel's state.  Polling succeeds, and a
    write is not interrupted by a signal. *)
Record descriptor (fd : Z) (flags : K → Z) (sent : K → list Z) : Prop := {
  d_range : 0 ≤ fd < FD_SETSIZE;
  d_open k : flags k ≠ -1;
  d_getfl k : ∃ e k', k_getfl fd k = ((flags k, e), k') ∧ flags k' = flags k ∧ sent k' = sent k;
  d_setfl fl k : fl = Z.lor (flags k) O_NONBLOCKING ∨ fl = Z.land (flags k) (Z.lnot O_NONBLOCKING) →
                   flags (k_setfl fd fl k) = fl ∧ sent (k_setfl fd fl k) = sent k;
  d_select nfd r w e tv k : ∃ res k', k_select nfd r w e tv k = (res, k') ∧ 0 ≤ sel_rc res ∧
                              flags k' = flags k ∧ sent k' = sent k;
  d_write l k : ∃ rc e k', k_write fd l k = ((rc, e), k') ∧ flags k' = flags k ∧
                  ((rc = -1 ∧ e ≠ EINTR ∧ sent k' = sent k) ∨
                   (0 ≤ rc ≤ Z.of_nat (length l) ∧ sent k' = sent k ++ take (Z.to_nat rc) l))
}.

(** Every write of at least one byte accepts at least one. *)
Definition accepting (fd : Z) : Prop := ∀ l k, l ≠ [] → 0 < (k_write fd l k).1.1.

(** The thread that writes: it is not being cancelled, has its event structure [ev]
    for writing, and [data] is in its buffer. *)
Record writer (ev buf : N) (data : list Z) s : Prop := {
  w_init : pth_initialized s = true;
  w_key : ∃ k n, load (ints s) write_ev_key = Some k ∧ k ≠ PTH_KEY_INIT ∧ key_live s k ∧
            load (threads s) (pth_current s) = Some n ∧ data_wf (q_body n) ∧ data_at (q_body n) (Z.to_nat k) = ev ∧
            cancelreq (q_body n) && has (cancelstate (q_body n)) PTH_CANCEL_ENABLE = false;
  w_sched : is_Some (load (threads s) (pth_sched s));
  w_event : is_Some (load (evs s) ev);
  w_data : rd_bytes (mem (usr s)) buf (length data) = Some data
}.

Section with_descriptor.
Context (fd : Z) (flags : K → Z) (sent : K → list Z) (Hd : descriptor fd flags sent).
Context (ev buf : N) (data : list Z).

(** The descriptor has the same flags and has accepted the same data. *)
Definition same s s' : Prop := flags (kern s') = flags (kern s) ∧ sent (kern s') = sent (kern s).
(** What the other threads leave alone while the writing thread is suspended. *)
Definition others s s' : Prop := writer ev buf data s' ∧ cyc (evs s') [ev] ∧ same s s'.

#[local] Instance same_refl : Reflexive same.
Proof. by split. Qed.
#[local] Instance same_trans : Transitive same.
Proof. intros s1 s2 s3 [? ?] [? ?]. split; congruence. Qed.

(** Steps that change the kernel's state and [errno] only. *)
Definition kept s s' : Prop := ∃ e k, s' = set_errno (λ _, e) (set_kern (λ _, k) s).

#[local] Instance kept_trans : Transitive kept.
Proof. intros s1 s2 s3 (e & k & ->) (e' & k' & ->). by exists e', k'. Qed.

Lemma kept_kern s k : kept s (set_kern (λ _, k) s).
Proof. exists (errno s), k. by destruct s. Qed.

Lemma writer_kept s s' : kept s s' → writer ev buf data s → writer ev buf data s'.
Proof. intros (e & k & ->) [? ? ? ? ?]. by split. Qed.

Lemma writer_evs s g : writer ev buf data s → writer ev buf data (set_evs (alter g ev) s).
Proof.
  intros [? ? ? [e He] ?]. split; [done..| |done]. exists (g e). by apply load_alter_eq.
Qed.

Lemma writer_has_event s : writer ev buf data s → has_event s write_ev_key ev.
Proof.
  intros [_ (k & n & Hk & Hki & Hlive & Hn & Hwf & <- & _) _ [e He] _]. exists k, e. split_and!; [done..| |done].
  by apply getdata_run.
Qed.

Lemma fd_valid_wp s : wp (pth_util_fd_valid fd) (λ b s', b = true ∧ kept s s' ∧ same s s') s.
Proof.
  unfold pth_util_fd_valid. destruct Hd as [Hr Ho Hg _ _ _].
  rewrite (proj2 (orb_false_iff (fd <? 0) (FD_SETSIZE <=? fd))) by lia.
  destruct (Hg (kern s)) as (e & k' & Hk & Hf & Hs). unfold wp. erewrite bind_run by (by apply kcall_errno_run).
  rewrite (proj2 (Z.eqb_neq _ _) (Ho (kern s))). cbn. split_and!; [done|apply kept_kern|done].
Qed.

Definition mode_of (fl : Z) : Z := if has fl O_NONBLOCKING then PTH_FDMODE_NONBLOCK else PTH_FDMODE_BLOCK.
Definition flags_for (new fl : Z) : Z :=
  if mode_of fl =? PTH_FDMODE_BLOCK
  then if new =? PTH_FDMODE_NONBLOCK then Z.lor fl O_NONBLOCKING else fl
  else if new =? PTH_FDMODE_BLOCK then Z.land fl (Z.lnot O_NONBLOCKING) else fl.

Lemma fdmode_wp new s :
  wp (pth_fdmode fd new) (λ m s', m = mode_of (flags (kern s)) ∧ kept s s' ∧
        flags (kern s') = flags_for new (flags (kern s)) ∧ sent (kern s') = sent (kern s)) s.
Proof.
  unfold pth_fdmode, flags_for, mode_of. destruct Hd as [_ Ho Hg Hset _ _].
  destruct (Hg (kern s)) as (e & k' & Hk & Hf & Hs). unfold wp. erewrite bind_run by (by apply kcall_errno_run).
  rewrite (proj2 (Z.eqb_neq _ _) (Ho (kern s))).
  destruct (has (flags (kern s)) O_NONBLOCKING); cbn -[k_setfl Z.eqb Z.land Z.lor].
  - destruct (new =? PTH_FDMODE_BLOCK); cbn -[k_setfl Z.land]; split_and!; try done; try apply kept_kern; [|apply Hset; rewrite Hf; by auto|].
    + exists (errno s), (k_setfl fd (Z.land (flags (kern s)) (Z.lnot O_NONBLOCKING)) k'). by destruct s.
    + rewrite <- Hs. apply Hset. rewrite Hf. by auto.
  - destruct (new =? PTH_FDMODE_NONBLOCK); cbn -[k_setfl Z.lor]; split_and!; try done; try apply kept_kern; [|apply Hset; rewrite Hf; by auto|].
    + exists (errno s), (k_setfl fd (Z.lor (flags (kern s)) O_NONBLOCKING) k'). by destruct s.
    + rewrite <- Hs. apply Hset. rewrite Hf. by auto.
Qed.

Lemma flags_restored fl : flags_for (mode_of fl) (flags_for PTH_FDMODE_NONBLOCK fl) = fl.
Proof.
  unfold flags_for, mode_of. destruct (has fl O_NONBLOCKING) eqn:E; simpl; rewrite ?E; simpl; [done|].
  assert (has (Z.lor fl O_NONBLOCKING) O_NONBLOCKING = true) as ->.
  { unfold has in *. rewrite negb_true_iff, Z.eqb_neq. rewrite Z.land_lor_distr_l, Z.land_diag. intros H%Z.lor_eq_0_iff. by destruct H. }
  simpl. apply Z.bits_inj'. intros i Hi. rewrite Z.land_spec, Z.lor_spec, Z.lnot_spec by done.
  unfold has in E. rewrite negb_false_iff, Z.eqb_eq in E. apply (f_equal (λ z, Z.testbit z i)) in E.
  rewrite Z.land_spec, Z.bits_0 in E. destruct (Z.testbit fl i), (Z.testbit O_NONBLOCKING i); done.
Qed.

Lemma poll_wp fuel s :
  wp (poll_writeable (S fuel) fd) (λ n s', 0 ≤ n ∧ kept s s' ∧ same s s') s.
Proof.
  unfold poll_writeable. destruct Hd as [Hr _ _ _ Hsel _]. unfold FD_SET, fd_ok.
  unfold wp. erewrite bind_run.
  2: { unfold lift_opt. rewrite (proj2 (andb_true_iff (0 <=? fd) (fd <? FD_SETSIZE))) by lia. reflexivity. }
  destruct (Hsel (fd + 1) None (Some ({[fd]} ∪ ∅)) None (Some pth_time_zero) (kern s)) as (res & k' & Hk & Hrc & Hf & Hs).
  cbn [poll_select]. erewrite bind_run; [|erewrite bind_run by (by apply kcall_run)].
  2: { rewrite (proj2 (Z.ltb_ge _ _) Hrc). reflexivity. }
  cbn. split_and!; [done|apply kept_kern|done].
Qed.

Lemma write_wp fuel s i :
  writer ev buf data s → (i ≤ length data)%nat →
  wp (retry (S fuel) (sys_write fd (buf + N.of_nat i)%N (Z.of_nat (length data - i))))
    (λ rc s', kept s s' ∧ flags (kern s') = flags (kern s) ∧ (accepting fd → (i < length data)%nat → 0 < rc) ∧
       ((rc = -1 ∧ sent (kern s') = sent (kern s)) ∨
        (0 ≤ rc ≤ Z.of_nat (length data - i) ∧ sent (kern s') = sent (kern s) ++ take (Z.to_nat rc) (drop i data)))) s.
Proof.
  intros Hw Hi. destruct (d_write _ _ _ Hd (drop i data) (kern s)) as (rc & e & k' & Hk & Hf & Hrc).
  rewrite length_drop in Hrc.
  assert (accepting fd → (i < length data)%nat → 0 < rc) as Hacc.
  { intros Ha Hlt. specialize (Ha (drop i data) (kern s)). rewrite Hk in Ha. apply Ha.
    intros Hz%(f_equal length). rewrite length_drop in Hz. simpl in Hz. lia. }
  assert (sys_write fd (buf + N.of_nat i) (Z.of_nat (length data - i)) s =
    Some (rc, if rc =? -1 then set_errno (λ _, e) (set_kern (λ _, k') s) else set_kern (λ _, k') s)) as Hsys.
  { unfold sys_write. erewrite bind_run; [by apply kcall_errno_run|]. unfold rd_mem.
    rewrite Nat2Z.id, (rd_bytes_drop _ _ _ _ _ (w_data _ _ _ _ Hw)) by done. reflexivity. }
  cbn [retry]. unfold wp. erewrite bind_run by exact Hsys. erewrite bind_run by done.
  destruct Hrc as [(-> & Hne & Hs)|(Hrc & Hs)].
  - cbn. rewrite (proj2 (Z.eqb_neq _ _) Hne). cbn. split_and!; [by exists e, k'|done..|by left].
  - destruct (Z.eqb_spec rc (-1)); [lia|]. destruct (Z.ltb_spec rc 0); [lia|]. cbn.
    split_and!; [apply kept_kern|done..|by right].
Qed.

Lemma event_wp s :
  writer ev buf data s →
  wp (fd_event PTH_UNTIL_FD_WRITEABLE write_ev_key fd)
    (λ e s', e = ev ∧ writer ev buf data s' ∧ cyc (evs s') [ev] ∧ same s s') s.
Proof.
  intros Hw. unfold fd_event, wp.
  destruct (static_event_run s (Z.lor (Z.lor PTH_EVENT_FD PTH_UNTIL_FD_WRITEABLE) PTH_MODE_STATIC) write_ev_key [VInt fd] ev)
    as (e & He & ->); [by apply writer_has_event|done..|].
  set (s1 := set_evs _ s). unfold event_args.
  change (has _ PTH_EVENT_FD) with true. cbn iota. erewrite bind_run by done. cbv beta iota.
  pose proof (fd_valid_wp s1) as Hv. apply wp_run in Hv as (b & s2 & Hrun & -> & (er & k & ->) & Hsame).
  erewrite bind_run by exact Hrun. cbn [negb].
  set (s0 := set_errno (λ _, er) (set_kern (λ _, k) s)).
  change (set_errno (λ _, er) (set_kern (λ _, k) s1)) with
    (set_evs (alter (fresh_event ev (ev_type e) (ev_goal e) (ev_args e)) ev) s0).
  erewrite (event_fill_run s0) by exact He. split_and!; [done| | |done].
  - apply writer_evs. eapply writer_kept; [|exact Hw]. by exists er, k.
  - by eapply (fresh_event_cyc s0).
Qed.

Lemma wait_wpc s :
  writer ev buf data s → cyc (evs s) [ev] →
  wpc others (λ b s', b = true ∧ writer ev buf data s' ∧ same s s') (wait_extra ev NULL s).
Proof.
  intros Hw Hc. destruct (w_key _ _ _ _ Hw) as (k & n & _ & _ & _ & Hn & _). destruct (w_sched _ _ _ _ Hw) as [n' Hn'].
  destruct (pth_wait_run s ev [] n n' Hc Hn Hn') as (c & Hrun & Hback); [done|].
  unfold wait_extra. apply wpc_cbind, wpc_atom. change (concat_extra ev NULL) with (ret tt : M St unit). rewrite wp_ret.
  apply wpc_cbind. rewrite Hrun. constructor. intros s2 (Hw2 & Hc2 & Hs2).
  destruct (w_key _ _ _ _ Hw2) as (k2 & n2 & Hk2 & Hki2 & Hlive2 & Hn2 & Hwf2 & Hat2 & Hcan2).
  rewrite (Hback s2 n2 Hn2 Hc2 Hcan2). constructor. apply wpc_atom.
  change (isolate_extra ev NULL) with (ret true : M St bool). rewrite wp_ret. split_and!; [done| |exact Hs2].
  split; [apply Hw2| | |apply Hw2|apply Hw2].
  - exists k2, (on_body (set_events (λ _, NULL)) n2). split_and!; try done. cbn. by apply load_alter_eq.
  - destruct (w_sched _ _ _ _ Hw2) as [m Hm]. cbn. rewrite load_alter. case_decide; rewrite Hm; by eexists.
Qed.

(** What has been written when [j] bytes were taken, and the value for it. *)
Definition written (s : St) (i : nat) (r : Z) (s' : St) : Prop :=
  flags (kern s') = flags (kern s) ∧
  ∃ j, (i ≤ j ≤ length data)%nat ∧ sent (kern s') = sent (kern s) ++ take (j - i) (drop i data) ∧
    (r = Z.of_nat j ∨ j = 0%nat ∧ r = -1) ∧ (accepting fd → j = length data).

Lemma written_step s s1 s' i k r :
  flags (kern s1) = flags (kern s) → sent (kern s1) = sent (kern s) ++ take k (drop i data) → (0 < k)%nat →
  written s1 (i + k) r s' → written s i r s'.
Proof.
  intros Hf Hs Hk (Hf' & j & Hj & Hs' & Hr & Ha). split; [congruence|]. exists j. split_and!; [lia|lia| |naive_solver lia|done].
  rewrite Hs', Hs, <- app_assoc. f_equal. replace (j - i)%nat with (k + (j - (i + k)))%nat by lia.
  by rewrite <- take_take_drop, drop_drop.
Qed.

Lemma write_loop_wpc fuel fdmode n i s :
  writer ev buf data s → (i < length data)%nat → (length data - i < fuel)%nat →
  Z.of_nat (length data) < 9223372036854775808 →
  wpc others (λ r s', r.1 = true ∧ written s i r.2 s')
    (write_loop fuel write_ev_key (λ n, n <? 1) (sys_write fd) fd fdmode (buf + N.of_nat i)%N
       (Z.of_nat (length data - i)) NULL n (Z.of_nat i) s).
Proof.
  revert n i s. induction fuel as [|fuel IH]; intros n i s Hw Hi Hf Hlen; [lia|]. cbn [write_loop].
  apply wpc_cbind. apply (wpc_mono _ (λ b s', b = true ∧ writer ev buf data s' ∧ same s s')).
  { destruct (n <? 1); [|by constructor]. apply wpc_cbind, wpc_atom. eapply wp_mono; [by apply event_wp|].
    intros e s1 (-> & Hw1 & Hc1 & Hs1). eapply wpc_mono; [by apply wait_wpc|]. intros b s2 (-> & Hw2 & Hs2).
    split_and!; [done..|]. by etrans. }
  intros b s1 (-> & Hw1 & [Hf1 Hs1]). cbn [negb]. apply wpc_cbind, wpc_atom.
  eapply wp_mono; [by apply write_wp, Nat.lt_le_incl|]. intros rc s2 (Hk2 & Hf2 & Hacc & Hrc).
  assert (s64 (Z.of_nat (length data - i)) = Z.of_nat (length data - i)) as ->.
  { unfold s64. rewrite Z.mod_small; lia. }
  destruct Hrc as [[-> Hs2]|[Hrc Hs2]].
  - cbn. constructor. cbn. split; [done|]. split; [congruence|]. exists i. split_and!; [lia|lia| | |].
    + rewrite Nat.sub_diag, take_0, app_nil_r. congruence.
    + destruct (Z.eqb_spec (Z.of_nat i) 0); [right; lia|by left].
    + intros Ha. specialize (Hacc Ha Hi). lia.
  - destruct (Z.ltb_spec 0 rc) as [Hpos|Hpos]; cbn [andb].
    + destruct (Z.ltb_spec rc (Z.of_nat (length data - i))) as [Hpart|Hall].
      * replace (buf + N.of_nat i + Z.to_N rc)%N with (buf + N.of_nat (i + Z.to_nat rc))%N by lia.
        replace (Z.of_nat (length data - i) - rc) with (Z.of_nat (length data - (i + Z.to_nat rc))) by lia.
        replace (Z.of_nat i + rc) with (Z.of_nat (i + Z.to_nat rc)) by lia.
        eapply wpc_mono; [apply IH; [by eapply writer_kept|lia|lia|done]|]. intros r s3 [Hr Hwr]. split; [done|].
        eapply (written_step s s2 _ i (Z.to_nat rc)); [congruence| |lia|exact Hwr]. congruence.
      * constructor. cbn. rewrite (proj2 (Z.ltb_ge rc 0)) by lia. cbn. split; [done|].
        split; [congruence|]. exists (length data). split_and!; [lia|lia| |left; lia|done].
        rewrite Hs2, Hs1. do 2 f_equal. lia.
    + constructor. cbn. rewrite (proj2 (Z.ltb_ge rc 0)) by lia. cbn. split; [done|]. split; [congruence|]. exists i.
      split_and!; [lia|lia| |by left|].
      * replace (Z.to_nat rc) with 0%nat in Hs2 by lia. rewrite take_0, app_nil_r in Hs2.
        rewrite Nat.sub_diag, take_0, app_nil_r. congruence.
      * intros Ha. specialize (Hacc Ha Hi). lia.
Qed.


End with_descriptor.
End write.

(** ** An example: a pipe that takes two bytes at a time *)
Record pipe := Pipe { p_nonblocking : bool; p_sent : list Z }.
Definition pipe_flags (k : pipe) : Z := if p_nonblocking k then O_NONBLOCKING else 0.

Definition pipe_kernel : Kernel := {|
  K := pipe;
  k_enomem _ k := (false, k);
  k_gettimeofday k := (Tv 0 0, k);
  k_time k := (0, k);
  k_getfl _ k := ((pipe_flags k, 0), k);
  k_setfl _ fl k := Pipe (has fl O_NONBLOCKING) (p_sent k);
  k_pipe k := ((0, 0, (3, 4)), k);
  k_close _ k := k;
  k_read _ _ k := ((0, 0, []), k);
  k_write _ b k := ((Z.of_nat (length (take 2 b)), 0), Pipe (p_nonblocking k) (p_sent k ++ take 2 b));
  k_select _ r w e _ k := (SelResult 0 0 r w e [], k);
  k_sigpending _ := ∅;
  k_kill _ k := k;
  k_sigprocmask _ _ k := (∅, k);
  k_sigaction _ _ k := ((0, SIG_DFL), k);
  k_sigsuspend _ k := k;
  k_fork k := ((42, 0), k);
|}.

Lemma pipe_descriptor : @descriptor pipe_kernel 1 pipe_flags p_sent.
Proof.
  split.
  - unfold FD_SETSIZE. lia.
  - intros [[] ?]; done.
  - intros k. by eexists _, k.
  - intros fl [[] ?] [->| ->]; done.
  - intros. eexists _, k. split; [reflexivity|]. by split.
  - intros l k. eexists _, _, _. split; [reflexivity|]. split; [done|]. right. simpl.
    rewrite length_take. split; [lia|]. rewrite Nat2Z.id. f_equal. by destruct l as [|? [|]].
Qed.

Lemma pipe_accepting : @accepting pipe_kernel 1.
Proof. intros [|? [|]] k Hl; simpl; [done|lia..]. Qed.

(** Thread 100 with the event 10 and three bytes at address 200. *)
Definition pipe_state : @St pipe_kernel :=
  @MkSt pipe_kernel
    (list_to_map [(100%N, Qnode 0 0 0 (set_data_count (λ _, 1) (set_data_value (λ _, Some (<[0%nat := 10%N]> data_zero)) toy_tcb)));
                  (99%N, Qnode 0 0 0 (set_state (λ _, PTH_STATE_SCHEDULER) toy_tcb))])
    {[ 10%N := raw_event ]} ∅ ∅ ∅ ∅ ∅ ∅ ∅ ∅ ∅ {[ write_ev_key := 0 ]} ∅ ∅ ∅ ∅
    true 100 99 100 (Pqueue 0 0) (Pqueue 0 0) (Pqueue 0 0) (Pqueue 0 0) (Pqueue 0 0) 1
    (S754_finite false 1 0) pth_time_zero (3, 4) ∅ ∅ ∅ ∅
    (<[0%nat := Keytab true fp_event_destructor]> (replicate 256 (Keytab false 0))) Ring.PTH_RING_INIT [] 0 0 0 false
    (upd_mem (λ _, list_to_map [(200%N, 104); (201%N, 105); (202%N, 10)]) user_init) 1000 (Pipe false []).

Lemma pipe_writer : writer 10 200 [104; 105; 10] pipe_state.
Proof.
  split; [done| |by eexists|by eexists|done]. exists 0. eexists. split; [reflexivity|]. split; [done|].
  split; [split; [lia|by eexists]|]. split; [vm_compute; reflexivity|]. split; [split; vm_compute; reflexivity|].
  split; vm_compute; reflexivity.
Qed.

Definition pipe_knot : @Knot pipe_kernel := {| call _ _ := λ s, ORet tt s; kexit _ := λ _, OFuel |}.

