(* ===== verification/Uctx.v ===== *)
(** * User-space contexts (pth_uctx.c)

A user-space context is a coroutine of the program.  Its saved machine context is
not data that the library looks at but a place in some code: here, a function from
states to outcomes, kept in a table by the address of the machine context.  Code
that runs in such contexts has type [ucoro]: it can switch between machine
contexts ([UTo]) and set one up to start in the trampoline ([UInit]).  The [error]
member of the machine context at address [p] is the [int] at [p].  The program's
start functions are the parameter [ustart]. *)
From stdpp Require Import relations.
From S2P Require Import State Data Sys Tcb Sched Fork Lib High.

Section uctx.
Context {Kern : Kernel} {IoK : IoKernel}.

Inductive uout (A : Type) : Type :=
  | URet (a : A) (s : St)
  | UTo (old new : N) (s : St) (k : St → uout A)
  | UInit (p : N) (s : St) (k : St → uout A)
  | UExit (code : Z) (s : St)
  | UUndef.
#[global] Arguments URet {_} _ _.
#[global] Arguments UTo {_} _ _ _ _.
#[global] Arguments UInit {_} _ _ _.
#[global] Arguments UExit {_} _ _.
#[global] Arguments UUndef {_}.

Definition ucoro (A : Type) : Type := St → uout A.

Fixpoint uobind {A B} (o : uout A) (f : A → ucoro B) : uout B :=
  match o with
  | URet a s => f a s
  | UTo old new s k => UTo old new s (λ s', uobind (k s') f)
  | UInit p s k => UInit p s (λ s', uobind (k s') f)
  | UExit c s => UExit c s
  | UUndef => UUndef
  end.
Definition ubind {A B} (c : ucoro A) (f : A → ucoro B) : ucoro B := λ s, uobind (c s) f.
Definition uret {A} (a : A) : ucoro A := λ s, URet a s.
Definition uatom {A} (m : M St A) : ucoro A :=
  λ s, match m s with Some (a, s') => URet a s' | None => UUndef end.

Definition sizeof_uctx : Z := 248.
Definition raw_uctx : pth_uctx := Uctx false NULL 0 false.
Definition lduc {A} (p : ptr) (f : pth_uctx → A) : M St A := ldu uctxs p f.
Definition stuc (p : ptr) (g : pth_uctx → pth_uctx) : M St unit := stu uctxs upd_uctxs p g.
Definition set_uc_stack_own (b : bool) (u : pth_uctx) : pth_uctx := Uctx b (uc_stack_ptr u) (uc_stack_len u) (uc_mctx_set u).
Definition set_uc_stack_ptr (p : N) (u : pth_uctx) : pth_uctx := Uctx (uc_stack_own u) p (uc_stack_len u) (uc_mctx_set u).
Definition set_uc_stack_len (z : Z) (u : pth_uctx) : pth_uctx := Uctx (uc_stack_own u) (uc_stack_ptr u) z (uc_mctx_set u).
Definition set_uc_mctx_set (b : bool) (u : pth_uctx) : pth_uctx := Uctx (uc_stack_own u) (uc_stack_ptr u) (uc_stack_len u) b.

Definition pth_uctx_create (puctx : ptr) : M St bool :=
  if is_null puctx then pth_error false EINVAL else
  do uctx <- malloc sizeof_uctx;
  if is_null uctx then do e <- gets errno; pth_error false e else
  modify (set_usr (upd_uctxs (<[uctx := raw_uctx]>))) ;;
  modify (set_ints (<[uctx := 0]>)) ;;
  stu ptrs upd_ptrs puctx (λ _, uctx) ;;
  ret true.

(** [pth_mctx_switch(old, new)] *)
Definition mctx_switch (old new : ptr) : ucoro unit :=
  ubind (uatom (do e <- gets errno; st_int old e)) (λ _,
  ubind (λ s, UTo old new s (λ s', URet tt s')) (λ _,
  uatom (do e <- ld ints old id; modify (set_errno (λ _, e))))).

Context (ustart : N → N → ucoro unit).

(** What the trampoline does once it is switched to again: the start function, then
    [pth_mctx_restore] of the successor, which only sets [errno], and the end of
    the process. *)
Definition trampoline_body (ctx : uctx_trampoline) : ucoro unit :=
  ubind (ustart (ut_func ctx) (ut_arg ctx)) (λ _,
  ubind (uatom (if is_null (ut_after ctx) then ret tt
                else do e <- ld ints (ut_after ctx) id; modify (set_errno (λ _, e)))) (λ _,
  λ s, UExit 0 s)).
Definition pth_uctx_trampoline : ucoro unit :=
  ubind (uatom (gets (pth_uctx_trampoline_ctx ∘ usr))) (λ ctx,
  ubind (mctx_switch (ut_this ctx) (ut_parent ctx)) (λ _,
  trampoline_body ctx)).

(** From [pth_mctx_set] on. *)
Definition make_enter (uctx sigmask start_func start_arg uctx_after : ptr) : ucoro bool :=
  ubind (λ s, UInit uctx s (λ s', URet tt s')) (λ _,
  ubind (uatom (new_int 0)) (λ mctx_parent,
  ubind (uatom (
    modify (set_usr (upd_pth_uctx_trampoline_ctx (λ _, UTramp mctx_parent uctx uctx_after start_func start_arg))) ;;
    if is_null sigmask then ret ∅ else
    do m <- ld sigsets sigmask id; sigprocmask SIG_SETMASK m)) (λ ss,
  ubind (mctx_switch mctx_parent uctx) (λ _,
  uatom (
    (if is_null sigmask then ret tt else do _ <- sigprocmask SIG_SETMASK ss; ret tt) ;;
    drop_int mctx_parent ;;
    stuc uctx (set_uc_mctx_set true) ;;
    ret true))))).
Definition make_stack (uctx sk_addr : ptr) (sk_size : Z) : M St N :=
  if is_null sk_addr then
    do p <- malloc sk_size;
    if is_null p then ret NULL else
    modify (set_longs (<[p := 0]>)) ;; stuc uctx (set_uc_stack_own true) ;; ret p
  else stuc uctx (set_uc_stack_own false) ;; ret sk_addr.

Definition pth_uctx_make (uctx sk_addr : ptr) (sk_size : Z) (sigmask start_func start_arg uctx_after : ptr)
  : ucoro bool :=
  if is_null uctx || is_null start_func || (sk_size <? 16 * 1024) then uatom (pth_error false EINVAL) else
  ubind (uatom (make_stack uctx sk_addr sk_size)) (λ sk_addr,
  if is_null sk_addr then uatom (do e <- gets errno; pth_error false e) else
  ubind (uatom (
    stuc uctx (set_uc_stack_ptr sk_addr) ;;
    stuc uctx (set_uc_stack_len sk_size) ;;
    st_int uctx 0)) (λ _,
  make_enter uctx sigmask start_func start_arg uctx_after)).

Definition pth_uctx_switch (uctx_from uctx_to : ptr) : ucoro bool :=
  if is_null uctx_from || is_null uctx_to then uatom (pth_error false EINVAL) else
  ubind (uatom (lduc uctx_to uc_mctx_set)) (λ ok,
  if negb ok then uatom (pth_error false EPERM) else
  ubind (uatom (stuc uctx_from (set_uc_mctx_set true))) (λ _,
  ubind (mctx_switch uctx_from uctx_to) (λ _,
  uret true))).

Definition pth_uctx_destroy (uctx : ptr) : M St bool :=
  if is_null uctx then pth_error false EINVAL else
  do own <- lduc uctx uc_stack_own;
  do stk <- lduc uctx uc_stack_ptr;
  (if own && negb (is_null stk) then free longs set_longs stk else ret tt) ;;
  modify (set_usr (upd_uctxs (delete uctx))) ;;
  drop_int uctx ;;
  ret true.

(** ** Running contexts *)

(** The table of saved machine contexts and the code that runs; one step per switch. *)
Definition uworld : Type := gmap N (ucoro unit) * uout unit.
Definition ustep (w : uworld) : option uworld :=
  match w.2 with
  | UTo old new s k => c ← w.1 !! new; Some (<[old := k]> w.1, c s)
  | UInit p s k => Some (<[p := pth_uctx_trampoline]> w.1, k s)
  | _ => None
  end.
Fixpoint usteps (n : nat) (w : uworld) : option uworld :=
  match n with O => Some w | S n' => w' ← ustep w; usteps n' w' end.

(** ** Correctness *)
Implicit Types (s : St) (saved : gmap N (ucoro unit)).

Lemma uatom_bind {A B} (m : M St A) (f : A → ucoro B) a s s' : m s = Some (a, s') → ubind (uatom m) f s = f a s'.
Proof. intros Hm. unfold ubind, uatom. by rewrite Hm. Qed.

Lemma ubind_eq {A B} (c : ucoro A) (f : A → ucoro B) s o : c s = o → ubind c f s = uobind o f.
Proof. intros <-. done. Qed.

Lemma st_int_run p v z s : load (ints s) p = Some z → st_int p v s = Some (tt, set_ints (alter (λ _, v) p) s).
Proof. intros Hz. unfold st_int, st. by rewrite Hz. Qed.

Lemma stuc_run p g x s : load (uctxs (usr s)) p = Some x → stuc p g s = Some (tt, set_usr (upd_uctxs (alter g p)) s).
Proof. intros Hx. unfold stuc, stu, st. simpl. by rewrite Hx. Qed.

Lemma usteps_step n w w' : ustep w = Some w' → usteps (S n) w = usteps n w'.
Proof. intros Hw. simpl. by rewrite Hw. Qed.

Lemma ustep_to saved old new s k c : saved !! new = Some c → ustep (saved, UTo old new s k) = Some (<[old := k]> saved, c s).
Proof. intros Hc. unfold ustep. simpl. by rewrite Hc. Qed.

Lemma ustep_init saved p s k : ustep (saved, UInit p s k) = Some (<[p := pth_uctx_trampoline]> saved, k s).
Proof. done. Qed.

(** What a suspended context does when it is resumed: [errno] is restored from its
    machine context, then [c] runs. *)
Definition resumes (p : N) (r : ucoro unit) (c : ucoro unit) : Prop :=
  ∀ s e, load (ints s) p = Some e → r s = c (set_errno (λ _, e) s).

Lemma mctx_switch_run {A} old new (f : unit → ucoro A) s z :
  load (ints s) old = Some z →
  ∃ r, ubind (mctx_switch old new) f s = UTo old new (set_ints (alter (λ _, errno s) old) s) r ∧
    ∀ s' e, load (ints s') old = Some e → r s' = f tt (set_errno (λ _, e) s').
Proof.
  intros Hz. unfold mctx_switch. eexists. split.
  - erewrite ubind_eq.
    2: { erewrite uatom_bind.
         2: { erewrite bind_run by done. by eapply st_int_run. }
         reflexivity. }
    reflexivity.
  - intros s' e He. simpl. unfold uatom, bind, ld. rewrite He. done.
Qed.

Lemma switch_step saved {A} old new (f : unit → ucoro A) (g : A → ucoro unit) s z c :
  load (ints s) old = Some z → saved !! new = Some c →
  ∃ r, ustep (saved, ubind (ubind (mctx_switch old new) f) g s) =
         Some (<[old := r]> saved, c (set_ints (alter (λ _, errno s) old) s)) ∧
    ∀ s' e, load (ints s') old = Some e → r s' = ubind (f tt) g (set_errno (λ _, e) s').
Proof.
  intros Hz Hc. destruct (mctx_switch_run old new f s z Hz) as (r & Hr & Hres).
  exists (λ s', uobind (r s') g). split.
  - unfold ustep, ubind at 1. simpl. rewrite Hr. simpl. by rewrite Hc.
  - intros s' e He. by rewrite (Hres s' e He).
Qed.

(** The arguments of [pth_uctx_make] are good and there is memory. *)
Record makeable (u sk_addr : N) (sk_size : Z) (sigmask f : N) s : Prop := {
  mk_size : 16 * 1024 ≤ sk_size;
  mk_func : f ≠ NULL;
  mk_uctx : is_Some (load (uctxs (usr s)) u);
  mk_error : is_Some (load (ints s) u);
  mk_mask : sigmask = NULL ∨ is_Some (load (sigsets s) sigmask);
  mk_fresh p : p ∈ dom (ints s) → (p < brk s)%N;
  mk_stack : sk_addr = NULL → (k_enomem sk_size (kern s)).1 = false
}.

(** What the first part, which finds the stack, leaves alone. *)
Definition like s s1 : Prop :=
  ints s1 = ints s ∧ sigsets s1 = sigsets s ∧ errno s1 = errno s ∧ (brk s ≤ brk s1)%N ∧
  ∀ p, is_Some (load (uctxs (usr s)) p) → is_Some (load (uctxs (usr s1)) p).

Lemma like_stuc p g s s1 : like s s1 → is_Some (load (uctxs (usr s)) p) →
  ∃ s2, stuc p g s1 = Some (tt, s2) ∧ like s s2.
Proof.
  intros (? & ? & ? & ? & Hu) Hp. destruct (Hu p Hp) as [x Hx]. eexists. split; [by eapply stuc_run|].
  split_and!; try done. intros q Hq. specialize (Hu q Hq) as [y Hy]. simpl. rewrite load_alter.
  case_decide; rewrite Hy; by eexists.
Qed.

Lemma stack_part_run u sk_addr sk_size sigmask f s :
  makeable u sk_addr sk_size sigmask f s →
  ∃ stk s1, make_stack u sk_addr sk_size s = Some (stk, s1) ∧ stk ≠ NULL ∧ like s s1.
Proof.
  intros Hm. assert (like s s) as Hs by (by split_and!). pose proof (mk_error _ _ _ _ _ _ Hm) as [z [_ Hz]%load_Some].
  apply elem_of_dom_2 in Hz. pose proof (mk_fresh _ _ _ _ _ _ Hm u Hz).
  unfold make_stack, is_null. case_bool_decide as Hn.
  - destruct (k_enomem sk_size (kern s)) as [b k] eqn:Hk. pose proof (mk_stack _ _ _ _ _ _ Hm Hn) as Hb. rewrite Hk in Hb.
    simpl in Hb. subst b. unfold malloc. set (s1 := set_brk (λ b, (b + 1 + Z.to_N sk_size)%N) (set_kern (λ _, k) s)).
    destruct (like_stuc u (set_uc_stack_own true) s (set_longs (<[brk s := 0]>) s1)) as (s2 & Hs2 & Hl2).
    { split_and!; try done. simpl. lia. }
    { apply Hm. }
    exists (brk s), s2. split_and!; [|lia|done].
    erewrite bind_run.
    2: { erewrite bind_run by (unfold kcall; rewrite Hk; reflexivity). reflexivity. }
    rewrite bool_decide_false by (simpl; lia). erewrite bind_run by done.
    change (brk (set_kern (λ _, k) s)) with (brk s). erewrite bind_run by exact Hs2. done.
  - destruct (like_stuc u (set_uc_stack_own false) s s Hs) as (s2 & Hs2 & Hl2); [apply Hm|].
    exists sk_addr, s2. split_and!; [|done|done]. erewrite bind_run by exact Hs2. done.
Qed.

(** The trampoline takes its arguments from the global variable and switches back. *)
Lemma trampoline_step saved s ctx z c :
  pth_uctx_trampoline_ctx (usr s) = ctx → load (ints s) (ut_this ctx) = Some z → saved !! ut_parent ctx = Some c →
  ∃ r, ustep (saved, pth_uctx_trampoline s) =
         Some (<[ut_this ctx := r]> saved, c (set_ints (alter (λ _, errno s) (ut_this ctx)) s)) ∧
    resumes (ut_this ctx) r (trampoline_body ctx).
Proof.
  intros Hctx Hz Hc. destruct (mctx_switch_run (ut_this ctx) (ut_parent ctx) (λ _, trampoline_body ctx) s z Hz) as (r & Hr & Hres).
  exists r. split; [|done]. unfold pth_uctx_trampoline, ustep. erewrite uatom_bind by reflexivity. simpl. rewrite Hctx, Hr.
  simpl. by rewrite Hc.
Qed.

(** The code of [pth_uctx_make] up to the setup of the machine context. *)
Lemma make_prepares u sk_addr sk_size sigmask f arg after s :
  makeable u sk_addr sk_size sigmask f s →
  ∃ s2, pth_uctx_make u sk_addr sk_size sigmask f arg after s =
          make_enter u sigmask f arg after (set_ints (alter (λ _, 0) u) s2) ∧ like s s2.
Proof.
  intros Hm. destruct (stack_part_run _ _ _ _ _ _ Hm) as (stk & s1 & Hs1 & Hnz & Hl1).
  destruct (like_stuc u (set_uc_stack_ptr stk) s s1 Hl1 (mk_uctx _ _ _ _ _ _ Hm)) as (s1' & Hs1' & Hl1').
  destruct (like_stuc u (set_uc_stack_len sk_size) s s1' Hl1' (mk_uctx _ _ _ _ _ _ Hm)) as (s2 & Hs2 & Hl2).
  exists s2. split; [|done]. destruct (mk_uctx _ _ _ _ _ _ Hm) as [uc [Hu _]%load_Some]. unfold pth_uctx_make.
  rewrite (is_null_false u), (is_null_false f), (proj2 (Z.ltb_ge _ _) (mk_size _ _ _ _ _ _ Hm)) by (done || apply Hm).
  cbn [orb]. erewrite uatom_bind by exact Hs1. rewrite is_null_false by done.
  destruct (mk_error _ _ _ _ _ _ Hm) as [z Hz]. erewrite uatom_bind; [reflexivity|].
  erewrite bind_run by exact Hs1'. erewrite bind_run by exact Hs2. eapply st_int_run.
  destruct Hl2 as (-> & _). exact Hz.
Qed.

(** The signal mask is set, if one is given. *)
Lemma mask_part_run u sk_addr sk_size sigmask f s s1 :
  makeable u sk_addr sk_size sigmask f s → sigsets s1 = sigsets s →
  ∃ ss k, (if is_null sigmask then ret ∅ else do m <- ld sigsets sigmask id; sigprocmask SIG_SETMASK m) s1 =
    Some (ss, set_kern (λ _, k) s1).
Proof.
  intros Hm Hs. destruct (mk_mask _ _ _ _ _ _ Hm) as [->|[m Hl]].
  - exists ∅, (kern s1). unfold ret. simpl. by destruct s1.
  - pose proof Hl as [Hnz _]%load_Some. rewrite is_null_false by done.
    destruct (k_sigprocmask SIG_SETMASK m (kern s1)) as [ss k] eqn:Hk. exists ss, k.
    erewrite bind_run by (unfold ld; rewrite Hs, Hl; reflexivity). unfold sigprocmask, kcall. simpl. by rewrite Hk.
Qed.

Lemma make_run saved u sk_addr sk_size sigmask f arg after (C : bool → ucoro unit) s :
  makeable u sk_addr sk_size sigmask f s →
  ∃ saved' s' r p, usteps 3 (saved, ubind (pth_uctx_make u sk_addr sk_size sigmask f arg after) C s) = Some (saved', C true s') ∧
    saved' !! u = Some r ∧ resumes u r (trampoline_body (UTramp p u after f arg)) ∧
    p ∉ dom (ints s) ∧ (∀ x, x ≠ u → x ≠ p → saved' !! x = saved !! x) ∧
    uc_mctx_set <$> uctxs (usr s') !! u = Some true ∧ errno s' = errno s.
Proof.
  intros Hm. destruct (mk_uctx _ _ _ _ _ _ Hm) as [uc Huc]. pose proof Huc as [Hu _]%load_Some.
  destruct (mk_error _ _ _ _ _ _ Hm) as [z Hz]. pose proof Hz as [_ Hz'%elem_of_dom_2]%load_Some.
  pose proof (mk_fresh _ _ _ _ _ _ Hm u Hz') as Hub.
  destruct (make_prepares u sk_addr sk_size sigmask f arg after s Hm) as (s2 & Hs2 & Hl2 & Hl3 & Hl4 & Hl5 & Hl6).
  unfold ubind at 1. rewrite Hs2. clear Hs2. unfold make_enter.
  set (s3 := set_ints (alter (λ _, 0) u) s2). set (p := brk s2).
  assert (p ≠ u) as Hpu by (unfold p; lia).
  set (s4 := set_ints (<[p := 0]>) (set_brk (λ b, (b + 4)%N) s3)).
  set (ctx := UTramp p u after f arg). set (s5 := set_usr (upd_pth_uctx_trampoline_ctx (λ _, ctx)) s4).
  destruct (mask_part_run u sk_addr sk_size sigmask f s s5 Hm) as (ss & k & Hmask); [done|].
  set (s6 := set_kern (λ _, k) s5) in *.
  unfold ubind at 1. cbn [uobind]. erewrite usteps_step by apply ustep_init. cbv beta.
  erewrite (uatom_bind (new_int 0)) by reflexivity. cbv beta.
  erewrite uatom_bind.
  2: { erewrite bind_run by reflexivity. exact Hmask. }
  assert (load (ints s6) p = Some 0) as Hp6.
  { apply load_Some. split; [unfold p; lia|]. apply lookup_insert_eq. }
  match goal with |- context [ubind (mctx_switch ?x u) ?g ?y] =>
    change (ubind (mctx_switch x u) g y) with (ubind (mctx_switch p u) g s6); set (R := g) end.
  destruct (mctx_switch_run p u R s6 0 Hp6) as (r & Hr & Hres). rewrite Hr. clear Hr. cbn [uobind].
  erewrite usteps_step by (apply ustep_to, lookup_insert_eq).
  set (s7 := set_ints (alter (λ _, errno s6) p) s6).
  assert (load (ints s7) u = Some 0) as Hu7.
  { unfold s7. cbn. rewrite load_alter_ne by done. apply load_Some. split; [done|]. cbn.
    rewrite lookup_insert_ne, lookup_alter_eq by done. rewrite Hl2. apply load_Some in Hz as [_ ->]. done. }
  edestruct (trampoline_step (<[p := λ s', uobind (r s') C]> (<[u := pth_uctx_trampoline]> saved)) s7 ctx 0) as (r' & Hstep & Hresumes);
    [reflexivity|exact Hu7|apply lookup_insert_eq|].
  rewrite (usteps_step _ _ _ Hstep). cbn [ut_this ctx].
  set (s8 := set_ints (alter (λ _, errno s7) u) s7).
  assert (load (ints s8) p = Some (errno s6)) as Hp8.
  { unfold s8. cbn. rewrite load_alter_ne by done. by apply (load_alter_eq _ (λ _, errno s6) _ 0). }
  rewrite (Hres _ _ Hp8). set (s9 := set_errno (λ _, errno s6) s8).
  assert (∃ k', (if is_null sigmask then ret tt else do _ <- sigprocmask SIG_SETMASK ss; ret tt) s9 =
            Some (tt, set_kern (λ _, k') s9)) as [k' Hk'].
  { destruct (is_null sigmask); [exists (kern s9); unfold ret; by destruct s9|].
    destruct (k_sigprocmask SIG_SETMASK ss (kern s9)) as [x k'] eqn:Hk. exists k'.
    erewrite bind_run by (unfold sigprocmask, kcall; by rewrite Hk). done. }
  destruct (Hl6 u) as [uc2 Huc2]; [by eexists|].
  exists (<[u := r']> (<[p := λ s', uobind (r s') C]> (<[u := pth_uctx_trampoline]> saved))),
    (set_usr (upd_uctxs (alter (set_uc_mctx_set true) u)) (set_ints (delete p) (set_kern (λ _, k') s9))), r', p.
  split_and!.
  - cbn [usteps]. do 2 f_equal. unfold R, uatom. erewrite bind_run by exact Hk'. erewrite bind_run by reflexivity.
    erewrite bind_run by (eapply stuc_run; exact Huc2). done.
  - apply lookup_insert_eq.
  - exact Hresumes.
  - intros Hin. pose proof (mk_fresh _ _ _ _ _ _ Hm p Hin). unfold p in *. lia.
  - intros x Hx1 Hx2. by rewrite !lookup_insert_ne.
  - cbn. rewrite lookup_alter_eq. apply load_Some in Huc2 as [_ Huc2]. cbn in Huc2. by rewrite Huc2.
  - cbn. exact Hl4.
Qed.

(** C24: A user-space context is a coroutine of its own.  After [pth_uctx_make] has
    returned, the context is suspended right before its start function, with the
    function, argument and successor it was made with, whatever contexts are made
    later; no other context has changed.  The first [pth_uctx_switch] to it, from
    whatever state the program is in then, enters that function, and suspends the
    calling context: a switch back to it returns [TRUE] from its own
    [pth_uctx_switch], with its [errno]. *)
Theorem uctx_coroutine saved u sk_addr sk_size sigmask f arg after (C : bool → ucoro unit) s :
  makeable u sk_addr sk_size sigmask f s →
  ∃ saved' s' r p, usteps 3 (saved, ubind (pth_uctx_make u sk_addr sk_size sigmask f arg after) C s) = Some (saved', C true s') ∧
    saved' !! u = Some r ∧ p ∉ dom (ints s) ∧ (∀ x, x ≠ u → x ≠ p → saved' !! x = saved !! x) ∧
    uc_mctx_set <$> uctxs (usr s') !! u = Some true ∧ errno s' = errno s ∧
    ∀ saved2 s2 from (C2 : bool → ucoro unit) uc ucf e ef,
      saved2 !! u = Some r → from ≠ u → load (uctxs (usr s2)) u = Some uc → uc_mctx_set uc = true →
      load (uctxs (usr s2)) from = Some ucf → load (ints s2) from = Some ef → load (ints s2) u = Some e →
      ∃ saved3 s3 r2, ustep (saved2, ubind (pth_uctx_switch from u) C2 s2) =
          Some (saved3, trampoline_body (UTramp p u after f arg) s3) ∧
        errno s3 = e ∧ load (ints s3) from = Some (errno s2) ∧ saved3 !! from = Some r2 ∧ resumes from r2 (C2 true).
Proof.
  intros Hm. destruct (make_run saved u sk_addr sk_size sigmask f arg after C s Hm)
    as (saved' & s' & r & p & Hrun & Hr & Hres & Hp & Hother & Hset & He).
  exists saved', s', r, p. split_and!; try done.
  intros saved2 s2 from C2 uc ucf e ef Hr2 Hne Huc Hucs Hucf Hef Heu.
  pose proof Huc as [Hu _]%load_Some. pose proof Hucf as [Hf _]%load_Some.
  set (s3 := set_usr (upd_uctxs (alter (set_uc_mctx_set true) from)) s2).
  destruct (switch_step saved2 from u (λ _, uret true) C2 s3 ef r Hef Hr2) as (r2 & Hstep & Hres2).
  set (s4 := set_ints (alter (λ _, errno s3) from) s3) in *.
  assert (load (ints s4) u = Some e) as Hu4 by (unfold s4; cbn; by rewrite load_alter_ne).
  exists (<[from := r2]> saved2), (set_errno (λ _, e) s4), r2. split_and!.
  - rewrite <- (Hres _ _ Hu4), <- Hstep. do 2 f_equal. unfold ubind at 1 3. f_equal. unfold pth_uctx_switch.
    rewrite (is_null_false from), (is_null_false u) by done. cbn [orb].
    erewrite uatom_bind by (unfold lduc, ldu, ld; cbn; rewrite Huc; reflexivity). rewrite Hucs. cbn [negb].
    erewrite uatom_bind by (by eapply stuc_run). done.
  - done.
  - cbn. by apply (load_alter_eq _ (λ _, errno s2) _ ef).
  - apply lookup_insert_eq.
  - intros s5 e5 He5. by rewrite (Hres2 s5 e5 He5).
Qed.

End uctx.

(** ** An example: a context at address 60 *)
Definition toy_uctx : @St toy_kernel :=
  set_ints (λ _, {[ 60%N := 0 ]}) (set_usr (upd_uctxs (λ _, {[ 60%N := raw_uctx ]})) toy_state).

Lemma toy_uctx_makeable : makeable 60 NULL 16384 NULL 77 toy_uctx.
Proof.
  split; [done|done|by eexists|by eexists|by left| |done]. intros p Hp. cbn in Hp. rewrite dom_singleton in Hp.
  apply elem_of_singleton in Hp as ->. reflexivity.
Qed.

Lemma uctx_coroutine_witness :
  ∃ saved' s' r p, usteps (λ _ _, uret tt) 3
      (∅, ubind (pth_uctx_make 60 NULL 16384 NULL 77 5 NULL) (λ b, uret tt) toy_uctx) = Some (saved', URet tt s') ∧
    saved' !! 60%N = Some r ∧ p ∉ dom (ints toy_uctx) ∧ uc_mctx_set <$> uctxs (usr s') !! 60%N = Some true.
Proof.
  destruct (uctx_coroutine (λ _ _, uret tt) ∅ 60 NULL 16384 NULL 77 5 NULL (λ _, uret tt) toy_uctx toy_uctx_makeable)
    as (saved' & s' & r & p & H1 & H2 & H3 & _ & H5 & _).
  exists saved', s', r, p. split; [exact H1|]. split; [exact H2|]. split; [exact H3|exact H5].
Defined.
