(* ===== verification/Pthread.v ===== *)
(** * The POSIX threads interface (pthread.c)

A [pthread_mutex_t], [pthread_cond_t], [pthread_rwlock_t] or [pthread_attr_t]
variable of the program is a pointer cell (the heap [ptrs]) that holds the address
of a Pth object, or [NULL] before its first use.  Functions return 0 or an error
number; a value stored through a pointer argument is returned beside it. *)
From S2P Require Import State Data Sys Event Tcb Sync Sched Fork Lib High Rw.

(** Constants of pthread.h. *)
Definition PTHREAD_THREADS_MAX : Z := 10000.
Definition PTHREAD_CREATE_DETACHED : Z := 1.
Definition PTHREAD_CREATE_JOINABLE : Z := 2.
Definition PTHREAD_CANCEL_ENABLE : Z := 1.
Definition PTHREAD_CANCEL_DISABLE : Z := 2.
Definition PTHREAD_CANCEL_ASYNCHRONOUS : Z := 1.
Definition PTHREAD_CANCEL_DEFERRED : Z := 2.
Definition PTHREAD_CANCELED : N := 18446744073709551615.
Definition OK : Z := 0.
Definition timedwait_ev_key : N := 26.
Definition fp_pthread_shutdown : N := 9.
Definition fp_atfork_prepare : N := 40.
Definition fp_atfork_parent : N := 41.
Definition fp_atfork_child : N := 42.
(** [sizeof] the Pth objects, and the offsets of the mutexes in a read-write lock *)
Definition sizeof_mutex : Z := 40.
Definition sizeof_cond : Z := 16.
Definition sizeof_rwlock : Z := 96.
Definition off_mutex_rd : N := 16.
Definition off_mutex_rw : N := 56.
(** Attribute numbers, in the order of [PTH_ATTR_PRIO]. *)
Definition attr_prio : Z := 0.
Definition attr_name : Z := 1.
Definition attr_joinable : Z := 2.
Definition attr_stack_size : Z := 4.
Definition attr_stack_addr : Z := 5.

Section pthread.
Context {Kern : Kernel} {IoK : IoKernel}.

(** [return pth_error(e, e)] *)
Definition perror (e : Z) : M St Z := pth_error e e.
(** [if (!m) return errno; return OK;] *)
Definition or_errno (m : M St bool) : M St Z := do ok <- m; if (ok : bool) then ret OK else gets errno.
Definition cor_errno (m : coro bool) : coro Z := do! ok <- m; if (ok : bool) then cret OK else atom (gets errno).
(** Functions that check their arguments and are not supported. *)
Definition nosys (bad : bool) : M St Z := if bad then perror EINVAL else perror ENOSYS.
(** Functions with nothing to do beyond the check. *)
Definition nothing (bad : bool) : M St Z := if bad then perror EINVAL else ret OK.

Definition ldp (p : ptr) : M St N := ldu ptrs p id.
Definition stp (p v : ptr) : M St unit := stu ptrs upd_ptrs p (λ _, v).

(** ** Initialisation *)
Definition pthread_initialize : coro unit :=
  do! ini <- atom (gets (pthread_initialized ∘ usr));
  if (ini : bool) then cret tt else
  atom (modify (set_usr (upd_pthread_initialized (λ _, true)))) ;;!
  do! _ <- pth_init;
  atom (modify (set_usr (upd_atexits (cons fp_pthread_shutdown)))).

(** ** Thread attributes *)
Definition pthread_attr_init (attr : ptr) : coro Z :=
  pthread_initialize ;;!
  if is_null attr then atom (perror EINVAL) else
  do! na <- atom pth_attr_new;
  if is_null na then atom (gets errno) else atom (stp attr na) ;;! cret OK.
Definition pthread_attr_destroy (attr : ptr) : M St Z :=
  if is_null attr then perror EINVAL else
  do na <- ldp attr;
  if is_null na then perror EINVAL else
  do _ <- pth_attr_destroy na; stp attr NULL ;; ret OK.

Definition pthread_attr_setinheritsched (attr : ptr) (inheritsched : Z) : M St Z := nosys (is_null attr).
Definition pthread_attr_getinheritsched (attr inheritsched : ptr) : M St Z := nosys (is_null attr || is_null inheritsched).
Definition pthread_attr_setschedparam (attr schedparam : ptr) : M St Z := nosys (is_null attr).
Definition pthread_attr_getschedparam (attr schedparam : ptr) : M St Z := nosys (is_null attr || is_null schedparam).
Definition pthread_attr_setschedpolicy (attr : ptr) (schedpolicy : Z) : M St Z := nosys (is_null attr).
Definition pthread_attr_getschedpolicy (attr schedpolicy : ptr) : M St Z := nosys (is_null attr || is_null schedpolicy).
Definition pthread_attr_setscope (attr : ptr) (scope : Z) : M St Z := nosys (is_null attr).
Definition pthread_attr_getscope (attr scope : ptr) : M St Z := nosys (is_null attr || is_null scope).
Definition pthread_attr_setguardsize (attr : ptr) (stacksize : Z) : M St Z := nosys (is_null attr || (stacksize <? 0)).
Definition pthread_attr_getguardsize (attr stacksize : ptr) : M St Z := nosys (is_null attr || is_null stacksize).

(** [pth_attr_set((pth_attr_t)( *attr), op, v)] and the get *)
Definition attr_put (attr : ptr) (op : Z) (v : attr_val) : M St Z := or_errno (do a <- ldp attr; pth_attr_set a op v).
Definition attr_take (attr : ptr) (op : Z) : M St (Z * option attr_val) :=
  do a <- ldp attr;
  do (ok, v) <- pth_attr_get a op;
  if negb ok then do e <- gets errno; ret (e, None) else ret (OK, v).

Definition pthread_attr_setstacksize (attr : ptr) (stacksize : Z) : M St Z :=
  if is_null attr then perror EINVAL else attr_put attr attr_stack_size (AUint (u32 stacksize)).
(** Only the low half of the [size_t] is stored: [old] is its previous value. *)
Definition pthread_attr_getstacksize (attr : ptr) (old : option Z) : M St (Z * option Z) :=
  match old with
  | None => do e <- perror EINVAL; ret (e, None)
  | Some old =>
      if is_null attr then do e <- perror EINVAL; ret (e, None) else
      do (e, v) <- attr_take attr attr_stack_size;
      match v with
      | Some (AUint z) => ret (e, Some (Z.lor (Z.land old (Z.shiftl 4294967295 32)) (u32 z)))
      | _ => ret (e, None)
      end
  end.
Definition pthread_attr_setstackaddr (attr stackaddr : ptr) : M St Z :=
  if is_null attr then perror EINVAL else attr_put attr attr_stack_addr (AChars stackaddr).
Definition pthread_attr_getstackaddr (attr stackaddr : ptr) : M St (Z * option attr_val) :=
  if is_null attr || is_null stackaddr then do e <- perror EINVAL; ret (e, None) else attr_take attr attr_stack_addr.
Definition pthread_attr_setdetachstate (attr : ptr) (detachstate : Z) : M St Z :=
  if is_null attr then perror EINVAL else
  if detachstate =? PTHREAD_CREATE_DETACHED then attr_put attr attr_joinable (AInt 0)
  else if detachstate =? PTHREAD_CREATE_JOINABLE then attr_put attr attr_joinable (AInt 1)
  else perror EINVAL.
Definition pthread_attr_getdetachstate (attr detachstate : ptr) : M St (Z * option Z) :=
  if is_null attr || is_null detachstate then do e <- perror EINVAL; ret (e, None) else
  do (e, v) <- attr_take attr attr_joinable;
  match v with
  | Some (AInt s) => ret (e, Some (if s =? 1 then PTHREAD_CREATE_JOINABLE else PTHREAD_CREATE_DETACHED))
  | _ => ret (e, None)
  end.
Definition pthread_attr_setname_np (attr : ptr) (name : option (list Z)) : M St Z :=
  match name with
  | Some nm => if is_null attr then perror EINVAL else attr_put attr attr_name (AStr nm)
  | None => perror EINVAL
  end.
Definition pthread_attr_getname_np (attr name : ptr) : M St (Z * option attr_val) :=
  if is_null attr || is_null name then do e <- perror EINVAL; ret (e, None) else attr_take attr attr_name.
Definition pthread_attr_setprio_np (attr : ptr) (prio : Z) : M St Z :=
  if is_null attr || ((prio <? PTH_PRIO_MIN) || (PTH_PRIO_MAX <? prio)) then perror EINVAL
  else attr_put attr attr_prio (AInt prio).
Definition pthread_attr_getprio_np (attr prio : ptr) : M St (Z * option attr_val) :=
  if is_null attr || is_null prio then do e <- perror EINVAL; ret (e, None) else attr_take attr attr_prio.

(** ** Threads *)
Definition pthread_create (thread attr start_routine arg : ptr) : coro Z :=
  pthread_initialize ;;!
  if is_null thread || is_null start_routine then atom (perror EINVAL) else
  do! (n, _) <- atom (pth_ctrl PTH_CTRL_GETTHREADS []);
  if PTHREAD_THREADS_MAX <=? n then atom (perror EAGAIN) else
  do! na <- (if is_null attr then cret NULL else atom (ldp attr));
  do! t <- atom (pth_spawn na start_routine arg);
  atom (stp thread t) ;;!
  if is_null t then atom (perror EAGAIN) else cret OK.

Definition __pthread_detach (thread : ptr) : M St Z :=
  if is_null thread then perror EINVAL else
  do na <- pth_attr_of thread;
  if is_null na then gets errno else
  do ok <- pth_attr_set na attr_joinable (AInt 0);
  if negb ok then gets errno else
  do _ <- pth_attr_destroy na; ret OK.

Definition pthread_self : coro N := pthread_initialize ;;! atom pth_self.
Definition pthread_equal (t1 t2 : ptr) : bool := bool_decide (t1 = t2).
Definition pthread_yield_np : coro Z := pthread_initialize ;;! do! _ <- pth_yield NULL; cret OK.

(** ** Cancellation *)

(** The new state, and the old one where it is asked for. *)
Definition pthread_setcancelstate (state : Z) (oldstate : bool) : M St (Z * option Z) :=
  do os <- (if oldstate then
              do os <- pth_cancel_state 0;
              ret (Some (if has os PTH_CANCEL_ENABLE then PTHREAD_CANCEL_ENABLE else PTHREAD_CANCEL_DISABLE))
            else ret None);
  (if state =? 0 then ret tt else
   do s <- pth_cancel_state 0;
   let s := if state =? PTHREAD_CANCEL_ENABLE
            then Z.land (Z.lor s PTH_CANCEL_ENABLE) (Z.lnot PTH_CANCEL_DISABLE)
            else Z.land (Z.lor s PTH_CANCEL_DISABLE) (Z.lnot PTH_CANCEL_ENABLE) in
   do _ <- pth_cancel_state s; ret tt) ;;
  ret (OK, os).
Definition pthread_setcanceltype (type : Z) (oldtype : bool) : M St (Z * option Z) :=
  do ot <- (if oldtype then
              do ot <- pth_cancel_state 0;
              ret (Some (if has ot PTH_CANCEL_DEFERRED then PTHREAD_CANCEL_DEFERRED else PTHREAD_CANCEL_ASYNCHRONOUS))
            else ret None);
  (if type =? 0 then ret tt else
   do t <- pth_cancel_state 0;
   let t := if type =? PTHREAD_CANCEL_DEFERRED
            then Z.land (Z.lor t PTH_CANCEL_DEFERRED) (Z.lnot PTH_CANCEL_ASYNCHRONOUS)
            else Z.land (Z.lor t PTH_CANCEL_ASYNCHRONOUS) (Z.lnot PTH_CANCEL_DEFERRED) in
   do _ <- pth_cancel_state t; ret tt) ;;
  ret (OK, ot).

(** ** Concurrency and scheduling parameters *)
Definition pthread_getconcurrency : M St Z := gets (pthread_concurrency ∘ usr).
Definition pthread_setconcurrency (new_level : Z) : M St Z :=
  if new_level <? 0 then perror EINVAL else
  modify (set_usr (upd_pthread_concurrency (λ _, new_level))) ;; ret OK.
Definition pthread_setschedparam (pthread : ptr) (policy : Z) (param : ptr) : M St Z := nosys false.
Definition pthread_getschedparam (pthread policy param : ptr) : M St Z := nosys false.

(** ** Thread-specific data *)
Definition pthread_key_create (key destructor : ptr) : coro Z :=
  pthread_initialize ;;! atom (or_errno (pth_key_create key destructor)).
Definition pthread_key_delete (key : Z) : M St Z := or_errno (pth_key_delete key).
Definition pthread_setspecific (key : Z) (value : ptr) : M St Z := or_errno (pth_key_setdata key value).
Definition pthread_getspecific (key : Z) : M St N := pth_key_getdata key.

(** ** Signals *)
Definition pthread_sigmask (how : sig_how) (set : option (gset Z)) : coro (Z * gset Z) :=
  pthread_initialize ;;! atom (pth_sigmask how set).
Definition pthread_kill (thread : ptr) (sig : Z) : coro Z := cor_errno (pth_raise thread sig).

(** ** Fork handlers *)

(** The address of [pthread_atfork_info[i]] *)
Definition atfork_info_at (i : Z) : N := (2000 + 24 * Z.to_N i)%N.
Definition pthread_atfork (prepare parent child : ptr) : M St Z :=
  do idx <- gets (pthread_atfork_idx ∘ usr);
  if PTH_ATFORK_MAX - 1 <? idx then perror ENOMEM else
  do l <- gets (pthread_atfork_info ∘ usr);
  (if (0 <=? idx) && (idx <? Z.of_nat (length l)) then ret tt else ub) ;;
  modify (set_usr (upd_pthread_atfork_idx (λ i, i + 1))) ;;
  modify (set_usr (upd_pthread_atfork_info (<[Z.to_nat idx := PAtfork prepare parent child]>))) ;;
  or_errno (pth_atfork_push fp_atfork_prepare fp_atfork_parent fp_atfork_child (atfork_info_at idx)).

(** ** Attributes of mutexes, locks and condition variables *)
Definition pthread_mutexattr_init (attr : ptr) : coro Z := pthread_initialize ;;! atom (nothing (is_null attr)).
Definition pthread_mutexattr_destroy (attr : ptr) : M St Z := nothing (is_null attr).
Definition pthread_mutexattr_setprioceiling (attr : ptr) (prioceiling : Z) : M St Z := nosys (is_null attr).
Definition pthread_mutexattr_getprioceiling (attr prioceiling : ptr) : M St Z := nosys (is_null attr).
Definition pthread_mutexattr_setprotocol (attr : ptr) (protocol : Z) : M St Z := nosys (is_null attr).
Definition pthread_mutexattr_getprotocol (attr protocol : ptr) : M St Z := nosys (is_null attr).
Definition pthread_mutexattr_setpshared (attr : ptr) (pshared : Z) : M St Z := nosys (is_null attr).
Definition pthread_mutexattr_getpshared (attr pshared : ptr) : M St Z := nosys (is_null attr).
Definition pthread_mutexattr_settype (attr : ptr) (type : Z) : M St Z := nosys (is_null attr).
Definition pthread_mutexattr_gettype (attr type : ptr) : M St Z := nosys (is_null attr).
Definition pthread_rwlockattr_init (attr : ptr) : coro Z := pthread_initialize ;;! atom (nothing (is_null attr)).
Definition pthread_rwlockattr_destroy (attr : ptr) : M St Z := nothing (is_null attr).
Definition pthread_rwlockattr_setpshared (attr : ptr) (pshared : Z) : M St Z := nosys (is_null attr).
Definition pthread_rwlockattr_getpshared (attr pshared : ptr) : M St Z := nosys (is_null attr).
Definition pthread_condattr_init (attr : ptr) : coro Z := pthread_initialize ;;! atom (nothing (is_null attr)).
Definition pthread_condattr_destroy (attr : ptr) : M St Z := nothing (is_null attr).
Definition pthread_condattr_setpshared (attr : ptr) (pshared : Z) : M St Z := nosys (is_null attr).
Definition pthread_condattr_getpshared (attr pshared : ptr) : M St Z := nosys (is_null attr).

(** ** Objects behind the pointers

[malloc] of an object: no member is read before it is set. *)
Definition raw_node : pth_ringnode := Ring.Ringnode NULL NULL.
Definition put_mutex (m : ptr) : M St unit :=
  modify (set_mutexes (<[m := Mutex 0 NULL 0]>)) ;; modify (set_rnodes (<[m := raw_node]>)).
Definition alloc_mutex : M St N :=
  do m <- malloc sizeof_mutex; if is_null m then ret NULL else put_mutex m ;; ret m.
Definition alloc_cond : M St N :=
  do c <- malloc sizeof_cond; if is_null c then ret NULL else modify (set_conds (<[c := Cond 0 0]>)) ;; ret c.
Definition alloc_rwlock : M St N :=
  do l <- malloc sizeof_rwlock;
  if is_null l then ret NULL else
  let rd := (l + off_mutex_rd)%N in let rw := (l + off_mutex_rw)%N in
  modify (set_rwlocks (<[l := Rwlock 0 0 0 rd rw]>)) ;; put_mutex rd ;; put_mutex rw ;; ret l.

(** [pthread_mutex_init], [pthread_cond_init] and [pthread_rwlock_init]: allocate,
    initialise, store the pointer. *)
Definition object_init (cell : ptr) (alloc : M St N) (init : N → M St bool) : coro Z :=
  pthread_initialize ;;!
  if is_null cell then atom (perror EINVAL) else
  do! m <- atom alloc;
  if is_null m then atom (gets errno) else
  do! ok <- atom (init m);
  if negb ok then atom (gets errno) else
  atom (stp cell m) ;;! cret OK.
Definition pthread_mutex_init (mutex : ptr) : coro Z := object_init mutex alloc_mutex pth_mutex_init.
Definition pthread_cond_init (cond : ptr) : coro Z := object_init cond alloc_cond pth_cond_init.
Definition pthread_rwlock_init (rwlock : ptr) : coro Z := object_init rwlock alloc_rwlock pth_rwlock_init.

Definition pthread_mutex_destroy (mutex : ptr) : M St Z :=
  if is_null mutex then perror EINVAL else
  do m <- ldp mutex;
  free mutexes set_mutexes m ;; modify (set_rnodes (delete m)) ;; stp mutex NULL ;; ret OK.
Definition pthread_cond_destroy (cond : ptr) : M St Z :=
  if is_null cond then perror EINVAL else
  do c <- ldp cond; free conds set_conds c ;; stp cond NULL ;; ret OK.
Definition pthread_rwlock_destroy (rwlock : ptr) : M St Z :=
  if is_null rwlock then perror EINVAL else
  do l <- ldp rwlock;
  free rwlocks set_rwlocks l ;;
  (if is_null l then ret tt else
   modify (set_mutexes (delete (l + off_mutex_rd)%N ∘ delete (l + off_mutex_rw)%N)) ;;
   modify (set_rnodes (delete (l + off_mutex_rd)%N ∘ delete (l + off_mutex_rw)%N))) ;;
  stp rwlock NULL ;; ret OK.

(** [if ( *cell == .._INITIALIZER) if (init != OK) return errno;] then [k] on the object *)
Definition with_object (cell : ptr) (init : coro Z) (k : N → coro Z) : coro Z :=
  if is_null cell then atom (perror EINVAL) else
  do! m <- atom (ldp cell);
  do! e <- (if is_null m then init else cret OK);
  if negb (e =? OK) then atom (gets errno) else
  do! m <- atom (ldp cell);
  k m.

Definition pthread_mutex_setprioceiling (mutex : ptr) (prioceiling : Z) (old_ceiling : ptr) : coro Z :=
  with_object mutex (pthread_mutex_init mutex) (λ _, atom (perror ENOSYS)).
Definition pthread_mutex_getprioceiling (mutex prioceiling : ptr) : coro Z :=
  with_object mutex (pthread_mutex_init mutex) (λ _, atom (perror ENOSYS)).

Context {Ap : App} {Kn : Knot}.

Definition pthread_mutex_lock (fuel : nat) (mutex : ptr) : coro Z :=
  with_object mutex (pthread_mutex_init mutex) (λ m, cor_errno (pth_mutex_acquire fuel m false NULL)).
Definition pthread_mutex_trylock (fuel : nat) (mutex : ptr) : coro Z :=
  with_object mutex (pthread_mutex_init mutex) (λ m, cor_errno (pth_mutex_acquire fuel m true NULL)).
Definition pthread_mutex_unlock (mutex : ptr) : coro Z :=
  with_object mutex (pthread_mutex_init mutex) (λ m, atom (or_errno (pth_mutex_release m))).

Definition pthread_rwlock_rdlock (fuel : nat) (rwlock : ptr) : coro Z :=
  with_object rwlock (pthread_rwlock_init rwlock) (λ l, cor_errno (pth_rwlock_acquire fuel l PTH_RWLOCK_RD false NULL)).
Definition pthread_rwlock_tryrdlock (fuel : nat) (rwlock : ptr) : coro Z :=
  with_object rwlock (pthread_rwlock_init rwlock) (λ l, cor_errno (pth_rwlock_acquire fuel l PTH_RWLOCK_RD true NULL)).
Definition pthread_rwlock_wrlock (fuel : nat) (rwlock : ptr) : coro Z :=
  with_object rwlock (pthread_rwlock_init rwlock) (λ l, cor_errno (pth_rwlock_acquire fuel l PTH_RWLOCK_RW false NULL)).
Definition pthread_rwlock_trywrlock (fuel : nat) (rwlock : ptr) : coro Z :=
  with_object rwlock (pthread_rwlock_init rwlock) (λ l, cor_errno (pth_rwlock_acquire fuel l PTH_RWLOCK_RW true NULL)).
Definition pthread_rwlock_unlock (fuel : nat) (rwlock : ptr) : coro Z :=
  with_object rwlock (pthread_rwlock_init rwlock) (λ l, cor_errno (pth_rwlock_release fuel l)).

Definition pthread_cond_broadcast (cond : ptr) : coro Z :=
  with_object cond (pthread_cond_init cond) (λ c, cor_errno (pth_cond_notify c true)).
Definition pthread_cond_signal (cond : ptr) : coro Z :=
  with_object cond (pthread_cond_init cond) (λ c, cor_errno (pth_cond_notify c false)).
Definition pthread_cond_wait (fuel : nat) (cond mutex : ptr) : coro Z :=
  if is_null cond || is_null mutex then atom (perror EINVAL) else
  with_object cond (pthread_cond_init cond) (λ _,
    with_object mutex (pthread_mutex_init mutex) (λ m,
      do! c <- atom (ldp cond); cor_errno (pth_cond_await fuel c m NULL))).
Definition pthread_cond_timedwait (fuel : nat) (cond mutex : ptr) (abstime : option timespec) : coro Z :=
  match abstime with
  | None => atom (perror EINVAL)
  | Some ts =>
      if is_null cond || is_null mutex then atom (perror EINVAL) else
      if (ts_sec ts <? 0) || (ts_nsec ts <? 0) || (1000000000 <=? ts_nsec ts) then atom (perror EINVAL) else
      with_object cond (pthread_cond_init cond) (λ _,
        with_object mutex (pthread_mutex_init mutex) (λ m,
          do! ev <- atom (pth_event (Z.lor PTH_EVENT_TIME PTH_MODE_STATIC)
                            [VPtr timedwait_ev_key; VTime (pth_time (ts_sec ts) (ts_nsec ts ÷ 1000))]);
          do! c <- atom (ldp cond);
          do! ok <- pth_cond_await fuel c m ev;
          if negb ok then atom (gets errno) else
          do! x <- atom (pth_event_status ev);
          cret (if bool_decide (x = PTH_STATUS_OCCURRED) then ETIMEDOUT else OK)))
  end.

(** ** Ending, joining, cancelling *)
Definition pthread_exit (garbage : N * timeval) (fuel : nat) (value_ptr : ptr) : coro unit :=
  pthread_initialize ;;! pth_exit garbage fuel value_ptr.
Definition pthread_join (thread : ptr) (value_ptr : bool) : coro (Z * option N) :=
  pthread_initialize ;;!
  do! (ok, v) <- pth_join thread;
  if negb ok then do! e <- atom (gets errno); cret (e, None) else
  cret (OK, if value_ptr then (λ x, if bool_decide (x = PTH_CANCELED) then PTHREAD_CANCELED else x) <$> v else None).
Definition pthread_once (once_control init_routine : ptr) : coro Z :=
  pthread_initialize ;;!
  if is_null once_control || is_null init_routine then atom (perror EINVAL) else
  do! o <- atom (ld ints once_control id);
  (if negb (o =? 1) then call init_routine NULL else cret tt) ;;!
  atom (st_int once_control 1) ;;!
  cret OK.
Definition pthread_cancel (fuel : nat) (thread : ptr) : coro Z := cor_errno (pth_cancel fuel thread).
Definition pthread_abort (fuel : nat) (thread : ptr) : coro Z := cor_errno (pth_abort fuel thread).
Definition pthread_testcancel : coro unit := pth_cancel_point.
Definition pthread_cleanup_push (routine arg : ptr) : coro unit :=
  pthread_initialize ;;! do! _ <- atom (pth_cleanup_push routine arg); cret tt.
Definition pthread_cleanup_pop (execute : bool) : coro unit := do! _ <- pth_cleanup_pop execute; cret tt.
Definition pthread_shutdown (fuel : nat) : coro unit := do! _ <- pth_kill fuel; cret tt.

(** [info->h()] of the fork callbacks: the entry of [pthread_atfork_info] at [info] *)
Definition atfork_cb (h : pthread_atfork_st → N) (info : ptr) : coro unit :=
  do! l <- atom (gets (pthread_atfork_info ∘ usr));
  do! i <- atom (lift_opt (l !! N.to_nat ((info - 2000) / 24)));
  call (h i) NULL.
Definition pthread_atfork_cb_prepare : N → coro unit := atfork_cb pa_prepare.
Definition pthread_atfork_cb_parent : N → coro unit := atfork_cb pa_parent.
Definition pthread_atfork_cb_child : N → coro unit := atfork_cb pa_child.

(** ** Replacement functions *)
Definition __pthread_fork : coro Z := pthread_initialize ;;! pth_fork.
Definition __pthread_sleep (sec : Z) : coro Z := pthread_initialize ;;! pth_sleep sec.
Definition __pthread_system (fuel : nat) (cmd : ptr) : coro Z := pthread_initialize ;;! pth_system fuel cmd.
Definition __pthread_nanosleep (rqtp : option timespec) (rmtp : bool) : coro (Z * option timespec) :=
  pthread_initialize ;;! pth_nanosleep rqtp rmtp.
Definition __pthread_usleep (sec : Z) : coro Z := pthread_initialize ;;! pth_usleep sec.
Definition __pthread_sigwait (set sig : ptr) : coro Z := pthread_initialize ;;! pth_sigwait set sig.
Definition __pthread_waitpid (fuel : nat) (pid : Z) (status : ptr) (options : Z) : coro Z :=
  pthread_initialize ;;! pth_waitpid fuel pid status options.
Definition __pthread_connect (fuel : nat) (s : Z) (addr : ptr) (addrlen : Z) : coro Z :=
  pthread_initialize ;;! pth_connect fuel s addr addrlen.
Definition __pthread_accept (fuel : nat) (s : Z) (addr addrlen : ptr) : coro Z :=
  pthread_initialize ;;! pth_accept fuel s addr addrlen.
Definition __pthread_select (fuel : nat) (nfds : Z) (readfds writefds exceptfds : ptr) (timeout : option timeval)
  : coro (Z * option timeval) := pthread_initialize ;;! pth_select fuel nfds readfds writefds exceptfds timeout.
Definition __pthread_poll (fuel : nat) (pfd : ptr) (nfd timeout : Z) : coro Z :=
  pthread_initialize ;;! pth_poll fuel pfd nfd timeout.
Definition __pthread_read (fuel : nat) (fd : Z) (buf : ptr) (nbytes : Z) : coro Z :=
  pthread_initialize ;;! pth_read fuel fd buf nbytes.
Definition __pthread_write (fuel : nat) (fd : Z) (buf : ptr) (nbytes : Z) : coro Z :=
  pthread_initialize ;;! pth_write fuel fd buf nbytes.
Definition __pthread_readv (fuel : nat) (fd : Z) (piovec : ptr) (iocnt : Z) : coro Z :=
  pthread_initialize ;;! pth_readv fuel fd piovec iocnt.
Definition __pthread_writev (fuel : nat) (fd : Z) (piovec : ptr) (iocnt : Z) : coro Z :=
  pthread_initialize ;;! pth_writev fuel fd piovec iocnt.
Definition __pthread_recv (fuel : nat) (fd : Z) (buf : ptr) (nbytes flags : Z) : coro Z :=
  pthread_initialize ;;! pth_recv fuel fd buf nbytes flags.
Definition __pthread_send (fuel : nat) (fd : Z) (buf : ptr) (nbytes flags : Z) : coro Z :=
  pthread_initialize ;;! pth_send fuel fd buf nbytes flags.
Definition __pthread_recvfrom (fuel : nat) (fd : Z) (buf : ptr) (nbytes flags : Z) (from fromlen : ptr) : coro Z :=
  pthread_initialize ;;! pth_recvfrom fuel fd buf nbytes flags from fromlen.
Definition __pthread_sendto (fuel : nat) (fd : Z) (buf : ptr) (nbytes flags : Z) (to : ptr) (tolen : Z) : coro Z :=
  pthread_initialize ;;! pth_sendto fuel fd buf nbytes flags to tolen.
Definition __pthread_pread (fuel : nat) (fd : Z) (buf : ptr) (nbytes offset : Z) : coro Z :=
  pthread_initialize ;;! pth_pread fuel fd buf nbytes offset.
Definition __pthread_pwrite (fuel : nat) (fd : Z) (buf : ptr) (nbytes offset : Z) : coro Z :=
  pthread_initialize ;;! pth_pwrite fuel fd buf nbytes offset.

End pthread.
