(* ===== verification/Threads.v ===== *)
(** * The life of a thread

A thread is in one of five queues or it is running.  [pool] is the abstract view
of the scheduler: the contents of the queues, the state, priority and joinability
of every thread, the current thread and [errno].  Each operation that moves
threads, of the scheduler (pth_sched.c) and of the library (pth_lib.c), has a
specification on pools, written as an executable function; the refinement theorem
says that the C code, on linked queues with relative priorities, implements it,
that the states of threads agree with the queues they are in, and that no thread
is lost or duplicated. *)
From stdpp Require Import functions sorting.
From S2P Require Import State Pool Data Sys Event Tcb Sync Sched Lib.

(** ** The abstract scheduler *)
Record info := Info { i_state : pth_state; i_prio : Z; i_joinable : Z; i_dispatches : Z }.
Record pool := MkPool {
  pl_q : qid → list (N * Z);
  pl_thr : gmap N info;
  pl_cur : N;
  pl_sched : N;
  pl_fav : Z;
  pl_errno : Z;
  pl_running : bool;  (** between a dispatch and the return to the scheduler *)
}.

Definition with_q (q : qid) (l : list (N * Z)) (a : pool) : pool :=
  MkPool (<[q := l]> (pl_q a)) (pl_thr a) (pl_cur a) (pl_sched a) (pl_fav a) (pl_errno a) (pl_running a).
Definition info_state (x : pth_state) (i : info) : info := Info x (i_prio i) (i_joinable i) (i_dispatches i).
Definition info_dispatch (i : info) : info := Info (i_state i) (i_prio i) (i_joinable i) (i_dispatches i + 1).
Definition with_info (t : N) (f : info → info) (a : pool) : pool :=
  MkPool (pl_q a) (alter f t (pl_thr a)) (pl_cur a) (pl_sched a) (pl_fav a) (pl_errno a) (pl_running a).
Definition with_state (t : N) (x : pth_state) : pool → pool := with_info t (info_state x).
Definition with_cur (t : N) (running : bool) (a : pool) : pool :=
  MkPool (pl_q a) (pl_thr a) t (pl_sched a) (pl_fav a) (pl_errno a) running.
Definition with_errno (e : Z) (a : pool) : pool :=
  MkPool (pl_q a) (pl_thr a) (pl_cur a) (pl_sched a) (pl_fav a) e (pl_running a).

(** New threads go to the ready queue one by one, the last first, each in front of
    all others when new threads are favoured. *)
Definition ready_prio (fav : Z) (rq : list (N * Z)) : Z := if fav =? 0 then PTH_PRIO_STD else pq_fav_prio rq.
Definition ready_new (fav : Z) (nq rq : list (N * Z)) : list (N * Z) :=
  foldr (λ xp rq, pq_ins (ready_prio fav rq) xp.1 rq) rq nq.
Definition all_ready (l : list (N * Z)) (a : pool) : pool :=
  foldr (λ xp a, with_state xp.1 PTH_STATE_READY a) a l.
Definition move_new (a : pool) : pool :=
  with_q RQ (ready_new (pl_fav a) (pl_q a NQ) (pl_q a RQ)) (with_q NQ [] (all_ready (pl_q a NQ) a)).

Inductive pool_op :=
  | PMoveNew | PPick | PBack | PWake (t : N)
  | PSuspend (t : N) | PResume (t : N) | PFavour (t : N) | PWait | PExit.
Inductive pool_ret := RUnit | RThread (t : N) | RBool (b : bool).

Section exec.
Context {Kern : Kernel}.

Definition pool_exec (op : pool_op) : M St pool_ret :=
  match op with
  | PMoveNew => (λ s, new_to_ready (S (size (threads s))) s) ;; ret RUnit
  | PPick => do t <- sched_pick; ret (RThread t)
  | PBack => do t <- gets pth_current; retire t ;; requeue ;; ret RUnit
  | PWake t => wake t ;; ret RUnit
  | PSuspend t => do b <- pth_suspend t; ret (RBool b)
  | PResume t => do b <- pth_resume t; ret (RBool b)
  | PFavour t => do b <- yield_favour t; ret (RBool b)
  | PWait => do t <- gets pth_current; stt t (set_state (λ _, PTH_STATE_WAITING)) ;; ret RUnit
  | PExit => do t <- gets pth_current; stt t (set_state (λ _, PTH_STATE_DEAD)) ;; ret RUnit
  end.
Fixpoint pool_exec_all (ops : list pool_op) : M St (list pool_ret) :=
  match ops with
  | [] => ret []
  | op :: ops' => do v <- pool_exec op; do vs <- pool_exec_all ops'; ret (v :: vs)
  end.
End exec.

(** Back in the scheduler: a dead thread that can be joined and a waiting thread are
    queued, any other is ready again; the threads that were ready have aged. *)
Definition back (t : N) (i : info) (a : pool) : option pool :=
  let aged := pq_incr (pl_q a RQ) in
  match i_state i with
  | PTH_STATE_DEAD =>
      if i_joinable i =? 0 then None
      else Some (with_cur NULL false (with_q RQ aged (with_q DQ (pq_ins PTH_PRIO_STD t (pl_q a DQ)) a)))
  | PTH_STATE_WAITING =>
      Some (with_cur NULL false (with_q RQ aged (with_q WQ (pq_ins (i_prio i) t (pl_q a WQ)) a)))
  | PTH_STATE_READY => Some (with_cur t false (with_q RQ (pq_ins (i_prio i) t aged) a))
  | _ => None
  end.

Definition allocated (a : pool) (t : N) : option info := if decide (t = NULL) then None else pl_thr a !! t.

Definition suspend (t : N) (a : pool) : option (pool_ret * pool) :=
  if is_null t then Some (RBool false, with_errno EINVAL a) else
  if bool_decide (t = pl_sched a) || bool_decide (t = pl_cur a) then Some (RBool false, with_errno EPERM a) else
  i ← allocated a t;
  match state_queue (i_state i) with
  | None => Some (RBool false, with_errno EPERM a)
  | Some q =>
      if decide (t ∈ (pl_q a q).*1)
      then Some (RBool true, with_q SQ (pq_ins PTH_PRIO_STD t (pl_q a SQ)) (with_q q (pq_del t (pl_q a q)) a))
      else Some (RBool false, with_errno ESRCH a)
  end.

Definition resume (t : N) (a : pool) : option (pool_ret * pool) :=
  if is_null t then Some (RBool false, with_errno EINVAL a) else
  if bool_decide (t = pl_sched a) || bool_decide (t = pl_cur a) then Some (RBool false, with_errno EPERM a) else
  if decide (t ∈ (pl_q a SQ).*1) then
    i ← allocated a t;
    q ← state_queue (i_state i);
    Some (RBool true, with_q q (pq_ins PTH_PRIO_STD t (pl_q a q)) (with_q SQ (pq_del t (pl_q a SQ)) a))
  else Some (RBool false, with_errno EPERM a).

Definition favour (t : N) (a : pool) : option (pool_ret * pool) :=
  if is_null t then Some (RBool true, a) else
  i ← allocated a t;
  match yield_queue (i_state i) with
  | None => Some (RBool false, with_errno EINVAL a)
  | Some q =>
      if decide (t ∈ (pl_q a q).*1) then
        if decide (prio_ok (pq_fav_prio (pq_del t (pl_q a q)))) then Some (RBool true, with_q q (pq_fav t (pl_q a q)) a)
        else None
      else Some (RBool false, with_errno EINVAL a)
  end.

(** [None] where the protocol of the scheduler is not followed, or where a priority
    leaves half the [int] range. *)
Definition queues_ok (a : pool) : Prop := ∀ q, pq_ok (pl_q a q).
Definition prios_ok (a : pool) : Prop := map_Forall (λ _ i, - PB ≤ i_prio i < PB) (pl_thr a).

Lemma queues_ok_all a :
  Forall (λ q, pq_ok (pl_q a q)) [NQ; RQ; WQ; SQ; DQ] ↔ queues_ok a.
Proof.
  rewrite Forall_forall. split; [|by intros Ha q _]. intros Ha q. apply Ha. destruct q; set_solver.
Qed.
#[export] Instance queues_ok_dec a : Decision (queues_ok a).
Proof. refine (cast_if (decide (Forall (λ q, pq_ok (pl_q a q)) [NQ; RQ; WQ; SQ; DQ]))); by rewrite <- queues_ok_all. Defined.
#[export] Instance prios_ok_dec a : Decision (prios_ok a).
Proof. unfold prios_ok. apply _. Defined.

Definition pool_op_spec (op : pool_op) (a : pool) : option (pool_ret * pool) :=
  match op, pl_running a with
  | PMoveNew, false => Some (RUnit, move_new a)
  | PPick, false =>
      let t := head_or NULL (pl_q a RQ).*1 in
      Some (RThread t, with_cur t (negb (is_null t)) (with_q RQ (tail (pl_q a RQ)) a))
  | PWake t, false =>
      if decide (t ∈ (pl_q a WQ).*1) then
        i ← allocated a t;
        Some (RUnit, with_q RQ (pq_ins (i_prio i + 1) t (pl_q a RQ))
                       (with_state t PTH_STATE_READY (with_q WQ (pq_del t (pl_q a WQ)) a)))
      else None
  | PBack, true => i ← allocated a (pl_cur a); a' ← back (pl_cur a) i a; Some (RUnit, a')
  | PSuspend t, true => suspend t a
  | PResume t, true => resume t a
  | PFavour t, true => favour t a
  | PWait, true => Some (RUnit, with_state (pl_cur a) PTH_STATE_WAITING a)
  | PExit, true => Some (RUnit, with_state (pl_cur a) PTH_STATE_DEAD a)
  | _, _ => None
  end.

(** A step keeps the priorities of threads and of every queue in range. *)
Definition pool_spec (op : pool_op) (a : pool) : option (pool_ret * pool) :=
  if decide (queues_ok a ∧ prios_ok a) then
    '(v, a') ← pool_op_spec op a;
    if decide (queues_ok a') then Some (v, a') else None
  else None.

Fixpoint pool_spec_all (ops : list pool_op) (a : pool) : option (list pool_ret * pool) :=
  match ops with
  | [] => Some ([], a)
  | op :: ops' =>
      '(v, a1) ← pool_spec op a;
      '(vs, a2) ← pool_spec_all ops' a1;
      Some (v :: vs, a2)
  end.

(** The queue of a thread agrees with its state, except that a suspended thread keeps
    the state it will be resumed in; a running thread and the scheduler are in no
    queue. *)
Definition queue_state (q : qid) (x : pth_state) : Prop :=
  match q with
  | NQ => x = PTH_STATE_NEW
  | RQ => x = PTH_STATE_READY
  | WQ => x = PTH_STATE_WAITING
  | SQ => is_Some (state_queue x)
  | DQ => x = PTH_STATE_DEAD
  end.
Definition states_ok (P : qid → list (N * Z)) (thr : gmap N info) : Prop :=
  ∀ q t, t ∈ (P q).*1 → ∃ i, thr !! t = Some i ∧ queue_state q (i_state i).

(** Where the threads are. *)
Definition queued (P : qid → list (N * Z)) : list N :=
  (P NQ).*1 ++ (P RQ).*1 ++ (P WQ).*1 ++ (P SQ).*1 ++ (P DQ).*1.
Definition places (a : pool) : list N := (if pl_running a then [pl_cur a] else []) ++ queued (pl_q a).

Record pool_inv (a : pool) : Prop := {
  inv_states : states_ok (pl_q a) (pl_thr a);
  inv_NoDup : NoDup (places a);
  inv_sched : pl_sched a ∉ places a;
  inv_cur : pl_running a = true → is_Some (allocated a (pl_cur a));
}.

(** *** Facts about places and states *)
Section places.
Implicit Types (P : qid → list (N * Z)) (a : pool) (t : N).

Lemma queued_ext P P' : (∀ q, P' q = P q) → queued P' = queued P.
Proof. intros He. unfold queued. by rewrite !He. Qed.

Lemma elem_of_queued P t : t ∈ queued P ↔ ∃ q, t ∈ (P q).*1.
Proof.
  unfold queued. rewrite !elem_of_app. split; [|by intros [[] ?]; auto 6].
  intros [|[|[|[|]]]]; by eexists.
Qed.

Lemma queued_add P q l xs : l.*1 ≡ₚ xs ++ (P q).*1 → queued (<[q := l]> P) ≡ₚ xs ++ queued P.
Proof.
  intros Hl. unfold queued. destruct q; simpl; rewrite Hl, <- ?app_assoc; [done|..];
    repeat (rewrite (Permutation_app_swap_app _ xs)); done.
Qed.

Lemma queued_remove P q l xs : (P q).*1 ≡ₚ xs ++ l.*1 → queued P ≡ₚ xs ++ queued (<[q := l]> P).
Proof.
  intros Hl. rewrite <- (queued_add (<[q := l]> P) q (P q) xs) by (by rewrite fn_lookup_insert).
  rewrite (queued_ext P (<[q := P q]> (<[q := l]> P))); [done|]. intros q'. destruct (decide (q = q')) as [<-|Hne].
  - by rewrite fn_lookup_insert.
  - by rewrite !fn_lookup_insert_ne.
Qed.

Lemma pq_ins_keys p t l : (pq_ins p t l).*1 ≡ₚ t :: l.*1.
Proof. by rewrite (pq_ins_elems p t l). Qed.

Lemma pq_del_keys t l : NoDup l.*1 → t ∈ l.*1 → l.*1 ≡ₚ t :: (pq_del t l).*1.
Proof.
  intros Hnd (l1 & p & l2 & ->)%pq_split. rewrite (pq_del_mid t p l1 l2) by done. rewrite !fmap_app. csimpl.
  symmetry. apply Permutation_middle.
Qed.

Lemma pq_incr_keys l : (pq_incr l).*1 = l.*1.
Proof. unfold pq_incr. rewrite <- list_fmap_compose. by apply list_fmap_ext. Qed.

Lemma states_sub P thr q l :
  states_ok P thr → (∀ x, x ∈ l.*1 → x ∈ (P q).*1) → states_ok (<[q := l]> P) thr.
Proof.
  intros HP Hl q' t. destruct (decide (q = q')) as [<-|Hne].
  - rewrite fn_lookup_insert. intros ?. by apply HP, Hl.
  - rewrite fn_lookup_insert_ne by done. apply HP.
Qed.

Lemma states_ins P thr q p t i :
  states_ok P thr → thr !! t = Some i → queue_state q (i_state i) → states_ok (<[q := pq_ins p t (P q)]> P) thr.
Proof.
  intros HP Hi Hs q' x. destruct (decide (q = q')) as [<-|Hne].
  - rewrite fn_lookup_insert, (pq_ins_keys p t (P q)). intros [->|Hx]%elem_of_cons; [by exists i|by apply HP].
  - rewrite fn_lookup_insert_ne by done. apply HP.
Qed.

Lemma states_alter P thr f t : unqueued P t → states_ok P thr → states_ok P (alter f t thr).
Proof.
  intros Ht HP q x Hx. rewrite lookup_alter_ne; [by apply HP|]. intros ->. by apply (Ht q).
Qed.

Lemma pq_del_sub t l x : x ∈ (pq_del t l).*1 → x ∈ l.*1.
Proof.
  intros (y & -> & [_ Hy]%list_elem_of_filter)%list_elem_of_fmap. by apply list_elem_of_fmap_2.
Qed.

Lemma NoDup_queue a q : NoDup (places a) → NoDup (pl_q a q).*1.
Proof.
  unfold places, queued. intros Hnd. apply NoDup_app in Hnd as (_ & _ & Hnd). rewrite !NoDup_app in Hnd. by destruct q; naive_solver.
Qed.

(** One thread moves from a queue to another. *)
Lemma queued_move P q q' t p :
  NoDup (P q).*1 → t ∈ (P q).*1 →
  let P1 := <[q := pq_del t (P q)]> P in
  queued (<[q' := pq_ins p t (P1 q')]> P1) ≡ₚ queued P.
Proof.
  intros Hnd Ht P1. rewrite (queued_add P1 q' _ [t]) by (by rewrite (pq_ins_keys p t (P1 q'))).
  symmetry. apply queued_remove. by apply pq_del_keys.
Qed.

End places.

(** ** Refinement *)
Section proofs.
Context {Kern : Kernel}.
Implicit Types (s : St) (a : pool) (t : N).

Definition tinfo (b : tcb) : info := Info (state b) (prio b) (joinable b) (dispatches b).

Record pool_repr s a : Prop := {
  pr_q : qrepr s (pl_q a);
  pr_thr : pl_thr a = tinfo ∘ q_body <$> threads s;
  pr_cur : pl_cur a = pth_current s;
  pr_sched : pl_sched a = pth_sched s;
  pr_fav : pl_fav a = pth_favournew s;
  pr_errno : pl_errno a = errno s;
}.

Lemma pool_repr_ext s a a' :
  pool_repr s a → (∀ q, pl_q a' q = pl_q a q) → pl_thr a' = pl_thr a → pl_cur a' = pl_cur a →
  pl_sched a' = pl_sched a → pl_fav a' = pl_fav a → pl_errno a' = pl_errno a → pool_repr s a'.
Proof. intros [] ? ? ? ? ? ?. split; try congruence. by eapply qrepr_ext. Qed.

(** Only links and one queue changed. *)
Lemma pool_delta s s' a q l :
  pool_repr s a → qrepr s' (<[q := l]> (pl_q a)) → qdelta s s' → pool_repr s' (with_q q l a).
Proof.
  intros [Hq0 Ht ? ? ? ?] Hq Hd.
  split; [done|simpl; rewrite Ht; symmetry; by apply (qdelta_fmap tinfo)|..]; destruct Hd as [Hr _]; simpl.
  - pose proof (f_equal pth_current Hr). simpl in *. congruence.
  - pose proof (f_equal pth_sched Hr). simpl in *. congruence.
  - pose proof (f_equal pth_favournew Hr). simpl in *. congruence.
  - pose proof (f_equal errno Hr). simpl in *. congruence.
Qed.

Lemma pool_alloc s a t i :
  pool_repr s a → allocated a t = Some i → ∃ n, load (threads s) t = Some n ∧ tinfo (q_body n) = i.
Proof.
  intros Ha Hi. unfold allocated in Hi. case_decide; [done|]. rewrite (pr_thr _ _ Ha), lookup_fmap in Hi.
  destruct (threads s !! t) as [n|] eqn:Hn; simplify_eq/=. exists n. split; [|done]. by apply load_Some.
Qed.

Lemma pool_insert q p t s a :
  pool_repr s a → pq_ok (pl_q a q) → prio_ok p → unqueued (pl_q a) t → is_Some (allocated a t) →
  wp (onq q (pth_pqueue_insert p t)) (λ _ s', pool_repr s' (with_q q (pq_ins p t (pl_q a q)) a)) s.
Proof.
  intros Ha Hok Hp Ht [i Hi]. destruct (pool_alloc _ _ _ _ Ha Hi) as (n & Hn & _).
  eapply wp_mono; [apply (onq_insert_spec _ _ _ _ (pl_q a)); [apply Ha|done..|by exists n]|].
  intros ? s' [? ?]. by eapply pool_delta.
Qed.

Lemma pool_delete q t s a :
  pool_repr s a → pq_ok (pl_q a q) → t ∈ (pl_q a q).*1 →
  wp (onq q (pth_pqueue_delete t)) (λ _ s', pool_repr s' (with_q q (pq_del t (pl_q a q)) a)) s.
Proof.
  intros Ha Hok Ht. eapply wp_mono; [apply (onq_delete_spec _ _ _ (pl_q a)); [apply Ha|done..]|].
  intros ? s' [? ?]. by eapply pool_delta.
Qed.

Lemma pool_update g f t s a i :
  pool_repr s a → allocated a t = Some i → (∀ b, tinfo (g b) = f (tinfo b)) →
  wp (stt t g) (λ _ s', pool_repr s' (with_info t f a)) s.
Proof.
  intros Ha Hi Hg. destruct (pool_alloc _ _ _ _ Ha Hi) as (n & Hn & _). rewrite (wp_stt _ _ _ _ n) by done.
  destruct Ha as [Hq Ht ? ? ? ?]. split; [by apply qrepr_alter| |done..]. simpl. rewrite Ht.
  apply map_eq. intros y. rewrite lookup_fmap. destruct (decide (y = t)) as [->|Hne].
  - rewrite !lookup_alter_eq, lookup_fmap. destruct (threads s !! t) as [m|]; [|done]. simpl. by rewrite Hg.
  - by rewrite !lookup_alter_ne, lookup_fmap by done.
Qed.

(** A change that pools do not show. *)
Lemma pool_keep g t s a i :
  pool_repr s a → allocated a t = Some i → (∀ b, tinfo (g b) = tinfo b) → wp (stt t g) (λ _ s', pool_repr s' a) s.
Proof.
  intros Ha Hi Hg. eapply wp_mono; [by eapply (pool_update g id)|]. intros ? s' H'.
  apply (pool_repr_ext _ _ _ H'); try done. simpl. apply map_eq. intros y. destruct (decide (y = t)) as [->|Hne].
  - rewrite lookup_alter_eq. by destruct (pl_thr a !! t).
  - by rewrite lookup_alter_ne.
Qed.

Lemma pool_set_state t x s a i :
  pool_repr s a → allocated a t = Some i →
  wp (stt t (set_state (λ _, x))) (λ _ s', pool_repr s' (with_state t x a)) s.
Proof. intros Ha Hi. by eapply pool_update. Qed.

Lemma pool_error s a e : pool_repr s a → pool_repr (set_errno (λ _, e) s) (with_errno e a).
Proof. intros []. split; try done. by apply (qrepr_same s); [|intros []|]. Qed.

Lemma pool_current s a t r : pool_repr s a → pool_repr (set_pth_current (λ _, t) s) (with_cur t r a).
Proof. intros []. split; try done. by apply (qrepr_same s); [|intros []|]. Qed.

(** ** Moving new threads *)
Lemma pq_ins_ok p t l : pq_ok (pq_ins p t l) → prio_ok p ∧ pq_ok l.
Proof.
  intros [Hf Hl]. rewrite (pq_ins_elems p t l) in Hf. apply Forall_cons in Hf as [? ?].
  rewrite pq_ins_length in Hl. split; [done|]. split; [done|lia].
Qed.

Lemma ready_new_ok fav nq rq : pq_ok (ready_new fav nq rq) → pq_ok rq.
Proof. induction nq as [|x nq IH]; simpl; [done|]. intros [_ ?]%pq_ins_ok. auto. Qed.

Lemma ready_new_snoc fav nq x rq :
  ready_new fav (nq ++ [x]) rq = ready_new fav nq (pq_ins (ready_prio fav rq) x.1 rq).
Proof. unfold ready_new. by rewrite foldr_app. Qed.

Lemma all_ready_thr l a a' : pl_thr a = pl_thr a' → pl_thr (all_ready l a) = pl_thr (all_ready l a').
Proof. intros He. induction l as [|x l IH]; simpl; [done|]. by rewrite IH. Qed.

Lemma all_ready_rest l a :
  pl_q (all_ready l a) = pl_q a ∧ pl_cur (all_ready l a) = pl_cur a ∧ pl_sched (all_ready l a) = pl_sched a ∧
  pl_fav (all_ready l a) = pl_fav a ∧ pl_errno (all_ready l a) = pl_errno a.
Proof. by induction l. Qed.

Lemma move_new_q a q :
  pl_q (move_new a) q =
    match q with NQ => [] | RQ => ready_new (pl_fav a) (pl_q a NQ) (pl_q a RQ) | _ => pl_q a q end.
Proof. destruct q; [done..| | |]; by rewrite <- (proj1 (all_ready_rest (pl_q a NQ) a)). Qed.

Lemma move_new_rest a :
  pl_cur (move_new a) = pl_cur a ∧ pl_sched (move_new a) = pl_sched a ∧
  pl_fav (move_new a) = pl_fav a ∧ pl_errno (move_new a) = pl_errno a.
Proof. exact (proj2 (all_ready_rest (pl_q a NQ) a)). Qed.

Lemma pool_queued s a q t : pool_repr s a → t ∈ (pl_q a q).*1 → ∃ i, allocated a t = Some i.
Proof.
  intros Ha Ht. destruct (qrepr_load _ _ _ _ (pr_q _ _ Ha) Ht) as [n [Hnz Hn]%load_Some].
  exists (tinfo (q_body n)). unfold allocated. rewrite decide_False by done. by rewrite (pr_thr _ _ Ha), lookup_fmap, Hn.
Qed.

(** A thread taken out of its queue is in none. *)
Lemma pool_unqueued s a q t :
  pool_repr s a → t ∈ (pl_q a q).*1 → unqueued (pl_q (with_q q (pq_del t (pl_q a q)) a)) t.
Proof.
  intros Ha Ht q'. simpl. destruct (decide (q = q')) as [<-|Hne].
  - rewrite fn_lookup_insert. apply pq_del_elem.
  - rewrite fn_lookup_insert_ne by done. intros Ht'. by apply Hne, (proj2 (pr_q _ _ Ha) _ _ t).
Qed.

Lemma with_state_alloc t x a i : allocated a t = Some i → allocated (with_state t x a) t = Some (info_state x i).
Proof. unfold allocated. simpl. case_decide; [done|]. intros Hi. by rewrite lookup_alter_eq, Hi. Qed.

Lemma pq_del_snoc t p l : NoDup (l ++ [(t, p)]).*1 → pq_del t (l ++ [(t, p)]) = l.
Proof. intros Hnd. rewrite (pq_del_mid t p l []) by done. by rewrite app_nil_r. Qed.

Lemma ready_prio_spec s a :
  pool_repr s a → prio_ok (ready_prio (pl_fav a) (pl_q a RQ)) →
  wp (if negb (pl_fav a =? 0) then onq RQ pth_pqueue_favorite_prio else ret PTH_PRIO_STD)
    (λ p s', p = ready_prio (pl_fav a) (pl_q a RQ) ∧ s' = s) s.
Proof.
  intros Ha Hp. unfold ready_prio in *. destruct (pl_fav a =? 0); simpl; [wps; done|].
  by apply onq_favorite_prio_spec; [apply Ha|].
Qed.

Lemma new_to_ready_spec nq fuel s a :
  pool_repr s a → pl_q a NQ = nq → (length nq < fuel)%nat → pq_ok nq →
  pq_ok (ready_new (pl_fav a) nq (pl_q a RQ)) →
  wp (new_to_ready fuel) (λ _ s', pool_repr s' (move_new a)) s.
Proof.
  revert fuel s a. induction nq as [|[t p] nq IH] using rev_ind; intros [|fuel] s a Ha Hnq Hf Hok Hrq;
    try (simpl in Hf; lia); simpl new_to_ready; rewrite wp_bind;
    (eapply wp_mono; [eapply onq_tail_spec, Ha|]); intros ? ? [-> ->]; rewrite Hnq.
  { simpl. wps. apply (pool_repr_ext _ _ _ Ha); [|by unfold move_new; rewrite Hnq..].
    intros []; unfold move_new; rewrite Hnq; done. }
  rewrite fmap_app. csimpl. rewrite last_or_snoc.
  assert (t ∈ (pl_q a NQ).*1) as Ht by (rewrite Hnq, fmap_app; set_solver).
  destruct (pool_queued _ _ _ _ Ha Ht) as [i Hi].
  pose proof (qrepr_NoDup _ _ NQ (pr_q _ _ Ha)) as Hnd. rewrite Hnq in Hnd.
  rewrite is_null_false by (unfold allocated in Hi; by case_decide). rewrite wp_bind.
  eapply wp_mono; [by apply pool_delete; [done|rewrite Hnq|]|]. intros ? s1 H1. rewrite wp_bind.
  eapply wp_mono; [eapply pool_set_state; [exact H1|exact Hi]|]. intros ? s2 H2.
  pose proof (pool_unqueued _ _ _ _ Ha Ht) as Hu. rewrite Hnq, (pq_del_snoc _ _ _ Hnd) in H2, Hu.
  rewrite ready_new_snoc in Hrq. destruct (pq_ins_ok _ _ _ (ready_new_ok _ _ _ Hrq)) as [Hp Hrq'].
  wps. rewrite <- (pr_fav _ _ H2).
  eapply wp_mono; [by apply (ready_prio_spec _ _ H2)|]. intros ? ? [-> ->]. rewrite wp_bind.
  eapply wp_mono; [apply (pool_insert _ _ _ _ _ H2); [done..|]|].
  { eexists. apply with_state_alloc, Hi. }
  intros ? s3 H3. eapply wp_mono; [apply (IH _ _ _ H3)|]; [done|rewrite length_app in Hf; simpl in Hf; lia| |done|].
  { destruct Hok as [Hb Hl]. apply Forall_app in Hb as [? _]. rewrite length_app in Hl. split; [done|lia]. }
  intros ? s4 H4. apply (pool_repr_ext _ _ _ H4).
  - intros q. rewrite !move_new_q. destruct q; [done| |done..]. rewrite Hnq, ready_new_snoc. done.
  - simpl. rewrite Hnq. unfold all_ready at 1. rewrite foldr_app. by apply all_ready_thr.
  - by rewrite !(proj1 (move_new_rest _)).
  - by rewrite !(proj1 (proj2 (move_new_rest _))).
  - by rewrite !(proj1 (proj2 (proj2 (move_new_rest _)))).
  - by rewrite !(proj2 (proj2 (proj2 (move_new_rest _)))).
Qed.

(** ** Each operation *)
Lemma sched_pick_spec s a :
  pool_repr s a → pq_ok (pl_q a RQ) →
  wp sched_pick (λ v s', v = head_or NULL (pl_q a RQ).*1 ∧ pool_repr s' (with_cur v (negb (is_null v)) (with_q RQ (tail (pl_q a RQ)) a))) s.
Proof.
  intros Ha Hok. unfold sched_pick. rewrite wp_bind.
  eapply wp_mono; [apply (onq_delmax_spec _ _ (pl_q a)); [apply Ha|done]|]. intros v s' (-> & Hq & Hd). wps.
  split; [done|]. apply pool_current. by eapply pool_delta.
Qed.

(** The state, priority and joinability that the code reads. *)
Lemma wp_info {A} (f : tcb → A) (g : info → A) t s a i Q :
  pool_repr s a → allocated a t = Some i → (∀ b, f b = g (tinfo b)) → Q (g i) s → wp (ldt t f) Q s.
Proof.
  intros Ha Hi Hf HQ. destruct (pool_alloc _ _ _ _ Ha Hi) as (n & Hn & Hni).
  rewrite (wp_ldt _ _ _ _ n) by done. by rewrite Hf, Hni.
Qed.

Lemma wake_spec s a t i :
  pool_repr s a → queues_ok a → t ∈ (pl_q a WQ).*1 → allocated a t = Some i → - PB ≤ i_prio i < PB →
  wp (wake t) (λ _ s', pool_repr s' (with_q RQ (pq_ins (i_prio i + 1) t (pl_q a RQ))
                                   (with_state t PTH_STATE_READY (with_q WQ (pq_del t (pl_q a WQ)) a)))) s.
Proof.
  intros Ha Hok Ht Hi Hp. unfold wake. rewrite wp_bind.
  eapply wp_mono; [by apply pool_delete|]. intros ? s1 H1. rewrite wp_bind.
  eapply wp_mono; [eapply pool_set_state; [exact H1|exact Hi]|]. intros ? s2 H2. rewrite wp_bind.
  pose proof (with_state_alloc t PTH_STATE_READY (with_q WQ (pq_del t (pl_q a WQ)) a) i Hi) as Hj.
  eapply (wp_info prio i_prio); [exact H2|exact Hj|done|].
  rewrite wp_bind. apply wp_int_chk; [simpl; unfold PB, INT_MIN, INT_MAX in *; lia|].
  eapply wp_mono; [|by intros ? s3 H3; exact H3].
  apply (pool_insert RQ (i_prio i + 1) t _ _ H2); [apply Hok|unfold prio_ok; simpl; lia|by eapply pool_unqueued|by eexists].
Qed.

Lemma requeue_idle s a :
  pool_repr s a → pl_cur a = NULL → pq_ok (pl_q a RQ) →
  wp requeue (λ _ s', pool_repr s' (with_q RQ (pq_incr (pl_q a RQ)) a)) s.
Proof.
  intros Ha Hc Hok. unfold requeue. rewrite wp_bind.
  eapply wp_mono; [apply (onq_increase_spec _ _ (pl_q a)); [apply Ha|done]|]. intros ? s1 [Hq Hd].
  assert (pool_repr s1 (with_q RQ (pq_incr (pl_q a RQ)) a)) as H1 by (by eapply pool_delta).
  wps. rewrite <- (pr_cur _ _ H1). simpl. rewrite Hc. wps. done.
Qed.

Lemma requeue_running s a i :
  pool_repr s a → allocated a (pl_cur a) = Some i → prio_ok (i_prio i) → pq_ok (pl_q a RQ) →
  pq_ok (pq_incr (pl_q a RQ)) → unqueued (pl_q a) (pl_cur a) →
  wp requeue (λ _ s', pool_repr s' (with_q RQ (pq_ins (i_prio i) (pl_cur a) (pq_incr (pl_q a RQ))) a)) s.
Proof.
  intros Ha Hi Hp Hok Hok' Hu. unfold requeue. rewrite wp_bind.
  eapply wp_mono; [apply (onq_increase_spec _ _ (pl_q a)); [apply Ha|done]|]. intros ? s1 [Hq Hd].
  assert (pool_repr s1 (with_q RQ (pq_incr (pl_q a RQ)) a)) as H1 by (by eapply pool_delta).
  wps. rewrite <- (pr_cur _ _ H1). simpl. rewrite is_null_false by (unfold allocated in Hi; by case_decide).
  rewrite wp_bind. eapply (wp_info prio i_prio); [exact H1|exact Hi|done|].
  eapply wp_mono; [apply (pool_insert _ _ _ _ _ H1); [done..| |by exists i]|].
  { intros q. destruct (decide (q = RQ)) as [->|Hne]; [|simpl; rewrite fn_lookup_insert_ne by done; apply Hu].
    unfold with_q. cbn [pl_q]. rewrite fn_lookup_insert, pq_incr_keys. apply Hu. }
  intros ? s2 H2. apply (pool_repr_ext _ _ _ H2); [|done..]. by intros [].
Qed.

Lemma back_spec s a i a' :
  pool_repr s a → queues_ok a → queues_ok a' → prio_ok (i_prio i) → unqueued (pl_q a) (pl_cur a) →
  allocated a (pl_cur a) = Some i → back (pl_cur a) i a = Some a' →
  wp (retire (pl_cur a) ;; requeue) (λ _ s', pool_repr s' a') s.
Proof.
  intros Ha Hok Hok' Hp Hu Hi Hb. unfold retire. rewrite !wp_bind.
  eapply (wp_info state i_state); [done..|]. unfold back in Hb.
  destruct (i_state i) eqn:Hst; try done; simpl bool_decide; cbv iota.
  - simplify_eq/=. wps. rewrite <- (pr_cur _ _ Ha), is_null_false by (unfold allocated in Hi; by case_decide).
    wps. eapply (wp_info state i_state); [done..|]. rewrite Hst. simpl bool_decide. cbv iota. wps.
    eapply wp_mono; [apply (requeue_running _ _ _ Ha Hi); try done|].
    + apply (pq_ins_ok (i_prio i) (pl_cur a)), (Hok' RQ).
    + intros ? s1 H1. by apply (pool_repr_ext _ _ _ H1).
  - simplify_eq/=. wps. rewrite <- (pr_cur _ _ Ha), is_null_false by (unfold allocated in Hi; by case_decide).
    wps. eapply (wp_info state i_state); [done..|]. rewrite Hst. simpl bool_decide. cbv iota. wps.
    eapply (wp_info prio i_prio); [done..|]. wps.
    eapply wp_mono; [apply (pool_insert WQ (i_prio i) _ _ _ Ha); [apply Hok|done..|by exists i]|]. intros ? s1 H1. wps.
    eapply wp_mono; [apply (requeue_idle _ _ (pool_current _ _ NULL false H1)); [done|apply (Hok RQ)]|].
    intros ? s2 H2. by apply (pool_repr_ext _ _ _ H2).
  - destruct (Z.eqb_spec (i_joinable i) 0) as [|Hj]; simplify_eq/=. wps. eapply (wp_info joinable i_joinable); [done..|].
    rewrite (proj2 (Z.eqb_neq _ _) Hj). wps.
    eapply wp_mono; [apply (pool_insert DQ PTH_PRIO_STD _ _ _ Ha); [apply Hok|done|done|by exists i]|]. intros ? s1 H1. wps.
    simpl. wps.
    eapply wp_mono; [apply (requeue_idle _ _ (pool_current _ _ NULL false H1)); [done|apply (Hok RQ)]|].
    intros ? s2 H2. by apply (pool_repr_ext _ _ _ H2).
Qed.

Lemma with_q_ok q q' l a : queues_ok a → pq_ok l → pq_ok (pl_q (with_q q l a) q').
Proof.
  intros Ha Hl. simpl. destruct (decide (q = q')) as [<-|Hne]; [by rewrite fn_lookup_insert|].
  by rewrite fn_lookup_insert_ne.
Qed.

(** A thread that was taken from a queue is put into another one. *)
Lemma pool_move q q' t s s1 a i :
  pool_repr s a → queues_ok a → t ∈ (pl_q a q).*1 → allocated a t = Some i → q ≠ q' →
  pool_repr s1 (with_q q (pq_del t (pl_q a q)) a) →
  wp (onq q' (pth_pqueue_insert PTH_PRIO_STD t))
    (λ _ s', pool_repr s' (with_q q' (pq_ins PTH_PRIO_STD t (pl_q a q')) (with_q q (pq_del t (pl_q a q)) a))) s1.
Proof.
  intros Ha Hok Ht Hi Hne H1.
  eapply wp_mono; [apply (pool_insert q' PTH_PRIO_STD t _ _ H1)|]; [|done|by eapply pool_unqueued|by exists i|].
  - apply with_q_ok; [done|]. apply pq_del_ok, Hok.
  - intros ? s2. simpl. by rewrite fn_lookup_insert_ne by done.
Qed.

Lemma suspend_spec s a t v a' :
  pool_repr s a → queues_ok a → suspend t a = Some (v, a') →
  wp (do b <- pth_suspend t; ret (RBool b)) (λ v' s', v' = v ∧ pool_repr s' a') s.
Proof.
  intros Ha Hok Hs. unfold suspend in Hs. rewrite wp_bind. unfold pth_suspend.
  destruct (is_null t); [simplify_eq/=; wps; split; [done|by apply pool_error]|].
  wps. rewrite <- (pr_sched _ _ Ha), <- (pr_cur _ _ Ha).
  destruct (_ || _); [simplify_eq/=; wps; split; [done|by apply pool_error]|].
  destruct (allocated a t) as [i|] eqn:Hi; [|done]. simpl in Hs. wps.
  eapply (wp_info state i_state); [done..|]. destruct (state_queue (i_state i)) as [q|] eqn:Hq.
  - wps. eapply wp_mono; [eapply onq_contains_spec, Ha|]. intros ? ? [-> ->].
    case_decide as Ht; simplify_eq/=.
    + rewrite bool_decide_true by done. simpl.
      assert (q ≠ SQ) by (intros ->; by destruct (i_state i)).
      wps. eapply wp_mono; [by apply pool_delete; [|apply Hok|]|]. intros ? s1 H1. wps.
      eapply wp_mono; [by apply (pool_move q SQ t s s1 a i)|]. intros ? s2 H2. wps. done.
    + rewrite bool_decide_false by done. simpl. wps. split; [done|by apply pool_error].
  - simplify_eq/=. wps. split; [done|by apply pool_error].
Qed.

Lemma resume_spec s a t v a' :
  pool_repr s a → queues_ok a → resume t a = Some (v, a') →
  wp (do b <- pth_resume t; ret (RBool b)) (λ v' s', v' = v ∧ pool_repr s' a') s.
Proof.
  intros Ha Hok Hs. unfold resume in Hs. rewrite wp_bind. unfold pth_resume.
  destruct (is_null t); [simplify_eq/=; wps; split; [done|by apply pool_error]|].
  wps. rewrite <- (pr_sched _ _ Ha), <- (pr_cur _ _ Ha).
  destruct (_ || _); [simplify_eq/=; wps; split; [done|by apply pool_error]|].
  wps. eapply wp_mono; [eapply onq_contains_spec, Ha|]. intros ? ? [-> ->]. case_decide as Ht.
  2: { rewrite bool_decide_false by done. simplify_eq/=. wps. split; [done|by apply pool_error]. }
  rewrite bool_decide_true by done. simpl. wps. destruct (allocated a t) as [i|] eqn:Hi; [|done]. simpl in Hs.
  destruct (state_queue (i_state i)) as [q|] eqn:Hq; simplify_eq/=.
  assert (q ≠ SQ) by (intros ->; by destruct (i_state i)).
  eapply wp_mono; [by apply pool_delete; [|apply Hok|]|]. intros ? s1 H1. wps.
  eapply (wp_info state i_state); [exact H1|exact Hi|done|]. wps. rewrite Hq. simpl.
  eapply wp_mono; [by apply (pool_move SQ q t s s1 a i)|]. intros ? s2 H2. wps. done.
Qed.

Lemma favour_spec s a t v a' :
  pool_repr s a → queues_ok a → favour t a = Some (v, a') →
  wp (do b <- yield_favour t; ret (RBool b)) (λ v' s', v' = v ∧ pool_repr s' a') s.
Proof.
  intros Ha Hok Hs. unfold favour in Hs. rewrite wp_bind. unfold yield_favour.
  destruct (is_null t); [simplify_eq/=; wps; done|].
  destruct (allocated a t) as [i|] eqn:Hi; [|done]. simpl in Hs. wps.
  eapply (wp_info state i_state); [done..|]. destruct (yield_queue (i_state i)) as [q|] eqn:Hq.
  2: { simplify_eq/=. wps. split; [done|by apply pool_error]. }
  wps. eapply wp_mono; [eapply onq_contains_spec, Ha|]. intros ? ? [-> ->]. case_decide as Ht.
  2: { rewrite bool_decide_false by done. simplify_eq/=. wps. split; [done|by apply pool_error]. }
  rewrite bool_decide_true by done. simpl. wps. case_decide as Hp; simplify_eq.
  eapply wp_mono; [apply (onq_favorite_spec _ _ _ (pl_q a)); [apply Ha|apply Hok|done..]|].
  intros ? s1 (-> & Hq1 & Hd). wps. split; [done|]. by eapply pool_delta.
Qed.

(** ** All of them *)
Lemma wp_fuel {A} (f : St → nat) (m : nat → M St A) Q s : wp (m (f s)) Q s → wp (λ s, m (f s) s) Q s.
Proof. done. Qed.

Lemma pool_exec_refines op s a v a' :
  pool_repr s a → pool_inv a → pool_spec op a = Some (v, a') →
  wp (pool_exec op) (λ v' s', v' = v ∧ pool_repr s' a') s.
Proof.
  intros Ha Hinv Hs. unfold pool_spec in Hs. case_decide as Hok; [|done]. destruct Hok as [Hok Hpr].
  destruct (pool_op_spec op a) as [[v0 a0]|] eqn:Hop; [|done]. simpl in Hs. case_decide as Hok'; simplify_eq.
  unfold pool_op_spec in Hop. destruct op, (pl_running a) eqn:Hrun; try done; simpl pool_exec.
  - simplify_eq/=. rewrite wp_bind. apply (wp_fuel (λ s, S (size (threads s))) new_to_ready).
    eapply wp_mono; [apply (new_to_ready_spec (pl_q a NQ) (S (size (threads s))) s a Ha); [done| |apply Hok|]|].
    + pose proof (qrepr_length _ _ NQ (pr_q _ _ Ha)). lia.
    + specialize (Hok' RQ). by rewrite move_new_q in Hok'.
    + intros ? s1 H1. wps. done.
  - simplify_eq/=. rewrite wp_bind. eapply wp_mono; [by apply sched_pick_spec|]. intros ? s1 [-> H1]. wps. done.
  - destruct (allocated a (pl_cur a)) as [i|] eqn:Hi; [|done]. simpl in Hop.
    destruct (back (pl_cur a) i a) as [a1|] eqn:Hb; simplify_eq/=. wps. rewrite <- (pr_cur _ _ Ha).
    pose proof (back_spec s a i a' Ha Hok Hok') as Hback. rewrite wp_bind in Hback.
    eapply wp_mono; [apply Hback; try done|].
    + unfold allocated in Hi. case_decide; [done|]. specialize (Hpr _ _ Hi). simpl in Hpr. unfold prio_ok. lia.
    + intros q Hq. pose proof (inv_NoDup _ Hinv) as Hnd. unfold places in Hnd. rewrite Hrun in Hnd. simpl in Hnd.
      apply NoDup_cons in Hnd as [Hnd _]. apply Hnd, elem_of_queued. by exists q.
    + intros ? s1 H1. wps. eapply wp_mono; [exact H1|]. intros ? s2 H2. wps. done.
  - case_decide as Ht; [|done]. destruct (allocated a t) as [i|] eqn:Hi; simplify_eq/=. rewrite wp_bind.
    assert (- PB ≤ i_prio i < PB) by (unfold allocated in Hi; case_decide; [done|]; by apply (Hpr _ _ Hi)).
    eapply wp_mono; [by apply (wake_spec s a t i)|]. intros ? s1 H1. wps. done.
  - by eapply suspend_spec.
  - by eapply resume_spec.
  - by eapply favour_spec.
  - simplify_eq/=. wps. rewrite <- (pr_cur _ _ Ha). destruct (inv_cur _ Hinv Hrun) as [i Hi].
    eapply wp_mono; [by eapply pool_set_state|]. intros ? s1 H1. wps. done.
  - simplify_eq/=. wps. rewrite <- (pr_cur _ _ Ha). destruct (inv_cur _ Hinv Hrun) as [i Hi].
    eapply wp_mono; [by eapply pool_set_state|]. intros ? s1 H1. wps. done.
Qed.

(** ** The invariant *)
Lemma pool_inv_perm a a' :
  pool_inv a → places a' ≡ₚ places a → pl_sched a' = pl_sched a → states_ok (pl_q a') (pl_thr a') →
  (pl_running a' = true → is_Some (allocated a' (pl_cur a'))) → pool_inv a' ∧ places a' ≡ₚ places a.
Proof. intros [] Hp Hs ? ?. split; [|done]. split; [done|by rewrite Hp|by rewrite Hs, Hp|done]. Qed.

Lemma cur_unqueued a : pool_inv a → pl_running a = true → unqueued (pl_q a) (pl_cur a).
Proof.
  intros Hinv Hrun q Hq. pose proof (inv_NoDup _ Hinv) as Hnd. unfold places in Hnd. rewrite Hrun in Hnd.
  apply NoDup_cons in Hnd as [Hnd _]. apply Hnd, elem_of_queued. by exists q.
Qed.

Lemma ready_new_keys fav nq rq : (ready_new fav nq rq).*1 ≡ₚ nq.*1 ++ rq.*1.
Proof. induction nq as [|x nq IH]; simpl; [done|]. by rewrite pq_ins_keys, IH. Qed.

Lemma all_ready_lookup l a t :
  pl_thr (all_ready l a) !! t =
    if decide (t ∈ l.*1) then info_state PTH_STATE_READY <$> pl_thr a !! t else pl_thr a !! t.
Proof.
  induction l as [|x l IH]; [done|]. unfold all_ready. simpl foldr. unfold with_state at 1, with_info at 1. cbn [pl_thr].
  destruct (decide (t = x.1)) as [->|Hne].
  - rewrite lookup_alter_eq. fold (all_ready l a). rewrite IH. rewrite (decide_True (P := x.1 ∈ (x :: l).*1)) by (csimpl; set_solver).
    case_decide; [|done]. by destruct (pl_thr a !! x.1).
  - rewrite lookup_alter_ne by done. fold (all_ready l a). rewrite IH. apply decide_ext. csimpl. set_solver.
Qed.

Lemma allocated_lookup a t i : allocated a t = Some i → pl_thr a !! t = Some i.
Proof. unfold allocated. by case_decide. Qed.

Lemma move_new_inv a : pool_inv a → pl_running a = false → pool_inv (move_new a) ∧ places (move_new a) ≡ₚ places a.
Proof.
  intros Hinv Hrun. assert (pl_running (move_new a) = false) as Hrun'.
  { unfold move_new. simpl. rewrite <- Hrun. by induction (pl_q a NQ). }
  apply pool_inv_perm; [done|..|by rewrite Hrun'].
  - unfold places. rewrite Hrun, Hrun'. unfold queued. rewrite !move_new_q. rewrite ready_new_keys.
    simpl. by rewrite <- app_assoc.
  - apply move_new_rest.
  - intros q t. rewrite move_new_q. change (pl_thr (move_new a)) with (pl_thr (all_ready (pl_q a NQ) a)).
    rewrite all_ready_lookup. intros Ht.
    assert (q ≠ NQ ∧ (q ≠ RQ → t ∈ (pl_q a q).*1)) as [Hne Ht'].
    { destruct q; [by apply elem_of_nil in Ht|done..]. }
    destruct (decide (t ∈ (pl_q a NQ).*1)) as [Hn|Hn].
    + destruct (inv_states _ Hinv NQ t Hn) as (i & Hi & _). rewrite Hi. eexists. split; [done|].
      destruct (decide (q = RQ)) as [->|Hr]; [done|]. exfalso.
      pose proof (inv_NoDup _ Hinv) as Hnd. unfold places in Hnd. rewrite Hrun in Hnd. simpl in Hnd.
      unfold queued in Hnd. apply NoDup_app in Hnd as (_ & Hd & _). apply (Hd t Hn). specialize (Ht' Hr).
      rewrite !elem_of_app. destruct q; [done|done|auto..].
    + destruct q; try by apply (inv_states _ Hinv). apply (inv_states _ Hinv RQ).
      rewrite ready_new_keys in Ht. apply elem_of_app in Ht as [|]; done.
Qed.

Lemma back_inv a i a' :
  pool_inv a → pl_running a = true → pl_thr a !! pl_cur a = Some i → back (pl_cur a) i a = Some a' →
  pool_inv a' ∧ places a' ≡ₚ places a.
Proof.
  intros Hinv Hrun Hi Hb. unfold back in Hb.
  assert (∀ P', queued P' ≡ₚ pl_cur a :: queued (pl_q a) → queued P' ≡ₚ places a) as Hpl.
  { intros P' ->. unfold places. by rewrite Hrun. }
  assert (∀ q p, states_ok (<[q := pq_ins p (pl_cur a) (pl_q a q)]> (pl_q a)) (pl_thr a) →
    states_ok (<[RQ := pq_incr (<[q := pq_ins p (pl_cur a) (pl_q a q)]> (pl_q a) RQ)]>
                (<[q := pq_ins p (pl_cur a) (pl_q a q)]> (pl_q a))) (pl_thr a)) as Hincr.
  { intros q p Hst. apply states_sub; [done|]. intros x. by rewrite pq_incr_keys. }
  destruct (i_state i) eqn:Hst; try done; [|injection Hb as <-|destruct (i_joinable i =? 0); [done|injection Hb as <-]].
  - injection Hb as <-. apply pool_inv_perm; [done| |done| |done].
    + apply Hpl. apply (queued_add _ RQ _ [pl_cur a]). rewrite pq_ins_keys. by rewrite pq_incr_keys.
    + intros q t. unfold with_q, with_cur. cbn [pl_q pl_thr]. destruct (decide (q = RQ)) as [->|Hne].
      * rewrite fn_lookup_insert, pq_ins_keys, pq_incr_keys. intros [->|Ht]%elem_of_cons; [|by apply (inv_states _ Hinv RQ)].
        exists i. by rewrite Hst.
      * rewrite fn_lookup_insert_ne by done. apply (inv_states _ Hinv).
  - apply pool_inv_perm; [done| |done| |done].
    + apply Hpl. rewrite <- (queued_add (pl_q a) WQ (pq_ins (i_prio i) (pl_cur a) (pl_q a WQ)) [pl_cur a]) by (by rewrite pq_ins_keys).
      apply (queued_add _ RQ _ []). by rewrite pq_incr_keys.
    + apply (Hincr WQ). eapply states_ins; [apply Hinv|done|done].
  - apply pool_inv_perm; [done| |done| |done].
    + apply Hpl. rewrite <- (queued_add (pl_q a) DQ (pq_ins PTH_PRIO_STD (pl_cur a) (pl_q a DQ)) [pl_cur a]) by (by rewrite pq_ins_keys).
      apply (queued_add _ RQ _ []). by rewrite pq_incr_keys.
    + apply (Hincr DQ). eapply states_ins; [apply Hinv|done|done].
Qed.

Lemma move_inv a a' q q' t p i :
  pool_inv a → t ∈ (pl_q a q).*1 → pl_thr a' !! t = Some i → queue_state q' (i_state i) → q ≠ q' →
  (∀ x, x ≠ t → pl_thr a' !! x = pl_thr a !! x) →
  (∀ r, pl_q a' r = pl_q (with_q q' (pq_ins p t (pl_q a q')) (with_q q (pq_del t (pl_q a q)) a)) r) →
  pl_cur a' = pl_cur a → pl_sched a' = pl_sched a → pl_running a' = pl_running a →
  pool_inv a' ∧ places a' ≡ₚ places a.
Proof.
  intros Hinv Ht Hi Hs Hne Hthr Hq Hc Hsc Hr.
  apply pool_inv_perm; [done| |done|intros r x; rewrite Hq; intros Hx|].
  - unfold places. rewrite Hr, Hc. f_equiv. rewrite (queued_ext _ _ Hq).
    pose proof (queued_move (pl_q a) q q' t p (NoDup_queue a q (inv_NoDup _ Hinv)) Ht) as Hm. simpl in Hm.
    by rewrite fn_lookup_insert_ne in Hm by done.
  - unfold with_q in Hx. cbn [pl_q] in Hx. destruct (decide (x = t)) as [->|Hxt].
    + exists i. split; [done|]. destruct (decide (q' = r)) as [<-|Hr']; [done|].
      rewrite fn_lookup_insert_ne in Hx by done. exfalso. destruct (decide (q = r)) as [<-|Hr2].
      * rewrite fn_lookup_insert in Hx. by apply pq_del_elem in Hx.
      * rewrite fn_lookup_insert_ne in Hx by done. pose proof (inv_NoDup _ Hinv) as Hnd.
        unfold places in Hnd. apply NoDup_app in Hnd as (_ & _ & Hnd). unfold queued in Hnd.
        rewrite !NoDup_app in Hnd. setoid_rewrite elem_of_app in Hnd. setoid_rewrite elem_of_app in Hnd.
        setoid_rewrite elem_of_app in Hnd. destruct q, r; naive_solver.
    + rewrite Hthr by done. apply (inv_states _ Hinv r). destruct (decide (q' = r)) as [<-|Hr'].
      * rewrite fn_lookup_insert, pq_ins_keys in Hx. by apply elem_of_cons in Hx as [|].
      * rewrite fn_lookup_insert_ne in Hx by done. destruct (decide (q = r)) as [<-|Hr2].
        -- rewrite fn_lookup_insert in Hx. by eapply pq_del_sub.
        -- by rewrite fn_lookup_insert_ne in Hx by done.
  - rewrite Hr, Hc. intros Hrun. destruct (inv_cur _ Hinv Hrun) as [j Hj]. unfold allocated in *.
    case_decide; [done|]. destruct (decide (pl_cur a = t)) as [->|Hct]; [by exists i|]. rewrite Hthr by done. by exists j.
Qed.

Lemma with_errno_inv e a : pool_inv a → pool_inv (with_errno e a) ∧ places (with_errno e a) ≡ₚ places a.
Proof. intros []. by apply pool_inv_perm. Qed.

Lemma cur_state_inv x a :
  pool_inv a → pl_running a = true →
  pool_inv (with_state (pl_cur a) x a) ∧ places (with_state (pl_cur a) x a) ≡ₚ places a.
Proof.
  intros Hinv Hrun. apply pool_inv_perm; [done..| |].
  - apply states_alter; [exact (cur_unqueued a Hinv Hrun)|apply Hinv].
  - intros _. destruct (inv_cur _ Hinv Hrun) as [i Hi]. simpl. eexists. by apply with_state_alloc.
Qed.

Lemma suspend_inv t a v a' :
  pool_inv a → suspend t a = Some (v, a') → pool_inv a' ∧ places a' ≡ₚ places a.
Proof.
  intros Hinv Hs. unfold suspend in Hs. destruct (is_null t); [simplify_eq; by apply with_errno_inv|].
  destruct (_ || _); [simplify_eq; by apply with_errno_inv|].
  destruct (allocated a t) as [i|] eqn:Hi; [|done]. apply allocated_lookup in Hi. simpl in Hs.
  destruct (state_queue (i_state i)) as [q|] eqn:Hq; [|simplify_eq; by apply with_errno_inv].
  case_decide as Ht; simplify_eq; [|by apply with_errno_inv].
  assert (q ≠ SQ) by (intros ->; by destruct (i_state i)).
  apply (move_inv _ _ q SQ t PTH_PRIO_STD i); try done. by exists q.
Qed.

Lemma resume_inv t a v a' :
  pool_inv a → resume t a = Some (v, a') → pool_inv a' ∧ places a' ≡ₚ places a.
Proof.
  intros Hinv Hs. unfold resume in Hs. destruct (is_null t); [simplify_eq; by apply with_errno_inv|].
  destruct (_ || _); [simplify_eq; by apply with_errno_inv|].
  case_decide as Ht; [|simplify_eq; by apply with_errno_inv].
  destruct (allocated a t) as [i|] eqn:Hi; [|done]. apply allocated_lookup in Hi. simpl in Hs.
  destruct (state_queue (i_state i)) as [q|] eqn:Hq; simplify_eq/=.
  assert (q ≠ SQ) by (intros ->; by destruct (i_state i)).
  apply (move_inv _ _ SQ q t PTH_PRIO_STD i); try done.
  revert Hq. by destruct (i_state i); intros [= <-].
Qed.

Lemma favour_inv t a v a' :
  pool_inv a → favour t a = Some (v, a') → pool_inv a' ∧ places a' ≡ₚ places a.
Proof.
  intros Hinv Hs. unfold favour in Hs. destruct (is_null t); [by simplify_eq|].
  destruct (allocated a t) as [i|] eqn:Hi; [|done]. simpl in Hs.
  destruct (yield_queue (i_state i)) as [q|]; [|simplify_eq; by apply with_errno_inv].
  case_decide as Ht; [|simplify_eq; by apply with_errno_inv]. case_decide; simplify_eq.
  assert ((pq_fav t (pl_q a q)).*1 ≡ₚ (pl_q a q).*1) as Hk.
  { pose proof (pq_del_keys t (pl_q a q) (NoDup_queue a q (inv_NoDup _ Hinv)) Ht) as Hd. symmetry.
    unfold pq_fav. by destruct (pl_q a q) as [|x [|y l]]. }
  apply pool_inv_perm; [done| |done| |apply Hinv].
  - apply Permutation_app_head. by apply (queued_add _ q _ []).
  - apply states_sub; [apply Hinv|]. intros x. by rewrite Hk.
Qed.

Lemma pick_inv a :
  pool_inv a → pl_running a = false →
  let t := head_or NULL (pl_q a RQ).*1 in
  let a' := with_cur t (negb (is_null t)) (with_q RQ (tail (pl_q a RQ)) a) in
  NULL ∉ (pl_q a RQ).*1 → pool_inv a' ∧ places a' ≡ₚ places a.
Proof.
  intros Hinv Hrun t a' Hnull. destruct (pl_q a RQ) as [|[x p] l] eqn:Hrq.
  - apply pool_inv_perm; [done| |done| |done].
    + unfold places. rewrite Hrun. simpl. apply (queued_add _ RQ _ []). by rewrite Hrq.
    + apply states_sub; [apply Hinv|]. by rewrite Hrq.
  - assert (x ∈ (pl_q a RQ).*1) as Hx by (rewrite Hrq; csimpl; left).
    assert (is_null x = false) as Hn by (apply is_null_false; intros ->; apply Hnull; csimpl; left).
    apply pool_inv_perm; [done| |done| |].
    + unfold places, a'. simpl pl_running. subst t. csimpl. rewrite head_or_cons, Hn, Hrun. simpl negb. cbv iota. simpl app.
      symmetry. apply (queued_remove _ RQ l [x]). by rewrite Hrq.
    + apply states_sub; [apply Hinv|]. rewrite Hrq. intros y Hy. csimpl. by right.
    + intros _. unfold a', t. csimpl. rewrite head_or_cons. destruct (inv_states _ Hinv RQ x Hx) as (i & Hi & _).
      exists i. unfold allocated. rewrite decide_False; [done|]. intros ->. by apply Hnull; csimpl; left.
Qed.

Lemma pool_spec_inv op s a v a' :
  pool_repr s a → pool_inv a → pool_spec op a = Some (v, a') → pool_inv a' ∧ places a' ≡ₚ places a.
Proof.
  intros Ha Hinv Hs. unfold pool_spec in Hs. case_decide; [|done].
  destruct (pool_op_spec op a) as [[v0 a0]|] eqn:Hop; [|done]. simpl in Hs. case_decide as Hok'; simplify_eq.
  unfold pool_op_spec in Hop. destruct op, (pl_running a) eqn:Hrun; try done.
  - simplify_eq. by apply move_new_inv.
  - simplify_eq. apply pick_inv; [done..|]. intros Hn.
    destruct (qrepr_load _ _ _ _ (pr_q _ _ Ha) Hn) as [n Hl]. by apply load_Some in Hl as [? _].
  - destruct (allocated a (pl_cur a)) as [i|] eqn:Hi; [|done]. simpl in Hop. apply allocated_lookup in Hi.
    destruct (back (pl_cur a) i a) as [a1|] eqn:Hb; simplify_eq/=. by eapply back_inv.
  - case_decide as Ht; [|done]. destruct (allocated a t) as [i|] eqn:Hi; simplify_eq/=. apply allocated_lookup in Hi.
    eapply (move_inv _ _ WQ RQ t (i_prio i + 1) (info_state PTH_STATE_READY i)); [done..| |done|done| | |done|done|done].
    + simpl. by rewrite lookup_alter_eq, Hi.
    + intros x Hx. simpl. by rewrite lookup_alter_ne.
    + by intros [].
  - by eapply suspend_inv.
  - by eapply resume_inv.
  - by eapply favour_inv.
  - simplify_eq. by apply cur_state_inv.
  - simplify_eq. by apply cur_state_inv.
Qed.

Lemma pool_exec_all_refines ops s a vs a' :
  pool_repr s a → pool_inv a → pool_spec_all ops a = Some (vs, a') →
  ∃ s', pool_exec_all ops s = Some (vs, s') ∧ pool_repr s' a' ∧ pool_inv a' ∧ places a' ≡ₚ places a.
Proof.
  revert s a vs. induction ops as [|op ops IH]; intros s a vs Ha Hinv Hs; simpl in Hs; [simplify_eq; by exists s|].
  destruct (pool_spec op a) as [[v a1]|] eqn:Hop; [|done]. simpl in Hs.
  destruct (pool_spec_all ops a1) as [[vs' a2]|] eqn:Hops; simplify_eq/=.
  pose proof (pool_exec_refines _ _ _ _ _ Ha Hinv Hop) as (? & s1 & Hs1 & -> & H1)%wp_run.
  destruct (pool_spec_inv _ _ _ _ _ Ha Hinv Hop) as [Hinv1 Hpl1].
  destruct (IH _ _ _ H1 Hinv1 Hops) as (s2 & Hs2 & H2 & Hinv2 & Hpl2).
  exists s2. split_and!; [|done|done|by rewrite Hpl2].
  unfold bind. rewrite Hs1. unfold bind. by rewrite Hs2.
Qed.

(** C1: The scheduler and the library calls that move threads implement the abstract
    pools: for every sequence of operations that the specification allows (dispatch
    and return to the scheduler alternate, priorities stay in range), the C code runs
    without undefined behaviour, returns the specified values and error codes, and
    ends in queues that represent the specified lists.  The state of every thread
    agrees with its queue throughout, a running thread is in no queue, and no thread
    is lost or duplicated: the threads that are queued or running are the same as
    before. *)
Theorem thread_pool_refinement ops s a vs a' :
  pool_repr s a → pool_inv a → pool_spec_all ops a = Some (vs, a') →
  ∃ s', pool_exec_all ops s = Some (vs, s') ∧ pool_repr s' a' ∧ pool_inv a' ∧ places a' ≡ₚ places a.
Proof. apply pool_exec_all_refines. Qed.

(** ** Dispatching *)

(** What pools are made of. *)
Definition tpart (s : St) :=
  (threads s, (pth_NQ s, pth_RQ s, pth_WQ s, pth_SQ s, pth_DQ s), (pth_current s, pth_sched s, pth_favournew s, errno s)).

Lemma pool_tpart s s' a : tpart s' = tpart s → pool_repr s a → pool_repr s' a.
Proof.
  unfold tpart. intros He Ha. simplify_eq. destruct Ha. split; try congruence.
  apply (qrepr_same s); [done|intros []; simpl; congruence|done].
Qed.

(** A loop over signals keeps what its body keeps. *)
Lemma for_sigs_wp {A} sigs (f : Z → A → M St A) (I : A → St → Prop) acc s :
  (∀ sig acc s, I acc s → wp (f sig acc) I s) → I acc s → wp (for_sigs sigs f acc) I s.
Proof.
  intros Hf. revert acc s. induction sigs as [|sig sigs IH]; intros acc s HI; simpl; [wps; done|].
  rewrite wp_bind. eapply wp_mono; [by apply Hf|]. intros acc' s'. apply IH.
Qed.

Lemma raise_thread_sigs_wp t s n :
  load (threads s) t = Some n → wp (raise_thread_sigs t) (λ _ s', tpart s' = tpart s) s.
Proof.
  intros Hn. unfold raise_thread_sigs. rewrite wp_bind, (wp_ldt _ _ _ _ n) by done.
  destruct (0 <? _); [|wps; done]. rewrite wp_bind, wp_gets, wp_bind, wp_modify.
  apply (for_sigs_wp _ _ (λ _ s', tpart s' = tpart s)); [|done].
  intros sig _ s' Hs'. assert (load (threads s') t = Some n) as Hn' by (unfold tpart in Hs'; congruence).
  rewrite wp_bind, (wp_ldt _ _ _ _ n) by done. wps. destruct (_ && _); wps; done.
Qed.

Lemma load_tpart now s a :
  pool_repr s a → wp (pth_scheduler_load now) (λ _ s', tpart s' = tpart s) s.
Proof.
  intros Ha. unfold pth_scheduler_load. rewrite wp_bind, wp_gets. destruct (0 <=? _); [|by rewrite wp_ret].
  rewrite wp_bind. eapply wp_mono; [eapply onq_elements_spec, Ha|]. intros ? ? [-> ->].
  rewrite wp_bind, !wp_modify. reflexivity.
Qed.

Lemma dispatch_rest_spec snapshot t s a i j :
  pool_repr s a → allocated a t = Some i → INT_MIN ≤ i_dispatches i + 1 ≤ INT_MAX → allocated a (pl_sched a) = Some j →
  wp (dispatch_rest snapshot t) (λ _ s', pool_repr s' (with_info t info_dispatch a)) s.
Proof.
  intros Ha Hi Hr Hj. destruct (pool_alloc _ _ _ _ Ha Hi) as (n & Hn & _).
  unfold dispatch_rest. rewrite wp_bind. eapply wp_mono; [by eapply raise_thread_sigs_wp|]. intros ? s1 Hs1.
  apply (pool_tpart _ s1) in Ha; [|done]. unfold gettimeofday, kcall. rewrite wp_bind. unfold wp at 1.
  destruct (k_gettimeofday (kern s1)) as [now k]. rewrite wp_bind.
  eapply wp_mono; [by eapply (pool_keep _ t); [apply (pool_tpart s1 (set_kern (λ _, k) s1) a eq_refl Ha)|..]|].
  intros ? s2 H2. rewrite wp_bind, wp_gets, <- (pr_sched _ _ H2), wp_bind.
  eapply wp_mono; [eapply (pool_keep _ (pl_sched a)); [exact H2|exact Hj|done]|]. intros ? s3 H3. rewrite wp_bind.
  eapply (wp_info dispatches i_dispatches); [exact H3|exact Hi|done|]. rewrite wp_bind. apply wp_int_chk; [done|].
  rewrite wp_bind. set (d := i_dispatches i + 1).
  eapply wp_mono; [eapply (pool_update _ (λ i, Info (i_state i) (i_prio i) (i_joinable i) d) t); [exact H3|exact Hi|done]|].
  intros ? s4 H4. assert (pool_repr s4 (with_info t info_dispatch a)) as H5.
  { apply (pool_repr_ext _ _ _ H4); try done. simpl. apply map_eq. intros y. destruct (decide (y = t)) as [->|Hne].
    - rewrite !lookup_alter_eq. apply allocated_lookup in Hi. by rewrite Hi.
    - by rewrite !lookup_alter_ne. }
  rewrite wp_bind, wp_gets. unfold allocated in Hj. case_decide as Hnz; [done|].
  assert (∃ j', allocated (with_info t info_dispatch a) (pl_sched a) = Some j') as [j' Hj'].
  { unfold allocated. rewrite decide_False by done. simpl. destruct (decide (pl_sched a = t)) as [<-|Hne].
    - rewrite lookup_alter_eq, Hj. by eexists.
    - rewrite lookup_alter_ne by done. by eexists. }
  eapply (pool_keep _ (pl_sched a)); [exact H5|exact Hj'|done].
Qed.

Lemma ready_new_sorted fav nq rq : StronglySorted desc rq → StronglySorted desc (ready_new fav nq rq).
Proof. intros Hs. induction nq as [|x nq IH]; simpl; [done|]. by apply pq_ins_sorted. Qed.

(** The ready queue after the new threads were moved. *)
Definition all_ready_queue (a : pool) : list (N * Z) := ready_new (pl_fav a) (pl_q a NQ) (pl_q a RQ).

(** The pool after a dispatch of the first thread of that queue. *)
Definition dispatched (t : N) (a : pool) : pool :=
  with_info t info_dispatch (with_cur t true (with_q RQ (tail (all_ready_queue a)) (move_new a))).

Lemma move_new_alloc a t i : allocated a t = Some i → ∃ i', allocated (move_new a) t = Some i' ∧ i_dispatches i' = i_dispatches i.
Proof.
  unfold allocated. case_decide; [done|]. change (pl_thr (move_new a)) with (pl_thr (all_ready (pl_q a NQ) a)).
  rewrite all_ready_lookup. intros Hi. case_decide; [|by exists i]. rewrite Hi. by eexists.
Qed.

Lemma sched_select_run snapshot s a :
  pool_repr s a → pq_ok (pl_q a NQ) → pq_ok (all_ready_queue a) →
  ∃ s', let t := head_or NULL (all_ready_queue a).*1 in
    pool_repr s' (with_cur t (negb (is_null t)) (with_q RQ (tail (all_ready_queue a)) (move_new a))) ∧
    sched_dispatch snapshot s = if is_null t then OAbort s' else atom (dispatch_rest snapshot t) s'.
Proof.
  intros Ha Hnq Hrq. pose proof (qrepr_length _ _ NQ (pr_q _ _ Ha)) as Hlen.
  pose proof (new_to_ready_spec (pl_q a NQ) (S (size (threads s))) s a Ha eq_refl ltac:(lia) Hnq Hrq)
    as (? & s1 & Hs1 & H1)%wp_run.
  pose proof (load_tpart snapshot s1 _ H1) as (? & s2 & Hs2 & Ht2)%wp_run.
  apply (pool_tpart _ s2) in H1; [|done].
  pose proof (sched_pick_spec s2 _ H1) as Hp. rewrite move_new_q in Hp.
  destruct (proj1 (wp_run _ _ _) (Hp Hrq)) as (v & s3 & Hs3 & -> & H3).
  exists s3. split; [exact H3|]. unfold sched_dispatch.
  rewrite (cbind_atom (λ s, new_to_ready (S (size (threads s))) s) _ _ _ _ Hs1), (cbind_atom _ _ _ _ _ Hs2), (cbind_atom _ _ _ _ _ Hs3). fold (all_ready_queue a).
  by destruct (is_null _).
Qed.

(** C6: The scheduler dispatches a thread of the highest priority: after the new
    threads have joined the ready queue, its first thread becomes the current one,
    leaves the queue and is counted as dispatched once more, every thread that stays
    ready has at most its priority, and no other thread changes.  Without a ready
    thread the process is aborted. *)
Theorem dispatch_highest snapshot s a :
  pool_repr s a → pool_inv a → pq_ok (pl_q a NQ) → pq_ok (all_ready_queue a) → is_Some (allocated a (pl_sched a)) →
  map_Forall (λ _ i, INT_MIN ≤ i_dispatches i < INT_MAX) (pl_thr a) →
  match all_ready_queue a with
  | [] => ∃ s', sched_dispatch snapshot s = OAbort s'
  | (t, p) :: others =>
      ∃ s', sched_dispatch snapshot s = ORet tt s' ∧ pool_repr s' (dispatched t a) ∧ pth_current s' = t ∧
            Forall (λ x, x.2 ≤ p) others
  end.
Proof.
  intros Ha Hinv Hnq Hrq [j Hj] Hd. destruct (sched_select_run snapshot s a Ha Hnq Hrq) as (s1 & H1 & Hrun).
  destruct (all_ready_queue a) as [|[t p] others] eqn:Hq; [by exists s1|].
  assert (t ∈ (all_ready_queue a).*1) as Ht by (rewrite Hq; csimpl; left).
  assert (∃ i, allocated a t = Some i) as [i Hi].
  { unfold all_ready_queue in Ht. rewrite ready_new_keys in Ht. apply elem_of_app in Ht as [Ht|Ht]; by eapply pool_queued. }
  destruct (move_new_alloc a t i Hi) as (i' & Hi' & Hdi). destruct (move_new_alloc a _ j Hj) as (j' & Hj' & _).
  assert (is_null t = false) as Hnt by (apply is_null_false; unfold allocated in Hi; by case_decide).
  csimpl in Hrun. rewrite head_or_cons in Hrun. csimpl in H1. rewrite head_or_cons in H1. rewrite Hnt in Hrun, H1.
  apply allocated_lookup in Hi. specialize (Hd _ _ Hi). simpl in Hd.
  pose proof (dispatch_rest_spec snapshot t s1 _ i' j' H1 Hi' ltac:(rewrite Hdi; lia)) as Hrest.
  rewrite <- (proj1 (proj2 (move_new_rest a))) in Hj'.
  destruct (proj1 (wp_run _ _ _) (Hrest Hj')) as ([] & s2 & Hs2 & H2).
  exists s2. rewrite Hrun. split_and!; [by apply atom_run| | |].
  - unfold dispatched. rewrite Hq. exact H2.
  - rewrite <- (pr_cur _ _ H2). done.
  - assert (StronglySorted desc (all_ready_queue a)) as Hs.
    { apply ready_new_sorted. eapply pq_repr_sorted, (pr_q _ _ Ha). }
    rewrite Hq in Hs. by apply StronglySorted_inv in Hs as [_ ?].
Qed.

End proofs.

(** ** An example: five threads *)
Definition toy_node (t : N) (x : pth_state) : N * qnode tcb := (t, Qnode t t 0 (set_state (λ _, x) toy_tcb)).
(** Thread 100 runs, 101 is new, 102 is ready, 103 waits. *)
Definition toy_threads : @St toy_kernel :=
  set_pth_NQ (λ _, Pqueue 101 1) (set_pth_RQ (λ _, Pqueue 102 1) (set_pth_WQ (λ _, Pqueue 103 1)
    (set_threads (λ h, list_to_map [toy_node 101 PTH_STATE_NEW; toy_node 102 PTH_STATE_READY;
                                    toy_node 103 PTH_STATE_WAITING] ∪ h) toy_state))).
Definition toy_queues (q : qid) : list (N * Z) :=
  match q with NQ => [(101%N, 0)] | RQ => [(102%N, 0)] | WQ => [(103%N, 0)] | _ => [] end.
Definition toy_pool : pool := MkPool toy_queues (tinfo ∘ q_body <$> threads toy_threads) 100 99 1 0 true.
Definition toy_pool_ops : list pool_op :=
  [PSuspend 101; PSuspend 101; PResume 101; PSuspend 102; PFavour 101; PWait; PBack; PMoveNew; PWake 103; PWake 100;
   PPick; PResume 102; PExit; PBack; PPick].

Lemma toy_singleton (h : gmap N (qnode tcb)) q l t n :
  q = Pqueue t 1 → l = [(t, q_prio n)] → load h t = Some n → q_next n = t → q_prev n = t →
  pq_repr (QState h (Some q)) l.
Proof.
  intros -> -> Hl Hn Hp. eexists. split_and!; [done..| |].
  - apply cyc_singleton; unfold nxf, pvf; simpl; by rewrite Hl; simpl; f_equal.
  - split; [|done]. unfold prf. simpl. by rewrite Hl.
Qed.

Lemma toy_threads_repr : pool_repr toy_threads toy_pool ∧ pool_inv toy_pool.
Proof.
  split; split; try done.
  - split.
    + intros []; [by apply (toy_singleton _ _ _ 101 (toy_node 101 PTH_STATE_NEW).2)
        |by apply (toy_singleton _ _ _ 102 (toy_node 102 PTH_STATE_READY).2)
        |by apply (toy_singleton _ _ _ 103 (toy_node 103 PTH_STATE_WAITING).2)|by eexists..].
    + intros [] [] x; csimpl; set_solver.
  - intros [] t; csimpl; intros Ht; try (by apply elem_of_nil in Ht); apply elem_of_cons in Ht as [->|Ht%elem_of_nil]; try done;
      eexists; (split; [vm_compute; reflexivity|done]).
  - vm_compute. repeat (apply NoDup_cons; split; [set_solver|]). by apply NoDup_nil.
  - vm_compute. set_solver.
Qed.

(** The same threads when the scheduler runs: no thread is current. *)
Definition toy_idle : @St toy_kernel := set_pth_current (λ _, NULL) toy_threads.
Definition toy_idle_pool : pool := with_cur NULL false toy_pool.

Lemma toy_idle_repr : pool_repr toy_idle toy_idle_pool ∧ pool_inv toy_idle_pool.
Proof.
  destruct toy_threads_repr as [Hr Hi]. split; [by apply pool_current|]. split; [apply Hi|..|done].
  - pose proof (inv_NoDup _ Hi) as Hnd. by apply NoDup_cons in Hnd as [_ ?].
  - pose proof (inv_sched _ Hi) as Hs. intros Hin. apply Hs. by apply elem_of_cons; right.
Qed.

Lemma spec_all_default ops a vs :
  fst <$> pool_spec_all ops a = Some vs → pool_spec_all ops a = Some (vs, default a (snd <$> pool_spec_all ops a)).
Proof. destruct (pool_spec_all ops a) as [[]|]; intros; by simplify_eq/=. Qed.

Definition toy_pool_end : pool := default toy_pool (snd <$> pool_spec_all toy_pool_ops toy_pool).
Definition toy_pool_rets : list pool_ret :=
  [RBool true; RBool false; RBool true; RBool true; RBool true; RUnit; RUnit; RUnit; RUnit; RUnit;
   RThread 101; RBool true; RUnit; RUnit; RThread 103].

Lemma toy_pool_runs : pool_spec_all toy_pool_ops toy_pool = Some (toy_pool_rets, toy_pool_end).
Proof. apply spec_all_default. by vm_compute. Qed.

Lemma thread_pool_refinement_witness :
  (∃ s', pool_exec_all toy_pool_ops toy_threads = Some (toy_pool_rets, s') ∧ pool_repr s' toy_pool_end) ∧
  pl_q toy_pool_end RQ = [(100%N, 2); (102%N, 1)] ∧ pl_q toy_pool_end DQ = [(101%N, 0)].
Proof.
  split; [|by vm_compute].
  destruct (thread_pool_refinement toy_pool_ops toy_threads toy_pool toy_pool_rets toy_pool_end
              (proj1 toy_threads_repr) (proj2 toy_threads_repr) toy_pool_runs) as (s' & He & Hr & _).
  exists s'. split; [exact He|exact Hr].
Defined.

Lemma dispatch_highest_witness :
  all_ready_queue toy_idle_pool = [(101%N, 1); (102%N, 0)] ∧
  ∃ s', sched_dispatch (Tv 9 0) toy_idle = ORet tt s' ∧ pth_current s' = 101%N.
Proof.
  split; [by vm_compute|].
  destruct toy_idle_repr as [Hr Hi].
  destruct (dispatch_highest (Tv 9 0) toy_idle toy_idle_pool Hr Hi) as (s' & Hs & _ & Hc & _).
  - by apply (bool_decide_unpack _); vm_compute.
  - by apply (bool_decide_unpack _); vm_compute.
  - by eexists.
  - by apply (bool_decide_unpack _); vm_compute.
  - exists s'. split; [exact Hs|exact Hc].
Defined.
