(* ===== verification/Locks.v ===== *)
(** * Mutual exclusion

[locks] is the abstract view of mutexes: for every mutex whether it is free or who
holds it how often, and for every thread the mutexes it holds, oldest first.  The
refinement theorem says that the mutex operations of pth_sync.c implement this
table, whatever thread is current when they are called.  The second half looks at
the blocking paths: a thread that finds a mutex locked waits for the mutex event
and takes the mutex when it is unlocked; and at what [pth_mutex_releaseall]
releases. *)
From S2P Require Import State Data Sys Event Sync.
From S2P Require Ring.

Inductive mstate := MUninit | MFree | MHeld (owner : N) (count : Z).
Record locks := Locks {
  lk_mx : gmap N mstate;
  lk_held : gmap N (list N);
  lk_cur : N;
  lk_errno : Z;
}.

Definition mx_of (x : pth_mutex) : mstate :=
  if negb (has (mx_state x) PTH_MUTEX_INITIALIZED) then MUninit
  else if negb (has (mx_state x) PTH_MUTEX_LOCKED) then MFree
  else MHeld (mx_owner x) (mx_count x).

Inductive lock_op := LInit (m : N) | LTry (m : N) | LRelease (m : N) | LSwitch (t : N).

Definition lock_errno (e : Z) (a : locks) : locks := Locks (lk_mx a) (lk_held a) (lk_cur a) e.
Definition lock_mx (m : N) (x : mstate) (a : locks) : locks :=
  Locks (<[m := x]> (lk_mx a)) (lk_held a) (lk_cur a) (lk_errno a).
Definition lock_held (t : N) (l : list N) (a : locks) : locks :=
  Locks (lk_mx a) (<[t := l]> (lk_held a)) (lk_cur a) (lk_errno a).

(** [None] where the code has no meaning: an address that is no mutex, a mutex that
    is initialised while it is held, a recursion count that overflows. *)
Definition lock_spec (op : lock_op) (a : locks) : option (bool * locks) :=
  match op with
  | LInit m =>
      if is_null m then Some (false, lock_errno EINVAL a) else
      x ← lk_mx a !! m;
      match x with MHeld _ _ => None | _ => Some (true, lock_mx m MFree a) end
  | LTry m =>
      if is_null m then Some (false, lock_errno EINVAL a) else
      x ← lk_mx a !! m;
      match x with
      | MUninit => Some (false, lock_errno EDEADLK a)
      | MFree =>
          l ← lk_held a !! lk_cur a;
          Some (true, lock_held (lk_cur a) (l ++ [m]) (lock_mx m (MHeld (lk_cur a) 1) a))
      | MHeld o c =>
          if decide (o = lk_cur a)
          then if decide (c + 1 < 18446744073709551616) then Some (true, lock_mx m (MHeld o (c + 1)) a) else None
          else Some (false, lock_errno EBUSY a)
      end
  | LRelease m =>
      if is_null m then Some (false, lock_errno EINVAL a) else
      x ← lk_mx a !! m;
      match x with
      | MUninit | MFree => Some (false, lock_errno EDEADLK a)
      | MHeld o c =>
          if decide (o = lk_cur a) then
            if decide (c = 1) then
              l ← lk_held a !! o;
              Some (true, lock_held o (filter (λ x, x ≠ m) l) (lock_mx m MFree a))
            else Some (true, lock_mx m (MHeld o (c - 1)) a)
          else Some (false, lock_errno EACCES a)
      end
  | LSwitch t =>
      if decide (is_Some (lk_held a !! t)) then Some (true, Locks (lk_mx a) (lk_held a) t (lk_errno a)) else None
  end.

Fixpoint lock_spec_all (ops : list lock_op) (a : locks) : option (list bool * locks) :=
  match ops with
  | [] => Some ([], a)
  | op :: ops' =>
      '(v, a1) ← lock_spec op a;
      '(vs, a2) ← lock_spec_all ops' a1;
      Some (v :: vs, a2)
  end.

Section exec.
Context {Kern : Kernel}.

(** [pth_mutex_acquire(m, TRUE, NULL)] never waits. *)
Definition lock_exec (op : lock_op) : M St bool :=
  match op with
  | LInit m => pth_mutex_init m
  | LTry m => do r <- mutex_try m true; lift_opt r
  | LRelease m => pth_mutex_release m
  | LSwitch t => modify (set_pth_current (λ _, t)) ;; ret true
  end.
Fixpoint lock_exec_all (ops : list lock_op) : M St (list bool) :=
  match ops with
  | [] => ret []
  | op :: ops' => do v <- lock_exec op; do vs <- lock_exec_all ops'; ret (v :: vs)
  end.
End exec.

(** A held mutex is in the list of its owner and of nobody else. *)
Record lock_inv (a : locks) : Prop := {
  li_owner t l m : lk_held a !! t = Some l → m ∈ l →
     ∃ c, lk_mx a !! m = Some (MHeld t c) ∧ 1 ≤ c < 18446744073709551616;
  li_held m t c : lk_mx a !! m = Some (MHeld t c) → ∃ l, lk_held a !! t = Some l ∧ m ∈ l;
}.

Definition exclusive (a : locks) : Prop :=
  ∀ t1 t2 l1 l2 m, lk_held a !! t1 = Some l1 → lk_held a !! t2 = Some l2 → m ∈ l1 → m ∈ l2 → t1 = t2.

Lemma inv_exclusive a : lock_inv a → exclusive a.
Proof.
  intros Hi t1 t2 l1 l2 m H1 H2 Hm1 Hm2. destruct (li_owner _ Hi _ _ _ H1 Hm1) as (c1 & E1 & _).
  destruct (li_owner _ Hi _ _ _ H2 Hm2) as (c2 & E2 & _). congruence.
Qed.

Section proofs.
Context {Kern : Kernel}.
Implicit Types (s : St) (a : locks) (m t : N).

Record lock_repr s a : Prop := {
  lr_mx : lk_mx a = mx_of <$> mutexes s;
  lr_ring t l : lk_held a !! t = Some l →
     ∃ n, load (threads s) t = Some n ∧ rrepr (rnodes s) (mutexring (q_body n)) l;
  lr_node m : m ∈ dom (mutexes s) → m ≠ NULL → is_Some (load (rnodes s) m);
  lr_cur : lk_cur a = pth_current s;
  lr_errno : lk_errno a = errno s;
}.

Lemma lock_repr_errno s a e : lock_repr s a → lock_repr (set_errno (λ _, e) s) (lock_errno e a).
Proof. intros []. by split. Qed.

Lemma lock_mutex s a m x :
  lock_repr s a → is_null m = false → lk_mx a !! m = Some x → ∃ mx, load (mutexes s) m = Some mx ∧ mx_of mx = x.
Proof.
  intros Ha Hn Hx. rewrite (lr_mx _ _ Ha), lookup_fmap in Hx.
  destruct (mutexes s !! m) as [mx|] eqn:Hm; simplify_eq/=. exists mx. split; [|done]. apply load_Some. split; [|done].
  intros ->. done.
Qed.

(** A change to one mutex. *)
Lemma lock_repr_mx s a m g mx x :
  lock_repr s a → load (mutexes s) m = Some mx → mx_of (g mx) = x →
  lock_repr (set_mutexes (alter g m) s) (lock_mx m x a).
Proof.
  intros [Hmx Hr Hn ? ?] [Hnz Hm]%load_Some Hg. split; [|done| |done..].
  - simpl. rewrite Hmx. apply map_eq. intros y. rewrite lookup_fmap. destruct (decide (y = m)) as [->|Hne].
    + rewrite lookup_insert_eq, lookup_alter_eq, Hm. simpl. by rewrite Hg.
    + by rewrite lookup_insert_ne, lookup_alter_ne, lookup_fmap by done.
  - intros y. simpl. rewrite dom_alter_L. apply Hn.
Qed.

Lemma lock_mx_twice m x y a : lock_mx m x (lock_mx m y a) = lock_mx m x a.
Proof. unfold lock_mx. simpl. by rewrite insert_insert_eq. Qed.

(** The ring of one thread changes; no other ring shares a node with it. *)
Lemma lock_repr_ring s a t l l' n r' h' :
  lock_repr s a → lk_held a !! t = Some l → load (threads s) t = Some n → rrepr h' r' l' →
  (∀ z, z ∉ l → z ∉ l' → h' !! z = rnodes s !! z) → dom h' = dom (rnodes s) →
  (∀ u lu z, u ≠ t → lk_held a !! u = Some lu → z ∈ lu → z ∉ l ∧ z ∉ l') →
  lock_repr (set_threads (alter (on_body (set_mutexring (λ _, r'))) t) (set_rnodes (λ _, h') s)) (lock_held t l' a).
Proof.
  intros Ha Hl Hn Hr Hf Hd Hdisj. destruct Ha as [Hmx Hring Hnode ? ?]. split; [done| | |done..].
  - intros u lu. simpl. destruct (decide (u = t)) as [->|Hne].
    + rewrite lookup_insert_eq. intros [= <-]. eexists. split; [by apply load_alter_eq|done].
    + rewrite lookup_insert_ne by done. intros Hu. destruct (Hring _ _ Hu) as (nu & Hnu & Hru).
      exists nu. split; [by rewrite load_alter_ne|]. eapply rrepr_frame; [done|].
      intros z Hz. by apply Hf; apply (Hdisj _ _ _ Hne Hu Hz).
  - intros m Hm Hnz. simpl in *. destruct (Hnode m Hm Hnz) as [x [? Hx]%load_Some]. apply load_dom; [|done].
    rewrite Hd. by apply elem_of_dom.
Qed.

Lemma set_errno_frame s e : e = errno s → set_errno (λ _, e) s = s.
Proof. intros ->. by destruct s. Qed.

Lemma ring_append_lock s a t l m :
  lock_repr s a → exclusive a → lk_held a !! t = Some l → m ∈ dom (mutexes s) → m ≠ NULL →
  (∀ u lu, lk_held a !! u = Some lu → m ∉ lu) →
  wp (on_mutexring t (Ring.pth_ring_append m)) (λ _ s', lock_repr s' (lock_held t (l ++ [m]) a)) s.
Proof.
  intros Ha Hex Hl Hm Hnz Hfresh. destruct (lr_ring _ _ Ha _ _ Hl) as (n & Hn & Hr).
  eapply wp_onr; [by rewrite Hn|].
  eapply wp_mono; [apply (Ring.pth_ring_append_spec _ l m)|].
  - by apply rrepr_ring.
  - by eapply Hfresh.
  - by apply (lr_node _ _ Ha).
  - intros _ [h' o e] [(r' & Ho & Hr') (Hf & Hd & He)]. simpl in *. subst o. rewrite set_errno_frame by done.
    apply (lock_repr_ring s a t l (l ++ [m]) n r' h'); try done.
    + intros z Hz Hz'. apply Hf. set_solver.
    + intros u lu z Hne Hu Hz. assert (z ∉ l) by (intros Hzl; by apply Hne, (Hex u t lu l z)).
      split; [done|]. intros [?|Hzm%list_elem_of_singleton]%elem_of_app; [done|]. subst z. by apply (Hfresh u lu).
Qed.

Lemma filter_notin m (l : list N) : m ∉ l → filter (λ x, x ≠ m) l = l.
Proof.
  induction l as [|x l IH]; [done|]. intros [? ?]%not_elem_of_cons. rewrite filter_cons_True by done. by rewrite IH.
Qed.

Lemma ring_delete_lock s a t l m :
  lock_repr s a → exclusive a → lk_held a !! t = Some l → m ∈ l →
  wp (on_mutexring t (Ring.pth_ring_delete m))
    (λ _ s', lock_repr s' (lock_held t (filter (λ x, x ≠ m) l) a) ∧ rnodes s' !! m = rnodes s !! m) s.
Proof.
  intros Ha Hex Hl Hm. destruct (lr_ring _ _ Ha _ _ Hl) as (n & Hn & Hr).
  assert (NoDup l) as Hnd by (destruct Hr as (_ & _ & Hc); exact (cyc_NoDup _ _ Hc)).
  apply list_elem_of_split in Hm as (l1 & l2 & ->).
  assert (filter (λ x, x ≠ m) (l1 ++ m :: l2) = l1 ++ l2) as ->.
  { apply NoDup_app in Hnd as (_ & Hd & [Hm2 _]%NoDup_cons). rewrite filter_app, filter_cons_False by (by intros []).
    f_equal; apply filter_notin; [|done]. intros Hin. by apply (Hd m); [|left]. }
  eapply wp_onr; [by rewrite Hn|].
  eapply wp_mono; [apply (Ring.pth_ring_delete_spec _ l1 m l2); by apply rrepr_ring|].
  intros _ [h' o e] [(r' & Ho & Hr') (Hf & Hd & He)]. simpl in *. subst o. rewrite set_errno_frame by done.
  split; [apply (lock_repr_ring s a t (l1 ++ m :: l2) (l1 ++ l2) n r' h'); try done|].
  - intros z Hz Hz'. by apply Hf.
  - intros u lu z Hne Hu Hz. assert (z ∉ l1 ++ m :: l2) by (intros Hzl; by apply Hne, (Hex u t lu (l1 ++ m :: l2) z)). set_solver.
  - apply Hf. apply NoDup_app in Hnd as (_ & Hd' & [? _]%NoDup_cons). intros [Hin|?]%elem_of_app; [|done].
    by apply (Hd' m); [|left].
Qed.

(** ** Each operation *)
Lemma wp_stm m g Q s mx :
  load (mutexes s) m = Some mx → wp (stm m g) Q s = Q tt (set_mutexes (alter g m) s).
Proof. apply wp_st. Qed.

Lemma wp_ldm {A} m (f : pth_mutex → A) Q s mx : load (mutexes s) m = Some mx → wp (ldm m f) Q s = Q (f mx) s.
Proof. apply wp_ld. Qed.

Lemma set_mutexes_comp m g1 g2 s :
  set_mutexes (alter g2 m) (set_mutexes (alter g1 m) s) = set_mutexes (alter (g2 ∘ g1) m) s.
Proof. unfold set_mutexes. simpl. by rewrite alter_alter_eq. Qed.

Lemma load_mutex s m g mx :
  load (mutexes s) m = Some mx → load (mutexes (set_mutexes (alter g m) s)) m = Some (g mx).
Proof. intros Hm. by apply load_alter_eq. Qed.

(** Three assignments to a mutex in a row. *)
Lemma wp_stm3 m g1 g2 g3 {A} (k : M St A) Q s mx :
  load (mutexes s) m = Some mx →
  wp k Q (set_mutexes (alter (g3 ∘ (g2 ∘ g1)) m) s) → wp (stm m g1 ;; stm m g2 ;; stm m g3 ;; k) Q s.
Proof.
  intros Hm Hk. rewrite !wp_bind, (wp_stm _ _ _ _ mx) by done. rewrite wp_bind.
  erewrite wp_stm by (by apply load_mutex). rewrite wp_bind. erewrite wp_stm by (by apply load_mutex, load_mutex).
  by rewrite !set_mutexes_comp.
Qed.

Lemma init_spec s a m x :
  lock_repr s a → is_null m = false → lk_mx a !! m = Some x →
  wp (pth_mutex_init m) (λ b s', b = true ∧ lock_repr s' (lock_mx m MFree a)) s.
Proof.
  intros Ha Hn Hx. destruct (lock_mutex _ _ _ _ Ha Hn Hx) as (mx & Hmx & _).
  unfold pth_mutex_init. rewrite Hn. eapply wp_stm3; [done|]. wps. split; [done|]. by eapply lock_repr_mx.
Qed.

Lemma has_lor x b : 0 < b → has (Z.lor x b) b = true.
Proof.
  intros Hb. unfold has. apply negb_true_iff, Z.eqb_neq. rewrite Z.land_comm, Z.lor_comm, Z.land_lor_distr_r, Z.land_diag.
  intros E. apply Z.lor_eq_0_iff in E as [? _]. lia.
Qed.

(** The bits of a mutex that was initialised, locked and unlocked. *)
Lemma mx_locked mx cur :
  mx_of mx = MFree →
  mx_of ((set_mx_count (λ _, 1) ∘ (set_mx_owner cur ∘ set_mx_state (λ x, Z.lor x PTH_MUTEX_LOCKED))) mx) = MHeld cur 1.
Proof.
  unfold mx_of. simpl. intros Hmx. destruct (has (mx_state mx) PTH_MUTEX_INITIALIZED) eqn:Hi; [|done]. simpl in Hmx.
  rewrite has_lor by done. unfold has in *. rewrite Z.land_lor_distr_l.
  rewrite (proj2 (Z.eqb_neq _ 0)); [done|]. intros [E _]%Z.lor_eq_0_iff. by rewrite E in Hi.
Qed.

Lemma has_ldiff x b c : Z.land b c = 0 → has (Z.land x (Z.lnot c)) b = has x b.
Proof.
  intros Hbc. unfold has. do 2 f_equal. rewrite <- Z.land_assoc, (Z.land_comm (Z.lnot c)), <- Z.ldiff_land.
  f_equal. apply Z.bits_inj'. intros i Hi. rewrite Z.ldiff_spec. pose proof (f_equal (λ z, Z.testbit z i) Hbc) as E.
  simpl in E. rewrite Z.land_spec, Z.bits_0 in E. by destruct (Z.testbit b i), (Z.testbit c i).
Qed.

Lemma has_cleared x b : has (Z.land x (Z.lnot b)) b = false.
Proof.
  unfold has. rewrite <- Z.land_assoc, (Z.land_comm (Z.lnot b)), Z.land_lnot_diag. by rewrite Z.land_0_r.
Qed.

Lemma mx_unlocked mx o c :
  mx_of mx = MHeld o c →
  mx_of ((set_mx_count (λ _, 0) ∘ (set_mx_owner NULL ∘ set_mx_state (λ x, Z.land x (Z.lnot PTH_MUTEX_LOCKED)))) mx) = MFree.
Proof.
  unfold mx_of. simpl. intros Hmx. rewrite has_cleared, has_ldiff by done.
  by destruct (has (mx_state mx) PTH_MUTEX_INITIALIZED).
Qed.

Lemma mx_held mx o c :
  mx_of mx = MHeld o c →
  has (mx_state mx) PTH_MUTEX_INITIALIZED = true ∧ has (mx_state mx) PTH_MUTEX_LOCKED = true ∧
  mx_owner mx = o ∧ mx_count mx = c.
Proof.
  unfold mx_of. destruct (has (mx_state mx) PTH_MUTEX_INITIALIZED), (has (mx_state mx) PTH_MUTEX_LOCKED); naive_solver.
Qed.

Lemma exclusive_mx m x a : exclusive a → exclusive (lock_mx m x a).
Proof. done. Qed.

(** Taking a free mutex. *)
Lemma mutex_lock_spec s a m l :
  lock_repr s a → lock_inv a → is_null m = false → lk_mx a !! m = Some MFree → lk_held a !! lk_cur a = Some l →
  wp (mutex_lock m) (λ _ s', lock_repr s' (lock_held (lk_cur a) (l ++ [m]) (lock_mx m (MHeld (lk_cur a) 1) a))) s.
Proof.
  intros Ha Hinv Hn Hx Hl. destruct (lock_mutex _ _ _ _ Ha Hn Hx) as (mx & Hmx & Hof).
  unfold mutex_lock. rewrite wp_bind, wp_gets. eapply wp_stm3; [done|]. rewrite <- (lr_cur _ _ Ha).
  pose proof (mx_locked mx (lk_cur a) Hof) as Hlk.
  apply ring_append_lock.
  - by eapply lock_repr_mx.
  - by apply exclusive_mx, inv_exclusive.
  - done.
  - simpl. rewrite dom_alter_L. apply load_Some in Hmx as [_ Hmx]. by apply elem_of_dom.
  - by apply load_Some in Hmx as [? _].
  - intros u lu Hu Hin. destruct (li_owner _ Hinv _ _ _ Hu Hin) as (c & Hc & _). congruence.
Qed.

Lemma try_spec s a m b a' :
  lock_repr s a → lock_inv a → lock_spec (LTry m) a = Some (b, a') →
  wp (mutex_try m true) (λ r s', r = Some b ∧ lock_repr s' a') s.
Proof.
  intros Ha Hinv Hs. simpl in Hs. unfold mutex_try. destruct (is_null m) eqn:Hn.
  { simplify_eq. wps. split; [done|by apply lock_repr_errno]. }
  destruct (lk_mx a !! m) as [x|] eqn:Hx; [|done]. simpl in Hs.
  destruct (lock_mutex _ _ _ _ Ha Hn Hx) as (mx & Hmx & Hof). rewrite wp_bind, (wp_ldm _ _ _ _ mx) by done.
  destruct x as [| |o c].
  - assert (has (mx_state mx) PTH_MUTEX_INITIALIZED = false) as ->.
    { unfold mx_of in Hof. destruct (has _ PTH_MUTEX_INITIALIZED); [|done]. by destruct (has _ PTH_MUTEX_LOCKED). }
    simplify_eq/=. wps. split; [done|by apply lock_repr_errno].
  - assert (has (mx_state mx) PTH_MUTEX_INITIALIZED = true ∧ has (mx_state mx) PTH_MUTEX_LOCKED = false) as [-> ->].
    { unfold mx_of in Hof. destruct (has _ PTH_MUTEX_INITIALIZED); [|done]. by destruct (has _ PTH_MUTEX_LOCKED). }
    destruct (lk_held a !! lk_cur a) as [l|] eqn:Hl; simplify_eq/=. rewrite wp_bind.
    eapply wp_mono; [by apply mutex_lock_spec|]. intros ? s' H'. wps. done.
  - destruct (mx_held _ _ _ Hof) as (-> & -> & Ho & Hc). cbv [negb].
    destruct (li_held _ Hinv _ _ _ Hx) as (l & Hl & Hin). destruct (li_owner _ Hinv _ _ _ Hl Hin) as (c' & Hc' & Hb).
    simplify_eq. rewrite wp_bind, (wp_ldm _ _ _ _ mx), wp_bind, (wp_ldm _ _ _ _ mx), wp_bind, wp_gets by done.
    rewrite <- (lr_cur _ _ Ha), (proj2 (Z.leb_le _ _) (proj1 Hb)). simpl andb.
    case_decide as Ho.
    + case_decide as Hc; simplify_eq. rewrite bool_decide_true by done. rewrite wp_bind, (wp_stm _ _ _ _ mx) by done. wps.
      split; [done|]. eapply lock_repr_mx; [done..|].
      unfold mx_of in Hof |- *. simpl. destruct (has (mx_state mx) PTH_MUTEX_INITIALIZED), (has (mx_state mx) PTH_MUTEX_LOCKED); try done.
      simpl. unfold u64. rewrite Z.mod_small by lia. by rewrite Ho.
    + simplify_eq. rewrite bool_decide_false by done. wps. split; [done|by apply lock_repr_errno].
Qed.

Lemma mx_dec mx o c :
  mx_of mx = MHeld o c → mx_of (set_mx_count (λ c, u64 (c - 1)) mx) = MHeld o (u64 (c - 1)).
Proof.
  unfold mx_of. simpl.
  destruct (has (mx_state mx) PTH_MUTEX_INITIALIZED), (has (mx_state mx) PTH_MUTEX_LOCKED); naive_solver.
Qed.

(** The last release by the owner; the ring node of the mutex keeps its links. *)
Lemma release_last_spec s a m l :
  lock_repr s a → lock_inv a → is_null m = false → lk_mx a !! m = Some (MHeld (lk_cur a) 1) →
  lk_held a !! lk_cur a = Some l →
  wp (pth_mutex_release m)
    (λ b s', b = true ∧ lock_repr s' (lock_held (lk_cur a) (filter (λ x, x ≠ m) l) (lock_mx m MFree a)) ∧
             rnodes s' !! m = rnodes s !! m) s.
Proof.
  intros Ha Hinv Hn Hx Hl. destruct (lock_mutex _ _ _ _ Ha Hn Hx) as (mx & Hmx & Hof).
  unfold pth_mutex_release. rewrite Hn, wp_bind, (wp_ldm _ _ _ _ mx) by done.
  destruct (mx_held _ _ _ Hof) as (-> & -> & Ho & Hc). cbv [negb].
  rewrite wp_bind, (wp_ldm _ _ _ _ mx), wp_bind, wp_gets, <- (lr_cur _ _ Ha) by done.
  rewrite bool_decide_true by done. cbv [negb]. rewrite wp_bind, (wp_stm _ _ _ _ mx), wp_bind by done.
  erewrite wp_ldm by (by apply load_mutex). simpl mx_count. rewrite Hc. simpl Z.leb. cbv iota. rewrite wp_bind.
  destruct (li_held _ Hinv _ _ _ Hx) as (l' & Hl' & Hin). simplify_eq.
  eapply wp_stm3; [by apply load_mutex|]. rewrite <- (lock_mx_twice m MFree (MHeld (lk_cur a) 0)).
  eapply wp_mono; [apply (ring_delete_lock _ (lock_mx m MFree (lock_mx m (MHeld (lk_cur a) 0) a)) _ l)|].
  - pose proof (mx_dec _ _ _ Hof) as Hdec.
    eapply lock_repr_mx; [by eapply lock_repr_mx|by apply load_mutex|]. by eapply mx_unlocked.
  - exact (inv_exclusive a Hinv).
  - done.
  - done.
  - intros ? s' [H' Hr]. wps. done.
Qed.

Lemma release_spec s a m b a' :
  lock_repr s a → lock_inv a → lock_spec (LRelease m) a = Some (b, a') →
  wp (pth_mutex_release m) (λ r s', r = b ∧ lock_repr s' a') s.
Proof.
  intros Ha Hinv Hs. simpl in Hs. unfold pth_mutex_release. destruct (is_null m) eqn:Hn.
  { simplify_eq. wps. split; [done|by apply lock_repr_errno]. }
  destruct (lk_mx a !! m) as [x|] eqn:Hx; [|done]. simpl in Hs.
  destruct (lock_mutex _ _ _ _ Ha Hn Hx) as (mx & Hmx & Hof). rewrite wp_bind, (wp_ldm _ _ _ _ mx) by done.
  destruct x as [| |o c].
  - assert (has (mx_state mx) PTH_MUTEX_INITIALIZED = false) as ->.
    { unfold mx_of in Hof. destruct (has _ PTH_MUTEX_INITIALIZED); [|done]. by destruct (has _ PTH_MUTEX_LOCKED). }
    simplify_eq/=. wps. split; [done|by apply lock_repr_errno].
  - assert (has (mx_state mx) PTH_MUTEX_INITIALIZED = true ∧ has (mx_state mx) PTH_MUTEX_LOCKED = false) as [-> ->].
    { unfold mx_of in Hof. destruct (has _ PTH_MUTEX_INITIALIZED); [|done]. by destruct (has _ PTH_MUTEX_LOCKED). }
    simplify_eq/=. wps. split; [done|by apply lock_repr_errno].
  - destruct (li_held _ Hinv _ _ _ Hx) as (l & Hl & Hin). destruct (li_owner _ Hinv _ _ _ Hl Hin) as (c' & Hc' & Hb).
    simplify_eq. destruct (decide (o = lk_cur a ∧ c = 1)) as [[-> ->]|Hne].
    { rewrite decide_True, decide_True in Hs by done. rewrite Hl in Hs. simplify_eq/=.
      pose proof (release_last_spec s a m l Ha Hinv Hn Hx Hl) as Hr. unfold pth_mutex_release in Hr. rewrite Hn in Hr.
      rewrite wp_bind, (wp_ldm _ _ _ _ mx) in Hr by done. eapply wp_mono; [exact Hr|]. by intros ? ? (-> & ? & _). }
    destruct (mx_held _ _ _ Hof) as (-> & -> & Ho & Hc). cbv [negb].
    rewrite wp_bind, (wp_ldm _ _ _ _ mx), wp_bind, wp_gets by done. rewrite <- (lr_cur _ _ Ha), Ho.
    case_decide as Hcur; [rewrite bool_decide_true by done|rewrite bool_decide_false by done; simplify_eq; wps;
      split; [done|by apply lock_repr_errno]].
    rewrite decide_False in Hs by naive_solver. injection Hs as <- <-. cbv [negb]. rewrite wp_bind, (wp_stm _ _ _ _ mx), wp_bind by done.
    erewrite wp_ldm by (by apply load_mutex). simpl mx_count. rewrite Hc.
    assert (u64 (c - 1) = c - 1) as Hu by (unfold u64; by rewrite Z.mod_small by lia). rewrite Hu.
    rewrite (proj2 (Z.leb_gt _ _)) by naive_solver lia. wps. split; [done|]. eapply lock_repr_mx; [done..|].
    by rewrite (mx_dec mx _ _ Hof), Hu.
Qed.

Lemma lock_exec_refines op s a b a' :
  lock_repr s a → lock_inv a → lock_spec op a = Some (b, a') →
  wp (lock_exec op) (λ b' s', b' = b ∧ lock_repr s' a') s.
Proof.
  intros Ha Hinv Hs. destruct op as [m|m|m|t]; simpl lock_exec.
  - simpl in Hs. destruct (is_null m) eqn:Hn.
    + simplify_eq. unfold pth_mutex_init. rewrite Hn. wps. split; [done|by apply lock_repr_errno].
    + destruct (lk_mx a !! m) as [x|] eqn:Hx; [|done]. simpl in Hs. eapply wp_mono; [by eapply init_spec|].
      intros ? s' [-> ?]. by destruct x; simplify_eq.
  - rewrite wp_bind. eapply wp_mono; [by eapply try_spec|]. intros ? s' [-> ?]. done.
  - by apply (release_spec s a).
  - simpl in Hs. case_decide; simplify_eq. wps. split; [done|]. destruct Ha. by split.
Qed.

Definition is_held (x : mstate) : Prop := match x with MHeld _ _ => True | _ => False end.

(** Inserting a value that is not held, or that is held by a thread that lists it. *)
Lemma lock_inv_mx m x a :
  lock_inv a → (∀ t c, lk_mx a !! m ≠ Some (MHeld t c)) → ¬ is_held x → lock_inv (lock_mx m x a).
Proof.
  intros Hinv Hx Hh. split; simpl.
  - intros t l y Hl Hy. destruct (li_owner _ Hinv _ _ _ Hl Hy) as (c & Hc & ?). exists c. split; [|done].
    rewrite lookup_insert_ne; [done|]. intros ->. by apply (Hx t c).
  - intros y t c. destruct (decide (y = m)) as [->|Hne]; [rewrite lookup_insert_eq; by intros [= ->]|].
    rewrite lookup_insert_ne by done. apply (li_held _ Hinv).
Qed.

Lemma lock_inv_count m t c c' a :
  lock_inv a → lk_mx a !! m = Some (MHeld t c) → 1 ≤ c' < 18446744073709551616 → lock_inv (lock_mx m (MHeld t c') a).
Proof.
  intros Hinv Hm Hc'. split; simpl.
  - intros u l y Hl Hy. destruct (li_owner _ Hinv _ _ _ Hl Hy) as (d & Hd & ?).
    destruct (decide (y = m)) as [->|Hne]; [|rewrite lookup_insert_ne by done; by exists d].
    rewrite lookup_insert_eq. exists c'. split; [|done]. congruence.
  - intros y u d. destruct (decide (y = m)) as [->|Hne].
    + rewrite lookup_insert_eq. intros [= <- <-]. by apply (li_held _ Hinv m t c).
    + rewrite lookup_insert_ne by done. apply (li_held _ Hinv).
Qed.

Lemma lock_inv_take m t l a :
  lock_inv a → lk_mx a !! m = Some MFree → lk_held a !! t = Some l →
  lock_inv (lock_held t (l ++ [m]) (lock_mx m (MHeld t 1) a)).
Proof.
  intros Hinv Hm Hl. assert (∀ u lu, lk_held a !! u = Some lu → m ∉ lu) as Hfresh.
  { intros u lu Hu Hin. destruct (li_owner _ Hinv _ _ _ Hu Hin) as (c & Hc & _). congruence. }
  split; simpl.
  - intros u lu y Hu Hy. destruct (decide (y = m)) as [->|Hne].
    + rewrite lookup_insert_eq. exists 1. split; [|lia]. destruct (decide (u = t)) as [->|Hut]; [done|].
      rewrite lookup_insert_ne in Hu by done. by apply Hfresh in Hu.
    + rewrite lookup_insert_ne by done. destruct (decide (u = t)) as [->|Hut].
      * rewrite lookup_insert_eq in Hu. simplify_eq. apply (li_owner _ Hinv t l); [done|]. set_solver.
      * rewrite lookup_insert_ne in Hu by done. by apply (li_owner _ Hinv u lu).
  - intros y u c. destruct (decide (y = m)) as [->|Hne].
    + rewrite lookup_insert_eq. intros [= <- <-]. rewrite lookup_insert_eq. eexists. split; [done|]. set_solver.
    + rewrite lookup_insert_ne by done. intros Hy. destruct (li_held _ Hinv _ _ _ Hy) as (lu & Hu & Hin).
      destruct (decide (u = t)) as [->|Hut]; [|rewrite lookup_insert_ne by done; by exists lu].
      rewrite lookup_insert_eq. eexists. split; [done|]. simplify_eq. set_solver.
Qed.

Lemma lock_inv_drop m t l c a :
  lock_inv a → lk_mx a !! m = Some (MHeld t c) → lk_held a !! t = Some l →
  lock_inv (lock_held t (filter (λ x, x ≠ m) l) (lock_mx m MFree a)).
Proof.
  intros Hinv Hm Hl. split; simpl.
  - intros u lu y Hu Hy. assert (∃ lu', lk_held a !! u = Some lu' ∧ y ∈ lu' ∧ y ≠ m) as (lu' & Hu' & Hy' & Hne).
    { destruct (decide (u = t)) as [->|Hut].
      - rewrite lookup_insert_eq in Hu. simplify_eq. apply list_elem_of_filter in Hy as [? ?]. by exists l.
      - rewrite lookup_insert_ne in Hu by done. exists lu. split_and!; [done..|]. intros ->.
        destruct (li_owner _ Hinv _ _ _ Hu Hy) as (d & Hd & _). congruence. }
    rewrite lookup_insert_ne by done. by apply (li_owner _ Hinv u lu').
  - intros y u d. destruct (decide (y = m)) as [->|Hne]; [by rewrite lookup_insert_eq|].
    rewrite lookup_insert_ne by done. intros Hy. destruct (li_held _ Hinv _ _ _ Hy) as (lu & Hu & Hin).
    destruct (decide (u = t)) as [->|Hut]; [|rewrite lookup_insert_ne by done; by exists lu].
    rewrite lookup_insert_eq. eexists. split; [done|]. simplify_eq. by apply list_elem_of_filter.
Qed.

Lemma lock_spec_inv op a b a' : lock_inv a → lock_spec op a = Some (b, a') → lock_inv a'.
Proof.
  intros Hinv Hs. assert (∀ e, lock_inv (lock_errno e a)) as He by (intros e; by destruct Hinv).
  destruct op as [m|m|m|t]; simpl in Hs.
  - destruct (is_null m); [by simplify_eq|]. destruct (lk_mx a !! m) as [x|] eqn:Hx; [|done]. simpl in Hs.
    destruct x; simplify_eq; apply lock_inv_mx; auto; congruence.
  - destruct (is_null m); [by simplify_eq|]. destruct (lk_mx a !! m) as [x|] eqn:Hx; [|done]. simpl in Hs.
    destruct x as [| |o c]; [by simplify_eq| |].
    + destruct (lk_held a !! lk_cur a) as [l|] eqn:Hl; simplify_eq/=. by apply lock_inv_take.
    + destruct (li_held _ Hinv _ _ _ Hx) as (l & Hl & Hin). destruct (li_owner _ Hinv _ _ _ Hl Hin) as (c' & Hc' & Hb).
      repeat case_decide; simplify_eq; [|done]. eapply lock_inv_count; [done..|lia].
  - destruct (is_null m); [by simplify_eq|]. destruct (lk_mx a !! m) as [x|] eqn:Hx; [|done]. simpl in Hs.
    destruct x as [| |o c]; [by simplify_eq..|].
    destruct (li_held _ Hinv _ _ _ Hx) as (l & Hl & Hin). destruct (li_owner _ Hinv _ _ _ Hl Hin) as (c' & Hc' & Hb).
    case_decide; [|by simplify_eq]. case_decide.
    + rewrite Hl in Hs. simplify_eq/=. by eapply lock_inv_drop.
    + simplify_eq. eapply lock_inv_count; [done..|lia].
  - case_decide; simplify_eq. by destruct Hinv.
Qed.

Lemma lock_exec_all_refines ops s a vs a' :
  lock_repr s a → lock_inv a → lock_spec_all ops a = Some (vs, a') →
  ∃ s', lock_exec_all ops s = Some (vs, s') ∧ lock_repr s' a' ∧ lock_inv a' ∧ exclusive a'.
Proof.
  revert s a vs. induction ops as [|op ops IH]; intros s a vs Ha Hinv Hs; simpl in Hs.
  { simplify_eq. exists s. split_and!; [done..|by apply inv_exclusive]. }
  destruct (lock_spec op a) as [[v a1]|] eqn:Hop; [|done]. simpl in Hs.
  destruct (lock_spec_all ops a1) as [[vs' a2]|] eqn:Hops; simplify_eq/=.
  pose proof (lock_exec_refines _ _ _ _ _ Ha Hinv Hop) as (? & s1 & Hs1 & -> & H1)%wp_run.
  destruct (IH _ _ _ H1 (lock_spec_inv _ _ _ _ Hinv Hop) Hops) as (s2 & Hs2 & H2).
  exists s2. split; [|done]. unfold bind. rewrite Hs1. unfold bind. by rewrite Hs2.
Qed.

(** C3: The mutexes implement the lock table: every sequence of initialisations,
    attempts to lock and releases, by whatever threads, that the specification gives
    a meaning runs without undefined behaviour and returns the specified results and
    error codes (a second lock by the owner counts, a lock or release by another
    thread fails), keeps the ring of held mutexes of every thread equal to its list,
    and never lets two threads hold the same mutex. *)
Theorem mutex_refinement ops s a vs a' :
  lock_repr s a → lock_inv a → lock_spec_all ops a = Some (vs, a') →
  ∃ s', lock_exec_all ops s = Some (vs, s') ∧ lock_repr s' a' ∧ lock_inv a' ∧ exclusive a'.
Proof. apply lock_exec_all_refines. Qed.

(** ** Releasing everything at the end of a thread *)

(** A ring operation that only looks. *)
Lemma on_mutexring_read {A} t (op : M Ring.rstate A) s n (φ : A → Prop) :
  load (threads s) t = Some n →
  wp op (λ v rs, φ v ∧ rs = Ring.RState (rnodes s) (Some (mutexring (q_body n))) (errno s))
    (Ring.RState (rnodes s) (Some (mutexring (q_body n))) (errno s)) →
  wp (on_mutexring t op) (λ v s', φ v ∧ s' = s) s.
Proof.
  intros Hn Hm. eapply wp_onr; [by rewrite Hn|]. eapply wp_mono; [exact Hm|]. intros v ? [Hv ->]. split; [done|]. simpl.
  apply load_Some in Hn as [_ Hn]. assert (alter (on_body (set_mutexring (λ _, mutexring (q_body n)))) t (threads s) = threads s) as He.
  { apply alter_id. intros x Hx. rewrite Hn in Hx. simplify_eq. destruct x as [? ? ? []]. done. }
  destruct s; simpl in *. unfold set_threads, set_rnodes, set_errno. simpl. by rewrite He.
Qed.

(** [pth_ring_next] of a node that has just been unlinked from the front: the
    successor that it still points to is the new hook, which counts as the end. *)
Lemma next_of_unlinked rn rest node h r e :
  load h rn = Some node → Ring.rn_next node = head_or rn rest → Ring.r_hook r = head_or NULL rest → rn ≠ NULL →
  wp (Ring.pth_ring_next rn)
    (λ v rs, v = (if decide (rest = []) then rn else NULL) ∧ rs = Ring.RState h (Some r) e) (Ring.RState h (Some r) e).
Proof.
  intros Hl Hnx Hh Hnz. unfold Ring.pth_ring_next. rewrite wp_bind. eapply Ring.wp_ring_null; [done|].
  rewrite is_null_false by done. simpl orb. cbv iota.
  assert (nxf h rn = Some (head_or rn rest)) as Hn by (unfold nxf; rewrite Hl; simpl; by f_equal).
  rewrite wp_bind. eapply Ring.wp_rn_ld_next; [exact Hn|]. rewrite wp_bind. eapply Ring.wp_ld_hook; [done|]. rewrite Hh.
  destruct rest as [|y rest].
  - rewrite bool_decide_false by done. eapply Ring.wp_rn_ld_next; [exact Hn|]. done.
  - rewrite !head_or_cons, bool_decide_true by done. by rewrite wp_ret.
Qed.

(** The first mutex of the ring, acquired once, is released, and the walk ends there. *)
Lemma releaseall_run s a m rest :
  lock_repr s a → lock_inv a → lk_held a !! lk_cur a = Some (m :: rest) → lk_mx a !! m = Some (MHeld (lk_cur a) 1) →
  ∃ s', pth_mutex_releaseall (lk_cur a) s = Some (tt, s') ∧
        lock_repr s' (lock_held (lk_cur a) rest (lock_mx m MFree a)).
Proof.
  intros Ha Hinv Hl Hm. set (t := lk_cur a) in *. destruct (lr_ring _ _ Ha _ _ Hl) as (n & Hn & Hr).
  pose proof Hr as (Hhook & _ & Hc). pose proof (cyc_NoDup _ _ Hc) as [Hm_rest _]%NoDup_cons.
  assert (m ≠ NULL) as Hnz by (exact (cyc_nonnull _ _ _ Hc ltac:(left))).
  assert (t ≠ NULL) as Htz by (by apply load_Some in Hn as [? _]).
  assert (filter (λ x, x ≠ m) (m :: rest) = rest) as Hfil.
  { rewrite filter_cons_False by (by intros []). by apply filter_notin. }
  pose proof (cyc_head_next _ _ _ Hc) as (node & Hnode & Hnx)%nxf_Some.
  assert (wp (pth_mutex_releaseall t) (λ _ s', lock_repr s' (lock_held t rest (lock_mx m MFree a))) s) as Hwp.
  2: { apply wp_run in Hwp as ([] & s' & ? & ?). by exists s'. }
  unfold pth_mutex_releaseall. rewrite is_null_false by done. rewrite wp_bind.
  eapply wp_mono; [apply (on_mutexring_read _ _ _ _ (λ v, v = m) Hn)|].
  { eapply wp_mono; [apply (Ring.ring_first_run _ (m :: rest)); by apply rrepr_ring|]. by intros ? ? [-> ->]. }
  intros ? ? [-> ->]. unfold wp at 1. cbv beta.
  assert (size (rnodes s) ≠ 0)%nat as [k Hk]%Nat.neq_0_r.
  { apply load_Some in Hnode as [_ Hnode]. intros Hz%map_size_empty_inv. by rewrite Hz, lookup_empty in Hnode. }
  rewrite Hk. change (wp (releaseall_loop (S (S k)) t m m) (λ _ s', lock_repr s' (lock_held t rest (lock_mx m MFree a))) s).
  cbn [releaseall_loop]. rewrite is_null_false by done. rewrite wp_bind.
  eapply wp_mono; [apply (release_last_spec s a m (m :: rest)); [done|done|by apply is_null_false|done|done]|].
  intros ? s1 (-> & H1 & Hkeep). fold t in H1. rewrite Hfil in H1. rewrite wp_bind.
  destruct (lr_ring _ _ H1 t rest) as (n1 & Hn1 & Hr1); [simpl; by rewrite lookup_insert_eq|].
  eapply wp_mono; [eapply (on_mutexring_read _ _ _ _ (λ v, v = if decide (rest = []) then m else NULL) Hn1)|].
  { eapply (next_of_unlinked m rest node); [|done|apply Hr1|done].
    apply load_Some in Hnode as [_ Hnode]. apply load_Some. by rewrite Hkeep. }
  intros ? ? [-> ->]. destruct (decide (rest = [])).
  - rewrite bool_decide_true by done. by rewrite wp_ret.
  - rewrite bool_decide_false by done. cbn [releaseall_loop]. done.
Qed.


(** ** Waiting for a mutex *)

(** The event of [pth_mutex_acquire], in a thread that has one already. *)
Definition mutex_event (ev m : N) : event → event := fresh_event ev PTH_EVENT_MUTEX 0 (MUTEX m).

Lemma mutex_event_run s ev m :
  has_event s mutex_ev_key ev →
  pth_event (Z.lor PTH_EVENT_MUTEX PTH_MODE_STATIC) [VPtr mutex_ev_key; VPtr m] s =
    Some (ev, set_evs (alter (mutex_event ev m) ev) s).
Proof.
  intros Hev. destruct (static_event_run s (Z.lor PTH_EVENT_MUTEX PTH_MODE_STATIC) mutex_ev_key [VPtr m] ev Hev)
    as (e & He & ->); [done..|]. by eapply event_fill_run.
Qed.

(** Changes that the lock table does not show. *)
Lemma lock_repr_alter s a t g :
  lock_repr s a → (∀ b, mutexring (g b) = mutexring b) → lock_repr (set_threads (alter (on_body g) t) s) a.
Proof.
  intros [Hmx Hr Hn ? ?] Hg. split; [done| |done..]. intros u l Hl. destruct (Hr u l Hl) as (n & Hnu & Hrr). simpl.
  rewrite load_alter. case_decide; [subst|by exists n]. rewrite Hnu. eexists. split; [done|]. simpl. by rewrite Hg.
Qed.

(** The state of a thread that has been resumed by the scheduler after waiting. *)
Definition resumed (s : St) : St :=
  set_threads (alter (on_body (set_events (λ _, NULL))) (pth_current s))
    (set_errno (λ _, default 0 (mctx_error ∘ q_body <$> load (threads s) (pth_current s))) s).

Context {Kn : Knot}.

Lemma cbind_run_eq {A B} (c c' : coro A) (k : A → coro B) s s' : c s = c' s' → cbind c k s = cbind c' k s'.
Proof. intros He. unfold cbind. by rewrite He. Qed.

Lemma mx_free mx : mx_of mx = MFree → has (mx_state mx) PTH_MUTEX_LOCKED = false.
Proof.
  unfold mx_of. destruct (has _ PTH_MUTEX_INITIALIZED); [|done]. by destruct (has _ PTH_MUTEX_LOCKED).
Qed.

Lemma mutex_try_busy s a m o c :
  lock_repr s a → is_null m = false → lk_mx a !! m = Some (MHeld o c) → o ≠ lk_cur a → mutex_try m false s = Some (None, s).
Proof.
  intros Ha Hn Hx Ho. destruct (lock_mutex _ _ _ _ Ha Hn Hx) as (mx & Hmx & Hof).
  destruct (mx_held _ _ _ Hof) as (Hi & Hl & <- & <-). unfold mutex_try, ldm. rewrite Hn.
  erewrite bind_run by (unfold ld; rewrite Hmx; simpl; reflexivity). rewrite Hi, Hl. simpl.
  erewrite bind_run by (unfold ld; rewrite Hmx; simpl; reflexivity).
  erewrite bind_run by (unfold ld; rewrite Hmx; simpl; reflexivity). erewrite bind_run by done.
  rewrite bool_decide_false; [by rewrite andb_false_r|]. rewrite <- (lr_cur _ _ Ha). done.
Qed.

(** A free mutex is taken at once, a busy one is waited for. *)
Lemma acquire_free fuel m s mx :
  is_null m = false → load (mutexes s) m = Some mx → mx_of mx = MFree →
  pth_mutex_acquire fuel m false NULL s = (atom (mutex_lock m) ;;! cret true) s.
Proof.
  intros Hn Hmx Hof. unfold pth_mutex_acquire, mutex_try, cbind, atom, ldm, bind, ld. rewrite Hn, Hmx. simpl.
  assert (has (mx_state mx) PTH_MUTEX_INITIALIZED = true) as ->.
  { unfold mx_of in Hof. by destruct (has _ PTH_MUTEX_INITIALIZED). }
  rewrite (mx_free _ Hof). cbn [negb]. by destruct (mutex_lock m s) as [[[] s']|].
Qed.

Lemma acquire_busy fuel s a m o c ev n n' :
  lock_repr s a → is_null m = false → lk_mx a !! m = Some (MHeld o c) → o ≠ lk_cur a →
  has_event s mutex_ev_key ev →
  load (threads s) (pth_current s) = Some n → load (threads s) (pth_sched s) = Some n' →
  ∃ k, pth_mutex_acquire (S fuel) m false NULL s =
         OSwitch (set_threads (alter (on_body (waiting_on ev (errno s))) (pth_current s))
                    (set_evs (alter (mutex_event ev m) ev) s)) k ∧
    ∀ s2 a2 n2 x, lock_repr s2 a2 → load (threads s2) (pth_current s2) = Some n2 →
      cyc (evs s2) [ev] → cancelreq (q_body n2) && has (cancelstate (q_body n2)) PTH_CANCEL_ENABLE = false →
      lk_mx a2 !! m = Some x → (x = MFree ∨ ∃ o2 c2, x = MHeld o2 c2 ∧ o2 ≠ lk_cur a2) →
      k s2 = pth_mutex_acquire fuel m false NULL (resumed s2) ∧
      lock_repr (resumed s2) (lock_errno (mctx_error (q_body n2)) a2).
Proof.
  intros Ha Hn Hx Ho Hev Hcur Hsched. destruct Hev as (key & e & Hk & Hki & Hget & He).
  unfold pth_mutex_acquire at 1. rewrite (cbind_atom _ _ _ _ _ (mutex_try_busy _ _ _ _ _ Ha Hn Hx Ho)).
  set (s1 := set_evs (alter (mutex_event ev m) ev) s).
  assert (cyc (evs s1) [ev]) as Hc.
  { apply cyc_singleton; unfold nxf, pvf; simpl; by rewrite (load_alter_eq _ _ _ _ He). }
  destruct (pth_wait_run s1 ev [] n n' Hc Hcur Hsched) as (k & Hw & Hback); [done|].
  cbn [mutex_wait]. eexists. split.
  - erewrite cbind_switch.
    2: { erewrite cbind_atom by (apply mutex_event_run; by exists key, e).
         erewrite cbind_ret by done. erewrite cbind_switch by exact Hw. reflexivity. }
    f_equal. apply (f_equal (set_threads _)). unfold s1. rewrite set_evs_comp. apply set_evs_ext. unfold compose, mark_all. simpl.
    rewrite alter_alter_eq. apply alter_ext. by intros [].
  - intros s2 a2 n2 x H2 Hn2 Hc2 Hcan Hx2 Hcase.
    assert (lock_repr (resumed s2) (lock_errno (mctx_error (q_body n2)) a2)) as H3.
    { unfold resumed. rewrite Hn2. simpl. apply lock_repr_alter; [|done]. by apply lock_repr_errno. }
    split; [|done]. specialize (Hback s2 n2 Hn2 Hc2 Hcan).
    assert (k s2 = ORet (Z.of_nat (length (occurred_in (evs s2) [ev]))) (resumed s2)) as Hk2.
    { rewrite Hback. unfold resumed. by rewrite Hn2. }
    destruct (lock_mutex _ _ m x H3 Hn Hx2) as (mx & Hmx & Hof).
    destruct Hcase as [->|(o2 & c2 & -> & Ho2)].
    + rewrite (acquire_free _ _ _ _ Hn Hmx Hof). erewrite cbind_ret.
      2: { erewrite cbind_ret by exact Hk2. erewrite cbind_ret by done. simpl.
           erewrite cbind_atom by (unfold ldm, ld; rewrite Hmx; simpl; reflexivity). rewrite (mx_free _ Hof). reflexivity. }
      done.
    + destruct (mx_held _ _ _ Hof) as (_ & Hlk & _ & _). unfold pth_mutex_acquire.
      rewrite (cbind_atom _ _ _ _ _ (mutex_try_busy _ _ _ _ _ H3 Hn Hx2 Ho2)).
      apply cbind_run_eq. erewrite cbind_ret by exact Hk2. erewrite cbind_ret by done. simpl.
      erewrite cbind_atom by (unfold ldm, ld; rewrite Hmx; simpl; reflexivity). by rewrite Hlk.
Qed.


End proofs.

(** ** An example: two threads and two mutexes *)
Definition toy_locks_state : @St toy_kernel :=
  set_mutexes (λ _, list_to_map [(50%N, Mutex 0 0 0); (51%N, Mutex 1 0 0)])
    (set_rnodes (λ _, list_to_map [(50%N, Ring.Ringnode 0 0); (51%N, Ring.Ringnode 0 0)]) toy_state).
Definition toy_locks : locks :=
  Locks (list_to_map [(50%N, MUninit); (51%N, MFree)]) (list_to_map [(100%N, []); (99%N, [])]) 100 0.
Definition toy_lock_ops : list lock_op :=
  [LTry 50; LInit 50; LTry 50; LTry 50; LTry 51; LSwitch 99; LTry 50; LRelease 51; LSwitch 100; LRelease 50].
Definition toy_locked : locks :=
  Locks (list_to_map [(50%N, MHeld 100 1); (51%N, MHeld 100 1)]) (list_to_map [(100%N, [50%N; 51%N]); (99%N, [])]) 100 EACCES.

Lemma toy_locks_repr : lock_repr toy_locks_state toy_locks ∧ lock_inv toy_locks.
Proof.
  split; split; try done.
  - intros t l Hl. unfold toy_locks in Hl. simpl in Hl. apply lookup_insert_Some in Hl as [[<- <-]|[_ Hl]].
    { eexists. split; [vm_compute; reflexivity|]. by apply rrepr_nil. }
    apply lookup_insert_Some in Hl as [[<- <-]|[_ Hl]]; [|done].
    eexists. split; [vm_compute; reflexivity|]. by apply rrepr_nil.
  - intros m [x Hm]%elem_of_dom Hnz. unfold toy_locks_state in Hm. simpl in Hm. apply lookup_insert_Some in Hm as [[<- _]|[_ Hm]]; [by eexists|].
    apply lookup_insert_Some in Hm as [[<- _]|[_ Hm]]; [by eexists|]. done.
  - intros t l m Hl Hm. unfold toy_locks in Hl. simpl in Hl. apply lookup_insert_Some in Hl as [[_ <-]|[_ Hl]]; [by apply elem_of_nil in Hm|].
    apply lookup_insert_Some in Hl as [[_ <-]|[_ Hl]]; [by apply elem_of_nil in Hm|]. done.
  - intros m t c Hm. unfold toy_locks in Hm. simpl in Hm. apply lookup_insert_Some in Hm as [[_ ?]|[_ Hm]]; [done|].
    apply lookup_insert_Some in Hm as [[_ ?]|[_ Hm]]; done.
Qed.

Lemma mutex_refinement_witness :
  ∃ s', lock_exec_all toy_lock_ops toy_locks_state =
    Some ([false; true; true; true; true; true; false; false; true; true], s') ∧ lock_repr s' toy_locked ∧ exclusive toy_locked.
Proof.
  destruct (mutex_refinement toy_lock_ops toy_locks_state toy_locks
    [false; true; true; true; true; true; false; false; true; true] toy_locked
    (proj1 toy_locks_repr) (proj2 toy_locks_repr)) as (s' & Hs & Hr & _ & He); [by vm_compute|].
  exists s'. split; [exact Hs|]. split; [exact Hr|exact He].
Defined.

(** Both mutexes held: only the first is released. *)
Lemma toy_locked_state :
  ∃ s : @St toy_kernel, lock_repr s toy_locked ∧ lock_inv toy_locked.
Proof.
  destruct (lock_exec_all_refines toy_lock_ops toy_locks_state toy_locks
    [false; true; true; true; true; true; false; false; true; true] toy_locked
    (proj1 toy_locks_repr) (proj2 toy_locks_repr)) as (s' & Hs & Hr & Hi & _); [by vm_compute|].
  exists s'. split; [exact Hr|exact Hi].
Qed.


(** Thread 99 holds mutex 50, thread 100 has its mutex event at address 10. *)
Definition toy_contended : @St toy_kernel :=
  set_mutexes (λ _, {[ 50%N := Mutex 3 99 1 ]})
    (set_rnodes (λ _, {[ 50%N := Ring.Ringnode 50 50 ]})
      (set_evs (λ _, {[ 10%N := raw_event ]})
        (set_ints (λ _, {[ mutex_ev_key := 0 ]})
          (set_pth_keytab (λ l, <[0%nat := Keytab true fp_event_destructor]> l)
            (set_threads (alter (on_body (set_mutexring (λ _, Ring.Ring 50 1))) 99%N
                          ∘ alter (on_body (with_data (<[0%nat := 10%N]> data_zero))) 100%N) toy_state))))).
Definition toy_contended_locks : locks :=
  Locks {[ 50%N := MHeld 99 1 ]} (list_to_map [(100%N, []); (99%N, [50%N])]) 100 0.

Lemma toy_contended_repr : lock_repr toy_contended toy_contended_locks.
Proof.
  split; [reflexivity| | |done|done].
  - intros t l Hl. unfold toy_contended_locks in Hl. simpl in Hl. apply lookup_insert_Some in Hl as [[<- <-]|[_ Hl]].
    { eexists. split; [vm_compute; reflexivity|]. by apply rrepr_nil. }
    apply lookup_insert_Some in Hl as [[<- <-]|[_ Hl]]; [|done].
    eexists. split; [vm_compute; reflexivity|]. split_and!; [done..|]. by apply cyc_singleton.
  - intros m [x Hm]%elem_of_dom Hnz. unfold toy_contended in Hm. simpl in Hm. apply lookup_singleton_Some in Hm as [<- _]. by eexists.
Qed.

