(* ===== verification/Rwlocks.v ===== *)
(** * Read-write locks

What a read-write lock promises when nobody waits: [rwstate] is the abstract lock,
idle, read by [n] threads (with the first of them remembered, because it owns the
underlying mutex), or written by a thread.  The refinement theorem covers attempts
to lock for reading or writing and releases, by any threads in any order, and shows
where the implementation stops behaving like a read-write lock. *)
From S2P Require Import State Data Sys Event Sync Locks.

Inductive rwstate := RwIdle | RwReading (n : Z) (first : N) | RwWriting (w : N).
Inductive rw_op := RwTryRead | RwTryWrite | RwRelease | RwSwitch (t : N).

(** The specification, for the thread [t]: the result, the error number on failure
    and the new state.  [None] where the lock is used recursively or released
    without being held. *)
Definition rw_spec (t : N) (op : rw_op) (x : rwstate) : option (bool * Z * rwstate) :=
  match op, x with
  | RwTryRead, RwIdle => Some (true, 0, RwReading 1 t)
  | RwTryRead, RwReading n f => if decide (n + 1 < 18446744073709551616) then Some (true, 0, RwReading (n + 1) f) else None
  | RwTryRead, RwWriting w => if decide (w = t) then None else Some (false, EBUSY, x)
  | RwTryWrite, RwIdle => Some (true, 0, RwWriting t)
  | RwTryWrite, RwReading n f => if decide (f = t) then None else Some (false, EBUSY, x)
  | RwTryWrite, RwWriting w => if decide (w = t) then None else Some (false, EBUSY, x)
  | RwRelease, RwIdle => None
  | RwRelease, RwReading n f =>
      if decide (n = 1)
      then if decide (f = t) then Some (true, 0, RwIdle) else Some (false, EACCES, x)
      else Some (true, 0, RwReading (n - 1) f)
  | RwRelease, RwWriting w => if decide (w = t) then Some (true, 0, RwIdle) else Some (false, EACCES, x)
  | RwSwitch _, _ => None
  end.

Section proofs.
Context {Kern : Kernel} {Kn : Knot}.
Implicit Types (s : St) (a : locks) (l : N).

(** ** Mutex operations leave everything else alone *)

(** The state without mutexes: no locks, no rings of locks, no [errno]. *)
Definition lockless s : St :=
  set_mutexes (λ _, ∅) (set_rnodes (λ _, ∅) (set_errno (λ _, 0)
    (set_threads (fmap (on_body (set_mutexring (λ _, Ring.PTH_RING_INIT)))) s))).
Definition keeps {A} (m : M St A) : Prop := ∀ s x s', m s = Some (x, s') → lockless s' = lockless s.

Definition ringless (n : qnode tcb) : tcb := set_mutexring (λ _, Ring.PTH_RING_INIT) (q_body n).
Definition beside s :=
  (rwlocks s, pth_errno_storage s, (usr s, brk s),
   (barriers s, conds s, evs s, ints s, (pth_keytab s, pth_sched s)), ringless <$> threads s).

Lemma lockless_beside s s' : lockless s' = lockless s → beside s' = beside s.
Proof.
  assert (∀ s, beside s = (rwlocks (lockless s), pth_errno_storage (lockless s), (usr (lockless s), brk (lockless s)),
    (barriers (lockless s), conds (lockless s), evs (lockless s), ints (lockless s), (pth_keytab (lockless s), pth_sched (lockless s))),
    q_body <$> threads (lockless s))) as Hb.
  { intros s0. unfold beside. f_equal. cbn. rewrite <- map_fmap_compose. done. }
  intros Hs. by rewrite !Hb, Hs.
Qed.

Lemma keeps_bind {A B} (m : M St A) (k : A → M St B) : keeps m → (∀ x, keeps (k x)) → keeps (bind m k).
Proof.
  intros Hm Hk s x s' Hb. unfold bind in Hb. destruct (m s) as [[y s1]|] eqn:E; [|done].
  rewrite (Hk y s1 x s' Hb). by eapply Hm.
Qed.

Lemma keeps_ret {A} (x : A) : keeps (ret x).
Proof. by intros s y s' [= _ <-]. Qed.

Lemma keeps_gets {A} (f : St → A) : keeps (gets f).
Proof. by intros s y s' [= _ <-]. Qed.

Lemma keeps_error {A} (v : A) e : keeps (pth_error v e).
Proof. by intros s y s' [= _ <-]. Qed.

Lemma keeps_ldm {A} m (f : pth_mutex → A) : keeps (ldm m f).
Proof. intros s y s'. unfold ldm, ld. destruct (load _ _); simpl; [|done]. intros Heq. by simplify_eq. Qed.

Lemma keeps_stm m g : keeps (stm m g).
Proof. intros s y s'. unfold stm, st. destruct (load _ _); simpl; [|done]. intros Heq. by simplify_eq. Qed.

(** Changes to what is blanked out, and to the ring of a thread. *)
Lemma lockless_ring s t f h e :
  lockless (set_threads (alter (on_body (set_mutexring f)) t) (set_rnodes h (set_errno e s))) = lockless s.
Proof.
  transitivity (set_mutexes (λ _, ∅) (set_rnodes (λ _, ∅) (set_errno (λ _, 0)
    (set_threads (fmap (on_body (set_mutexring (λ _, Ring.PTH_RING_INIT))) ∘ alter (on_body (set_mutexring f)) t) s)))); [reflexivity|].
  unfold lockless. do 3 f_equal. apply set_threads_ext. unfold compose. apply map_eq. intros u.
  rewrite !lookup_fmap, lookup_alter. case_decide; [subst|done]. by destruct (threads s !! u).
Qed.

Lemma keeps_ring {A} t (m : M Ring.rstate A) : keeps (on_mutexring t m).
Proof.
  intros s y s'. unfold on_mutexring, onr. destruct (_ <$> load _ _); cbn [mbind option_bind]; [|done].
  destruct (m _) as [[? r]|]; cbn [mbind option_bind]; [|done]. intros [= _ <-]. apply lockless_ring.
Qed.

Ltac keeps_tac :=
  repeat first [apply keeps_ret | apply keeps_gets | apply keeps_error | apply keeps_ldm | apply keeps_stm | apply keeps_ring
    | apply keeps_bind; [|intros ?] | match goal with |- keeps (if ?b then _ else _) => destruct b end].

Lemma keeps_try m b : keeps (mutex_try m b).
Proof. unfold mutex_try. keeps_tac. Qed.

Lemma keeps_release m : keeps (pth_mutex_release m).
Proof. unfold pth_mutex_release. keeps_tac. Qed.

(** ** The representation *)

(** The lock at [l] with its mutexes [rd] and [rw] is in state [x]; [rd] is free
    between operations. *)
Record rw_repr s a l (rd rw : N) (x : rwstate) : Prop := {
  rr_locks : lock_repr s a;
  rr_inv : lock_inv a;
  rr_cur : is_Some (lk_held a !! lk_cur a);
  rr_rd : lk_mx a !! rd = Some MFree;
  rr_rdnn : rd ≠ NULL;
  rr_rwnn : rw ≠ NULL;
  rr_ne : rd ≠ rw;
  rr_lock : ∃ y, load (rwlocks s) l = Some y ∧ has (rw_state y) PTH_RWLOCK_INITIALIZED = true ∧
              rw_mutex_rd y = rd ∧ rw_mutex_rw y = rw ∧
              match x with
              | RwIdle => lk_mx a !! rw = Some MFree ∧ rw_readers y = 0
              | RwReading n f => lk_mx a !! rw = Some (MHeld f 1) ∧ rw_readers y = n ∧ 1 ≤ n < 18446744073709551616 ∧
                                 rw_mode y = PTH_RWLOCK_RD
              | RwWriting w => lk_mx a !! rw = Some (MHeld w 1) ∧ rw_readers y = 0 ∧ rw_mode y = PTH_RWLOCK_RW
              end
}.

Lemma lock_repr_rwlocks s a f : lock_repr s a → lock_repr (set_rwlocks f s) a.
Proof. intros []. by split. Qed.

Lemma acquire_run fuel m b s a v a' :
  lock_repr s a → lock_inv a → lock_spec (LTry m) a = Some (v, a') → (b = true ∨ lk_mx a !! m = Some MFree) →
  ∃ s', pth_mutex_acquire fuel m b NULL s = ORet v s' ∧ lock_repr s' a' ∧ lock_inv a' ∧ beside s' = beside s.
Proof.
  intros Ha Hi Hs Hb. pose proof (lock_exec_refines _ _ _ _ _ Ha Hi Hs) as (v' & s' & Hrun & -> & Ha')%wp_run.
  unfold lock_exec, bind in Hrun. destruct (mutex_try m true s) as [[[r|] s1]|] eqn:Htry; [|done..].
  unfold lift_opt in Hrun. simplify_eq. exists s'. split_and!; [|done|by eapply lock_spec_inv|by eapply lockless_beside, keeps_try].
  assert (mutex_try m b s = Some (Some v, s')) as Htry'.
  { rewrite <- Htry. destruct Hb as [->|Hfree]; [done|]. unfold mutex_try. destruct (is_null m) eqn:Hn; [done|].
    destruct (lock_mutex _ _ _ _ Ha Hn Hfree) as (mx & Hmx & Hof). unfold ldm, bind, ld. rewrite Hmx. simpl.
    by rewrite (mx_free _ Hof). }
  unfold pth_mutex_acquire. by erewrite cbind_atom by exact Htry'.
Qed.

Lemma release_run m s a v a' :
  lock_repr s a → lock_inv a → lock_spec (LRelease m) a = Some (v, a') →
  ∃ s', pth_mutex_release m s = Some (v, s') ∧ lock_repr s' a' ∧ lock_inv a' ∧ beside s' = beside s.
Proof.
  intros Ha Hi Hs. pose proof (lock_exec_refines _ _ _ _ _ Ha Hi Hs) as (v' & s' & Hrun & -> & Ha')%wp_run.
  exists s'. split_and!; [done|done|by eapply lock_spec_inv|by eapply lockless_beside, keeps_release].
Qed.

(** ** The mutexes of a lock *)

(** The table [a'] differs from [a] in the mutex [m], now [x], only. *)
Definition changed (m : N) (x : mstate) a a' : Prop :=
  lk_mx a' = <[m := x]> (lk_mx a) ∧ lk_cur a' = lk_cur a ∧ lk_errno a' = lk_errno a ∧
  ∀ t, is_Some (lk_held a !! t) → is_Some (lk_held a' !! t).

Lemma take_free a m :
  m ≠ NULL → lk_mx a !! m = Some MFree → is_Some (lk_held a !! lk_cur a) →
  ∃ a', lock_spec (LTry m) a = Some (true, a') ∧ changed m (MHeld (lk_cur a) 1) a a'.
Proof.
  intros Hm Hx [hl Hl]. eexists. simpl. rewrite is_null_false by done. rewrite Hx. simpl. rewrite Hl. simpl.
  split; [reflexivity|]. split_and!; try done. intros t [l' Hl']. cbn. destruct (decide (t = lk_cur a)) as [->|].
  - rewrite lookup_insert_eq. by eexists.
  - rewrite lookup_insert_ne by done. by eexists.
Qed.

Lemma try_held a m o c :
  m ≠ NULL → lk_mx a !! m = Some (MHeld o c) → o ≠ lk_cur a → lock_spec (LTry m) a = Some (false, lock_errno EBUSY a).
Proof. intros Hm Hx Ho. simpl. rewrite is_null_false by done. rewrite Hx. simpl. by rewrite decide_False. Qed.

Lemma drop_own a m :
  m ≠ NULL → lk_mx a !! m = Some (MHeld (lk_cur a) 1) → is_Some (lk_held a !! lk_cur a) →
  ∃ a', lock_spec (LRelease m) a = Some (true, a') ∧ changed m MFree a a'.
Proof.
  intros Hm Hx [hl Hl]. eexists. simpl. rewrite is_null_false by done. rewrite Hx. simpl. rewrite decide_True by done.
  rewrite Hl. simpl. split; [reflexivity|]. split_and!; try done. intros t [l' Hl']. cbn. destruct (decide (t = lk_cur a)) as [->|].
  - rewrite lookup_insert_eq. by eexists.
  - rewrite lookup_insert_ne by done. by eexists.
Qed.

Lemma release_other a m o c :
  m ≠ NULL → lk_mx a !! m = Some (MHeld o c) → o ≠ lk_cur a → lock_spec (LRelease m) a = Some (false, lock_errno EACCES a).
Proof. intros Hm Hx Ho. simpl. rewrite is_null_false by done. rewrite Hx. simpl. by rewrite decide_False. Qed.

Lemma strw_run l g y s : load (rwlocks s) l = Some y → strw l g s = Some (tt, set_rwlocks (alter g l) s).
Proof. intros Hy. unfold strw, st. by rewrite Hy. Qed.
Lemma ldrw_run {A} l (f : pth_rwlock → A) y s : load (rwlocks s) l = Some y → ldrw l f s = Some (f y, s).
Proof. intros Hy. unfold ldrw, ld. by rewrite Hy. Qed.

(** [pth_mutex_release] of the mutex [rd] that the current thread has just taken. *)
Lemma release_rd s a rd :
  lock_repr s a → lock_inv a → rd ≠ NULL → lk_mx a !! rd = Some (MHeld (lk_cur a) 1) → is_Some (lk_held a !! lk_cur a) →
  ∃ s' a', pth_mutex_release rd s = Some (true, s') ∧ lock_repr s' a' ∧ lock_inv a' ∧ beside s' = beside s ∧ changed rd MFree a a'.
Proof.
  intros Ha Hi Hn Hx Hl. destruct (drop_own a rd Hn Hx Hl) as (a' & Hs & Hc).
  destruct (release_run rd s a true a' Ha Hi Hs) as (s' & Hrun & Ha' & Hi' & Hrw). by exists s', a'.
Qed.

Lemma shield_release s a rd :
  lock_repr s a → lock_inv a → rd ≠ NULL → lk_mx a !! rd = Some (MHeld (lk_cur a) 1) → is_Some (lk_held a !! lk_cur a) →
  ∃ s' a', pth_shield (do _ <- pth_mutex_release rd; ret tt) s = Some (tt, s') ∧ lock_repr s' a' ∧ lock_inv a' ∧
    rwlocks s' = rwlocks s ∧ changed rd MFree a a'.
Proof.
  intros Ha Hi Hn Hx Hl. unfold pth_shield.
  set (s1 := set_pth_errno_flag (λ _, true) (set_pth_errno_storage (λ _, errno s) s)).
  assert (lock_repr s1 a) as Ha1 by (destruct Ha; by split).
  destruct (release_rd s1 a rd Ha1 Hi Hn Hx Hl) as (s' & a' & Hrun & Ha' & Hi' & Hrw & Hc).
  assert (pth_errno_storage s' = errno s) as He by (unfold beside in Hrw; by simplify_eq).
  assert (rwlocks s' = rwlocks s) as Hr by (unfold beside in Hrw; by simplify_eq).
  set (s2 := set_pth_errno_flag (λ _, false) (set_errno (λ _, pth_errno_storage s') s')).
  exists s2, (lock_errno (errno s) a'). rewrite <- (lr_errno _ _ Ha). destruct Hc as (Hc1 & Hc2 & Hc3 & Hc4). split_and!.
  - erewrite bind_run by reflexivity. erewrite bind_run by reflexivity. erewrite bind_run by reflexivity.
    erewrite bind_run by (erewrite bind_run by exact Hrun; reflexivity). done.
  - rewrite (lr_errno _ _ Ha). destruct Ha'. by split.
  - destruct Hi'. by split.
  - exact Hr.
  - by split_and!.
Qed.

(** ** The operations *)

(** A result of the specification; only the lock has changed. *)
Definition outcome (c : coro bool) s a l rd rw (r : bool * Z * rwstate) : Prop :=
  ∃ s' a', c s = ORet r.1.1 s' ∧ rw_repr s' a' l rd rw r.2 ∧ lk_cur a' = lk_cur a ∧
    (r.1.1 = false → errno s' = r.1.2) ∧ ∀ t, is_Some (lk_held a !! t) → is_Some (lk_held a' !! t).

Lemma load_rwlocks_alter s l g y : load (rwlocks s) l = Some y → load (rwlocks (set_rwlocks (alter g l) s)) l = Some (g y).
Proof. apply load_alter_eq. Qed.

Lemma beside_rwlocks s s' : beside s' = beside s → rwlocks s' = rwlocks s.
Proof. unfold beside. intros. by simplify_eq. Qed.

Lemma acquire_head fuel s a l rd rw x op :
  rw_repr s a l rd rw x →
  pth_rwlock_acquire fuel l op true NULL s =
    (if op =? PTH_RWLOCK_RW then rwlock_write fuel l rw true NULL else rwlock_read fuel l rd rw true NULL) s.
Proof.
  intros Hr. destruct (rr_lock _ _ _ _ _ _ Hr) as (y & Hy & Hini & Hrd & Hrw & Hx). pose proof Hy as [Hl _]%load_Some.
  unfold pth_rwlock_acquire. rewrite is_null_false by done. erewrite cbind_atom by (by eapply ldrw_run). rewrite Hini. cbn [negb].
  erewrite cbind_atom by (by eapply ldrw_run). erewrite cbind_atom by (by eapply ldrw_run). by rewrite Hrd, Hrw.
Qed.

(** The mutex for writing is held by another thread. *)
Lemma write_busy fuel s a l rd rw x o :
  rw_repr s a l rd rw x → lk_mx a !! rw = Some (MHeld o 1) → o ≠ lk_cur a →
  outcome (rwlock_write fuel l rw true NULL) s a l rd rw (false, EBUSY, x).
Proof.
  intros Hr Ho Hno. destruct (rr_lock _ _ _ _ _ _ Hr) as (y & Hy). destruct Hr as [Ha Hi Hc Hfree Hn1 Hn2 Hne _].
  destruct (acquire_run fuel rw true s a false (lock_errno EBUSY a)) as (s' & Hrun & Ha' & Hi' & Hb%beside_rwlocks);
    [done|done|by eapply try_held|by left|].
  exists s', (lock_errno EBUSY a). split_and!; [|split; try done; rewrite Hb; by exists y|done|by rewrite <- (lr_errno _ _ Ha')|done].
  unfold rwlock_write. by erewrite cbind_ret by exact Hrun.
Qed.

Lemma write_free fuel s a l rd rw :
  rw_repr s a l rd rw RwIdle → outcome (rwlock_write fuel l rw true NULL) s a l rd rw (true, 0, RwWriting (lk_cur a)).
Proof.
  intros Hr. destruct (rr_lock _ _ _ _ _ _ Hr) as (y & Hy & Hini & Hrd & Hrw & Hx1 & Hx2).
  destruct Hr as [Ha Hi Hc Hfree Hn1 Hn2 Hne _].
  destruct (take_free a rw Hn2 Hx1 Hc) as (a' & Hsp & Hm & Hcur & Herr & Hheld).
  destruct (acquire_run fuel rw true s a true a') as (s' & Hrun & Ha' & Hi' & Hb%beside_rwlocks); [done..|by left|].
  eexists _, a'. split_and!; [| |done|done|done].
  - unfold rwlock_write. erewrite cbind_ret by exact Hrun. cbn [negb].
    erewrite cbind_atom by (eapply strw_run; by rewrite Hb). reflexivity.
  - split; try done; [by apply lock_repr_rwlocks|rewrite Hcur; by apply Hheld|by rewrite Hm, lookup_insert_ne|].
    eexists. split; [by apply load_rwlocks_alter; rewrite Hb|]. split_and!; try done. cbn. rewrite Hm.
    split_and!; [apply lookup_insert_eq|done..].
Qed.

Lemma try_write_run fuel s a l rd rw x r :
  rw_repr s a l rd rw x → rw_spec (lk_cur a) RwTryWrite x = Some r →
  outcome (pth_rwlock_acquire fuel l PTH_RWLOCK_RW true NULL) s a l rd rw r.
Proof.
  intros Hr Hs. unfold outcome. rewrite (acquire_head fuel _ _ _ _ _ _ _ Hr). change (PTH_RWLOCK_RW =? PTH_RWLOCK_RW) with true.
  cbn iota. destruct (rr_lock _ _ _ _ _ _ Hr) as (y & Hy & Hini & Hrd & Hrw & Hx). destruct x as [|n f|w]; simpl in Hs.
  - injection Hs as <-. by apply write_free.
  - destruct (decide (f = lk_cur a)); [done|]. injection Hs as <-. by apply (write_busy fuel _ _ _ _ _ _ f Hr); [apply Hx|].
  - destruct (decide (w = lk_cur a)); [done|]. injection Hs as <-. by apply (write_busy fuel _ _ _ _ _ _ w Hr); [apply Hx|].
Qed.

(** Inside of a reader's operation: the current thread holds [rd], the lock's members
    are [y] and the mutex for writing is in state [w]. *)
Record inside s a l (rd rw : N) (y : pth_rwlock) (w : mstate) : Prop := {
  in_locks : lock_repr s a;
  in_inv : lock_inv a;
  in_cur : is_Some (lk_held a !! lk_cur a);
  in_rd : lk_mx a !! rd = Some (MHeld (lk_cur a) 1);
  in_rdnn : rd ≠ NULL;
  in_rwnn : rw ≠ NULL;
  in_ne : rd ≠ rw;
  in_rw : lk_mx a !! rw = Some w;
  in_lock : load (rwlocks s) l = Some y;
}.
(** The threads of the table stay, and the current one. *)
Definition onward a a' : Prop := lk_cur a' = lk_cur a ∧ ∀ t, is_Some (lk_held a !! t) → is_Some (lk_held a' !! t).

#[local] Instance onward_trans : Transitive onward.
Proof. intros a1 a2 a3 [? H1] [? H2]. split; [congruence|auto]. Qed.

Lemma changed_onward m x a a' : changed m x a a' → onward a a'.
Proof. intros (_ & ? & _ & ?). by split. Qed.

Lemma enter fuel b s a l rd rw x y w :
  rw_repr s a l rd rw x → load (rwlocks s) l = Some y → lk_mx a !! rw = Some w →
  ∃ s1 a1, pth_mutex_acquire fuel rd b NULL s = ORet true s1 ∧ inside s1 a1 l rd rw y w ∧ onward a a1 ∧ errno s1 = errno s.
Proof.
  intros [Ha Hi Hc Hfree Hn1 Hn2 Hne _] Hy Hw. destruct (take_free a rd Hn1 Hfree Hc) as (a1 & Hsp & Hch).
  destruct (acquire_run fuel rd b s a true a1) as (s1 & Hrun & Ha1 & Hi1 & Hb%beside_rwlocks); [done..|by right|].
  pose proof (changed_onward _ _ _ _ Hch) as Hon. destruct Hch as (Hm & Hcur & Herr & Hheld). exists s1, a1.
  split_and!; [done| |done|by rewrite <- (lr_errno _ _ Ha1), <- (lr_errno _ _ Ha)].
  split; try done; [rewrite Hcur; by apply Hheld|by rewrite Hcur, Hm, lookup_insert_eq|by rewrite Hm, lookup_insert_ne|by rewrite Hb].
Qed.

Lemma inside_set s a l rd rw y w g : inside s a l rd rw y w → inside (set_rwlocks (alter g l) s) a l rd rw (g y) w.
Proof. intros []. split; try done; [by apply lock_repr_rwlocks|by apply load_rwlocks_alter]. Qed.

Lemma inside_take fuel s a l rd rw y :
  inside s a l rd rw y MFree →
  ∃ s1 a1, pth_mutex_acquire fuel rw true NULL s = ORet true s1 ∧ inside s1 a1 l rd rw y (MHeld (lk_cur a) 1) ∧ onward a a1.
Proof.
  intros [Ha Hi Hc Hrd Hn1 Hn2 Hne Hrw Hy]. destruct (take_free a rw Hn2 Hrw Hc) as (a1 & Hsp & Hch).
  destruct (acquire_run fuel rw true s a true a1) as (s1 & Hrun & Ha1 & Hi1 & Hb%beside_rwlocks); [done..|by left|].
  pose proof (changed_onward _ _ _ _ Hch) as Hon. destruct Hch as (Hm & Hcur & Herr & Hheld). exists s1, a1.
  split_and!; [done| |done].
  split; try done; [rewrite Hcur; by apply Hheld|by rewrite Hcur, Hm, lookup_insert_ne|by rewrite Hm, lookup_insert_eq|by rewrite Hb].
Qed.

Lemma inside_busy fuel s a l rd rw y o :
  inside s a l rd rw y (MHeld o 1) → o ≠ lk_cur a →
  ∃ s1 a1, pth_mutex_acquire fuel rw true NULL s = ORet false s1 ∧ inside s1 a1 l rd rw y (MHeld o 1) ∧ onward a a1 ∧ errno s1 = EBUSY.
Proof.
  intros [Ha Hi Hc Hrd Hn1 Hn2 Hne Hrw Hy] Ho.
  destruct (acquire_run fuel rw true s a false (lock_errno EBUSY a)) as (s1 & Hrun & Ha1 & Hi1 & Hb%beside_rwlocks);
    [done|done|by eapply try_held|by left|].
  exists s1, (lock_errno EBUSY a). split_and!; [done|split; try done; by rewrite Hb|done|by rewrite <- (lr_errno _ _ Ha1)].
Qed.

(** The last statement: [rd] is released, under the protection of [errno] or not. *)
Lemma leave s a l rd rw y w x (shield : bool) :
  inside s a l rd rw y w → has (rw_state y) PTH_RWLOCK_INITIALIZED = true → rw_mutex_rd y = rd → rw_mutex_rw y = rw →
  match x with
  | RwIdle => w = MFree ∧ rw_readers y = 0
  | RwReading n f => w = MHeld f 1 ∧ rw_readers y = n ∧ 1 ≤ n < 18446744073709551616 ∧ rw_mode y = PTH_RWLOCK_RD
  | RwWriting o => w = MHeld o 1 ∧ rw_readers y = 0 ∧ rw_mode y = PTH_RWLOCK_RW
  end →
  ∃ s1 a1, (if shield then pth_shield (do _ <- pth_mutex_release rd; ret tt) else do _ <- pth_mutex_release rd; ret tt) s = Some (tt, s1) ∧
    rw_repr s1 a1 l rd rw x ∧ onward a a1 ∧ errno s1 = errno s.
Proof.
  intros [Ha Hi Hc Hrd Hn1 Hn2 Hne Hrw Hy] Hini Hyd Hyw Hx.
  assert (∃ s1 a1, (if shield then pth_shield (do _ <- pth_mutex_release rd; ret tt) else do _ <- pth_mutex_release rd; ret tt) s = Some (tt, s1) ∧
    lock_repr s1 a1 ∧ lock_inv a1 ∧ rwlocks s1 = rwlocks s ∧ changed rd MFree a a1) as (s1 & a1 & Hrun & Ha1 & Hi1 & Hb & Hch).
  { destruct shield; [by apply shield_release|].
    destruct (release_rd s a rd Ha Hi Hn1 Hrd Hc) as (s1 & a1 & Hrun & Ha1 & Hi1 & Hb%beside_rwlocks & Hch).
    exists s1, a1. split_and!; try done. by erewrite bind_run by exact Hrun. }
  pose proof (changed_onward _ _ _ _ Hch) as Hon. destruct Hch as (Hm & Hcur & Herr & Hheld). exists s1, a1.
  split_and!; [done| |done|by rewrite <- (lr_errno _ _ Ha1), <- (lr_errno _ _ Ha)].
  split; try done; [rewrite Hcur; by apply Hheld|by rewrite Hm, lookup_insert_eq|]. exists y. rewrite Hb. split_and!; try done.
  rewrite Hm, lookup_insert_ne by done. destruct x; naive_solver.
Qed.

Lemma release_then {A} rd s s1 (v : A) :
  (do _ <- pth_mutex_release rd; ret tt) s = Some (tt, s1) → (do! _ <- atom (pth_mutex_release rd); cret v) s = ORet v s1.
Proof. unfold bind, cbind, atom. destruct (pth_mutex_release rd s) as [[b s2]|]; [|done]. intros [= ->]. done. Qed.

Lemma u64_id z : 0 ≤ z < 18446744073709551616 → u64 z = z.
Proof. intros. unfold u64. by apply Z.mod_small. Qed.

Lemma try_read_run fuel s a l rd rw x r :
  rw_repr s a l rd rw x → rw_spec (lk_cur a) RwTryRead x = Some r →
  outcome (pth_rwlock_acquire fuel l PTH_RWLOCK_RD true NULL) s a l rd rw r.
Proof.
  intros Hr Hs. unfold outcome. rewrite (acquire_head fuel _ _ _ _ _ _ _ Hr). change (PTH_RWLOCK_RD =? PTH_RWLOCK_RW) with false.
  cbn iota. destruct (rr_lock _ _ _ _ _ _ Hr) as (y & Hy & Hini & Hrd & Hrw & Hx). unfold rwlock_read.
  assert (∃ w, lk_mx a !! rw = Some w) as [w Hw] by (destruct x; eexists; apply Hx).
  destruct (enter fuel true _ _ _ _ _ _ _ _ Hr Hy Hw) as (s1 & a1 & H1 & Hin1 & Hon1 & He1).
  erewrite cbind_ret by exact H1. cbn [negb].
  pose proof (inside_set _ _ _ _ _ _ _ (set_rw_readers (λ n, u64 (n + 1))) Hin1) as Hin2.
  erewrite cbind_atom by (eapply strw_run, Hin1). erewrite cbind_atom by (eapply ldrw_run, Hin2).
  set (s2 := set_rwlocks _ s1) in *. change (rw_readers (set_rw_readers ?g y)) with (g (rw_readers y)). cbv beta.
  destruct x as [|n f|o]; simpl in Hs.
  - injection Hs as <-. destruct Hx as [Hx1 Hx2]. simplify_eq. rewrite Hx2 in *. change (u64 (0 + 1)) with 1. cbn [Z.eqb].
    destruct (inside_take fuel _ _ _ _ _ _ Hin2) as (s3 & a3 & H3 & Hin3 & Hon3).
    erewrite cbind_ret by exact H3. cbn [negb].
    pose proof (inside_set _ _ _ _ _ _ _ (set_rw_mode PTH_RWLOCK_RD) Hin3) as Hin4.
    erewrite cbind_atom by (eapply strw_run, Hin3).
    destruct (leave _ _ _ _ _ _ _ (RwReading 1 (lk_cur a)) false Hin4) as (s5 & a5 & H5 & Hr5 & Hon5 & He5); [done..| |].
    { cbn. rewrite Hx2, (proj1 Hon1). split_and!; try done; lia. }
    exists s5, a5. assert (onward a a5) as [Hc5 Hh5] by (etrans; [exact Hon1|etrans; [exact Hon3|exact Hon5]]).
    split_and!; [by apply (release_then _ _ _ _ H5)|done..].
  - destruct (decide _) as [Hn|]; [|done]. injection Hs as <-. destruct Hx as (Hx1 & Hx2 & Hx3 & Hx4). simplify_eq.
    rewrite u64_id by lia. rewrite (proj2 (Z.eqb_neq _ _)) by lia. erewrite cbind_ret by reflexivity. cbn [negb].
    pose proof (inside_set _ _ _ _ _ _ _ (set_rw_mode PTH_RWLOCK_RD) Hin2) as Hin4.
    erewrite cbind_atom by (eapply strw_run, Hin2).
    destruct (leave _ _ _ _ _ _ _ (RwReading (rw_readers y + 1) f) false Hin4) as (s5 & a5 & H5 & Hr5 & Hon5 & He5); [done..| |].
    { cbn. rewrite u64_id by lia. split_and!; try done; lia. }
    exists s5, a5. assert (onward a a5) as [Hc5 Hh5] by (etrans; [exact Hon1|exact Hon5]).
    split_and!; [by apply (release_then _ _ _ _ H5)|done..].
  - destruct (decide _) as [|Ho]; [done|]. injection Hs as <-. destruct Hx as (Hx1 & Hx2 & Hx3). simplify_eq. rewrite Hx2 in *.
    change (u64 (0 + 1)) with 1. cbn [Z.eqb].
    destruct (inside_busy fuel _ _ _ _ _ _ o Hin2) as (s3 & a3 & H3 & Hin3 & Hon3 & He3); [by rewrite (proj1 Hon1)|].
    erewrite cbind_ret by exact H3. cbn [negb].
    pose proof (inside_set _ _ _ _ _ _ _ (set_rw_readers (λ n, u64 (n - 1))) Hin3) as Hin4.
    erewrite cbind_atom by (eapply strw_run, Hin3).
    destruct (leave _ _ _ _ _ _ _ (RwWriting o) true Hin4) as (s5 & a5 & H5 & Hr5 & Hon5 & He5); [done..| |].
    { cbn. rewrite Hx2. by split_and!. }
    exists s5, a5. assert (onward a a5) as [Hc5 Hh5] by (etrans; [exact Hon1|etrans; [exact Hon3|exact Hon5]]).
    split_and!; [by erewrite cbind_atom by exact H5|done|done|by rewrite He5|done].
Qed.

Lemma release_head fuel s a l rd rw x y :
  rw_repr s a l rd rw x → load (rwlocks s) l = Some y →
  pth_rwlock_release fuel l s =
    (if rw_mode y =? PTH_RWLOCK_RW then do! ok <- atom (pth_mutex_release rw); cret ok else rwlock_unread fuel l rd rw) s.
Proof.
  intros Hr Hy. destruct (rr_lock _ _ _ _ _ _ Hr) as (y' & Hy' & Hini & Hrd & Hrw & _). simplify_eq. pose proof Hy as [Hl _]%load_Some.
  unfold pth_rwlock_release. rewrite is_null_false by done. erewrite cbind_atom by (by eapply ldrw_run). rewrite Hini. cbn [negb].
  do 3 (erewrite cbind_atom by (by eapply ldrw_run)). done.
Qed.

(** Leaving a write lock. *)
Lemma unwrite_run s a l rd rw w r :
  rw_repr s a l rd rw (RwWriting w) → rw_spec (lk_cur a) RwRelease (RwWriting w) = Some r →
  outcome (do! ok <- atom (pth_mutex_release rw); cret ok) s a l rd rw r.
Proof.
  intros Hr Hs. destruct (rr_lock _ _ _ _ _ _ Hr) as (y & Hy & Hini & Hrd & Hrw & Hx1 & Hx2 & Hx3).
  destruct Hr as [Ha Hi Hc Hfree Hn1 Hn2 Hne _]. simpl in Hs. destruct (decide (w = lk_cur a)) as [->|Ho]; injection Hs as <-.
  - destruct (drop_own a rw Hn2 Hx1 Hc) as (a1 & Hsp & Hm & Hcur & Herr & Hheld).
    destruct (release_run rw s a true a1 Ha Hi Hsp) as (s1 & Hrun & Ha1 & Hi1 & Hb%beside_rwlocks).
    exists s1, a1. split_and!; [by erewrite cbind_atom by exact Hrun| |done|done|done].
    split; try done; [rewrite Hcur; by apply Hheld|by rewrite Hm, lookup_insert_ne|]. exists y. rewrite Hb. split_and!; try done.
    cbn. rewrite Hm. split; [apply lookup_insert_eq|done].
  - destruct (release_run rw s a false (lock_errno EACCES a) Ha Hi) as (s1 & Hrun & Ha1 & Hi1 & Hb%beside_rwlocks);
      [by eapply release_other|].
    exists s1, (lock_errno EACCES a). split_and!; [by erewrite cbind_atom by exact Hrun| |done|by rewrite <- (lr_errno _ _ Ha1)|done].
    split; try done. exists y. rewrite Hb. by split_and!.
Qed.

Lemma inside_drop s a l rd rw y :
  inside s a l rd rw y (MHeld (lk_cur a) 1) →
  ∃ s1 a1, pth_mutex_release rw s = Some (true, s1) ∧ inside s1 a1 l rd rw y MFree ∧ onward a a1.
Proof.
  intros [Ha Hi Hc Hrd Hn1 Hn2 Hne Hrw Hy]. destruct (drop_own a rw Hn2 Hrw Hc) as (a1 & Hsp & Hch).
  destruct (release_run rw s a true a1 Ha Hi Hsp) as (s1 & Hrun & Ha1 & Hi1 & Hb%beside_rwlocks).
  pose proof (changed_onward _ _ _ _ Hch) as Hon. destruct Hch as (Hm & Hcur & Herr & Hheld). exists s1, a1.
  split_and!; [done| |done].
  split; try done; [rewrite Hcur; by apply Hheld|by rewrite Hcur, Hm, lookup_insert_ne|by rewrite Hm, lookup_insert_eq|by rewrite Hb].
Qed.

Lemma inside_foreign s a l rd rw y o :
  inside s a l rd rw y (MHeld o 1) → o ≠ lk_cur a →
  ∃ s1 a1, pth_mutex_release rw s = Some (false, s1) ∧ inside s1 a1 l rd rw y (MHeld o 1) ∧ onward a a1 ∧ errno s1 = EACCES.
Proof.
  intros [Ha Hi Hc Hrd Hn1 Hn2 Hne Hrw Hy] Ho.
  destruct (release_run rw s a false (lock_errno EACCES a) Ha Hi) as (s1 & Hrun & Ha1 & Hi1 & Hb%beside_rwlocks);
    [by eapply release_other|].
  exists s1, (lock_errno EACCES a). split_and!; [done|split; try done; by rewrite Hb|done|by rewrite <- (lr_errno _ _ Ha1)].
Qed.

(** Leaving a read lock. *)
Lemma unread_run fuel s a l rd rw n f r :
  rw_repr s a l rd rw (RwReading n f) → rw_spec (lk_cur a) RwRelease (RwReading n f) = Some r →
  outcome (rwlock_unread fuel l rd rw) s a l rd rw r.
Proof.
  intros Hr Hs. destruct (rr_lock _ _ _ _ _ _ Hr) as (y & Hy & Hini & Hrd & Hrw & Hx1 & Hx2 & Hx3 & Hx4). unfold rwlock_unread, outcome.
  destruct (enter fuel false _ _ _ _ _ _ _ _ Hr Hy Hx1) as (s1 & a1 & H1 & Hin1 & Hon1 & He1).
  erewrite cbind_ret by exact H1. cbn [negb].
  pose proof (inside_set _ _ _ _ _ _ _ (set_rw_readers (λ n, u64 (n - 1))) Hin1) as Hin2.
  erewrite cbind_atom by (eapply strw_run, Hin1). erewrite cbind_atom by (eapply ldrw_run, Hin2).
  set (s2 := set_rwlocks _ s1) in *. change (rw_readers (set_rw_readers ?g y)) with (g (rw_readers y)). cbv beta.
  rewrite Hx2, u64_id by lia. simpl in Hs. destruct (decide (n = 1)) as [Hn|Hn].
  - rewrite Hn in *. change (1 - 1 =? 0) with true. cbn iota. destruct (decide (f = lk_cur a)) as [->|Hf]; injection Hs as <-.
    + rewrite <- (proj1 Hon1) in Hin2.
      destruct (inside_drop _ _ _ _ _ _ Hin2) as (s3 & a3 & H3 & Hin3 & Hon3).
      erewrite cbind_ret by (by erewrite atom_run by exact H3). cbn [negb].
      pose proof (inside_set _ _ _ _ _ _ _ (set_rw_mode PTH_RWLOCK_RD) Hin3) as Hin4.
      erewrite cbind_atom by (eapply strw_run, Hin3).
      destruct (leave _ _ _ _ _ _ _ RwIdle false Hin4) as (s5 & a5 & H5 & Hr5 & Hon5 & He5); [done..| |].
      { cbn. rewrite Hx2. done. }
      exists s5, a5. assert (onward a a5) as [Hc5 Hh5] by (etrans; [exact Hon1|etrans; [exact Hon3|exact Hon5]]).
      split_and!; [by apply (release_then _ _ _ _ H5)|done..].
    + destruct (inside_foreign _ _ _ _ _ _ f Hin2) as (s3 & a3 & H3 & Hin3 & Hon3 & He3); [by rewrite (proj1 Hon1)|].
      erewrite cbind_ret by (by erewrite atom_run by exact H3). cbn [negb].
      pose proof (inside_set _ _ _ _ _ _ _ (set_rw_readers (λ n, u64 (n + 1))) Hin3) as Hin4.
      erewrite cbind_atom by (eapply strw_run, Hin3).
      destruct (leave _ _ _ _ _ _ _ (RwReading 1 f) true Hin4) as (s5 & a5 & H5 & Hr5 & Hon5 & He5); [done..| |].
      { cbn. rewrite Hx2. split_and!; try done; lia. }
      exists s5, a5. assert (onward a a5) as [Hc5 Hh5] by (etrans; [exact Hon1|etrans; [exact Hon3|exact Hon5]]).
      split_and!; [by erewrite cbind_atom by exact H5|done|done|by rewrite He5|done].
  - injection Hs as <-. rewrite (proj2 (Z.eqb_neq _ _)) by lia. erewrite cbind_ret by reflexivity. cbn [negb].
    pose proof (inside_set _ _ _ _ _ _ _ (set_rw_mode PTH_RWLOCK_RD) Hin2) as Hin4.
    erewrite cbind_atom by (eapply strw_run, Hin2).
    destruct (leave _ _ _ _ _ _ _ (RwReading (n - 1) f) false Hin4) as (s5 & a5 & H5 & Hr5 & Hon5 & He5); [done..| |].
    { cbn. rewrite Hx2, u64_id by lia. split_and!; try done; lia. }
    exists s5, a5. assert (onward a a5) as [Hc5 Hh5] by (etrans; [exact Hon1|exact Hon5]).
    split_and!; [by apply (release_then _ _ _ _ H5)|done..].
Qed.

(** ** Sequences of operations *)

(** One operation, with the error number it leaves on failure. *)
Definition rw_exec fuel l (op : rw_op) : coro (bool * Z) :=
  do! ok <- match op with
            | RwTryRead => pth_rwlock_acquire fuel l PTH_RWLOCK_RD true NULL
            | RwTryWrite => pth_rwlock_acquire fuel l PTH_RWLOCK_RW true NULL
            | RwRelease => pth_rwlock_release fuel l
            | RwSwitch t => atom (modify (set_pth_current (λ _, t)) ;; ret true)
            end;
  do! e <- atom (gets errno);
  cret (ok, if ok then 0 else e).

Fixpoint rw_exec_all fuel l (ops : list rw_op) : coro (list (bool * Z)) :=
  match ops with
  | [] => cret []
  | op :: ops' => do! r <- rw_exec fuel l op; do! rs <- rw_exec_all fuel l ops'; cret (r :: rs)
  end.

Fixpoint rw_spec_all (ops : list rw_op) (t : N) (x : rwstate) : option (list (bool * Z) * (N * rwstate)) :=
  match ops with
  | [] => Some ([], (t, x))
  | RwSwitch t' :: ops' => '(rs, x') ← rw_spec_all ops' t' x; Some ((true, 0) :: rs, x')
  | op :: ops' => '(ok, e, x1) ← rw_spec t op x; '(rs, x') ← rw_spec_all ops' t x1; Some ((ok, e) :: rs, x')
  end.

(** The threads that take turns are threads of the lock table. *)
Definition known_threads a (ops : list rw_op) : Prop := ∀ t, RwSwitch t ∈ ops → is_Some (lk_held a !! t).

Lemma rw_spec_ok t op x e x' : rw_spec t op x = Some (true, e, x') → e = 0.
Proof. destruct op, x; simpl; repeat case_decide; intros Heq; by simplify_eq. Qed.

Lemma rw_spec_cons op ops t x :
  (∀ u, op ≠ RwSwitch u) →
  rw_spec_all (op :: ops) t x =
    '(ok, e, x1) ← rw_spec t op x; '(rs, x') ← rw_spec_all ops t x1; Some ((ok, e) :: rs, x').
Proof. intros Hns. destruct op as [| | |u]; [done..|by destruct (Hns u)]. Qed.

Lemma rw_op_run fuel s a l rd rw x op r :
  rw_repr s a l rd rw x → rw_spec (lk_cur a) op x = Some r →
  ∃ s' a', rw_exec fuel l op s = ORet r.1 s' ∧ rw_repr s' a' l rd rw r.2 ∧ onward a a'.
Proof.
  intros Hr Hs. assert (∃ c, outcome c s a l rd rw r ∧
    rw_exec fuel l op = do! ok <- c; do! e <- atom (gets errno); cret (ok, if ok then 0 else e)) as (c & Hout & ->).
  { destruct op as [| | |t]; [eexists; split; [by eapply try_read_run|done]|eexists; split; [by eapply try_write_run|done]| |done].
    eexists; split; [|done]. destruct (rr_lock _ _ _ _ _ _ Hr) as (y & Hy & _ & _ & _ & Hx). unfold outcome.
    rewrite (release_head fuel _ _ _ _ _ _ y Hr Hy).
    destruct x as [|n f|w]; [done| |].
    - destruct Hx as (_ & _ & _ & ->). by apply (unread_run fuel _ _ _ _ _ _ _ _ Hr).
    - destruct Hx as (_ & _ & ->). by apply (unwrite_run _ _ _ _ _ _ _ Hr). }
  destruct r as [[ok e] x'], Hout as (s' & a' & Hrun & Hr' & Hc & He & Hh). exists s', a'. split_and!; [|done..].
  erewrite cbind_ret by exact Hrun. erewrite cbind_atom by done. simpl. destruct ok; [by rewrite (rw_spec_ok _ _ _ _ _ Hs)|].
  by rewrite He.
Qed.

Lemma rw_switch_run fuel s a l rd rw x t :
  rw_repr s a l rd rw x → is_Some (lk_held a !! t) →
  ∃ s' a', rw_exec fuel l (RwSwitch t) s = ORet (true, 0) s' ∧ rw_repr s' a' l rd rw x ∧ lk_cur a' = t ∧ lk_held a' = lk_held a.
Proof.
  intros [Ha Hi Hc Hf Hn1 Hn2 Hne Hl] Ht.
  exists (set_pth_current (λ _, t) s), (Locks (lk_mx a) (lk_held a) t (lk_errno a)). split_and!; [done| |done..].
  split; try done; [by destruct Ha|by destruct Hi].
Qed.

(** C16: A read-write lock implements the abstract lock [rw_spec], for every sequence of
    attempts to lock it for reading or writing and of releases by any threads: readers
    share it, a writer excludes all others, attempts on a busy lock fail with [EBUSY],
    and releases by threads that do not hold it for writing fail with [EACCES].  It also
    shows where the lock departs from what it is for: the last reader to leave gets
    [EACCES], and the lock stays held for reading, unless it was the first to enter. *)
Theorem rwlock_refinement fuel ops s a l rd rw x rs t' x' :
  rw_repr s a l rd rw x → known_threads a ops → rw_spec_all ops (lk_cur a) x = Some (rs, (t', x')) →
  ∃ s' a', rw_exec_all fuel l ops s = ORet rs s' ∧ rw_repr s' a' l rd rw x' ∧ lk_cur a' = t'.
Proof.
  revert s a x rs. induction ops as [|op ops IH]; intros s a x rs Hr Hk Hs; [simpl in Hs; simplify_eq; by exists s, a|].
  assert (∀ a1, (∀ t, is_Some (lk_held a !! t) → is_Some (lk_held a1 !! t)) → known_threads a1 ops) as Hk1.
  { intros a1 Ha1 t Ht. apply Ha1, Hk. by right. }
  assert (∃ r s1 a1 x1 rs1, rw_exec fuel l op s = ORet r s1 ∧ rw_repr s1 a1 l rd rw x1 ∧ known_threads a1 ops ∧
    rw_spec_all ops (lk_cur a1) x1 = Some (rs1, (t', x')) ∧ rs = r :: rs1)
    as (r & s1 & a1 & x1 & rs1 & H1 & Hr1 & Hk1' & Hs1 & ->).
  { assert ((∃ t, op = RwSwitch t) ∨ ∀ t, op ≠ RwSwitch t) as [[t ->]|Hns] by (destruct op; eauto).
    - destruct (rw_switch_run fuel _ _ _ _ _ _ t Hr) as (s1 & a1 & H1 & Hr1 & Hc1 & Hh1); [apply Hk; by left|].
      simpl in Hs. destruct (rw_spec_all ops t x) as [[rs1 [u y]]|] eqn:Hs1; simpl in Hs; [|done]. simplify_eq.
      exists (true, 0), s1, a1, x, rs1. split_and!; try done. apply Hk1. by rewrite Hh1.
    - rewrite rw_spec_cons in Hs by done. destruct (rw_spec (lk_cur a) op x) as [[[ok e] x1]|] eqn:Hsp; simpl in Hs; [|done].
      destruct (rw_spec_all ops (lk_cur a) x1) as [[rs1 [u y]]|] eqn:Hs1; simpl in Hs; [|done]. simplify_eq.
      destruct (rw_op_run fuel _ _ _ _ _ _ _ _ Hr Hsp) as (s1 & a1 & H1 & Hr1 & Hc1 & Hh1).
      exists (ok, e), s1, a1, x1, rs1. split_and!; try done; [by apply Hk1|by rewrite Hc1]. }
  destruct (IH _ _ _ _ Hr1 Hk1' Hs1) as (s2 & a2 & H2 & Hr2 & Hc2). exists s2, a2. split_and!; [|done..].
  simpl. erewrite cbind_ret by exact H1. by erewrite cbind_ret by exact H2.
Qed.

End proofs.

(** ** An example: two readers, the first of which leaves first *)
Definition toy_rwlock_state : @St toy_kernel :=
  set_rwlocks (λ _, {[ 60%N := Rwlock PTH_RWLOCK_INITIALIZED 0 0 50 51 ]})
    (set_mutexes (λ _, list_to_map [(50%N, Mutex 1 0 0); (51%N, Mutex 1 0 0)]) toy_locks_state).
Definition toy_rwlocks : locks :=
  Locks (list_to_map [(50%N, MFree); (51%N, MFree)]) (list_to_map [(100%N, []); (99%N, [])]) 100 0.
Definition toy_rw_ops : list rw_op :=
  [RwTryWrite; RwSwitch 99; RwTryRead; RwRelease; RwSwitch 100; RwRelease;
   RwTryRead; RwSwitch 99; RwTryWrite; RwTryRead; RwSwitch 100; RwRelease; RwSwitch 99; RwRelease; RwSwitch 100; RwRelease].

Lemma toy_rw_repr : rw_repr toy_rwlock_state toy_rwlocks 60 50 51 RwIdle.
Proof.
  destruct toy_locks_repr as [[Hm Hr Hn Hc He] [Hi1 Hi2]]. split; try done.
  - split.
    + intros t l m Hl Hin. exfalso. destruct (Hi1 t l m Hl Hin) as (c & Hx & _). revert Hx. unfold toy_locks. cbn [lk_mx list_to_map foldr uncurry fst snd].
      intros [[_ ?]|[_ [[_ ?]|[_ ?]]%lookup_insert_Some]]%lookup_insert_Some; done.
    + intros m t c. unfold toy_rwlocks. cbn [lk_mx list_to_map foldr uncurry fst snd].
      intros [[_ ?]|[_ [[_ ?]|[_ ?]]%lookup_insert_Some]]%lookup_insert_Some; done.
  - eexists. split; [reflexivity|]. by split_and!.
Qed.

Lemma rwlock_refinement_witness :
  ∃ s' a', @rw_exec_all toy_kernel toy_knot 1 60 toy_rw_ops toy_rwlock_state =
    ORet [(true, 0); (true, 0); (false, EBUSY); (false, EACCES); (true, 0); (true, 0);
          (true, 0); (true, 0); (false, EBUSY); (true, 0); (true, 0); (true, 0); (true, 0); (false, EACCES); (true, 0); (true, 0)] s' ∧
    rw_repr s' a' 60 50 51 RwIdle.
Proof.
  destruct (@rwlock_refinement toy_kernel toy_knot 1 toy_rw_ops toy_rwlock_state toy_rwlocks 60 50 51 RwIdle
    [(true, 0); (true, 0); (false, EBUSY); (false, EACCES); (true, 0); (true, 0);
     (true, 0); (true, 0); (false, EBUSY); (true, 0); (true, 0); (true, 0); (true, 0); (false, EACCES); (true, 0); (true, 0)]
    100 RwIdle toy_rw_repr) as (s' & a' & Hs & Hr & _).
  - intros t Ht. unfold toy_rw_ops in Ht. repeat (apply elem_of_cons in Ht as [Ht|Ht]; [simplify_eq; by eexists|]). by apply elem_of_nil in Ht.
  - by vm_compute.
  - exists s', a'. split; [exact Hs|exact Hr].
Defined.
