(* ===== verification/Pmutex.v ===== *)
(** * POSIX mutexes

A [pthread_mutex_t] of the program is a cell that points to a Pth mutex, or [NULL]
while it was only initialised statically; every operation creates the mutex on first
use.  [posix] is what the program sees: for every cell whether it is free or who holds
it how often.  The refinement theorem says that the operations of pthread.c implement
this table, the lazy creation being invisible, and which error numbers they return. *)
From S2P Require Import State Data Sys Event Tcb Sync Sched Msg Lib High Locks Rwlocks Pthread.

Record posix := Posix { px_mx : gmap N mstate; px_cur : N }.
Inductive px_op := PxInit (c : N) | PxLock (c : N) | PxTry (c : N) | PxUnlock (c : N) | PxSwitch (t : N).

Definition px_set (c : N) (v : mstate) (x : posix) : posix := Posix (<[c := v]> (px_mx x)) (px_cur x).

(** The error number that is returned, and the new table; [None] where the call would
    wait, where a mutex is initialised while it is held, and where a count overflows. *)
Definition px_spec (op : px_op) (x : posix) : option (Z * posix) :=
  match op with
  | PxInit c =>
      if is_null c then Some (EINVAL, x) else
      v ← px_mx x !! c; match v with MFree => Some (0, px_set c MFree x) | _ => None end
  | PxLock c | PxTry c =>
      if is_null c then Some (EINVAL, x) else
      v ← px_mx x !! c;
      match v with
      | MFree => Some (0, px_set c (MHeld (px_cur x) 1) x)
      | MHeld o n =>
          if decide (o = px_cur x)
          then if decide (n + 1 < 18446744073709551616) then Some (0, px_set c (MHeld o (n + 1)) x) else None
          else match op with PxTry _ => Some (EBUSY, x) | _ => None end
      | MUninit => None
      end
  | PxUnlock c =>
      if is_null c then Some (EINVAL, x) else
      v ← px_mx x !! c;
      match v with
      | MFree => Some (EDEADLK, x)
      | MHeld o n =>
          if decide (o = px_cur x)
          then Some (0, px_set c (if decide (n = 1) then MFree else MHeld o (n - 1)) x)
          else Some (EACCES, x)
      | MUninit => None
      end
  | PxSwitch t => Some (0, Posix (px_mx x) t)
  end.

Fixpoint px_spec_all (ops : list px_op) (x : posix) : option (list Z * posix) :=
  match ops with
  | [] => Some ([], x)
  | op :: ops' => '(e, x1) ← px_spec op x; '(es, x2) ← px_spec_all ops' x1; Some (e :: es, x2)
  end.

Section proofs.
Context {Kern : Kernel} {Kn : Knot}.
Implicit Types (s : St) (a : locks) (x : posix) (c m : N) (v : mstate).

Definition px_exec (fuel : nat) (op : px_op) : coro Z :=
  match op with
  | PxInit c => pthread_mutex_init c
  | PxLock c => pthread_mutex_lock fuel c
  | PxTry c => pthread_mutex_trylock fuel c
  | PxUnlock c => pthread_mutex_unlock c
  | PxSwitch t => atom (modify (set_pth_current (λ _, t)) ;; ret 0)
  end.
Fixpoint px_exec_all (fuel : nat) (ops : list px_op) : coro (list Z) :=
  match ops with
  | [] => cret []
  | op :: ops' => do! e <- px_exec fuel op; do! es <- px_exec_all fuel ops'; cret (e :: es)
  end.

(** ** The representation *)

(** The cell [c] stands for a mutex in state [v]: it is [NULL] and the mutex free, or it
    points to such a mutex. *)
Definition cell_is s a c v : Prop :=
  ∃ p, load (ptrs (usr s)) c = Some p ∧ if decide (p = NULL) then v = MFree else lk_mx a !! p = Some v.

Record px_repr s a x (T : list N) : Prop := {
  px_locks : lock_repr s a;
  px_inv : lock_inv a;
  px_thr t : t ∈ T → is_Some (lk_held a !! t);
  px_run : lk_cur a ∈ T;
  px_same : px_cur x = lk_cur a;
  px_ini : pthread_initialized (usr s) = true;
  px_cell c v : px_mx x !! c = Some v → cell_is s a c v;
  px_inj c c' v v' p : px_mx x !! c = Some v → px_mx x !! c' = Some v' →
    load (ptrs (usr s)) c = Some p → load (ptrs (usr s)) c' = Some p → p ≠ NULL → c = c';
  px_fresh m : m ∈ dom (lk_mx a) → (m < brk s)%N;
  px_brk : brk s ≠ NULL
}.

(** ** A new mutex *)
Lemma lock_repr_new s a m :
  lock_repr s a → lock_inv a → m ≠ NULL → lk_mx a !! m = None →
  lock_repr (set_rnodes (<[m := raw_node]>) (set_mutexes (<[m := Mutex 0 NULL 0]>) s)) (lock_mx m MUninit a).
Proof.
  intros [Hmx Hr Hn Hc He] Hi Hm Hnew. split; [| | |done|done].
  - cbn. rewrite fmap_insert, Hmx. done.
  - intros t l Hl. destruct (Hr t l Hl) as (n & Hn' & Hrr). exists n. split; [done|]. eapply rrepr_frame; [exact Hrr|].
    intros z Hz. cbn. rewrite lookup_insert_ne; [done|]. intros <-. destruct (li_owner _ Hi t l m Hl Hz) as (? & ? & _). congruence.
  - intros y. cbn. rewrite dom_insert_L. intros [->%elem_of_singleton|Hy]%elem_of_union Hnz.
    + exists raw_node. apply load_Some. by rewrite lookup_insert_eq.
    + destruct (Hn y Hy Hnz) as [z [_ Hz]%load_Some]. destruct (decide (y = m)) as [->|].
      * exists raw_node. apply load_Some. by rewrite lookup_insert_eq.
      * exists z. apply load_Some. by rewrite lookup_insert_ne.
Qed.

Lemma lock_repr_kern s a f : lock_repr s a → lock_repr (set_kern f s) a.
Proof. intros []. by split. Qed.
Lemma lock_repr_brk s a f : lock_repr s a → lock_repr (set_brk f s) a.
Proof. intros []. by split. Qed.
Lemma lock_repr_usr s a f : lock_repr s a → lock_repr (set_usr f s) a.
Proof. intros []. by split. Qed.

Lemma keeps_init m : keeps (pth_mutex_init m).
Proof. unfold pth_mutex_init. destruct (is_null m); [apply keeps_error|]. repeat (apply keeps_bind; [apply keeps_stm|intros _]). apply keeps_ret. Qed.

Lemma inv_new a m : lock_inv a → lk_mx a !! m = None → lock_inv (lock_mx m MFree a).
Proof.
  intros [H1 H2] Hm. split.
  - intros t l y Hl Hy. destruct (H1 t l y Hl Hy) as (n & Hn & Hr). exists n. split; [|done]. cbn. rewrite lookup_insert_ne; [done|].
    intros ->. congruence.
  - intros y t n. cbn. intros [[_ ?]|[_ Hy]]%lookup_insert_Some; [done|]. by apply (H2 y t n).
Qed.

Lemma cell_new s a c c0 v m (f : user → user) s' :
  cell_is s a c0 v → c0 ≠ c → lk_mx a !! m = None → ptrs (usr s') = alter (λ _, m) c (ptrs (usr s)) → cell_is s' (lock_mx m MFree a) c0 v.
Proof.
  intros (p & Hp & Hv) Hne Hm He. exists p. rewrite He. split; [by rewrite load_alter_ne|]. case_decide; [done|]. cbn.
  rewrite lookup_insert_ne; [done|]. intros ->. congruence.
Qed.

Lemma px_repr_new s a x T c m s' :
  px_repr s a x T → px_mx x !! c = Some MFree → m = brk s → lock_repr s' (lock_mx m MFree a) →
  usr s' = upd_ptrs (alter (λ _, m) c) (usr s) → (brk s < brk s')%N →
  px_repr s' (lock_mx m MFree a) x T ∧ load (ptrs (usr s')) c = Some m ∧ m ≠ NULL.
Proof.
  intros [Ha Hi HT Hrun Hsame Hini Hcell Hinj Hfresh Hbrk] Hc -> Ha' Hu Hb.
  assert (lk_mx a !! brk s = None) as Hnew.
  { destruct (lk_mx a !! brk s) eqn:E; [|done]. apply elem_of_dom_2, Hfresh in E. lia. }
  destruct (Hcell c _ Hc) as (p0 & Hp0 & _).
  assert (load (ptrs (usr s')) c = Some (brk s)) as Hc' by (rewrite Hu; by apply (load_alter_eq (ptrs (usr s)) (λ _, brk s) c p0)).
  assert (∀ c0, c0 ≠ c → load (ptrs (usr s')) c0 = load (ptrs (usr s)) c0) as Hother by (intros; rewrite Hu; by apply load_alter_ne).
  assert (∀ c0 v0, px_mx x !! c0 = Some v0 → load (ptrs (usr s)) c0 ≠ Some (brk s)) as Hno.
  { intros c0 v0 Hc0 Hl. destruct (Hcell _ _ Hc0) as (p & Hp & Hv). simplify_eq. rewrite decide_False in Hv by done. congruence. }
  split_and!; [|done|done]. split; [done|by apply inv_new|done|done|done|by rewrite Hu| | | |lia].
  - intros c0 v Hv. destruct (decide (c0 = c)) as [->|Hne].
    + simplify_eq. exists (brk s). split; [done|]. rewrite decide_False by done. apply lookup_insert_eq.
    + eapply (cell_new s a c c0 v (brk s) id); [by apply Hcell|done|done|by rewrite Hu].
  - intros c1 c2 v1 v2 p Hc1 Hc2. destruct (decide (c1 = c)) as [->|H1], (decide (c2 = c)) as [->|H2]; [done|..].
    + rewrite Hc', Hother by done. intros [= <-] Hp. by destruct (Hno _ _ Hc2).
    + rewrite Hc', Hother by done. intros Hp [= <-]. by destruct (Hno _ _ Hc1).
    + rewrite !Hother by done. by apply (Hinj c1 c2 v1 v2).
  - intros y. cbn. rewrite dom_insert_L. intros [->%elem_of_singleton|Hy%Hfresh]%elem_of_union; lia.
Qed.

Lemma init_run s a x T c :
  mem_ok → px_repr s a x T → px_mx x !! c = Some MFree → c ≠ NULL →
  ∃ s' a' p, pthread_mutex_init c s = ORet OK s' ∧ px_repr s' a' x T ∧ load (ptrs (usr s')) c = Some p ∧ p ≠ NULL ∧ lk_cur a' = lk_cur a.
Proof.
  intros Hmem Hr Hc Hcn. pose proof Hr as [Ha Hi HT Hrun Hsame Hini Hcell Hinj Hfresh Hbrk].
  destruct (malloc_run sizeof_mutex s Hmem) as [k Hk]; [done|]. set (s1 := set_brk _ _) in Hk.
  assert (lk_mx a !! brk s = None) as Hnew.
  { destruct (lk_mx a !! brk s) eqn:E; [|done]. apply elem_of_dom_2, Hfresh in E. lia. }
  set (s2 := set_rnodes (<[brk s := raw_node]>) (set_mutexes (<[brk s := Mutex 0 NULL 0]>) s1)).
  assert (lock_repr s2 (lock_mx (brk s) MUninit a)) as Ha2 by (apply lock_repr_new; [by apply lock_repr_brk, lock_repr_kern|done..]).
  destruct (proj1 (wp_run _ _ _) (init_spec s2 _ (brk s) MUninit Ha2 (is_null_false _ Hbrk) (lookup_insert_eq _ _ _)))
    as (ok & s3 & H3 & -> & Ha3). rewrite lock_mx_twice in Ha3.
  pose proof (lockless_beside _ _ (keeps_init _ _ _ _ H3)) as Hb. unfold beside in Hb.
  assert (usr s3 = usr s) as Hu3 by (by simplify_eq). assert (brk s3 = (brk s + 1 + Z.to_N sizeof_mutex)%N) as Hb3 by (by simplify_eq).
  destruct (Hcell c _ Hc) as (p0 & Hp0 & _).
  set (s4 := set_usr (upd_ptrs (alter (λ _, brk s) c)) s3).
  destruct (px_repr_new s a x T c (brk s) s4 Hr Hc eq_refl) as (Hr4 & Hl4 & Hn4).
  { by apply lock_repr_usr. } { unfold s4. cbn. by rewrite Hu3. } { unfold s4. cbn. rewrite Hb3. lia. }
  exists s4, (lock_mx (brk s) MFree a), (brk s). split_and!; try done.
  unfold pthread_mutex_init, object_init. erewrite cbind_ret.
  2: { unfold pthread_initialize. erewrite cbind_atom by done. unfold compose. rewrite Hini. reflexivity. }
  rewrite is_null_false by done. erewrite cbind_atom.
  2: { unfold alloc_mutex. erewrite bind_run by exact Hk. rewrite is_null_false by done. unfold put_mutex. reflexivity. }
  rewrite is_null_false by done. erewrite cbind_atom by exact H3. cbn [negb].
  erewrite cbind_atom by (unfold stp, stu, st; cbn; rewrite Hu3, Hp0; reflexivity). reflexivity.
Qed.

Lemma object_run s a x T c v (k : N → coro Z) :
  mem_ok → px_repr s a x T → px_mx x !! c = Some v → c ≠ NULL →
  ∃ s' a' p, with_object c (pthread_mutex_init c) k s = k p s' ∧ px_repr s' a' x T ∧
    load (ptrs (usr s')) c = Some p ∧ p ≠ NULL ∧ lk_mx a' !! p = Some v.
Proof.
  intros Hmem Hr Hv Hcn. destruct (px_cell _ _ _ _ Hr c v Hv) as (p & Hp & Hpv). unfold with_object. rewrite is_null_false by done.
  erewrite cbind_atom by (unfold ldp, ldu, ld, compose; rewrite Hp; reflexivity). destruct (decide (p = NULL)) as [->|Hpn].
  - change (is_null (id NULL)) with true. cbn iota. subst v.
    destruct (init_run _ _ _ _ _ Hmem Hr Hv Hcn) as (s' & a' & p & Hrun & Hr' & Hl & Hn & _). exists s', a', p.
    destruct (px_cell _ _ _ _ Hr' c MFree Hv) as (p' & Hp' & Hpv'). simplify_eq. rewrite decide_False in Hpv' by done.
    split_and!; try done. erewrite cbind_ret by exact Hrun. cbn.
    by erewrite cbind_atom by (unfold ldp, ldu, ld, compose; rewrite Hl; reflexivity).
  - rewrite is_null_false by done. exists s, a, p. split_and!; try done. erewrite cbind_ret by reflexivity. cbn.
    by erewrite cbind_atom by (unfold ldp, ldu, ld, compose; rewrite Hp; reflexivity).
Qed.

(** ** The operations *)
Lemma mutex_try_false m s s' : mutex_try m true s = Some (Some true, s') → mutex_try m false s = Some (Some true, s').
Proof.
  unfold mutex_try, ldm, ld, gets. destruct (is_null m); [done|]. unfold bind. destruct (load (mutexes s) m) as [mx|]; [|done]. cbn.
  destruct (negb (has (mx_state mx) PTH_MUTEX_INITIALIZED)); [done|]. destruct (negb (has (mx_state mx) PTH_MUTEX_LOCKED)); [done|].
  unfold st. cbn. repeat case_match; intros; by simplify_eq.
Qed.

Lemma acquire_now fuel m b s a a' :
  lock_repr s a → lock_inv a → lock_spec (LTry m) a = Some (true, a') →
  ∃ s', pth_mutex_acquire fuel m b NULL s = ORet true s' ∧ lock_repr s' a' ∧ lock_inv a' ∧ beside s' = beside s.
Proof.
  intros Ha Hi Hs. destruct b; [by apply (acquire_run fuel m true s a); [..|left]|].
  pose proof (lock_exec_refines _ _ _ _ _ Ha Hi Hs) as (v' & s' & Hrun & -> & Ha')%wp_run.
  unfold lock_exec, bind in Hrun. destruct (mutex_try m true s) as [[[r|] s1]|] eqn:Htry; [|done..].
  unfold lift_opt in Hrun. simplify_eq. exists s'. split_and!; [|done|by eapply lock_spec_inv|by eapply lockless_beside, keeps_try].
  unfold pth_mutex_acquire. by erewrite cbind_atom by (by apply mutex_try_false).
Qed.

Lemma px_repr_step s a x T c p v v' s' a' :
  px_repr s a x T → px_mx x !! c = Some v → load (ptrs (usr s)) c = Some p → p ≠ NULL → lk_mx a !! p = Some v →
  lock_repr s' a' → lock_inv a' → beside s' = beside s → changed p v' a a' → px_repr s' a' (px_set c v' x) T.
Proof.
  intros [Ha Hi HT Hrun Hsame Hini Hcell Hinj Hfresh Hbrk] Hc Hp Hpn Hv Ha' Hi' Hb (Hm & Hcur & _ & Hheld).
  unfold beside in Hb. assert (usr s' = usr s) as Hu by (by simplify_eq). assert (brk s' = brk s) as Hbr by (by simplify_eq).
  assert (∀ y w, <[c := v']> (px_mx x) !! y = Some w → is_Some (px_mx x !! y)) as Hdom.
  { intros y w [[<- _]|[_ ?]]%lookup_insert_Some; by eexists. }
  split; [done|done|by intros; apply Hheld, HT|by rewrite Hcur|by rewrite Hcur|by rewrite Hu| | | |by rewrite Hbr].
  - intros c0 v0. cbn. intros [[<- <-]|[Hne Hv0]]%lookup_insert_Some.
    + exists p. rewrite Hu, decide_False by done. split; [done|]. rewrite Hm. apply lookup_insert_eq.
    + destruct (Hcell c0 v0 Hv0) as (p0 & Hp0 & Hpv). exists p0. rewrite Hu. split; [done|]. case_decide as Hz; [done|].
      rewrite Hm, lookup_insert_ne; [done|]. intros <-. apply Hne. by eapply (Hinj c c0).
  - intros c1 c2 v1 v2 q H1%Hdom H2%Hdom. rewrite Hu. destruct H1 as [w1 H1], H2 as [w2 H2]. by apply (Hinj c1 c2 w1 w2).
  - intros y. rewrite Hm, dom_insert_L, Hbr. intros [->%elem_of_singleton|Hy]%elem_of_union; [|by apply Hfresh].
    by eapply Hfresh, elem_of_dom_2.
Qed.

Lemma px_repr_errno s a x T s' e :
  px_repr s a x T → lock_repr s' (lock_errno e a) → lock_inv (lock_errno e a) → beside s' = beside s → px_repr s' (lock_errno e a) x T.
Proof.
  intros [Ha Hi HT Hrun Hsame Hini Hcell Hinj Hfresh Hbrk] Ha' Hi' Hb.
  unfold beside in Hb. assert (usr s' = usr s) as Hu by (by simplify_eq). assert (brk s' = brk s) as Hbr by (by simplify_eq).
  split; try done; [by rewrite Hu| | |by rewrite Hbr|by rewrite Hbr].
  - intros c v Hv. destruct (Hcell c v Hv) as (p & ? & ?). exists p. by rewrite Hu.
  - intros c1 c2 v1 v2 q H1 H2. rewrite Hu. by apply (Hinj c1 c2 v1 v2).
Qed.

(** The mutex behind the cell [c] is at [p], in state [v]. *)
Definition behind s a x T c p v : Prop :=
  px_repr s a x T ∧ px_mx x !! c = Some v ∧ load (ptrs (usr s)) c = Some p ∧ p ≠ NULL ∧ lk_mx a !! p = Some v.
Definition ends (o : out Z) (e : Z) x T : Prop := ∃ s' a', o = ORet e s' ∧ px_repr s' a' x T.

Lemma acquire_ok fuel b s a a' x T c p v v' :
  behind s a x T c p v → lock_spec (LTry p) a = Some (true, a') → changed p v' a a' →
  ends (cor_errno (pth_mutex_acquire fuel p b NULL) s) 0 (px_set c v' x) T.
Proof.
  intros (Hr & Hc & Hp & Hn & Hv) Hs Hch.
  destruct (acquire_now fuel p b s a a' (px_locks _ _ _ _ Hr) (px_inv _ _ _ _ Hr) Hs) as (s' & Hrun & Ha' & Hi' & Hb).
  exists s', a'. split; [unfold cor_errno; by erewrite cbind_ret by exact Hrun|by eapply px_repr_step].
Qed.

Lemma acquire_no fuel s a x T c p v e :
  behind s a x T c p v → lock_spec (LTry p) a = Some (false, lock_errno e a) →
  ends (cor_errno (pth_mutex_acquire fuel p true NULL) s) e x T.
Proof.
  intros (Hr & Hc & Hp & Hn & Hv) Hs.
  destruct (acquire_run fuel p true s a false _ (px_locks _ _ _ _ Hr) (px_inv _ _ _ _ Hr) Hs) as (s' & Hrun & Ha' & Hi' & Hb); [by left|].
  exists s', (lock_errno e a). split; [|by eapply px_repr_errno]. unfold cor_errno. erewrite cbind_ret by exact Hrun.
  cbn iota. erewrite atom_run by reflexivity. by rewrite <- (lr_errno _ _ Ha').
Qed.

Lemma release_ok s a a' x T c p v v' :
  behind s a x T c p v → lock_spec (LRelease p) a = Some (true, a') → changed p v' a a' →
  ends (atom (or_errno (pth_mutex_release p)) s) 0 (px_set c v' x) T.
Proof.
  intros (Hr & Hc & Hp & Hn & Hv) Hs Hch.
  destruct (release_run p s a true a' (px_locks _ _ _ _ Hr) (px_inv _ _ _ _ Hr) Hs) as (s' & Hrun & Ha' & Hi' & Hb).
  exists s', a'. split; [|by eapply px_repr_step]. apply atom_run. unfold or_errno. by erewrite bind_run by exact Hrun.
Qed.

Lemma release_no s a x T c p v e :
  behind s a x T c p v → lock_spec (LRelease p) a = Some (false, lock_errno e a) →
  ends (atom (or_errno (pth_mutex_release p)) s) e x T.
Proof.
  intros (Hr & Hc & Hp & Hn & Hv) Hs.
  destruct (release_run p s a false _ (px_locks _ _ _ _ Hr) (px_inv _ _ _ _ Hr) Hs) as (s' & Hrun & Ha' & Hi' & Hb).
  exists s', (lock_errno e a). split; [|by eapply px_repr_errno]. apply atom_run. unfold or_errno. erewrite bind_run by exact Hrun.
  unfold gets. by rewrite <- (lr_errno _ _ Ha').
Qed.

Lemma take_again a m n :
  m ≠ NULL → lk_mx a !! m = Some (MHeld (lk_cur a) n) → n + 1 < 18446744073709551616 →
  lock_spec (LTry m) a = Some (true, lock_mx m (MHeld (lk_cur a) (n + 1)) a).
Proof. intros Hm Hx Hn. simpl. rewrite is_null_false by done. rewrite Hx. simpl. by rewrite !decide_True. Qed.

Lemma drop_one a m n :
  m ≠ NULL → lk_mx a !! m = Some (MHeld (lk_cur a) n) → n ≠ 1 →
  lock_spec (LRelease m) a = Some (true, lock_mx m (MHeld (lk_cur a) (n - 1)) a).
Proof. intros Hm Hx Hn. simpl. rewrite is_null_false by done. rewrite Hx. simpl. by rewrite decide_True, decide_False. Qed.

Lemma changed_mx m v a : changed m v a (lock_mx m v a).
Proof. by split_and!. Qed.

Lemma locking_run fuel b s a x T c p v e x' :
  behind s a x T c p v → c ≠ NULL → px_spec (if b : bool then PxTry c else PxLock c) x = Some (e, x') →
  ends (cor_errno (pth_mutex_acquire fuel p b NULL) s) e x' T.
Proof.
  intros Hbe Hcn Hs. pose proof Hbe as (Hr & Hc & Hp & Hn & Hv).
  assert (px_cur x = lk_cur a) as Hcur by apply Hr. assert (is_Some (lk_held a !! lk_cur a)) as Hh by apply Hr, Hr.
  destruct v as [| |o n].
  - destruct b; simpl in Hs; rewrite is_null_false, Hc in Hs by done; done.
  - assert (e = 0 ∧ x' = px_set c (MHeld (lk_cur a) 1) x) as [-> ->].
    { destruct b; simpl in Hs; rewrite is_null_false, Hc in Hs by done; simpl in Hs; simplify_eq; by rewrite Hcur. }
    destruct (take_free a p Hn Hv Hh) as (a' & Hsp & Hch). by eapply acquire_ok.
  - destruct (decide (o = lk_cur a)) as [->|Ho].
    + assert (n + 1 < 18446744073709551616 ∧ e = 0 ∧ x' = px_set c (MHeld (lk_cur a) (n + 1)) x) as (Hlt & -> & ->).
      { destruct b; simpl in Hs; rewrite is_null_false, Hc, Hcur in Hs by done; simpl in Hs; rewrite decide_True in Hs by done;
          case_decide; by simplify_eq. }
      eapply acquire_ok; [done|by apply take_again|apply changed_mx].
    + destruct b; simpl in Hs; rewrite is_null_false, Hc, Hcur in Hs by done; simpl in Hs; rewrite decide_False in Hs by done; [|done].
      simplify_eq. by eapply acquire_no; [|apply (try_held a p o n)].
Qed.

Lemma unlocking_run s a x T c p v e x' :
  behind s a x T c p v → c ≠ NULL → px_spec (PxUnlock c) x = Some (e, x') →
  ends (atom (or_errno (pth_mutex_release p)) s) e x' T.
Proof.
  intros Hbe Hcn Hs. pose proof Hbe as (Hr & Hc & Hp & Hn & Hv).
  assert (px_cur x = lk_cur a) as Hcur by apply Hr. assert (is_Some (lk_held a !! lk_cur a)) as Hh by apply Hr, Hr.
  simpl in Hs. rewrite is_null_false, Hc in Hs by done. simpl in Hs. destruct v as [| |o n]; [done|..].
  - simplify_eq. eapply release_no; [done|]. simpl. rewrite is_null_false by done. by rewrite Hv.
  - rewrite Hcur in Hs. destruct (decide (o = lk_cur a)) as [->|Ho]; simplify_eq.
    + destruct (decide (n = 1)) as [->|].
      * destruct (drop_own a p Hn Hv Hh) as (a' & Hsp & Hch). by eapply release_ok.
      * eapply release_ok; [done|by apply drop_one|apply changed_mx].
    + by eapply release_no; [|apply (release_other a p o n)].
Qed.

(** The threads that take turns. *)
Definition px_threads (T : list N) (ops : list px_op) : Prop := ∀ t, PxSwitch t ∈ ops → t ∈ T.

Lemma px_null s a x T : px_repr s a x T → px_repr (set_errno (λ _, EINVAL) s) (lock_errno EINVAL a) x T.
Proof.
  intros Hr. eapply px_repr_errno; [done|apply lock_repr_errno, Hr| |done]. destruct (px_inv _ _ _ _ Hr). by split.
Qed.

Lemma px_cell_run fuel s a x T op c v k e x' :
  mem_ok → px_repr s a x T → c ≠ NULL → px_mx x !! c = Some v → px_exec fuel op = with_object c (pthread_mutex_init c) k →
  (∀ s a p, behind s a x T c p v → ends (k p s) e x' T) → ends (px_exec fuel op s) e x' T.
Proof.
  intros Hmem Hr Hn Hv He Hk. rewrite He.
  destruct (object_run s a x T c v k Hmem Hr Hv Hn) as (s1 & a1 & p & -> & Hr1 & Hl & Hp & Hm). by apply (Hk s1 a1).
Qed.

Lemma px_op_run fuel s a x T op e x' :
  mem_ok → px_repr s a x T → px_threads T [op] → px_spec op x = Some (e, x') → ends (px_exec fuel op s) e x' T.
Proof.
  intros Hmem Hr HT Hs. destruct op as [c|c|c|c|t].
  - destruct (decide (c = NULL)) as [->|Hn].
    { simplify_eq/=. eexists _, _. split; [|by apply px_null]. unfold pthread_mutex_init, object_init. erewrite cbind_ret; [done|].
      unfold pthread_initialize. erewrite cbind_atom by done. unfold compose. by rewrite (px_ini _ _ _ _ Hr). }
    simpl in Hs. rewrite is_null_false in Hs by done. destruct (px_mx x !! c) as [[]|] eqn:Hc; simpl in Hs; try done. simplify_eq.
    destruct (init_run s a x T c Hmem Hr Hc Hn) as (s' & a' & p & Hrun & Hr' & _). exists s', a'. split; [exact Hrun|].
    unfold px_set. rewrite insert_id by done. by destruct x.
  - destruct (decide (c = NULL)) as [->|Hn]; [simplify_eq/=; eexists _, _; split; [done|by apply px_null]|].
    destruct (px_mx x !! c) as [v|] eqn:Hc; [|simpl in Hs; by rewrite is_null_false, Hc in Hs].
    eapply px_cell_run; [done..|]. intros s1 a1 p Hb. by apply (locking_run fuel false s1 a1 x T c p v).
  - destruct (decide (c = NULL)) as [->|Hn]; [simplify_eq/=; eexists _, _; split; [done|by apply px_null]|].
    destruct (px_mx x !! c) as [v|] eqn:Hc; [|simpl in Hs; by rewrite is_null_false, Hc in Hs].
    eapply px_cell_run; [done..|]. intros s1 a1 p Hb. by apply (locking_run fuel true s1 a1 x T c p v).
  - destruct (decide (c = NULL)) as [->|Hn]; [simplify_eq/=; eexists _, _; split; [done|by apply px_null]|].
    destruct (px_mx x !! c) as [v|] eqn:Hc; [|simpl in Hs; by rewrite is_null_false, Hc in Hs].
    eapply px_cell_run; [done..|]. intros s1 a1 p Hb. by apply (unlocking_run s1 a1 x T c p v).
  - simpl in Hs. simplify_eq. exists (set_pth_current (λ _, t) s), (Locks (lk_mx a) (lk_held a) t (lk_errno a)). split; [done|].
    destruct Hr as [[? ? ? ? ?] [? ?] ? ? ? ? ? ? ? ?]. split; try done. apply HT. by left.
Qed.

(** C17: POSIX mutexes.  Any sequence of calls to initialise, lock, try to lock and unlock
    mutex variables, by any threads, behaves like the table [px_spec]: a variable that
    was only initialised statically acts as a free mutex, locking is exclusive and
    recursive, and failures are reported as the error number that is returned: [EINVAL]
    for a [NULL] variable, [EBUSY] for a mutex that another thread holds, [EDEADLK] for
    unlocking a free one and [EACCES] for unlocking somebody else's.  Memory is not
    exhausted. *)
Theorem posix_mutex_refinement fuel ops s a x T es x' :
  mem_ok → px_repr s a x T → px_threads T ops → px_spec_all ops x = Some (es, x') →
  ∃ s' a', px_exec_all fuel ops s = ORet es s' ∧ px_repr s' a' x' T.
Proof.
  intros Hmem. revert s a x es. induction ops as [|op ops IH]; intros s a x es Hr HT Hs; [simplify_eq/=; by exists s, a|].
  simpl in Hs. destruct (px_spec op x) as [[e x1]|] eqn:Hop; simpl in Hs; [|done].
  destruct (px_spec_all ops x1) as [[es1 x2]|] eqn:Hops; simplify_eq/=.
  destruct (px_op_run fuel s a x T op e x1 Hmem Hr) as (s1 & a1 & H1 & Hr1); [|done|].
  { intros t Ht%list_elem_of_singleton. apply HT. rewrite Ht. by left. }
  destruct (IH s1 a1 x1 es1 Hr1) as (s2 & a2 & H2 & Hr2); [intros t Ht; apply HT; by right|done|].
  exists s2, a2. split; [|done]. erewrite cbind_ret by exact H1. by erewrite cbind_ret by exact H2.
Qed.

End proofs.

(** ** An example: two variables, the second one initialised statically *)
Definition toy_posix_state : @St toy_kernel :=
  set_usr (upd_ptrs (λ _, list_to_map [(80%N, NULL); (81%N, NULL)]) ∘ upd_pthread_initialized (λ _, true)) toy_state.
Definition toy_posix_locks : locks := Locks ∅ (list_to_map [(100%N, []); (99%N, [])]) 100 0.
Definition toy_posix : posix := Posix (list_to_map [(80%N, MFree); (81%N, MFree)]) 100.
Definition toy_posix_ops : list px_op :=
  [PxInit 80; PxLock 80; PxLock 80; PxUnlock 81; PxTry 81; PxSwitch 99; PxTry 80; PxUnlock 81; PxLock NULL; PxSwitch 100;
   PxUnlock 80; PxUnlock 81].

Lemma toy_posix_repr : px_repr toy_posix_state toy_posix_locks toy_posix [100%N; 99%N].
Proof.
  split; try done.
  - split; try done. intros t l. cbn [lk_held toy_posix_locks list_to_map foldr uncurry fst snd].
    intros [[<- <-]|[_ [[<- <-]|[_ ?]]%lookup_insert_Some]]%lookup_insert_Some; [..|done];
      (eexists; split; [vm_compute; reflexivity|by apply rrepr_nil]).
  - split; [|done]. intros t l m. cbn [lk_held toy_posix_locks list_to_map foldr uncurry fst snd].
    intros [[_ <-]|[_ [[_ <-]|[_ ?]]%lookup_insert_Some]]%lookup_insert_Some; [..|done]; by intros ?%not_elem_of_nil.
  - intros t Ht. repeat (apply elem_of_cons in Ht as [->|Ht]; [by eexists|]). by apply not_elem_of_nil in Ht.
  - by left.
  - intros c v. cbn [px_mx toy_posix list_to_map foldr uncurry fst snd].
    intros [[<- <-]|[_ [[<- <-]|[_ ?]]%lookup_insert_Some]]%lookup_insert_Some; [..|done]; by exists NULL.
  - intros c c' v v' p. cbn [px_mx toy_posix list_to_map foldr uncurry fst snd].
    intros [[<- _]|[_ [[<- _]|[_ ?]]%lookup_insert_Some]]%lookup_insert_Some _; [..|done]; intros [= <-]; done.
Qed.

Lemma posix_mutex_refinement_witness :
  ∃ s' a' x', @px_exec_all toy_kernel toy_knot 1 toy_posix_ops toy_posix_state =
      ORet [0; 0; 0; EDEADLK; 0; 0; EBUSY; EACCES; EINVAL; 0; 0; 0] s' ∧
    px_repr s' a' x' [100%N; 99%N] ∧ px_mx x' !! 80%N = Some (MHeld 100 1) ∧ px_mx x' !! 81%N = Some MFree.
Proof.
  assert (∃ x', px_spec_all toy_posix_ops toy_posix = Some ([0; 0; 0; EDEADLK; 0; 0; EBUSY; EACCES; EINVAL; 0; 0; 0], x') ∧
    px_mx x' !! 80%N = Some (MHeld 100 1) ∧ px_mx x' !! 81%N = Some MFree) as (x' & Hs & H80 & H81).
  { eexists. split; [vm_compute; reflexivity|]. by vm_compute. }
  destruct (@posix_mutex_refinement toy_kernel toy_knot 1 toy_posix_ops toy_posix_state toy_posix_locks toy_posix [100%N; 99%N]
    [0; 0; 0; EDEADLK; 0; 0; EBUSY; EACCES; EINVAL; 0; 0; 0] x') as (s' & a' & Hrun & Hr).
  - done.
  - exact toy_posix_repr.
  - intros t Ht. unfold toy_posix_ops in Ht.
    repeat (apply elem_of_cons in Ht as [Ht|Ht]; [simplify_eq; solve [by left | by right; left]|]). by apply not_elem_of_nil in Ht.
  - exact Hs.
  - exists s', a', x'. split; [exact Hrun|]. split; [exact Hr|]. by split.
Defined.
