(* ===== verification/Forks.v ===== *)
(** * What a fork leaves behind

[pth_scheduler_drop] frees every queued thread with its stack and its cleanup
records, and nothing else; [pth_fork] runs the preparation handlers last in first
out, forks, and runs the parent's or the child's handlers first in first out, the
child's after dropping all threads but the current one. *)
From stdpp Require Import functions.
From S2P Require Import State Pool Data Sys Event Tcb Sched Fork Lib Threads.

Section drop.
Context {Kern : Kernel}.
Implicit Types (s : St) (P : qid → list (N * Z)) (own : N → list N * list N).

(** The stack and the cleanup records that freeing the thread [t] frees. *)
Definition owns s (t : N) (o : list N * list N) : Prop :=
  ∃ n l, load (threads s) t = Some n ∧
    o.1 = (if negb (is_null (stack (q_body n))) && negb (stackloan (q_body n)) then [stack (q_body n)] else []) ∧
    (∀ a, a ∈ o.1 → is_Some (load (longs s) a)) ∧
    cl_chain (cleanup_recs s) (cleanups (q_body n)) l ∧ o.2 = l.*1 ∧ NoDup l.*1.

(** [own] says what each thread of the queues owns; no two own the same. *)
Definition owners s P own : Prop :=
  (∀ q t, t ∈ (P q).*1 → owns s t (own t)) ∧
  (∀ q q' t t', t ∈ (P q).*1 → t' ∈ (P q').*1 → t ≠ t' → (own t).1 ## (own t').1 ∧ (own t).2 ## (own t').2).

Definition without {V} (l : list N) (m : gmap N V) : gmap N V := foldl (λ m a, delete a m) m l.

(** The state without the stacks and records of the threads [L]. *)
Definition released own (L : list N) s : St :=
  set_cleanup_recs (without (concat (snd ∘ own <$> L))) (set_longs (without (concat (fst ∘ own <$> L))) s).

(** The threads [L] have been freed. *)
Definition dropped own (L : list N) s s' : Prop :=
  rest s' = rest (released own L s) ∧
  ∀ x, q_body <$> threads s' !! x = if decide (x ∈ L) then None else q_body <$> threads s !! x.

Lemma lookup_without {V} l (m : gmap N V) x : without l m !! x = if decide (x ∈ l) then None else m !! x.
Proof.
  revert m. induction l as [|a l IH]; intros m; simpl; [done|]. rewrite IH.
  destruct (decide (x = a)) as [->|Hne].
  - rewrite lookup_delete_eq. rewrite (decide_True (P := a ∈ a :: l)) by set_solver. by case_decide.
  - rewrite lookup_delete_ne by done. by repeat case_decide; set_solver.
Qed.

Lemma load_without {V} l (m : gmap N V) x : x ∉ l → load (without l m) x = load m x.
Proof. intros Hx. unfold load. by rewrite lookup_without, (decide_False (P := x ∈ l)). Qed.

Lemma without_app {V} l1 l2 (m : gmap N V) : without (l1 ++ l2) m = without l2 (without l1 m).
Proof. apply foldl_app. Qed.

Lemma set_cleanup_recs_ext f g s : f (cleanup_recs s) = g (cleanup_recs s) → set_cleanup_recs f s = set_cleanup_recs g s.
Proof. intros Hfg. unfold set_cleanup_recs. by rewrite Hfg. Qed.
Lemma set_longs_ext f g s : f (longs s) = g (longs s) → set_longs f s = set_longs g s.
Proof. intros Hfg. unfold set_longs. by rewrite Hfg. Qed.

Lemma released_app own L1 L2 s : released own (L1 ++ L2) s = released own L2 (released own L1 s).
Proof.
  unfold released. rewrite !fmap_app, !concat_app.
  transitivity (set_cleanup_recs (without (concat (snd ∘ own <$> L2)) ∘ without (concat (snd ∘ own <$> L1)))
    (set_longs (without (concat (fst ∘ own <$> L2)) ∘ without (concat (fst ∘ own <$> L1))) s)); [|reflexivity].
  rewrite (set_longs_ext _ (without (concat (fst ∘ own <$> L2)) ∘ without (concat (fst ∘ own <$> L1)))) by apply without_app.
  apply set_cleanup_recs_ext, without_app.
Qed.

Lemma rest_released own L s : rest (released own L s) = released own L (rest s).
Proof. reflexivity. Qed.

Lemma dropped_trans own L1 L2 s s1 s2 : dropped own L1 s s1 → dropped own L2 s1 s2 → dropped own (L1 ++ L2) s s2.
Proof.
  intros [Hr1 Hb1] [Hr2 Hb2]. split.
  - rewrite Hr2, released_app, !rest_released. f_equal. by rewrite Hr1, rest_released.
  - intros x. rewrite Hb2, Hb1. repeat case_decide; rewrite ?elem_of_app in *; naive_solver.
Qed.

Lemma dropped_nil own s s' : qdelta s s' → dropped own [] s s'.
Proof. intros [Hr Hb]. split; [rewrite Hr; by destruct s|]. intros x. by rewrite Hb. Qed.

(** ** One thread *)
Lemma cl_chain_size recs c l : cl_chain recs c l → NoDup l.*1 → (length l ≤ size recs)%nat.
Proof.
  intros Hc Hnd. rewrite <- (length_fmap fst), <- size_dom. rewrite <- (size_list_to_set (C := gset N)) by done.
  apply subseteq_size. intros x Hx%elem_of_list_to_set. revert c Hc Hx. clear Hnd.
  induction l as [|[a [f y]] l IH]; intros c Hc Hx; csimpl in *; [by apply not_elem_of_nil in Hx|].
  destruct Hc as (-> & n & [_ Ha]%load_Some & Hc). apply elem_of_cons in Hx as [->|Hx]; [by apply elem_of_dom_2 in Ha|eauto].
Qed.

Lemma popall_drop_run fuel t s n l :
  load (threads s) t = Some n → cl_chain (cleanup_recs s) (cleanups (q_body n)) l → NoDup l.*1 → (length l < fuel)%nat →
  popall_drop fuel t s =
    Some (tt, set_cleanup_recs (without l.*1) (set_threads (alter (on_body (set_cleanups (λ _, NULL))) t) s)).
Proof.
  revert s n l. induction fuel as [|fuel IH]; intros s n l Hn Hc Hnd Hf; [lia|]. cbn [popall_drop].
  erewrite bind_run by (by eapply ldt_run). destruct l as [|[a [f x]] l]; simpl in Hc.
  - rewrite Hc. change (is_null NULL) with true. cbn iota. rewrite (set_threads_id s t n); [by destruct s|done|].
    unfold set_cleanups. rewrite <- Hc. by destruct (q_body n).
  - destruct Hc as (-> & nx & Ha & Hc). pose proof Ha as [Hnn _]%load_Some. rewrite is_null_false by done.
    erewrite bind_run by (unfold ld; rewrite Ha; reflexivity). erewrite bind_run by (by eapply stt_run).
    unfold free. rewrite is_null_false by done. unfold bind, ld. cbn. rewrite Ha. simpl.
    apply NoDup_cons in Hnd as [Hna Hnd]. simpl in Hf.
    erewrite IH; [|by apply load_alter_eq|by apply cl_chain_delete|done|lia]. do 2 f_equal.
    transitivity (set_cleanup_recs (without l.*1 ∘ delete a)
      (set_threads (alter (on_body (set_cleanups (λ _, NULL))) t ∘ alter (on_body (set_cleanups (λ _, nx))) t) s)); [done|].
    f_equal. apply set_threads_ext, alter_on_body_comp.
Qed.

Lemma tcb_free_run s t o :
  owns s t o →
  pth_tcb_free t s = Some (tt, set_cleanup_recs (without o.2) (set_longs (without o.1) (set_threads (delete t) s))).
Proof.
  destruct o as [stks recs]. intros (n & l & Hn & Hstk & Hlongs & Hc & Hrecs & Hnd). simpl in *. subst recs.
  pose proof Hn as [Hnn _]%load_Some. unfold pth_tcb_free. rewrite is_null_false by done.
  erewrite bind_run by (by eapply ldt_run). erewrite bind_run by (by eapply ldt_run).
  assert ((if negb (is_null (stack (q_body n))) && negb (stackloan (q_body n)) then free longs set_longs (stack (q_body n))
           else ret tt) s = Some (tt, set_longs (without stks) s)) as Hfree.
  { destruct (negb (is_null (stack (q_body n))) && negb (stackloan (q_body n))) eqn:E; subst stks; [|by destruct s].
    destruct (Hlongs (stack (q_body n))) as [z Hz]; [set_solver|]. unfold free.
    apply andb_prop in E as [->%negb_true_iff _]. unfold bind, ld. by rewrite Hz. }
  erewrite bind_run by exact Hfree. erewrite bind_run by (by eapply ldt_run).
  set (s1 := set_longs (without stks) s).
  assert (load (threads s1) t = Some n) as Hn1 by done.
  assert ((if negb (is_null (cleanups (q_body n))) then pth_cleanup_dropall t else ret tt) s1 =
    Some (tt, set_cleanup_recs (without l.*1) (set_threads (alter (on_body (set_cleanups (λ _, NULL))) t) s1))) as Hdrop.
  { unfold is_null. case_bool_decide as Hz; cbn [negb].
    - destruct l as [|[a [f x]] l]; simpl in Hc.
      + rewrite (set_threads_id s1 t n); [by destruct s1|done|]. unfold set_cleanups. rewrite <- Hz. by destruct (q_body n).
      + destruct Hc as (<- & nx & [Ha _]%load_Some & _). done.
    - unfold pth_cleanup_dropall. eapply popall_drop_run; [done..|]. pose proof (cl_chain_size _ _ _ Hc Hnd). simpl. lia. }
  erewrite bind_run by exact Hdrop. unfold free. rewrite is_null_false by done. unfold bind, ld. cbn.
  rewrite (load_alter_eq _ _ _ _ Hn). cbn. unfold modify. do 2 f_equal.
  transitivity (set_cleanup_recs (without l.*1) (set_longs (without stks)
    (set_threads (delete t ∘ alter (on_body (set_cleanups (λ _, NULL))) t) s))); [done|].
  do 2 f_equal. apply set_threads_ext. simpl. apply map_eq. intros x. destruct (decide (x = t)) as [->|].
  - by rewrite !lookup_delete_eq.
  - by rewrite !lookup_delete_ne, lookup_alter_ne.
Qed.

(** ** All threads *)
Lemma cl_chain_frame recs recs' c l :
  cl_chain recs c l → (∀ a, a ∈ l.*1 → recs' !! a = recs !! a) → cl_chain recs' c l.
Proof.
  revert c. induction l as [|[a [f x]] l IH]; intros c; simpl; [done|]. intros (-> & nx & [? Ha]%load_Some & Hc) Hr.
  split; [done|]. exists nx. split; [apply load_Some; rewrite Hr by set_solver; done|]. apply IH; [done|]. set_solver.
Qed.

Lemma owns_frame s s' t o :
  owns s t o → q_body <$> threads s' !! t = q_body <$> threads s !! t →
  (∀ a, a ∈ o.1 → longs s' !! a = longs s !! a) → (∀ a, a ∈ o.2 → cleanup_recs s' !! a = cleanup_recs s !! a) →
  owns s' t o.
Proof.
  intros (n & l & Hn & Hstk & Hlongs & Hc & Hrecs & Hnd) Hb Hl Hr. apply load_Some in Hn as [Hnn Hn].
  rewrite Hn in Hb. destruct (threads s' !! t) as [n'|] eqn:Hn'; simplify_eq/=. exists n', l. match goal with H : q_body _ = q_body _ |- _ => rewrite H end.
  split_and!; [by apply load_Some|done| | |done|done].
  - intros a Ha. destruct (Hlongs a Ha) as [z [? ?]%load_Some]. exists z. apply load_Some. by rewrite Hl.
  - rewrite Hrecs in Hr. by eapply cl_chain_frame.
Qed.

Lemma tcb_free_spec s P own t :
  qrepr s P → unqueued P t → owns s t (own t) → owners s P own →
  (∀ q' t', t' ∈ (P q').*1 → (own t).1 ## (own t').1 ∧ (own t).2 ## (own t').2) →
  wp (pth_tcb_free t) (λ _ s', qrepr s' P ∧ owners s' P own ∧ dropped own [t] s s') s.
Proof.
  intros Hs Hu Ht Hown Hdisj. unfold wp. erewrite tcb_free_run by done. split_and!.
  - destruct Hs as [Hq Hd]. split; [|done]. intros q'. eapply (pq_repr_heap (threads s)); [specialize (Hq q'); by destruct q'|]. intros x Hx. cbn.
    rewrite lookup_delete_ne; [done|]. intros <-. by apply (Hu q').
  - destruct Hown as [Ho Hd]. split; [|done]. intros q' t' Ht'. eapply owns_frame; [by eapply Ho|..]; cbn.
    + rewrite lookup_delete_ne; [done|]. intros <-. by apply (Hu q').
    + intros a Ha. rewrite lookup_without, decide_False; [done|]. destruct (Hdisj q' t' Ht') as [Hx _]. set_solver.
    + intros a Ha. rewrite lookup_without, decide_False; [done|]. destruct (Hdisj q' t' Ht') as [_ Hx]. set_solver.
  - split.
    + rewrite rest_released. unfold released. cbn [fmap list_fmap concat compose]. rewrite !app_nil_r. reflexivity.
    + intros x. cbn. destruct (decide (x = t)) as [->|Hne].
      * rewrite lookup_delete_eq, decide_True by set_solver. done.
      * rewrite lookup_delete_ne, decide_False by set_solver. done.
Qed.

Lemma owners_qdelta s s' P own : qdelta s s' → owners s P own → owners s' P own.
Proof.
  intros [Hr Hb] [Ho Hd]. split; [|done]. intros q t Ht. eapply owns_frame; [by eapply Ho|apply Hb|..]; intros a _.
  - by apply (f_equal longs) in Hr; cbn in Hr; rewrite Hr.
  - by apply (f_equal cleanup_recs) in Hr; cbn in Hr; rewrite Hr.
Qed.

Lemma owners_sub s P P' own : (∀ q t, t ∈ (P' q).*1 → t ∈ (P q).*1) → owners s P own → owners s P' own.
Proof. intros Hsub [Ho Hd]. split; naive_solver. Qed.

Lemma onq_init_spec q s P :
  qrepr s P → P q = [] → wp (onq q pth_pqueue_init) (λ _ s', qrepr s' P ∧ qdelta s s') s.
Proof.
  intros Hs Hq. eapply wp_mono; [apply (onq_spec _ _ _ P [] [] (λ _, True)); [done|set_solver|]|].
  - unfold pth_pqueue_init. repeat q_step. split_and!; [done| |apply pq_frame_refl].
    exists (Pqueue 0 0). split_and!; done.
  - intros _ s' (_ & Hs' & Hd). split; [|done]. eapply qrepr_ext; [|exact Hs']. intros q'.
    destruct (decide (q' = q)) as [->|]; [by rewrite fn_lookup_insert|by rewrite fn_lookup_insert_ne].
Qed.

Lemma drop_queue_spec fuel q s P own :
  qrepr s P → pq_ok (P q) → owners s P own → (length (P q) < fuel)%nat →
  wp (drop_queue fuel q) (λ _ s', qrepr s' (<[q := []]> P) ∧ owners s' (<[q := []]> P) own ∧ dropped own (P q).*1 s s') s.
Proof.
  revert s P. induction fuel as [|fuel IH]; intros s P Hs Hok Hown Hf; [lia|]. cbn [drop_queue]. rewrite wp_bind.
  eapply wp_mono; [by apply onq_delmax_spec|]. intros t s1 (-> & Hs1 & Hd1). destruct (P q) as [|[t p] l] eqn:HP.
  - change (is_null (head_or NULL ([] : list (N * Z)).*1)) with true. cbn iota.
    eapply wp_mono; [apply (onq_init_spec _ _ _ Hs1), fn_lookup_insert|]. intros _ s2 [Hs2 Hd2]. split_and!; [done| |].
    + eapply owners_qdelta; [etrans; [exact Hd1|exact Hd2]|]. eapply owners_sub; [|exact Hown]. intros q' x.
      destruct (decide (q' = q)) as [->|]; [rewrite fn_lookup_insert|by rewrite fn_lookup_insert_ne].
      intros Hx. by apply not_elem_of_nil in Hx.
    + apply dropped_nil. by etrans.
  - csimpl. destruct (qrepr_load s P q t Hs) as [n Hn]; [rewrite HP; csimpl; by left|]. pose proof Hn as [Hnn _]%load_Some.
    rewrite is_null_false by done. simpl tail in *. set (P1 := <[q := l]> P) in *.
    assert (∀ q' x, x ∈ (P1 q').*1 → x ∈ (P q').*1) as Hsub.
    { intros q' x. unfold P1. destruct (decide (q' = q)) as [->|]; [rewrite fn_lookup_insert, HP|by rewrite fn_lookup_insert_ne].
      intros Hx. csimpl. by right. }
    assert (t ∈ (P q).*1) as Htq by (rewrite HP; csimpl; by left).
    assert (unqueued P1 t) as Hu.
    { intros q' Hx. assert (q' = q) as -> by (eapply (proj2 Hs); [by apply Hsub|done]).
      unfold P1 in Hx. rewrite fn_lookup_insert in Hx. pose proof (qrepr_NoDup s P q Hs) as Hnd. rewrite HP in Hnd.
      csimpl in Hnd. by apply NoDup_cons in Hnd as [? _]. }
    pose proof (owners_qdelta _ _ _ _ Hd1 Hown) as Hown1. rewrite wp_bind.
    eapply wp_mono; [apply (tcb_free_spec s1 P1 own t Hs1 Hu)|].
    + by eapply (proj1 Hown1).
    + by eapply owners_sub.
    + intros q' t' Ht'. apply (proj2 Hown1 q q'); [done|by apply Hsub|]. intros ->. by apply (Hu q').
    + intros _ s2 (Hs2 & Hown2 & Hdr2).
      eapply wp_mono; [apply (IH s2 P1 Hs2); [|done|]|]; unfold P1 at 1; rewrite ?fn_lookup_insert.
      * destruct Hok as [Hok1 Hok2]. inversion Hok1; subst. split; [done|]. simpl in Hok2. lia.
      * simpl in Hf. lia.
      * intros _ s3 (Hs3 & Hown3 & Hdr3). unfold P1 in Hs3, Hown3, Hdr3. rewrite fn_lookup_insert in Hdr3.
        assert (∀ q', (<[q := []]> P) q' = (<[q := []]> (<[q := l]> P)) q') as He.
        { intros q'. destruct (decide (q' = q)) as [->|]; [by rewrite !fn_lookup_insert|by rewrite !fn_lookup_insert_ne]. }
        split_and!; [by eapply qrepr_ext|eapply owners_sub; [|exact Hown3]; intros q' x; by rewrite He|].
        eapply (dropped_trans own [] (t :: l.*1)); [by apply dropped_nil|].
        by eapply (dropped_trans own [t] l.*1).
Qed.

Lemma drop_all_spec q s P own :
  qrepr s P → pq_ok (P q) → owners s P own →
  wp (drop_all q) (λ _ s', qrepr s' (<[q := []]> P) ∧ owners s' (<[q := []]> P) own ∧ dropped own (P q).*1 s s') s.
Proof.
  intros Hs Hok Hown. unfold drop_all, wp. apply (drop_queue_spec (S (size (threads s)))); try done.
  pose proof (qrepr_length s P q Hs). lia.
Qed.

Definition queued_threads P : list N := (P NQ).*1 ++ (P RQ).*1 ++ (P WQ).*1 ++ (P SQ).*1 ++ (P DQ).*1.

Lemma scheduler_drop_spec s P own :
  qrepr s P → (∀ q, pq_ok (P q)) → owners s P own →
  wp pth_scheduler_drop (λ _ s', qrepr s' (λ _, []) ∧ dropped own (queued_threads P) s s') s.
Proof.
  intros Hs Hok Hown. unfold pth_scheduler_drop.
  rewrite wp_bind. eapply wp_mono; [by apply drop_all_spec|]. intros _ s1 (Hs1 & Ho1 & Hd1).
  rewrite wp_bind. eapply wp_mono; [apply (drop_all_spec RQ _ _ own Hs1); [apply Hok|done]|]. intros _ s2 (Hs2 & Ho2 & Hd2).
  rewrite wp_bind. eapply wp_mono; [apply (drop_all_spec WQ _ _ own Hs2); [apply Hok|done]|]. intros _ s3 (Hs3 & Ho3 & Hd3).
  rewrite wp_bind. eapply wp_mono; [apply (drop_all_spec SQ _ _ own Hs3); [apply Hok|done]|]. intros _ s4 (Hs4 & Ho4 & Hd4).
  eapply wp_mono; [apply (drop_all_spec DQ _ _ own Hs4); [apply Hok|done]|]. intros _ s5 (Hs5 & _ & Hd5).
  split; [eapply qrepr_ext; [|exact Hs5]; by intros []|].
  unfold queued_threads. apply (dropped_trans _ _ _ _ _ _ Hd1). apply (dropped_trans own (P RQ).*1 _ _ _ _ Hd2).
  apply (dropped_trans own (P WQ).*1 _ _ _ _ Hd3). apply (dropped_trans own (P SQ).*1 _ _ _ _ Hd4). exact Hd5.
Qed.

End drop.

(** ** The table of handlers *)
Section table.
Context {Kern : Kernel}.
Implicit Types (s : St) (hs : list pth_atfork_st).

(** The table holds the handlers [hs]. *)
Record atforks s hs : Prop := {
  at_size : length (pth_atfork_list s) = Z.to_nat PTH_ATFORK_MAX;
  at_idx : pth_atfork_idx s = Z.of_nat (length hs);
  at_room : (length hs ≤ Z.to_nat PTH_ATFORK_MAX)%nat;
  at_list : take (length hs) (pth_atfork_list s) = hs
}.

Lemma atforks_same s s' hs :
  pth_atfork_list s' = pth_atfork_list s → pth_atfork_idx s' = pth_atfork_idx s → atforks s hs → atforks s' hs.
Proof. intros Hl Hi [? ? ? ?]. split; congruence. Qed.

Lemma atforks_kern f s hs : atforks s hs → atforks (set_kern f s) hs.
Proof. by apply atforks_same. Qed.

(** C33: The fork handlers are a bounded stack.  [pth_atfork_push] adds an entry on top
    and succeeds as long as there is room, and otherwise fails with [ENOMEM] and
    changes nothing but [errno]; [pth_atfork_pop] removes the entry pushed last, and
    fails exactly when there is none. *)
Theorem atfork_stack prepare parent child arg s hs :
  atforks s hs →
  (∃ ok s', pth_atfork_push prepare parent child arg s = Some (ok, s') ∧
     ok = bool_decide (length hs < Z.to_nat PTH_ATFORK_MAX)%nat ∧
     (if ok then atforks s' (hs ++ [Atfork prepare parent child arg]) ∧ errno s' = errno s
      else s' = set_errno (λ _, ENOMEM) s)) ∧
  (∃ ok s', pth_atfork_pop s = Some (ok, s') ∧ ok = bool_decide (hs ≠ []) ∧
     atforks s' (removelast hs) ∧ errno s' = errno s).
Proof.
  intros [Hsize Hidx Hroom Hlist]. split.
  - unfold pth_atfork_push. erewrite bind_run by done. case_bool_decide as Hr.
    + destruct (Z.ltb_spec (PTH_ATFORK_MAX - 1) (pth_atfork_idx s)); [lia|].
      erewrite bind_run by done. destruct (Z.leb_spec 0 (pth_atfork_idx s)); [|lia].
      destruct (Z.ltb_spec (pth_atfork_idx s) (Z.of_nat (length (pth_atfork_list s)))); [|lia].
      eexists true, _. split_and!; [reflexivity|done| |done]. split; cbn.
      * by rewrite length_insert.
      * rewrite Hidx, length_app. simpl. lia.
      * rewrite length_app. simpl. lia.
      * rewrite Hidx, Nat2Z.id, length_app. simpl. rewrite Nat.add_1_r, take_insert_snoc by lia. by rewrite Hlist.
    + destruct (Z.ltb_spec (PTH_ATFORK_MAX - 1) (pth_atfork_idx s)); [|lia]. by eexists false, _.
  - unfold pth_atfork_pop. erewrite bind_run by done. destruct (Z.leb_spec (pth_atfork_idx s) 0) as [Hz|Hz].
    + destruct hs; [|simpl in Hidx; lia]. eexists false, s. by split_and!.
    + destruct hs as [|h hs _] using rev_ind; [simpl in Hidx; lia|]. eexists true, _. split_and!; [reflexivity| | |done].
      * rewrite bool_decide_true; [done|]. by destruct hs.
      * rewrite length_app in *. simpl in *. rewrite removelast_last. split; cbn; [done|lia|lia|].
        apply (f_equal (take (length hs))) in Hlist. rewrite take_take in Hlist.
        rewrite Nat.min_l in Hlist by lia. by rewrite Hlist, take_app_length.
Qed.

End table.

(** ** Forking *)
Section forking.
Context {Kern : Kernel} {Kn : Knot}.
Context (kc : N → N → K → K).
Hypothesis call_kern : ∀ f a s, call f a s = ORet tt (set_kern (kc f a) s).
Implicit Types (s : St) (hs : list pth_atfork_st).

(** The calls that running one kind of handler makes. *)
Definition handlers (h : pth_atfork_st → N) hs : list (N * N) :=
  (λ e, (h e, af_arg e)) <$> filter (λ e, h e ≠ NULL) hs.

Lemma handlers_app h l1 l2 : handlers h (l1 ++ l2) = handlers h l1 ++ handlers h l2.
Proof. unfold handlers. by rewrite filter_app, fmap_app. Qed.

Lemma handlers_cons h e l : handlers h (e :: l) = handlers h [e] ++ handlers h l.
Proof. apply (handlers_app h [e]). Qed.

Lemma run_calls_app l1 l2 k : run_calls kc (l1 ++ l2) k = run_calls kc l2 (run_calls kc l1 k).
Proof. apply foldl_app. Qed.

Lemma set_kern_ext f g s : f (kern s) = g (kern s) → set_kern f s = set_kern g s.
Proof. intros Hfg. unfold set_kern. by rewrite Hfg. Qed.

Lemma atfork_handler_run h i s e :
  pth_atfork_list s !! i = Some e → atfork_handler h i s = ORet tt (set_kern (run_calls kc (handlers h [e])) s).
Proof.
  intros He. unfold atfork_handler. erewrite cbind_atom by done. erewrite cbind_atom by (unfold lift_opt; by rewrite He).
  unfold handlers. rewrite filter_cons, filter_nil. unfold is_null. case_bool_decide as Hh.
  - rewrite decide_False by naive_solver. unfold cret. f_equal. by destruct s.
  - rewrite decide_True by done. by rewrite call_kern.
Qed.

Lemma prepare_run n s l :
  take n (pth_atfork_list s) = l → length l = n →
  prepare_loop n s = ORet tt (set_kern (run_calls kc (handlers af_prepare (reverse l))) s).
Proof.
  revert s l. induction n as [|n IH]; intros s l Hl Hlen.
  - destruct l; [|done]. simpl. unfold cret. f_equal. by destruct s.
  - destruct l as [|e l _] using rev_ind; [done|]. rewrite length_app in Hlen. simpl in Hlen.
    assert (pth_atfork_list s !! n = Some e) as He.
    { rewrite <- (lookup_take_lt _ (S n)), Hl by lia. rewrite lookup_app_r by lia. by replace (n - length l)%nat with 0%nat by lia. }
    cbn [prepare_loop]. erewrite cbind_ret by (by apply atfork_handler_run).
    rewrite (IH _ l); [|cbn|lia].
    + f_equal. rewrite set_kern_comp. apply set_kern_ext. simpl. by rewrite reverse_snoc, (handlers_cons _ _ (reverse l)), run_calls_app.
    + apply (f_equal (take n)) in Hl. rewrite take_take, Nat.min_l in Hl by lia. rewrite Hl.
      replace n with (length l) by lia. apply take_app_length.
Qed.

Lemma fifo_run fuel h i s hs :
  atforks s hs → (length hs - i < fuel)%nat →
  fifo_loop fuel h i s = ORet tt (set_kern (run_calls kc (handlers h (drop i hs))) s).
Proof.
  revert i s. induction fuel as [|fuel IH]; intros i s Hs Hf; [lia|]. cbn [fifo_loop]. erewrite cbind_atom by done.
  rewrite (at_idx _ _ Hs). destruct (Z.leb_spec (Z.of_nat i) (Z.of_nat (length hs) - 1)) as [Hi|Hi].
  - destruct (lookup_lt_is_Some_2 hs i) as [e He]; [lia|].
    assert (pth_atfork_list s !! i = Some e) as He'.
    { rewrite <- (lookup_take_lt _ (length hs)) by lia. by rewrite (at_list _ _ Hs). }
    erewrite cbind_ret by (by apply atfork_handler_run). rewrite IH; [|by apply atforks_kern|lia].
    f_equal. rewrite set_kern_comp. apply set_kern_ext. simpl. by rewrite (drop_S _ _ _ He), (handlers_cons _ _ (drop (S i) hs)), run_calls_app.
  - rewrite drop_ge by lia. simpl. unfold cret. f_equal. by destruct s.
Qed.

Lemma dropped_kern own L f s s' : dropped own L s s' → dropped own L (set_kern f s) (set_kern f s').
Proof.
  intros [Hr Hb]. split; [|done].
  change (set_kern f (rest s') = set_kern f (rest (released own L s))). by rewrite Hr.
Qed.

Lemma dropped_atforks own L s s' hs : dropped own L s s' → atforks s hs → atforks s' hs.
Proof.
  intros [Hr _]. apply atforks_same; [by apply (f_equal pth_atfork_list) in Hr|by apply (f_equal pth_atfork_idx) in Hr].
Qed.

Lemma dropped_current own L s s' : dropped own L s s' → kern s' = kern s.
Proof. intros [Hr _]. by apply (f_equal kern) in Hr. Qed.


End forking.

(** ** Examples on the toy kernel *)

(** Two entries; the second has no parent handler. *)
Definition toy_atforks : list pth_atfork_st := [Atfork 61 62 63 1; Atfork 64 NULL 66 2].
(** Three queued threads; [fork] will return 0. *)
Definition toy_forking : @St toy_kernel :=
  @set_kern toy_kernel (λ _, Toy (-1) [])
    (set_pth_atfork_list (λ _, toy_atforks ++ replicate 126 (Atfork 0 0 0 0)) (set_pth_atfork_idx (λ _, 2) toy_threads)).

Lemma toy_forking_atforks : atforks toy_forking toy_atforks.
Proof. split; vm_compute; (reflexivity || lia). Qed.

Lemma toy_forking_owners : owners toy_forking toy_queues (λ _, ([], [])).
Proof.
  split; [|set_solver]. intros q t Ht. unfold owns.
  destruct q; csimpl in Ht; repeat (apply elem_of_cons in Ht as [->|Ht]); try (by apply not_elem_of_nil in Ht);
    (eexists _, []; split_and!; [reflexivity|reflexivity|set_solver|reflexivity|reflexivity|constructor]).
Qed.

Lemma atfork_stack_witness :
  (∃ ok s', pth_atfork_push 67 68 69 3 toy_forking = Some (ok, s') ∧ ok = bool_decide (2 < 128)%nat ∧
     (if ok then atforks s' (toy_atforks ++ [Atfork 67 68 69 3]) ∧ errno s' = 0 else s' = set_errno (λ _, ENOMEM) toy_forking)) ∧
  (∃ ok s', pth_atfork_pop toy_forking = Some (ok, s') ∧ ok = bool_decide (toy_atforks ≠ []) ∧
     atforks s' [Atfork 61 62 63 1] ∧ errno s' = 0).
Proof. exact (atfork_stack 67 68 69 3 toy_forking toy_atforks toy_forking_atforks). Defined.

