(* ===== verification/Join.v ===== *)
(** * Joining threads

[pth_join] collects a thread that has ended: it hands out the exit value, takes the
thread from the dead queue and frees it.  A thread that has not ended yet is waited
for.  [collectable] says which thread a call can collect right away. *)
From stdpp Require Import functions.
From S2P Require Import State Pool Data Sys Event Tcb Sync Sched Lib Threads Locks Forks.

Section join.
Context {Kern : Kernel} {Kn : Knot}.
Implicit Types (s : St) (P : qid → list (N * Z)) (own : N → list N * list N).

(** The number of threads: those in queues and the running one. *)
Definition population P : Z :=
  1 + Z.of_nat (length (P NQ)) + Z.of_nat (length (P RQ)) + Z.of_nat (length (P WQ)) + Z.of_nat (length (P SQ)) +
  Z.of_nat (length (P DQ)).

(** What the queues of a running system are like, as far as joining is concerned. *)
Record joinable_in s P own : Prop := {
  ji_q : qrepr s P;
  ji_ok : pq_ok (P DQ);
  ji_few : Z.of_nat (size (threads s)) < 1152921504606846976;
  ji_dead t n : load (threads s) t = Some n → state (q_body n) = PTH_STATE_DEAD ↔ t ∈ (P DQ).*1;
  ji_owns : owners s P own;
}.

(** The thread that [pth_join(tid, ..)] can collect now: [tid] itself once it is dead,
    and for [NULL] the first of the dead queue. *)
Definition collectable P (tid : N) : option N :=
  if decide (tid = NULL) then head (P DQ).*1
  else if decide (tid ∈ (P DQ).*1) then Some tid else None.

Definition exit_value s t : option N := join_arg ∘ q_body <$> load (threads s) t.

(** The thread [t] has been collected: it is gone with all that it owned, and nothing
    else has changed. *)
Definition collected P own (t : N) s s' : Prop :=
  joinable_in s' (<[DQ := pq_del t (P DQ)]> P) own ∧ dropped own [t] s s'.

Lemma ctrl_add_run query bit q rc s P :
  qrepr s P → has query bit = true → ctrl_add query bit q rc s = Some (s64 (rc + Z.of_nat (length (P q))), s).
Proof.
  intros Hq Hb. unfold ctrl_add. rewrite Hb. destruct (proj1 (wp_run _ _ _) (onq_elements_spec q s P Hq)) as (v & s' & Hr & -> & ->).
  by erewrite bind_run by exact Hr.
Qed.

Lemma ctrl_threads s P :
  qrepr s P → Z.of_nat (size (threads s)) < 1152921504606846976 →
  pth_ctrl PTH_CTRL_GETTHREADS [] s = Some ((population P, None), s).
Proof.
  intros Hq Hf. assert (∀ q, Z.of_nat (length (P q)) < 1152921504606846976) as Hl.
  { intros q. pose proof (qrepr_length _ _ q Hq). lia. }
  pose proof (Hl NQ). pose proof (Hl RQ). pose proof (Hl WQ). pose proof (Hl SQ). pose proof (Hl DQ).
  unfold pth_ctrl. change (has PTH_CTRL_GETTHREADS PTH_CTRL_GETTHREADS) with true.
  change (has PTH_CTRL_GETTHREADS PTH_CTRL_GETTHREADS_RUNNING) with true. cbn iota.
  do 2 erewrite bind_run by (by apply ctrl_add_run). cbv zeta. do 3 erewrite bind_run by (by apply ctrl_add_run).
  unfold population.
  repeat match goal with |- context [s64 ?z] => rewrite (s64_id z) by lia end.
  rewrite (proj2 (Z.eqb_neq _ _)) by lia. unfold ret. do 3 f_equal. lia.
Qed.

(** The last part of [pth_join]. *)
Definition join_collect (tid : ptr) : coro (bool * option N) :=
  do! tid <- (if is_null tid then atom (onq DQ pth_pqueue_head) else cret tid);
  do! dead <- (if is_null tid then cret false else
               do! x <- atom (ldt tid state); cret (bool_decide (x = PTH_STATE_DEAD)));
  if negb dead then atom (pth_error (false, None) EIO) else
  do! v <- atom (ldt tid join_arg);
  atom (onq DQ (pth_pqueue_delete tid)) ;;!
  atom (pth_tcb_free tid) ;;!
  cret (true, Some v).

(** The thread that is looked at, and whether it is dead. *)
Definition join_target (tid : ptr) : coro N := if is_null tid then atom (onq DQ pth_pqueue_head) else cret tid.
Definition join_dead (tid : ptr) : coro bool :=
  if is_null tid then cret false else do! x <- atom (ldt tid state); cret (bool_decide (x = PTH_STATE_DEAD)).

Lemma join_look s P own tid :
  joinable_in s P own → (tid ≠ NULL → is_Some (load (threads s) tid)) →
  ∃ t, join_target tid s = ORet t s ∧ join_dead t s = ORet (bool_decide (is_Some (collectable P tid))) s ∧
    (∀ u, collectable P tid = Some u → u = t ∧ t ∈ (P DQ).*1) ∧ (t = NULL ∨ is_Some (load (threads s) t)) ∧
    (collectable P tid = None → t = tid).
Proof.
  intros [Hq Hok Hf Hd Ho] Ht. unfold join_target, join_dead, collectable. destruct (decide (tid = NULL)) as [->|Hn].
  - destruct (proj1 (wp_run _ _ _) (onq_head_spec DQ s P Hq)) as (v & s' & Hr & -> & ->). exists (head_or NULL (P DQ).*1).
    split; [by apply atom_run|]. destruct ((P DQ).*1) as [|t l] eqn:E; [simpl; split_and!; try done; by left|].
    rewrite head_or_cons. cbn [head]. destruct (qrepr_load _ _ DQ t Hq) as [n Hn]; [rewrite E; by left|].
    pose proof Hn as [Hnz _]%load_Some. rewrite is_null_false by done.
    erewrite cbind_atom by (by eapply ldt_run). rewrite (proj2 (Hd _ _ Hn)) by (by left).
    split_and!; [by rewrite !bool_decide_true by (done || by eexists)|by intros u [= <-]; split; [|left]|right; by eexists|done].
  - exists tid. rewrite is_null_false by done. destruct (Ht Hn) as [n Hl]. split; [done|].
    erewrite cbind_atom by (by eapply ldt_run). split_and!; [| |right; by eexists|done].
    + unfold cret. f_equal. apply bool_decide_ext. rewrite (Hd _ _ Hl). case_decide; split; [by eexists|done|done|by intros [? ?]].
    + intros u. case_decide; [intros [= <-]; done|done].
Qed.

Lemma deleted_sub P q t q' x : x ∈ ((<[q := pq_del t (P q)]> P) q').*1 → x ∈ (P q').*1.
Proof.
  destruct (decide (q' = q)) as [->|]; [rewrite fn_lookup_insert; apply pq_del_sub|by rewrite fn_lookup_insert_ne].
Qed.

Lemma deleted_keeps P q t q' x : x ≠ t → x ∈ (P q').*1 → x ∈ ((<[q := pq_del t (P q)]> P) q').*1.
Proof.
  intros Hne. destruct (decide (q' = q)) as [->|]; [rewrite fn_lookup_insert|by rewrite fn_lookup_insert_ne].
  intros ((y, p) & -> & Hy)%list_elem_of_fmap. apply (list_elem_of_fmap_2 fst _ (y, p)). by apply list_elem_of_filter.
Qed.

Lemma deleted_unqueued s P q t : qrepr s P → t ∈ (P q).*1 → unqueued (<[q := pq_del t (P q)]> P) t.
Proof.
  intros Hq Ht q' Hx. assert (q' = q) as -> by (eapply (proj2 Hq); [by eapply deleted_sub|done]).
  rewrite fn_lookup_insert in Hx. by apply pq_del_elem in Hx.
Qed.

Lemma dropped_load own L s s' x n :
  dropped own L s s' → load (threads s') x = Some n → x ∉ L ∧ ∃ n0, load (threads s) x = Some n0 ∧ q_body n0 = q_body n.
Proof.
  intros [_ Hb] [Hx Hn]%load_Some. specialize (Hb x). rewrite Hn in Hb. case_decide; [done|]. split; [done|].
  destruct (threads s !! x) as [n0|] eqn:Hn0; simplify_eq/=. exists n0. split; [by apply load_Some|done].
Qed.

Lemma dropped_size own L s s' : dropped own L s s' → (size (threads s') ≤ size (threads s))%nat.
Proof.
  intros [_ Hb]. rewrite <- !size_dom. apply subseteq_size. intros x [n Hn]%elem_of_dom. specialize (Hb x).
  rewrite Hn in Hb. case_decide; [done|]. apply elem_of_dom. by destruct (threads s !! x).
Qed.

Lemma collect_run s P own tid t :
  joinable_in s P own → (tid ≠ NULL → is_Some (load (threads s) tid)) → collectable P tid = Some t →
  ∃ v s', exit_value s t = Some v ∧ join_collect tid s = ORet (true, Some v) s' ∧ collected P own t s s'.
Proof.
  intros Hj Ht Hc. destruct (join_look _ _ _ _ Hj Ht) as (t' & Ht1 & Hd1 & Hu & _ & _).
  destruct (Hu t Hc) as [<- Hin]. destruct Hj as [Hq Hok Hf Hd Ho].
  destruct (qrepr_load _ _ _ _ Hq Hin) as [n Hn].
  destruct (proj1 (wp_run _ _ _) (onq_delete_spec DQ t s P Hq Hok Hin)) as ([] & s1 & Hr1 & Hq1 & Hdel).
  pose proof (owners_qdelta _ _ _ _ Hdel Ho) as Ho1. set (P1 := <[DQ := pq_del t (P DQ)]> P) in *.
  assert (unqueued P1 t) as Hu1 by (by eapply deleted_unqueued).
  assert (∀ q x, x ∈ (P1 q).*1 → x ∈ (P q).*1) as Hsub by (intros q x; by apply deleted_sub).
  destruct (proj1 (wp_run _ _ _) (tcb_free_spec s1 P1 own t Hq1 Hu1 (proj1 Ho1 DQ t Hin) (owners_sub _ _ _ _ Hsub Ho1)
    ltac:(intros q u Hq'; apply (proj2 Ho1 DQ q); [done|by apply Hsub|]; intros ->; by apply (Hu1 q))))
    as ([] & s2 & Hr2 & Hq2 & Ho2 & Hdr).
  exists (join_arg (q_body n)), s2. unfold exit_value. rewrite Hn. split; [done|]. split.
  - unfold join_collect. fold (join_target tid). erewrite cbind_ret by exact Ht1. fold (join_dead t).
    erewrite cbind_ret by exact Hd1. rewrite bool_decide_true by (rewrite Hc; by eexists). cbn [negb].
    erewrite cbind_atom by (by eapply ldt_run). erewrite cbind_atom by exact Hr1.
    by erewrite cbind_atom by exact Hr2.
  - assert (dropped own [t] s s2) as Hdr' by (by apply (dropped_trans own [] [t] s s1 s2); [apply dropped_nil|]).
    split; [|done]. split; [done| | | |done].
    + unfold P1. rewrite fn_lookup_insert. by apply pq_del_ok.
    + pose proof (dropped_size _ _ _ _ Hdr'). lia.
    + intros x m Hm. destruct (dropped_load _ _ _ _ _ _ Hdr' Hm) as [Hx (m0 & Hm0 & <-)]. rewrite (Hd _ _ Hm0). split.
      * apply deleted_keeps. intros ->. apply Hx. by left.
      * apply Hsub.
Qed.

(** ** Waiting for a thread to end *)

(** The event of [pth_join]. *)
Definition join_event (ev tid : N) : event → event := fresh_event ev PTH_EVENT_TID (state_num PTH_STATE_DEAD) (TID tid).

Lemma join_event_run s ev tid :
  has_event s join_ev_key ev →
  pth_event (Z.lor (Z.lor PTH_EVENT_TID PTH_UNTIL_TID_DEAD) PTH_MODE_STATIC) [VPtr join_ev_key; VPtr tid] s =
    Some (ev, set_evs (alter (join_event ev tid) ev) s).
Proof.
  intros Hev. destruct (static_event_run s (Z.lor (Z.lor PTH_EVENT_TID PTH_UNTIL_TID_DEAD) PTH_MODE_STATIC) join_ev_key [VPtr tid] ev Hev)
    as (e & He & ->); [done..|]. by eapply event_fill_run.
Qed.

Lemma joinable_resumed s P own : joinable_in s P own → joinable_in (resumed s) P own.
Proof.
  intros [Hq Hok Hf Hd Ho]. unfold resumed. set (s0 := set_errno _ s). split; [apply qrepr_alter; by apply (qrepr_same s); [|intros []|]|done| | |].
  - cbn. rewrite <- size_dom, dom_alter, size_dom. exact Hf.
  - intros t n. cbn. rewrite load_alter. case_decide; [|apply Hd]. change (threads s0) with (threads s).
    destruct (load (threads s) t) as [m|] eqn:Hm; simpl; [|done].
    intros [= <-]. apply (Hd _ _ Hm).
  - destruct Ho as [Ho Hdis]. split; [|done]. intros q t Ht. destruct (Ho q t Ht) as (m & l & Hm & Hrest).
    assert (∃ m', load (alter (on_body (set_events (λ _, NULL))) (pth_current s) (threads s0)) t = Some m' ∧
      stack (q_body m') = stack (q_body m) ∧ stackloan (q_body m') = stackloan (q_body m) ∧
      cleanups (q_body m') = cleanups (q_body m)) as (m' & Hm' & Hs1 & Hs2 & Hs3).
    { rewrite load_alter. case_decide; [|by exists m]. subst. change (threads s0) with (threads s). rewrite Hm. by eexists. }
    exists m', l. rewrite Hs1, Hs2, Hs3. by split.
Qed.

(** The part of [pth_join] behind the checks. *)
Definition join_wait (tid : ptr) : coro (bool * option N) :=
  do! tid <- join_target tid;
  do! dead <- join_dead tid;
  (if negb dead then
     do! ev <- atom (pth_event (Z.lor (Z.lor PTH_EVENT_TID PTH_UNTIL_TID_DEAD) PTH_MODE_STATIC) [VPtr join_ev_key; VPtr tid]);
     do! _ <- pth_wait ev; cret tt
   else cret tt) ;;!
  join_collect tid.

(** Why a call is refused, if it is. *)
Definition join_error s P (tid : N) : option Z :=
  if decide (tid = pth_current s) then Some EDEADLK
  else if decide (tid ≠ NULL ∧ (joinable ∘ q_body <$> load (threads s) tid) = Some 0) then Some EINVAL
  else if decide (population P = 1) then Some EDEADLK
  else None.

Lemma join_head s P tid :
  qrepr s P → Z.of_nat (size (threads s)) < 1152921504606846976 → (tid ≠ NULL → is_Some (load (threads s) tid)) →
  pth_join tid s =
    match join_error s P tid with Some e => ORet (false, None) (set_errno (λ _, e) s) | None => join_wait tid s end.
Proof.
  intros Hq Hf Ht. unfold pth_join, join_error. erewrite cbind_atom by done.
  destruct (decide (tid = pth_current s)) as [->|Hne]; [by rewrite bool_decide_true|]. rewrite bool_decide_false by done.
  assert (∃ j, (if is_null tid then cret 1 else atom (ldt tid joinable)) s = ORet j s ∧
    (j = 0 ↔ tid ≠ NULL ∧ (joinable ∘ q_body <$> load (threads s) tid) = Some 0)) as (j & Hj & Hj0).
  { destruct (decide (tid = NULL)) as [->|Hn]; [by exists 1; split; [|naive_solver]|]. destruct (Ht Hn) as [n Hl].
    rewrite is_null_false by done. exists (joinable (q_body n)). split; [by erewrite atom_run by (by eapply ldt_run)|].
    rewrite Hl. simpl. split; [intros ->; by split|by intros [_ [= ?]]]. }
  erewrite cbind_ret by exact Hj. destruct (decide (tid ≠ NULL ∧ _)) as [H0|H0].
  - by rewrite (proj2 Hj0 H0).
  - rewrite (proj2 (Z.eqb_neq _ _)) by (by intros ?%Hj0). erewrite cbind_atom by (by apply ctrl_threads). cbv beta iota.
    destruct (decide (population P = 1)) as [->|Hp]; [done|]. by rewrite (proj2 (Z.eqb_neq _ _) Hp).
Qed.

(** C13: Joining.  A call with the caller itself, with a thread that is not joinable, or
    when there is no other thread, is refused with [EDEADLK], [EINVAL] and [EDEADLK].
    If the thread has ended ([NULL] stands for the first that has), the call returns its
    exit value and the thread is gone, with its stack and its cleanup records and nothing
    else.  Otherwise the caller waits for the event that the thread is dead; whenever it
    is resumed it collects the thread in the same way, or fails with [EIO] if the thread
    has still not ended. *)
Theorem join_collects s P own tid ev n n' :
  joinable_in s P own → (tid ≠ NULL → is_Some (load (threads s) tid)) →
  load (threads s) (pth_current s) = Some n → load (threads s) (pth_sched s) = Some n' → has_event s join_ev_key ev →
  match join_error s P tid, collectable P tid with
  | Some e, _ => pth_join tid s = ORet (false, None) (set_errno (λ _, e) s)
  | None, Some t => ∃ v s', exit_value s t = Some v ∧ pth_join tid s = ORet (true, Some v) s' ∧ collected P own t s s'
  | None, None =>
      ∃ k, pth_join tid s =
             OSwitch (set_threads (alter (on_body (waiting_on ev (errno s))) (pth_current s))
                        (set_evs (alter (join_event ev tid) ev) s)) k ∧
        ∀ s2 P2 own2 n2,
          joinable_in s2 P2 own2 → (tid ≠ NULL → is_Some (load (threads s2) tid)) →
          load (threads s2) (pth_current s2) = Some n2 → cyc (evs s2) [ev] →
          cancelreq (q_body n2) && has (cancelstate (q_body n2)) PTH_CANCEL_ENABLE = false →
          match collectable P2 tid with
          | Some t => ∃ v s', exit_value s2 t = Some v ∧ k s2 = ORet (true, Some v) s' ∧ collected P2 own2 t (resumed s2) s'
          | None => k s2 = ORet (false, None) (set_errno (λ _, EIO) (resumed s2))
          end
  end.
Proof.
  intros Hj Ht Hn Hn' Hev. rewrite (join_head _ P) by (done || apply Hj). destruct (join_error s P tid) as [e|]; [done|].
  destruct (join_look _ _ _ _ Hj Ht) as (t & Ht1 & Hd1 & Hu & _ & Hsame). unfold join_wait.
  rewrite (cbind_ret _ _ _ _ _ Ht1), (cbind_ret _ _ _ _ _ Hd1). destruct (collectable P tid) as [u|] eqn:Hc.
  - destruct (Hu u eq_refl) as [-> Hin]. rewrite bool_decide_true by (by eexists). cbn [negb].
    rewrite (cbind_ret (cret tt) _ tt s s eq_refl). apply collect_run; [done| |].
    + intros _. by apply (qrepr_load s P DQ t (ji_q _ _ _ Hj)).
    + unfold collectable. destruct (decide (t = NULL)) as [->|]; [|by rewrite decide_True].
      destruct (qrepr_load s P DQ _ (ji_q _ _ _ Hj) Hin) as [m [Hz _]%load_Some]. done.
  - rewrite (Hsame eq_refl) in *. rewrite bool_decide_false by (by intros [? ?]). cbn [negb].
    set (s1 := set_evs (alter (join_event ev tid) ev) s).
    assert (cyc (evs s1) [ev]) as Hcyc by (destruct Hev as (? & e & ? & ? & ? & He); by eapply fresh_event_cyc).
    destruct (pth_wait_run s1 ev [] n n' Hcyc Hn Hn') as (k & Hw & Hback); [done|]. eexists. split.
    + erewrite cbind_switch.
      2: { erewrite cbind_atom by (by apply join_event_run). erewrite cbind_switch by exact Hw. reflexivity. }
      f_equal. apply (f_equal (set_threads _)). unfold s1. rewrite set_evs_comp. apply set_evs_ext. unfold compose, mark_all. simpl.
      rewrite alter_alter_eq. apply alter_ext. by intros [].
    + intros s2 P2 own2 n2 Hj2 Ht2 Hn2 Hc2 Hcan. specialize (Hback s2 n2 Hn2 Hc2 Hcan).
      assert (k s2 = ORet (Z.of_nat (length (occurred_in (evs s2) [ev]))) (resumed s2)) as Hk2.
      { rewrite Hback. unfold resumed. by rewrite Hn2. }
      pose proof (joinable_resumed _ _ _ Hj2) as Hj3.
      assert (∀ t, exit_value (resumed s2) t = exit_value s2 t ∧ (is_Some (load (threads s2) t) → is_Some (load (threads (resumed s2)) t))) as Hex.
      { intros u. unfold exit_value, resumed. cbn. rewrite load_alter. case_decide; [subst|done].
        by destruct (load (threads s2) (pth_current s2)); split; [|eexists| |intros [? ?]]. }
      assert (tid ≠ NULL → is_Some (load (threads (resumed s2)) tid)) as Ht3 by (intros Hz; by apply Hex, Ht2).
      erewrite cbind_ret by (erewrite cbind_ret by exact Hk2; reflexivity).
      destruct (collectable P2 tid) as [u|] eqn:Hcol.
      * rewrite <- (proj1 (Hex u)). by apply collect_run.
      * destruct (join_look _ _ _ _ Hj3 Ht3) as (t2 & Ht4 & Hd4 & _). unfold join_collect. fold (join_target tid).
        rewrite (cbind_ret _ _ _ _ _ Ht4). fold (join_dead t2). rewrite (cbind_ret _ _ _ _ _ Hd4), Hcol. done.
Qed.

End join.

(** ** An example: thread 101 has ended with the value 7 and still has its stack *)
Definition toy_ended : tcb :=
  set_state (λ _, PTH_STATE_DEAD) (set_join_arg (λ _, 7%N) (set_stack (λ _, 7000%N) toy_tcb)).
Definition toy_joining : @St toy_kernel :=
  set_evs (λ _, {[ 10%N := raw_event ]})
    (set_ints (λ _, {[ join_ev_key := 0 ]})
      (set_pth_keytab (λ l, <[0%nat := Keytab true fp_event_destructor]> l)
        (set_longs (λ _, {[ 7000%N := 0 ]})
          (set_pth_DQ (λ _, Pqueue 101 1)
            (set_threads (λ h, <[101%N := Qnode 101 101 0 toy_ended]> (alter (on_body (with_data (<[0%nat := 10%N]> data_zero))) 100%N h))
               toy_state))))).
Definition toy_dead_queue (q : qid) : list (N * Z) := match q with DQ => [(101%N, 0)] | _ => [] end.
Definition toy_owns (t : N) : list N * list N := if decide (t = 101%N) then ([7000%N], []) else ([], []).

Lemma toy_joining_in : joinable_in toy_joining toy_dead_queue toy_owns.
Proof.
  split.
  - split; [intros []; [by eexists..|by apply (toy_singleton _ _ _ 101 (Qnode 101 101 0 toy_ended))]|intros [] [] x; csimpl; set_solver].
  - split; [by repeat constructor|done].
  - by vm_compute.
  - intros t n. unfold load. destruct (decide (t = NULL)); [done|].
    change (threads toy_joining) with (<[101%N := Qnode 101 101 0 toy_ended]>
      (alter (on_body (with_data (<[0%nat := 10%N]> data_zero))) 100%N (threads toy_state))).
    destruct (decide (t = 101%N)) as [->|H1]; [intros [= <-]; split; [intros _; by left|done]|].
    rewrite lookup_insert_ne by done. intros Hn. split; [|csimpl; set_solver].
    destruct (decide (t = 100%N)) as [->|H2]; [vm_compute in Hn; by simplify_eq|].
    destruct (decide (t = 99%N)) as [->|H3]; [vm_compute in Hn; by simplify_eq|].
    exfalso. revert Hn. rewrite lookup_alter_ne by done. unfold toy_state. cbn [threads list_to_map foldr uncurry fst snd]. by rewrite !lookup_insert_ne by done.
  - split.
    + intros q t Ht. destruct q; csimpl in Ht; try (by apply not_elem_of_nil in Ht). apply elem_of_cons in Ht as [->|Ht%not_elem_of_nil]; [|done].
      exists (Qnode 101 101 0 toy_ended), []. split_and!; [reflexivity|reflexivity| |reflexivity|reflexivity|constructor].
      intros a Ha. apply elem_of_cons in Ha as [->|Ha%not_elem_of_nil]; [by eexists|done].
    + intros [] [] t t'; csimpl; intros Ht Ht' Hne; try (by apply not_elem_of_nil in Ht); try (by apply not_elem_of_nil in Ht').
      set_solver.
Qed.

Lemma join_collects_witness :
  ∃ s', @pth_join toy_kernel toy_knot 101 toy_joining = ORet (true, Some 7%N) s' ∧
    collected toy_dead_queue toy_owns 101 toy_joining s'.
Proof.
  destruct (@join_collects toy_kernel toy_knot toy_joining toy_dead_queue toy_owns 101 10
    (Qnode 0 0 0 (with_data (<[0%nat := 10%N]> data_zero) toy_tcb))
    (Qnode 0 0 0 (set_state (λ _, PTH_STATE_SCHEDULER) toy_tcb)) toy_joining_in) as (v & s' & Hv & Hs & Hc).
  - intros _. by eexists.
  - reflexivity.
  - reflexivity.
  - exists 0, raw_event. split_and!; [reflexivity|done|vm_compute; reflexivity|reflexivity].
  - exists s'. split; [|exact Hc]. vm_compute in Hv. injection Hv as <-. exact Hs.
Defined.
