(* ===== verification/Spawn.v ===== *)
(** * Spawning threads

[pth_spawn] allocates a thread control block and a stack, fills in what the attributes
say, marks the end of the stack, prepares the machine context and puts the thread into
the new queue.  The theorem is about threads with attributes and with a stack of their
own; it says what the new thread is like, that nothing else changes, and that a failure
of [malloc] leaves no trace of the thread. *)
From stdpp Require Import functions.
From S2P Require Import State Pool Util Data Sys Event Tcb Sync Sched Lib Threads.
From S2P Require Ring.

Section spawn.
Context {Kern : Kernel}.
Implicit Types (s : St) (P : qid → list (N * Z)) (b : tcb) (t : N).

(** The state [s] with a thread [t] whose members are [b]. *)
Definition at_tcb t b s : St := set_threads (<[t := Qnode NULL NULL 0 b]>) s.

Lemma load_at t b s : t ≠ NULL → load (threads (at_tcb t b s)) t = Some (Qnode NULL NULL 0 b).
Proof. intros Ht. apply load_Some. split; [done|]. apply lookup_insert_eq. Qed.

Lemma ldt_at {A} t (f : tcb → A) b s : t ≠ NULL → ldt t f (at_tcb t b s) = Some (f b, at_tcb t b s).
Proof. intros Ht. by rewrite (ldt_run _ _ _ _ (load_at t b s Ht)). Qed.

Lemma set_back s : set_rnodes (λ _, rnodes s) (set_errno (λ _, errno s) s) = s.
Proof. by destruct s. Qed.

Lemma alter_at t g b s : set_threads (alter (on_body g) t) (at_tcb t b s) = at_tcb t (g b) s.
Proof.
  transitivity (set_threads (alter (on_body g) t ∘ <[t := Qnode NULL NULL 0 b]>) s); [reflexivity|].
  apply set_threads_ext. unfold compose. by rewrite alter_insert_eq.
Qed.

Lemma stt_at t g b s : t ≠ NULL → stt t g (at_tcb t b s) = Some (tt, at_tcb t (g b) s).
Proof.
  intros Ht. rewrite (stt_run _ _ _ _ (load_at t b s Ht)). by rewrite alter_at.
Qed.

Lemma ring_init_at t b s :
  t ≠ NULL → on_mutexring t Ring.pth_ring_init (at_tcb t b s) = Some (tt, at_tcb t (set_mutexring (λ _, Ring.PTH_RING_INIT) b) s).
Proof.
  intros Ht. unfold on_mutexring, onr. rewrite load_at by done. cbn [q_body option_map fmap option_fmap].
  change (Ring.pth_ring_init ?x) with (Some (tt, Ring.RState (Ring.nodes x) (Some Ring.PTH_RING_INIT) (Ring.ring_errno x))).
  cbn [Ring.nodes Ring.ring_errno Ring.ring_obj default from_option id mbind option_bind]. by rewrite (set_back (at_tcb t b s)), alter_at.
Qed.

(** The size of a new stack: at least [SIGSTKSZ]. *)
Definition stack_size (z : Z) : Z := if (0 <? z) && (z <? SIGSTKSZ) then SIGSTKSZ else z.

(** The state after [malloc] of [size] bytes, with the kernel in state [k]. *)
Definition malloced (size : Z) (k : K) s : St := set_brk (λ n, (n + 1 + Z.to_N size)%N) (set_kern (λ _, k) s).

Lemma malloc_case size s :
  malloc size s =
    let '(fails, k) := k_enomem size (kern s) in
    if fails then Some (NULL, set_errno (λ _, ENOMEM) (set_kern (λ _, k) s)) else Some (brk s, malloced size k s).
Proof. unfold malloc, bind, kcall. by destruct (k_enomem size (kern s)) as [[] k]. Qed.

(** The members of a thread control block after [pth_tcb_alloc]. *)
Definition new_tcb (size : Z) (stk : N) : tcb :=
  set_stackguard (λ _, stk) (set_stack (λ _, stk) (set_stackloan (λ _, false) (set_stackguard (λ _, NULL)
    (set_stack (λ _, NULL) (set_stacksize (λ _, size) raw_tcb))))).

Definition stack_of s : N := (brk s + 1 + Z.to_N sizeof_tcb)%N.

Lemma tcb_alloc_run size0 s :
  0 < size0 → brk s ≠ NULL →
  pth_tcb_alloc size0 NULL s =
    let '(fails1, k1) := k_enomem sizeof_tcb (kern s) in
    if fails1 then Some (NULL, set_errno (λ _, ENOMEM) (set_kern (λ _, k1) s)) else
    let '(fails2, k2) := k_enomem (stack_size size0) k1 in
    if fails2 then
      Some (NULL, set_threads (delete (brk s)) (set_errno (λ _, ENOMEM) (set_pth_errno_flag (λ _, false)
        (set_pth_errno_storage (λ _, ENOMEM) (set_kern (λ _, k2) (malloced sizeof_tcb k1 s))))))
    else
      Some (brk s, at_tcb (brk s) (new_tcb (stack_size size0) (stack_of s))
        (set_longs (<[stack_of s := 0xDEAD]>) (malloced (stack_size size0) k2 (malloced sizeof_tcb k1 s)))).
Proof.
  intros Hsz Hb. unfold pth_tcb_alloc. fold (stack_size size0).
  assert (0 < stack_size size0) as Hs by (unfold stack_size, SIGSTKSZ; case_match; lia).
  unfold bind at 1. rewrite malloc_case. destruct (k_enomem sizeof_tcb (kern s)) as [[] k1]; [done|].
  rewrite is_null_false by done. set (t := brk s) in *.
  erewrite bind_run by reflexivity. change (set_threads (<[t := Qnode NULL NULL 0 raw_tcb]>) ?s) with (at_tcb t raw_tcb s).
  do 4 (rewrite (bind_run _ _ _ _ _ (stt_at _ _ _ _ Hb))). rewrite (proj2 (Z.ltb_lt _ _) Hs). cbn [is_null negb].
  change (negb (is_null NULL)) with false. cbn iota.
  unfold bind at 1. rewrite malloc_case. change (kern (at_tcb t ?b (malloced sizeof_tcb k1 s))) with k1.
  destruct (k_enomem (stack_size size0) k1) as [[] k2].
  - set (b := set_stackloan _ _).
    change (set_errno (λ _, ENOMEM) (set_kern (λ _, k2) (at_tcb t b (malloced sizeof_tcb k1 s))))
      with (at_tcb t b (set_errno (λ _, ENOMEM) (set_kern (λ _, k2) (malloced sizeof_tcb k1 s)))).
    rewrite (bind_run _ _ _ _ _ (stt_at _ _ _ _ Hb)). change (is_null NULL) with true. cbn iota.
    set (s2 := set_errno _ _). set (b2 := set_stack _ b). unfold pth_shield, free. rewrite is_null_false by done. unfold bind, gets, modify, ld.
    cbn [threads set_pth_errno_flag set_pth_errno_storage].
    change (load (threads (set_pth_errno_flag ?f (set_pth_errno_storage ?g (at_tcb t b2 s2)))) t) with (load (threads (at_tcb t b2 s2)) t).
    rewrite load_at by done. cbn [lift_opt option_map fmap option_fmap]. unfold ret. do 2 f_equal.
    unfold at_tcb, set_threads. cbn. f_equal. by rewrite delete_insert_eq.
  - change (brk (at_tcb t ?b (malloced sizeof_tcb k1 s))) with (stack_of s).
    change (malloced (stack_size size0) k2 (at_tcb t ?b (malloced sizeof_tcb k1 s)))
      with (at_tcb t b (malloced (stack_size size0) k2 (malloced sizeof_tcb k1 s))).
    rewrite (bind_run _ _ _ _ _ (stt_at _ _ _ _ Hb)). assert (stack_of s ≠ NULL) as Hn by (unfold stack_of; lia).
    rewrite is_null_false by done. unfold set_guard. rewrite is_null_false by done. erewrite bind_run; [reflexivity|].
    by rewrite (bind_run _ _ _ _ _ (stt_at _ _ _ _ Hb)).
Qed.

(** The attributes, and the new thread that they make. *)
Lemma spawn_attrs_run t attr x b s nm k :
  t ≠ NULL → load (attrs s) attr = Some x → pth_util_cpystrn (name b) (a_name x) PTH_TCB_NAMELEN = Some (nm, k) →
  spawn_attrs t attr (at_tcb t b s) =
    Some (tt, at_tcb t (set_name (λ _, nm) (set_dispatches (λ _, a_dispatches x) (set_cancelstate (λ _, a_cancelstate x)
      (set_joinable (λ _, a_joinable x) (set_prio (λ _, a_prio x) b))))) s).
Proof.
  intros Ht Hx Hnm. pose proof Hx as [Hnn _]%load_Some. unfold spawn_attrs. rewrite is_null_false by done. cbn [negb].
  do 4 (rewrite (bind_run _ _ _ _ _ (lda_run attr _ (at_tcb t _ s) x Hx)); rewrite (bind_run _ _ _ _ _ (stt_at _ _ _ _ Ht))).
  rewrite (bind_run _ _ _ _ _ (ldt_at _ _ _ _ Ht)). rewrite (bind_run _ _ _ _ _ (lda_run attr _ (at_tcb t _ s) x Hx)).
  change (name (set_dispatches ?f ?y)) with (name y). change (name (set_cancelstate ?f ?y)) with (name y).
  change (name (set_joinable ?f ?y)) with (name y). change (name (set_prio ?f ?y)) with (name y).
  rewrite Hnm. change (bind (lift_opt (Some ?r)) ?f ?z) with (f r z). cbv beta iota. by rewrite stt_at.
Qed.

(** The thread that [pth_spawn] makes. *)
Definition spawned_tcb x (nm : list Z) (size : Z) (stk : N) (ts : timeval) (func arg : N) : tcb := {|
  prio := a_prio x; name := nm; dispatches := a_dispatches x; state := PTH_STATE_NEW;
  spawned := ts; lastran := ts; running := pth_time_zero; events := NULL;
  sigpending := ∅; sigpendcnt := 0; mctx_sigs := ∅; mctx_error := 0;
  stack := stk; stacksize := size; stackguard := stk; stackloan := false;
  start_func := func; start_arg := arg; joinable := a_joinable x; join_arg := NULL;
  data_value := None; data_count := 0; cancelreq := false; cancelstate := a_cancelstate x;
  cleanups := NULL; mutexring := Ring.PTH_RING_INIT |}.

Lemma spawn_fields_run t func arg b s ts k :
  t ≠ NULL → k_gettimeofday (kern s) = (ts, k) →
  spawn_fields t func arg (at_tcb t b s) =
    Some (tt, at_tcb t (set_mutexring (λ _, Ring.PTH_RING_INIT) (set_cleanups (λ _, NULL) (set_cancelreq (λ _, false)
      (set_data_count (λ _, 0) (set_data_value (λ _, None) (set_join_arg (λ _, NULL) (set_start_arg (λ _, arg)
        (set_start_func (λ _, func) (set_sigpendcnt (λ _, 0) (set_sigpending (λ _, ∅) (set_events (λ _, NULL)
          (set_running (λ _, pth_time_zero) (set_lastran (λ _, ts) (set_spawned (λ _, ts) b))))))))))))))
      (set_kern (λ _, k) s)).
Proof.
  intros Ht Hk. unfold spawn_fields. erewrite bind_run.
  2: { unfold gettimeofday, kcall. change (kern (at_tcb t b s)) with (kern s). rewrite Hk.
       change (set_kern ?f (at_tcb t b s)) with (at_tcb t b (set_kern f s)). reflexivity. }
  do 13 (rewrite (bind_run _ _ _ _ _ (stt_at _ _ _ _ Ht))). by rewrite ring_init_at.
Qed.

Lemma spawn_mctx_run t lo size b s :
  t ≠ NULL → lo ≠ NULL → 0 < size →
  pth_mctx_set t fp_trampoline lo (lo + Z.to_N size)%N (at_tcb t b s) =
    Some (true, at_tcb t (set_mctx_error (λ _, 0) (set_mctx_sigs (λ _, ∅) b)) s).
Proof.
  intros Ht Hlo Hs. unfold pth_mctx_set. change (is_null fp_trampoline) with false. rewrite !is_null_false by lia. cbn [orb].
  rewrite (proj2 (N.leb_gt _ _)) by lia. do 2 (rewrite (bind_run _ _ _ _ _ (stt_at _ _ _ _ Ht))). done.
Qed.

Lemma qrepr_at t b s P : qrepr s P → t ≠ NULL → threads s !! t = None → qrepr (at_tcb t b s) P ∧ unqueued P t.
Proof.
  intros Hq Ht Hnew. assert (unqueued P t) as Hu.
  { intros q Hin. destruct (qrepr_load _ _ _ _ Hq Hin) as [n [_ Hn]%load_Some]. congruence. }
  split; [|done]. destruct Hq as [Hq Hd]. split; [|done]. intros q.
  eapply (pq_repr_heap (threads s)); [specialize (Hq q); by destruct q|]. intros y Hy. cbn. rewrite lookup_insert_ne; [done|].
  intros <-. by apply (Hu q).
Qed.

Lemma cpystrn_ok dst nm rest0 :
  Forall (λ c, c ≠ 0) nm → (length nm < PTH_TCB_NAMELEN)%nat → length dst = PTH_TCB_NAMELEN →
  ∃ buf k, pth_util_cpystrn dst (nm ++ 0 :: rest0) PTH_TCB_NAMELEN = Some (buf, k) ∧ cstr buf = nm.
Proof.
  intros Hnm Hlen Hdst. unfold pth_util_cpystrn. rewrite decide_False by done. unfold PTH_TCB_NAMELEN in *.
  rewrite cpystrn_loop_spec by (done || lia). eexists _, _. split; [reflexivity|]. cbn [firstn app Nat.sub]. cbv zeta.
  rewrite take_0, (take_ge nm) by lia. by apply cstr_app.
Qed.

(** C10: Spawning a thread with the attributes [x].  If memory for the control block or for
    the stack cannot be had, the result is [NULL] with [ENOMEM], and threads, queues and
    stacks are as before.  Otherwise the result is a thread that did not exist before:
    it has the priority, name, joinability, cancellation state and dispatch count of the
    attributes, a stack of at least [SIGSTKSZ] bytes of its own with the guard word at its
    lower end, nothing pending, and waits in the new queue behind all threads of at least
    its priority.  No other thread, stack or queue changes. *)
Theorem spawn_new s P attr x func arg nm rest0 :
  qrepr s P → pq_ok (P NQ) → prio_ok (a_prio x) → load (attrs s) attr = Some x →
  a_stackaddr x = NULL → 0 < a_stacksize x → a_name x = nm ++ 0 :: rest0 → Forall (λ c, c ≠ 0) nm → (length nm < PTH_TCB_NAMELEN)%nat →
  func ≠ NULL → func ≠ fp_main → func ≠ fp_scheduler → brk s ≠ NULL → (∀ y, y ∈ dom (threads s) → (y < brk s)%N) →
  let '(fails1, k1) := k_enomem sizeof_tcb (kern s) in
  let '(fails2, k2) := k_enomem (stack_size (a_stacksize x)) k1 in
  let '(ts, k3) := k_gettimeofday k2 in
  let t := brk s in let stk := stack_of s in
  if fails1 || fails2 then
    ∃ s', pth_spawn attr func arg s = Some (NULL, s') ∧ errno s' = ENOMEM ∧ qrepr s' P ∧ threads s' = threads s ∧ longs s' = longs s
  else
    ∃ s' n buf, pth_spawn attr func arg s = Some (t, s') ∧ cstr buf = nm ∧ qrepr s' (<[NQ := pq_ins (a_prio x) t (P NQ)]> P) ∧
      load (threads s') t = Some n ∧ q_body n = spawned_tcb x buf (stack_size (a_stacksize x)) stk ts func arg ∧
      SIGSTKSZ ≤ stack_size (a_stacksize x) ∧ longs s' = <[stk := 0xDEAD]> (longs s) ∧
      ∀ y, y ≠ t → q_body <$> threads s' !! y = q_body <$> threads s !! y.
Proof.
  intros Hq Hok Hprio Hx Hsa Hsz Hname Hnm Hlen Hf1 Hf2 Hf3 Hb Hfresh.
  assert (threads s !! brk s = None) as Hnew.
  { destruct (threads s !! brk s) eqn:E; [|done]. apply elem_of_dom_2, Hfresh in E. lia. }
  pose proof Hx as [Hann _]%load_Some. unfold pth_spawn. rewrite is_null_false by done. rewrite bool_decide_false by done.
  cbv zeta. rewrite is_null_false by done.
  rewrite (bind_run _ _ _ _ _ (lda_run attr a_stacksize s x Hx)), (bind_run _ _ _ _ _ (lda_run attr a_stackaddr s x Hx)), Hsa.
  pose proof (tcb_alloc_run (a_stacksize x) s Hsz Hb) as Halloc. set (size := stack_size (a_stacksize x)) in *.
  destruct (k_enomem sizeof_tcb (kern s)) as [[] k1].
  { destruct (k_enomem size k1) as [fails2 k2]. destruct (k_gettimeofday k2) as [ts k3]. cbn [orb].
    rewrite (bind_run _ _ _ _ _ Halloc). eexists. split; [reflexivity|]. split_and!; [done|by apply (qrepr_same s); [|intros []|]|done..]. }
  destruct (k_enomem size k1) as [[] k2]; cbn [orb].
  { destruct (k_gettimeofday k2) as [ts k3]. rewrite (bind_run _ _ _ _ _ Halloc). eexists. split; [reflexivity|].
    assert (delete (brk s) (threads s) = threads s) as Hdel by (by apply delete_id).
    split_and!; [done|by apply (qrepr_same s); [exact Hdel|intros []|]|exact Hdel|done]. }
  destruct (k_gettimeofday k2) as [ts k3] eqn:Hk3. rewrite (bind_run _ _ _ _ _ Halloc). rewrite is_null_false by done.
  set (s1 := set_longs _ _). set (t := brk s) in *. set (stk := stack_of s) in *.
  assert (0 < size) as Hsize by (unfold size, stack_size, SIGSTKSZ; case_match; lia).
  destruct (cpystrn_ok (name (new_tcb size stk)) nm rest0) as (buf & k & Hcpy & Hbuf); [done..|]. rewrite <- Hname in Hcpy.
  rewrite (bind_run _ _ _ _ _ (spawn_attrs_run t attr x _ s1 buf k Hb Hx Hcpy)).
  rewrite (bind_run _ _ _ _ _ (spawn_fields_run t func arg _ s1 ts k3 Hb Hk3)).
  do 2 (rewrite (bind_run _ _ _ _ _ (ldt_at _ _ _ _ Hb))).
  set (b := set_mutexring _ _). change (stacksize b) with size. change (stack b) with stk.
  assert (stk ≠ NULL) as Hstk by (unfold stk, stack_of; lia). rewrite (proj2 (Z.ltb_lt _ _) Hsize).
  rewrite (bind_run _ _ _ _ _ (spawn_mctx_run t stk size b _ Hb Hstk Hsize)). cbn [negb]. rewrite bool_decide_false by done. cbn [negb].
  set (b' := set_mctx_error _ _). set (s2 := set_kern _ s1). set (b3 := spawned_tcb x buf size stk ts func arg).
  assert (stt t (set_state (λ _, PTH_STATE_NEW)) (at_tcb t b' s2) = Some (tt, at_tcb t b3 s2)) as Hst by (by rewrite stt_at).
  assert (qrepr s2 P) as Hq2 by (by apply (qrepr_same s); [|intros []|]).
  destruct (qrepr_at t b3 s2 P Hq2 Hb Hnew) as [Hq3 Hu].
  destruct (proj1 (wp_run _ _ _) (onq_insert_spec NQ (a_prio x) t _ P Hq3 Hok Hprio Hu ltac:(eexists; by apply load_at)))
    as ([] & s3 & H3 & Hq4 & Hd).
  destruct (qdelta_load _ _ t _ Hd (load_at t b3 s2 Hb)) as (n & Hn & Hbn).
  exists s3, n, buf. split_and!; try done.
  - erewrite bind_run; [reflexivity|]. rewrite (bind_run _ _ _ _ _ Hst), (bind_run _ _ _ _ _ (ldt_at t prio b3 s2 Hb)). exact H3.
  - unfold size, stack_size, SIGSTKSZ. case_match eqn:E; [done|]. apply andb_false_iff in E as [?%Z.ltb_ge|?%Z.ltb_ge]; lia.
  - destruct Hd as [Hr _]. by apply (f_equal longs) in Hr.
  - intros y Hy. destruct Hd as [_ Hby]. rewrite Hby. cbn. by rewrite lookup_insert_ne.
Qed.

End spawn.

(** ** An example: a thread "work" of priority 2 *)
Definition toy_spawn_attr : pth_attr :=
  Attr NULL 2 0 ([119; 111; 114; 107] ++ 0 :: replicate 35 0) 1 PTH_CANCEL_DEFAULT 4096 NULL.
Definition toy_spawning : @St toy_kernel := set_attrs (λ _, {[ 200%N := toy_spawn_attr ]}) toy_threads.

Lemma qrepr_attrs {Kern : Kernel} f s P : qrepr s P → qrepr (set_attrs f s) P.
Proof. apply qrepr_same; [done|by intros []]. Qed.

Lemma spawn_new_witness :
  ∃ s' n buf, pth_spawn 200 77 5 toy_spawning = Some (1000%N, s') ∧ cstr buf = [119; 111; 114; 107] ∧
    qrepr s' (<[NQ := [(1000%N, 2); (101%N, 0)]]> toy_queues) ∧ load (threads s') 1000 = Some n ∧
    stacksize (q_body n) = 8192 ∧ longs s' !! 1593%N = Some 0xDEAD.
Proof.
  destruct (@spawn_new toy_kernel toy_spawning toy_queues 200 toy_spawn_attr 77 5 [119; 111; 114; 107] (replicate 35 0))
    as (s' & n & buf & Hs & Hb & Hq & Hn & Hbody & _ & Hl & _).
  - apply qrepr_attrs, toy_threads_repr.
  - split; [repeat constructor; simpl; unfold PB; lia|done].
  - split; simpl; unfold PB; lia.
  - reflexivity.
  - reflexivity.
  - simpl. lia.
  - reflexivity.
  - repeat constructor; lia.
  - simpl. unfold PTH_TCB_NAMELEN. lia.
  - done.
  - done.
  - done.
  - done.
  - change (set_Forall (λ y, (y < 1000)%N) (dom (threads toy_spawning))). by apply (bool_decide_unpack _); vm_compute.
  - exists s', n, buf. split; [exact Hs|]. split; [exact Hb|]. split; [exact Hq|]. split; [exact Hn|]. split; [by rewrite Hbody|].
    rewrite Hl. reflexivity.
Defined.
