(* ===== verification/Boot.v ===== *)
(** * Starting the library

[pth_init] makes the two threads that every program has, the scheduler and the main
thread, and gives control to the scheduler, which dispatches the main thread; the
call then returns in the main thread.  [still] and [view] follow what the steps in
between leave alone. *)
From stdpp Require Import functions.
From S2P Require Import State Pool Util Data Sys Event Tcb Sync Sched Lib Threads Spawn.
From S2P Require Ring.

Section boot.
Context {Kern : Kernel}.
(** The kernel has memory, and [fcntl(fd, F_GETFL)] works on an open descriptor. *)
Hypothesis mem_ok : ∀ size k, (k_enomem size k).1 = false.
Hypothesis fl_ok : ∀ fd k, (k_getfl fd k).1.1 ≠ -1.
Implicit Types (s : St) (P : qid → list (N * Z)) (t a : N) (b : tcb) (x : pth_attr).

(** The members of the state that initialisation sets. *)
Definition view s := (pth_initialized s, pth_main s, pth_sched s, pth_current s, pth_favournew s, errno s).
Definition bodies s : gmap N tcb := q_body <$> threads s.

(** Nothing that matters here has changed. *)
Definition still s s' : Prop :=
  threads s' = threads s ∧ (∀ q, queue q s' = queue q s) ∧ view s' = view s ∧ attrs s' = attrs s.

(** ** The scheduler's data *)
Lemma fdmode_run fd new s : ∃ m k, pth_fdmode fd new s = Some (m, set_kern (λ _, k) s) ∧ m ≠ PTH_FDMODE_ERROR.
Proof.
  unfold pth_fdmode, kcall_errno, kcall. unfold bind at 1. unfold bind at 1.
  pose proof (fl_ok fd (kern s)) as Hfl. destruct (k_getfl fd (kern s)) as [[rc e] k]. simpl in Hfl.
  rewrite (proj2 (Z.eqb_neq _ _) Hfl). unfold bind, modify, ret. cbn iota beta.
  rewrite ?(proj2 (Z.eqb_neq rc (-1)) Hfl). destruct (has rc O_NONBLOCKING); cbn [Z.eqb andb];
    repeat match goal with |- context [if ?c then _ else _] => destruct c end;
    eexists _, _; (split; [reflexivity|discriminate]).
Qed.

Lemma pqueue_init_run q s :
  ∃ s', onq q pth_pqueue_init s = Some (tt, s') ∧ threads s' = threads s ∧ queue q s' = Pqueue 0 0 ∧
    (∀ q', q' ≠ q → queue q' s' = queue q' s) ∧ view s' = view s ∧ attrs s' = attrs s ∧ brk s' = brk s.
Proof. eexists. split; [reflexivity|]. destruct q; (split_and!; [done|done| |done..]); by intros []. Qed.

Lemma scheduler_init_run s :
  (k_pipe (kern s)).1.1.1 ≠ -1 →
  ∃ s', pth_scheduler_init s = Some (true, s') ∧ threads s' = threads s ∧ (∀ q, queue q s' = Pqueue 0 0) ∧
    view s' = (pth_initialized s, pth_main s, NULL, NULL, 1, errno s) ∧ attrs s' = attrs s ∧ brk s' = brk s.
Proof.
  intros Hp. unfold pth_scheduler_init, kcall. unfold bind at 1. destruct (k_pipe (kern s)) as [[[rc e] fds] k]. simpl in Hp.
  rewrite (proj2 (Z.eqb_neq _ _) Hp). set (s1 := set_pth_sigpipe (λ _, fds) (set_kern (λ _, k) s)).
  erewrite bind_run by reflexivity. fold s1.
  destruct (fdmode_run fds.1 PTH_FDMODE_NONBLOCK s1) as (m1 & k1 & H1 & Hm1). rewrite (bind_run _ _ _ _ _ H1), (proj2 (Z.eqb_neq _ _) Hm1).
  destruct (fdmode_run fds.2 PTH_FDMODE_NONBLOCK (set_kern (λ _, k1) s1)) as (m2 & k2 & H2 & Hm2).
  rewrite (bind_run _ _ _ _ _ H2), (proj2 (Z.eqb_neq _ _) Hm2). do 2 erewrite bind_run by reflexivity. set (s2 := set_pth_current _ _).
  destruct (pqueue_init_run NQ s2) as (s3 & R3 & T3 & Q3 & O3 & V3 & A3 & B3). rewrite (bind_run _ _ _ _ _ R3).
  destruct (pqueue_init_run RQ s3) as (s4 & R4 & T4 & Q4 & O4 & V4 & A4 & B4). rewrite (bind_run _ _ _ _ _ R4).
  destruct (pqueue_init_run WQ s4) as (s5 & R5 & T5 & Q5 & O5 & V5 & A5 & B5). rewrite (bind_run _ _ _ _ _ R5).
  destruct (pqueue_init_run SQ s5) as (s6 & R6 & T6 & Q6 & O6 & V6 & A6 & B6). rewrite (bind_run _ _ _ _ _ R6).
  destruct (pqueue_init_run DQ s6) as (s7 & R7 & T7 & Q7 & O7 & V7 & A7 & B7). rewrite (bind_run _ _ _ _ _ R7).
  do 2 erewrite bind_run by reflexivity. unfold gettimeofday, kcall. unfold bind at 1.
  destruct (k_gettimeofday _) as [now k3]. erewrite bind_run by reflexivity. eexists. split; [reflexivity|].
  assert (view s7 = (pth_initialized s, pth_main s, NULL, NULL, pth_favournew s, errno s)) as V by (rewrite V7, V6, V5, V4, V3; done).
  split_and!.
  - change (threads s7 = threads s). rewrite T7, T6, T5, T4, T3. done.
  - intros q. transitivity (queue q s7); [by destruct q|].
    destruct q; rewrite ?O7, ?Q7, ?O6, ?Q6, ?O5, ?Q5, ?O4, ?Q4, ?Q3 by done; done.
  - unfold view in V |- *. cbn. injection V as E1 E2 E3 E4 _ E6. congruence.
  - change (attrs s7 = attrs s). rewrite A7, A6, A5, A4, A3. done.
  - change (brk s7 = brk s). rewrite B7, B6, B5, B4, B3. done.
Qed.

(** ** Attributes *)
Definition at_attr a x s : St := set_attrs (<[a := x]>) s.

Lemma load_attr a x s : a ≠ NULL → load (attrs (at_attr a x s)) a = Some x.
Proof. intros Ha. apply load_Some. split; [done|]. apply lookup_insert_eq. Qed.

Lemma alter_attr a g x s : set_attrs (alter g a) (at_attr a x s) = at_attr a (g x) s.
Proof.
  transitivity (set_attrs (alter g a ∘ <[a := x]>) s); [reflexivity|]. unfold at_attr, set_attrs, compose. f_equal. apply alter_insert_eq.
Qed.

Lemma sta_at a g x s : a ≠ NULL → sta a g (at_attr a x s) = Some (tt, at_attr a (g x) s).
Proof. intros Ha. rewrite (sta_run _ _ _ x) by (by apply load_attr). by rewrite alter_attr. Qed.

Lemma lda_at {A} a (f : pth_attr → A) x s : a ≠ NULL → lda a f (at_attr a x s) = Some (f x, at_attr a x s).
Proof. intros Ha. apply lda_run. by apply load_attr. Qed.

Lemma attr_write_at a gt ga x s :
  a ≠ NULL → a_tid x = NULL → attr_write a gt ga (at_attr a x s) = Some (tt, at_attr a (ga x) s).
Proof. intros Ha Hx. rewrite (attr_write_run _ _ _ _ x) by (by apply load_attr). by rewrite decide_True, alter_attr. Qed.

Lemma malloc_fresh size s : ∃ k, malloc size s = Some (brk s, malloced size k s).
Proof.
  rewrite malloc_case. pose proof (mem_ok size (kern s)) as Hm. destruct (k_enomem size (kern s)) as [fails k]. simpl in Hm. subst.
  by exists k.
Qed.

(** The string [src] copied over [dst]. *)
Definition copied (dst src : list Z) : list Z := default [] (fst <$> pth_util_cpystrn dst src PTH_TCB_NAMELEN).
Lemma copied_run dst src :
  is_Some (pth_util_cpystrn dst src PTH_TCB_NAMELEN) → ∃ n, pth_util_cpystrn dst src PTH_TCB_NAMELEN = Some (copied dst src, n).
Proof. intros [[nm n] Hn]. exists n. unfold copied. by rewrite Hn. Qed.
Lemma lift_run {A} (o : option A) v s : o = Some v → lift_opt o s = Some (v, s).
Proof. by intros ->. Qed.

Definition new_attr : pth_attr :=
  Attr NULL PTH_PRIO_STD 0 (copied (replicate PTH_TCB_NAMELEN 0) str_unknown) 1 PTH_CANCEL_DEFAULT 65536 NULL.

Lemma attr_new_run s :
  brk s ≠ NULL → ∃ k, pth_attr_new s = Some (brk s, at_attr (brk s) new_attr (malloced sizeof_attr k s)).
Proof.
  intros Hb. destruct (malloc_fresh sizeof_attr s) as [k Hk]. exists k. unfold pth_attr_new. rewrite (bind_run _ _ _ _ _ Hk).
  rewrite is_null_false by done. set (s1 := malloced sizeof_attr k s). erewrite bind_run by reflexivity.
  change (set_attrs (<[brk s := raw_attr NULL]>) s1) with (at_attr (brk s) (raw_attr NULL) s1).
  erewrite bind_run; [reflexivity|]. unfold pth_attr_init. rewrite is_null_false by done.
  rewrite (bind_run _ _ _ _ _ (lda_at _ _ _ _ Hb)). change (negb (is_null (a_tid (raw_attr NULL)))) with false. cbn iota.
  rewrite (bind_run _ _ _ _ _ (sta_at _ _ _ _ Hb)), (bind_run _ _ _ _ _ (lda_at _ _ _ _ Hb)).
  destruct (copied_run (replicate PTH_TCB_NAMELEN 0) str_unknown) as [n Hn]; [by vm_compute; eexists|].
  rewrite (bind_run _ _ _ _ _ (lift_run _ _ _ Hn)). cbv beta iota.
  do 6 rewrite (bind_run _ _ _ _ _ (sta_at _ _ _ _ Hb)). reflexivity.
Qed.

Lemma init_attrs_run a x s p nm j c ss :
  a ≠ NULL → a_tid x = NULL → is_Some (pth_util_cpystrn (a_name x) nm PTH_TCB_NAMELEN) →
  init_attrs a p nm j c ss (at_attr a x s) =
    Some (tt, at_attr a (Attr NULL p (a_dispatches x) (copied (a_name x) nm) j c ss NULL) s).
Proof.
  intros Ha Hx Hnm. assert (∀ code op v y, attr_op_of code = Some op → pth_attr_set a code v (at_attr a y s) =
    (do r <- (do ok <- attr_set a op v; ret (ok, None : option attr_val)); ret r.1) (at_attr a y s)) as Hset.
  { intros code op v y Hop. unfold pth_attr_set, pth_attr_ctrl. by rewrite is_null_false, Hop. }
  assert (∀ y gt ga, a_tid y = NULL → (do r <- (do ok <- (do tid <- lda a a_tid; attr_write a gt ga ;; ret true); ret (ok, None : option attr_val));
     ret r.1) (at_attr a y s) = Some (true, at_attr a (ga y) s)) as Hwr.
  { intros y gt ga Hy. unfold bind. rewrite lda_at, attr_write_at by done. done. }
  unfold init_attrs.
  rewrite (bind_run _ _ true _ (at_attr a (set_a_prio p x) s)).
  2: { rewrite (Hset 0 PTH_ATTR_PRIO) by done. by apply Hwr. }
  destruct (copied_run (a_name x) nm Hnm) as [n Hn]. set (x1 := set_a_prio p x). set (x2 := set_a_name (copied (a_name x) nm) x1).
  rewrite (bind_run _ _ true _ (at_attr a x2 s)).
  2: { rewrite (Hset 1 PTH_ATTR_NAME) by done. unfold attr_set, attr_readonly. unfold bind. rewrite lda_at by done.
       rewrite (attr_read_run _ _ _ _ x1), decide_True by (done || by apply load_attr). change (a_name x1) with (a_name x). rewrite Hn.
       unfold lift_opt. by rewrite attr_write_at. }
  rewrite (bind_run _ _ true _ (at_attr a (set_a_joinable j x2) s)).
  2: { rewrite (Hset 2 PTH_ATTR_JOINABLE) by done. by apply Hwr. }
  rewrite (bind_run _ _ true _ (at_attr a (set_a_cancelstate c (set_a_joinable j x2)) s)).
  2: { rewrite (Hset 3 PTH_ATTR_CANCEL_STATE) by done. by apply Hwr. }
  set (x4 := set_a_cancelstate c _). assert (is_null (a_tid x) = true) as Hnl by (by rewrite Hx).
  rewrite (bind_run _ _ true _ (at_attr a (set_a_stacksize ss x4) s)).
  2: { rewrite (Hset 4 PTH_ATTR_STACK_SIZE) by done. unfold attr_set, attr_readonly, bind. rewrite lda_at by done.
       change (a_tid x4) with (a_tid x). rewrite Hnl. cbn [negb]. by rewrite sta_at. }
  rewrite (bind_run _ _ true _ (at_attr a (set_a_stackaddr NULL (set_a_stacksize ss x4)) s)).
  2: { rewrite (Hset 5 PTH_ATTR_STACK_ADDR) by done. unfold attr_set, attr_readonly, bind. rewrite lda_at by done.
       change (a_tid (set_a_stacksize ss x4)) with (a_tid x). rewrite Hnl. cbn [negb]. by rewrite sta_at. }
  unfold ret. do 3 f_equal. unfold set_a_stackaddr, x4, x2, x1. cbn. by rewrite Hx.
Qed.

(** ** The two threads *)
Definition no_name : list Z := replicate PTH_TCB_NAMELEN 0.

Lemma spawn_sched_run s attr x :
  load (attrs s) attr = Some x → a_stackaddr x = NULL → 0 < a_stacksize x →
  is_Some (pth_util_cpystrn no_name (a_name x) PTH_TCB_NAMELEN) → brk s ≠ NULL →
  ∃ ts s2, pth_spawn attr fp_scheduler NULL s =
      Some (brk s, at_tcb (brk s) (spawned_tcb x (copied no_name (a_name x)) (stack_size (a_stacksize x)) (stack_of s) ts fp_scheduler NULL) s2) ∧
    still s s2 ∧ (brk s < brk s2)%N.
Proof.
  intros Hx Hsa Hsz Hnm Hb. pose proof Hx as [Hann _]%load_Some. unfold pth_spawn. change (is_null fp_scheduler) with false.
  change (bool_decide (fp_scheduler = fp_main)) with false. cbv zeta iota. rewrite is_null_false by done.
  rewrite (bind_run _ _ _ _ _ (lda_run attr a_stacksize s x Hx)), (bind_run _ _ _ _ _ (lda_run attr a_stackaddr s x Hx)), Hsa.
  pose proof (tcb_alloc_run (a_stacksize x) s Hsz Hb) as Halloc. set (size := stack_size (a_stacksize x)) in *.
  assert (0 < size) as Hsize by (unfold size, stack_size, SIGSTKSZ; destruct (_ && _); lia).
  pose proof (mem_ok sizeof_tcb (kern s)) as M1. destruct (k_enomem sizeof_tcb (kern s)) as [f1 k1]. simpl in M1. subst f1.
  pose proof (mem_ok size k1) as M2. destruct (k_enomem size k1) as [f2 k2]. simpl in M2. subst f2.
  rewrite (bind_run _ _ _ _ _ Halloc). rewrite is_null_false by done. set (s1 := set_longs _ _). set (t := brk s) in *. set (stk := stack_of s) in *.
  destruct (copied_run no_name (a_name x) Hnm) as [n Hn].
  rewrite (bind_run _ _ _ _ _ (spawn_attrs_run t attr x (new_tcb size stk) s1 _ n Hb Hx Hn)). destruct (k_gettimeofday (kern s1)) as [ts k3] eqn:Hk3.
  rewrite (bind_run _ _ _ _ _ (spawn_fields_run t fp_scheduler NULL _ s1 ts k3 Hb Hk3)).
  do 2 (rewrite (bind_run _ _ _ _ _ (ldt_at _ _ _ _ Hb))). set (b := set_mutexring _ _). change (stacksize b) with size. change (stack b) with stk.
  assert (stk ≠ NULL) as Hstk by (unfold stk, stack_of; lia). rewrite (proj2 (Z.ltb_lt _ _) Hsize).
  rewrite (bind_run _ _ _ _ _ (spawn_mctx_run t stk size b _ Hb Hstk Hsize)). cbn [negb].
  change (negb (bool_decide (fp_scheduler = fp_scheduler))) with false. cbn iota. eexists ts, _. split; [reflexivity|].
  split; [|cbn; lia]. split_and!; [done|by intros []|done|done].
Qed.

(** The main thread runs on the stack of the process. *)
Lemma stackless_run s :
  brk s ≠ NULL → ∃ k, pth_tcb_alloc 0 NULL s =
    Some (brk s, at_tcb (brk s) (set_stackloan (λ _, false) (set_stackguard (λ _, NULL) (set_stack (λ _, NULL)
      (set_stacksize (λ _, 0) raw_tcb)))) (malloced sizeof_tcb k s)).
Proof.
  intros Hb. destruct (malloc_fresh sizeof_tcb s) as [k Hk]. exists k. unfold pth_tcb_alloc. cbv zeta.
  rewrite (bind_run _ _ _ _ _ Hk). rewrite is_null_false by done. erewrite bind_run by reflexivity.
  change (set_threads (<[brk s := Qnode NULL NULL 0 raw_tcb]>) ?s1) with (at_tcb (brk s) raw_tcb s1).
  do 4 rewrite (bind_run _ _ _ _ _ (stt_at _ _ _ _ Hb)). done.
Qed.

Lemma bodies_at t b s : bodies (at_tcb t b s) = <[t := b]> (bodies s).
Proof. unfold bodies. cbn. by rewrite fmap_insert. Qed.

Lemma qdelta_bodies s s' : qdelta s s' → bodies s' = bodies s ∧ view s' = view s ∧ attrs s' = attrs s ∧ brk s' = brk s.
Proof.
  intros Hd. split; [exact (qdelta_fmap id s s' Hd)|]. destruct Hd as [Hr _].
  split_and!; [exact (f_equal view Hr)|exact (f_equal attrs Hr)|exact (f_equal brk Hr)].
Qed.

Lemma spawn_main_run s P attr x :
  qrepr s P → pq_ok (P NQ) → prio_ok (a_prio x) → threads s !! brk s = None →
  load (attrs s) attr = Some x → a_stackaddr x = NULL → a_stacksize x = 0 →
  is_Some (pth_util_cpystrn no_name (a_name x) PTH_TCB_NAMELEN) → brk s ≠ NULL →
  ∃ ts s', pth_spawn attr fp_main NULL s = Some (brk s, s') ∧ qrepr s' (<[NQ := pq_ins (a_prio x) (brk s) (P NQ)]> P) ∧
    bodies s' = <[brk s := spawned_tcb x (copied no_name (a_name x)) 0 NULL ts NULL NULL]> (bodies s) ∧
    view s' = view s ∧ attrs s' = attrs s.
Proof.
  intros Hq Hok Hprio Hnew Hx Hsa Hsz Hnm Hb. pose proof Hx as [Hann _]%load_Some. unfold pth_spawn.
  change (is_null fp_main) with false. change (bool_decide (fp_main = fp_main)) with true. cbv zeta iota.
  rewrite is_null_false by done.
  rewrite (bind_run _ _ _ _ _ (lda_run attr a_stacksize s x Hx)), (bind_run _ _ _ _ _ (lda_run attr a_stackaddr s x Hx)), Hsa, Hsz.
  destruct (stackless_run s Hb) as [k1 Halloc]. rewrite (bind_run _ _ _ _ _ Halloc). rewrite is_null_false by done.
  set (s1 := malloced _ _ s). set (t := brk s) in *. set (b0 := set_stackloan _ _). destruct (copied_run no_name (a_name x) Hnm) as [n Hn].
  rewrite (bind_run _ _ _ _ _ (spawn_attrs_run t attr x b0 s1 _ n Hb Hx Hn)). destruct (k_gettimeofday (kern s1)) as [ts k3] eqn:Hk3.
  rewrite (bind_run _ _ _ _ _ (spawn_fields_run t NULL NULL _ s1 ts k3 Hb Hk3)).
  do 2 (rewrite (bind_run _ _ _ _ _ (ldt_at _ _ _ _ Hb))). set (b := set_mutexring _ _). change (stacksize b) with 0.
  change (0 <? 0) with false. cbn iota. erewrite bind_run by reflexivity. cbn [negb].
  change (negb (bool_decide (NULL = fp_scheduler))) with true. cbn iota. set (s2 := set_kern _ s1).
  set (b3 := spawned_tcb x (copied no_name (a_name x)) 0 NULL ts NULL NULL).
  assert (stt t (set_state (λ _, PTH_STATE_NEW)) (at_tcb t b s2) = Some (tt, at_tcb t b3 s2)) as Hst by (by rewrite stt_at).
  assert (qrepr s2 P) as Hq2 by (by apply (qrepr_same s); [|intros []|]). destruct (qrepr_at t b3 s2 P Hq2 Hb Hnew) as [Hq3 Hu].
  destruct (proj1 (wp_run _ _ _) (onq_insert_spec NQ (a_prio x) t _ P Hq3 Hok Hprio Hu ltac:(eexists; by apply load_at)))
    as ([] & s3 & H3 & Hq4 & Hd). destruct (qdelta_bodies _ _ Hd) as (Hbd & Hv & Ha & _).
  exists ts, s3. split_and!; [|done|by rewrite Hbd, bodies_at|by rewrite Hv|by rewrite Ha].
  erewrite bind_run; [reflexivity|]. rewrite (bind_run _ _ _ _ _ Hst), (bind_run _ _ _ _ _ (ldt_at t prio b3 s2 Hb)). exact H3.
Qed.

Definition sched_attr : pth_attr :=
  Attr NULL PTH_PRIO_MAX 0 (copied (a_name new_attr) str_scheduler) 0 PTH_CANCEL_DISABLE 65536 NULL.
Definition main_attr : pth_attr :=
  Attr NULL PTH_PRIO_STD 0 (copied (a_name sched_attr) str_main) 1 (Z.lor PTH_CANCEL_ENABLE PTH_CANCEL_DEFERRED) 0 NULL.
Definition sched_tcb (stk : N) (ts : timeval) : tcb :=
  spawned_tcb sched_attr (copied no_name (a_name sched_attr)) 65536 stk ts fp_scheduler NULL.
Definition main_tcb (ts : timeval) : tcb := spawned_tcb main_attr (copied no_name (a_name main_attr)) 0 NULL ts NULL NULL.

Lemma at_attr_id a x s : load (attrs s) a = Some x → at_attr a x s = s.
Proof.
  intros [_ Hx]%load_Some. transitivity (set_attrs (λ _, attrs s) s); [|by destruct s]. unfold at_attr, set_attrs. f_equal. by apply insert_id.
Qed.

Lemma empty_qrepr s : (∀ q, queue q s = Pqueue 0 0) → qrepr s (λ _, []).
Proof. intros Hq. split; [|by intros q q' y Hy%not_elem_of_nil]. intros q. exists (Pqueue 0 0). split_and!; try done. by rewrite Hq. Qed.

(** Two threads, the queues [P] and the view [V]. *)
Record sys_at sched main bm bs P V s : Prop := {
  sa_q : qrepr s P;
  sa_bodies : bodies s = <[main := bm]> {[ sched := bs ]};
  sa_view : view s = V;
}.

Lemma init_threads_run s :
  threads s = ∅ → (∀ q, queue q s = Pqueue 0 0) → brk s ≠ NULL →
  ∃ sched main stk tsS tsM s', init_threads s = Some (true, s') ∧ sched ≠ main ∧ sched ≠ NULL ∧ main ≠ NULL ∧
    sys_at sched main (main_tcb tsM) (sched_tcb stk tsS) (<[NQ := [(main, PTH_PRIO_STD)]]> (λ _, []))
      (pth_initialized s, main, sched, sched, pth_favournew s, errno s) s'.
Proof.
  intros Hth Hqs Hb. destruct (attr_new_run s Hb) as [k1 H1]. set (a := brk s) in *. set (m1 := malloced _ _ s) in *.
  unfold init_threads. rewrite (bind_run _ _ _ _ _ H1).
  rewrite (bind_run _ _ _ _ _ (init_attrs_run a new_attr m1 PTH_PRIO_MAX str_scheduler 0 PTH_CANCEL_DISABLE 65536 Hb eq_refl
    ltac:(by vm_compute; eexists))). fold sched_attr. set (s2 := at_attr a sched_attr m1).
  assert (brk s2 ≠ NULL) as Hb2 by (unfold s2, m1; cbn; lia).
  destruct (spawn_sched_run s2 a sched_attr (load_attr a sched_attr m1 Hb)) as (tsS & s3 & R3 & (T3 & Q3 & V3 & A3) & B3);
    [done|done|by vm_compute; eexists|done|].
  rewrite (bind_run _ _ _ _ _ R3). set (sched := brk s2) in *. set (stk := stack_of s2) in *.
  change (spawned_tcb sched_attr (copied no_name (a_name sched_attr)) (stack_size (a_stacksize sched_attr)) stk tsS fp_scheduler NULL)
    with (sched_tcb stk tsS). set (s4 := set_pth_sched (λ _, sched) (at_tcb sched (sched_tcb stk tsS) s3)).
  erewrite bind_run by reflexivity. rewrite is_null_false by done. fold s4.
  assert (load (attrs s4) a = Some sched_attr) as L4 by (change (attrs s4) with (attrs s3); rewrite A3; by apply load_attr).
  pose proof (init_attrs_run a sched_attr s4 PTH_PRIO_STD str_main 1 (Z.lor PTH_CANCEL_ENABLE PTH_CANCEL_DEFERRED) 0 Hb eq_refl
    ltac:(by vm_compute; eexists)) as R5. rewrite (at_attr_id _ _ _ L4) in R5. rewrite (bind_run _ _ _ _ _ R5). clear R5. fold main_attr. set (s5 := at_attr a main_attr s4).
  assert (threads s5 = {[ sched := Qnode NULL NULL 0 (sched_tcb stk tsS) ]}) as T5.
  { change (threads s5) with (<[sched := Qnode NULL NULL 0 (sched_tcb stk tsS)]> (threads s3)). rewrite T3. change (threads s2) with (threads s). by rewrite Hth. }
  assert (qrepr s5 (λ _, [])) as Hq5.
  { apply empty_qrepr. intros q. transitivity (queue q s3); [by destruct q|]. rewrite Q3, <- (Hqs q). by destruct q. }
  destruct (spawn_main_run s5 (λ _, []) a main_attr Hq5) as (tsM & s6 & R6 & Q6 & B6 & V6 & A6); [done|done| |by apply load_attr|done|done|by vm_compute; eexists| |].
  { rewrite T5. apply lookup_singleton_ne. change (brk s5) with (brk s3). lia. }
  { change (brk s5) with (brk s3). lia. }
  rewrite (bind_run _ _ _ _ _ R6). set (main := brk s5) in *. erewrite bind_run by reflexivity.
  assert (main ≠ NULL) as Hmn by (unfold main; change (brk s5) with (brk s3); lia). rewrite is_null_false by done. set (s7 := set_pth_main _ s6).
  assert (load (attrs s7) a = Some main_attr) as L7 by (change (attrs s7) with (attrs s6); rewrite A6; by apply load_attr).
  rewrite (bind_run _ _ true _ (set_attrs (delete a) s7)).
  2: { unfold pth_attr_destroy. rewrite is_null_false by done. unfold free, bind, ld. rewrite is_null_false by done. by rewrite L7. }
  do 2 erewrite bind_run by reflexivity. change (pth_sched (set_attrs (delete a) s7)) with (pth_sched s6).
  assert (view s3 = view s) as V3' by (rewrite V3; done).
  assert (view s6 = (pth_initialized s, pth_main s, sched, pth_current s, pth_favournew s, errno s)) as V6'.
  { rewrite V6. unfold view in V3' |- *. injection V3' as E1 E2 E3 E4 E5 E6. cbn. congruence. }
  eexists sched, main, stk, tsS, tsM, _. split; [reflexivity|]. split_and!; [change main with (brk s3); lia|done|done|]. split.
  - apply (qrepr_same s6); [done|by intros []|]. exact Q6.
  - transitivity (bodies s6); [done|]. rewrite B6. unfold bodies. rewrite T5. by rewrite map_fmap_singleton.
  - injection V6' as E1 E2 E3 E4 E5 E6.
    transitivity (pth_initialized s6, main, pth_sched s6, pth_sched s6, pth_favournew s6, errno s6); [done|congruence].
Qed.

(** ** Steps of a system of two threads *)
Section two.
Context (sched main : N) (Hne : sched ≠ main) (Hsn : sched ≠ NULL) (Hmn : main ≠ NULL).
Implicit Types (V : bool * N * N * N * Z * Z).

Lemma sa_load bm bs P V s :
  sys_at sched main bm bs P V s →
  (∃ n, load (threads s) main = Some n ∧ q_body n = bm) ∧ (∃ n, load (threads s) sched = Some n ∧ q_body n = bs).
Proof.
  intros [_ Hb _]. pose proof (f_equal (lookup main) Hb) as H1. pose proof (f_equal (lookup sched) Hb) as H2.
  unfold bodies in H1, H2. rewrite lookup_fmap in H1, H2. rewrite lookup_insert_eq in H1.
  rewrite lookup_insert_ne, lookup_singleton_eq in H2 by done.
  destruct (threads s !! main) as [n1|] eqn:E1; [|done]. destruct (threads s !! sched) as [n2|] eqn:E2; [|done].
  apply (inj Some) in H1, H2. split; [exists n1|exists n2]; (split; [by apply load_Some|done]).
Qed.

Lemma ldt_main {A} (f : tcb → A) bm bs P V s : sys_at sched main bm bs P V s → ldt main f s = Some (f bm, s).
Proof. intros [(n & Hn & <-) _]%sa_load. by apply ldt_run. Qed.

Lemma bodies_alter t g s : bodies (set_threads (alter (on_body g) t) s) = alter g t (bodies s).
Proof.
  unfold bodies. cbn. apply map_eq. intros z. rewrite lookup_fmap, !lookup_alter, lookup_fmap. case_decide; [subst|by rewrite lookup_fmap].
  by destruct (threads s !! z).
Qed.

Lemma stt_main g bm bs P V s :
  sys_at sched main bm bs P V s → ∃ s', stt main g s = Some (tt, s') ∧ sys_at sched main (g bm) bs P V s'.
Proof.
  intros Hs. destruct (sa_load _ _ _ _ _ Hs) as [(n & Hn & _) _]. eexists. split; [by eapply stt_run|]. destruct Hs as [Hq Hb Hv].
  split; [by apply qrepr_alter| |done]. by rewrite bodies_alter, Hb, alter_insert_eq.
Qed.

Lemma stt_sched g bm bs P V s :
  sys_at sched main bm bs P V s → ∃ s', stt sched g s = Some (tt, s') ∧ sys_at sched main bm (g bs) P V s'.
Proof.
  intros Hs. destruct (sa_load _ _ _ _ _ Hs) as [_ (n & Hn & _)]. eexists. split; [by eapply stt_run|]. destruct Hs as [Hq Hb Hv].
  split; [by apply qrepr_alter| |done]. by rewrite bodies_alter, Hb, alter_insert_ne, alter_singleton_eq by done.
Qed.

Lemma sa_qdelta bm bs P P' V s s' : sys_at sched main bm bs P V s → qrepr s' P' → qdelta s s' → sys_at sched main bm bs P' V s'.
Proof. intros [_ Hb Hv] Hq (Hb' & Hv' & _)%qdelta_bodies. split; [done|by rewrite Hb'|by rewrite Hv']. Qed.

Lemma sa_same bm bs P V V' s s' :
  sys_at sched main bm bs P V s → threads s' = threads s → (∀ q, queue q s' = queue q s) → view s' = V' → sys_at sched main bm bs P V' s'.
Proof.
  intros [Hq Hb _] Ht Hqs Hv. split; [by apply (qrepr_same s)| |done]. unfold bodies. by rewrite Ht.
Qed.

(** The scheduler before its loop. *)
Lemma sched_boot_run bm bs P i cur fav e s :
  sys_at sched main bm bs P (i, main, sched, cur, fav, e) s →
  ∃ snapshot s', sched_boot s = Some (snapshot, s') ∧
    sys_at sched main bm (set_state (λ _, PTH_STATE_SCHEDULER) bs) P (i, main, sched, cur, fav, e) s'.
Proof.
  intros Hs. unfold sched_boot. erewrite bind_run by done. pose proof (sa_view _ _ _ _ _ _ _ Hs) as Hv. injection Hv as _ _ -> _ _ _.
  destruct (stt_sched (set_state (λ _, PTH_STATE_SCHEDULER)) _ _ _ _ _ Hs) as (s1 & R1 & H1). rewrite (bind_run _ _ _ _ _ R1).
  unfold sigprocmask, gettimeofday, kcall. unfold bind. destruct (k_sigprocmask _ _ _) as [os k1]. destruct (k_gettimeofday _) as [now k2].
  eexists _, _. split; [reflexivity|]. eapply sa_same; [exact H1|done|by intros []|apply H1].
Qed.

(** ** The first dispatch *)
Lemma new_to_ready_main bm bs V s :
  sys_at sched main bm bs (<[NQ := [(main, PTH_PRIO_STD)]]> (λ _, [])) V s → V.1.2 = 1 →
  ∃ s' P, new_to_ready (S (size (threads s))) s = Some (tt, s') ∧ P RQ = [(main, pq_fav_prio [])] ∧ (∀ q, q ≠ RQ → P q = []) ∧
    sys_at sched main (set_state (λ _, PTH_STATE_READY) bm) bs P V s'.
Proof.
  intros Hs Hf. set (P0 := <[NQ := [(main, PTH_PRIO_STD)]]> (λ _, [])) in *.
  assert (size (threads s) ≠ 0)%nat as [m Hm]%Nat.neq_0_r.
  { destruct (sa_load _ _ _ _ _ Hs) as [(n & [_ Hn]%load_Some & _) _]. intros Hz%map_size_empty_inv. by rewrite Hz, lookup_empty in Hn. }
  rewrite Hm. cbn [new_to_ready].
  destruct (proj1 (wp_run _ _ _) (onq_tail_spec NQ s P0 (sa_q _ _ _ _ _ _ _ Hs))) as (v & ? & R1 & -> & ->).
  rewrite (bind_run _ _ _ _ _ R1). change (last_or NULL (P0 NQ).*1) with main. rewrite is_null_false by done.
  destruct (proj1 (wp_run _ _ _) (onq_delete_spec NQ main s P0 (sa_q _ _ _ _ _ _ _ Hs) ltac:(by repeat constructor) ltac:(by left)))
    as ([] & s2 & R2 & Q2 & D2). rewrite (bind_run _ _ _ _ _ R2). pose proof (sa_qdelta _ _ _ _ _ _ _ Hs Q2 D2) as H2.
  set (P1 := <[NQ := pq_del main (P0 NQ)]> P0) in *. assert (∀ q, P1 q = []) as HP1.
  { intros q. unfold P1. destruct (decide (q = NQ)) as [->|]; [|by unfold P0; rewrite !fn_lookup_insert_ne].
    rewrite fn_lookup_insert. unfold P0. rewrite fn_lookup_insert. unfold pq_del. rewrite filter_cons_False by (simpl; naive_solver). done. }
  destruct (stt_main (set_state (λ _, PTH_STATE_READY)) _ _ _ _ _ H2) as (s3 & R3 & H3). rewrite (bind_run _ _ _ _ _ R3).
  erewrite bind_run by done. assert (pth_favournew s3 = 1) as -> by (pose proof (sa_view _ _ _ _ _ _ _ H3) as <-; exact Hf).
  change (negb (1 =? 0)) with true. cbn iota.
  destruct (proj1 (wp_run _ _ _) (onq_favorite_prio_spec RQ s3 P1 (sa_q _ _ _ _ _ _ _ H3) ltac:(by rewrite HP1))) as (v & ? & R4 & -> & ->).
  rewrite (bind_run _ _ _ _ _ R4). rewrite HP1.
  destruct (proj1 (wp_run _ _ _) (onq_insert_spec RQ (pq_fav_prio []) main s3 P1 (sa_q _ _ _ _ _ _ _ H3) ltac:(by rewrite HP1)
    ltac:(done) ltac:(by intros q; rewrite HP1; apply not_elem_of_nil)
    ltac:(by destruct (sa_load _ _ _ _ _ H3) as [(n & Hn & _) _]; eexists))) as ([] & s5 & R5 & Q5 & D5).
  rewrite (bind_run _ _ _ _ _ R5). pose proof (sa_qdelta _ _ _ _ _ _ _ H3 Q5 D5) as H5.
  set (P2 := <[RQ := pq_ins (pq_fav_prio []) main (P1 RQ)]> P1) in *. assert (P2 NQ = []) as HN by (unfold P2; by rewrite fn_lookup_insert_ne, HP1).
  destruct (proj1 (wp_run _ _ _) (onq_tail_spec NQ s5 P2 (sa_q _ _ _ _ _ _ _ H5))) as (v & ? & R6 & -> & ->).
  rewrite HN in R6. exists s5, P2. split; [by rewrite (bind_run _ _ _ _ _ R6)|]. split; [|split; [|exact H5]].
  - unfold P2. by rewrite fn_lookup_insert, HP1.
  - intros q Hq. unfold P2. by rewrite fn_lookup_insert_ne, HP1.
Qed.

Lemma load_run now bm bs P V s :
  sys_at sched main bm bs P V s → ∃ s', pth_scheduler_load now s = Some (tt, s') ∧ sys_at sched main bm bs P V s'.
Proof.
  intros Hs. unfold pth_scheduler_load. erewrite bind_run by done. destruct (0 <=? _); [|by exists s].
  destruct (proj1 (wp_run _ _ _) (onq_elements_spec RQ s P (sa_q _ _ _ _ _ _ _ Hs))) as (v & ? & R1 & -> & ->).
  rewrite (bind_run _ _ _ _ _ R1). erewrite bind_run by reflexivity. eexists. split; [reflexivity|].
  eapply sa_same; [exact Hs|done|by intros []|apply Hs].
Qed.

Lemma pick_main bm bs P i cur fav e s :
  sys_at sched main bm bs P (i, main, sched, cur, fav, e) s → P RQ = [(main, pq_fav_prio [])] → (∀ q, q ≠ RQ → P q = []) →
  ∃ s', sched_pick s = Some (main, s') ∧ sys_at sched main bm bs (λ _, []) (i, main, sched, main, fav, e) s'.
Proof.
  intros Hs HR HP. unfold sched_pick.
  destruct (proj1 (wp_run _ _ _) (onq_delmax_spec RQ s P (sa_q _ _ _ _ _ _ _ Hs) ltac:(rewrite HR; by repeat constructor)))
    as (v & s1 & R1 & -> & Q1 & D1). rewrite (bind_run _ _ _ _ _ R1). rewrite HR in Q1 |- *. simpl tail in Q1. change (head_or NULL [(main, _)].*1) with main.
  pose proof (sa_qdelta _ _ _ _ _ _ _ Hs Q1 D1) as H1. erewrite bind_run by reflexivity. eexists. split; [reflexivity|].
  destruct H1 as [Hq Hb Hv]. split; [|done|].
  - apply (qrepr_same s1); [done|by intros []|]. eapply qrepr_ext; [|exact Hq]. intros q. simpl.
    destruct (decide (q = RQ)) as [->|]; [by rewrite fn_lookup_insert|rewrite fn_lookup_insert_ne by done; by rewrite HP].
  - unfold view in Hv |- *. injection Hv as E1 E2 E3 E4 E5 E6. cbn. congruence.
Qed.

(** The thread starts its first turn. *)
Definition first_turn (now : timeval) : tcb → tcb := set_dispatches (λ _, 1) ∘ set_lastran (λ _, now) ∘ set_state (λ _, PTH_STATE_READY).

Lemma dispatch_main snapshot bm bs i fav e s :
  sys_at sched main bm bs (λ _, []) (i, main, sched, main, fav, e) s → sigpendcnt bm = 0 → dispatches bm = 0 →
  ∃ now run s', dispatch_rest snapshot main s = Some (tt, s') ∧
    sys_at sched main (set_dispatches (λ _, 1) (set_lastran (λ _, now) bm)) (set_mctx_error (λ _, e) (set_running (λ _, run) bs))
      (λ _, []) (i, main, sched, main, fav, e) s'.
Proof.
  intros Hs Hp Hd. unfold dispatch_rest. unfold raise_thread_sigs.
  rewrite (bind_run _ _ tt s s) by (by rewrite (bind_run _ _ _ _ _ (ldt_main sigpendcnt _ _ _ _ _ Hs)), Hp).
  unfold gettimeofday, kcall. unfold bind at 1. destruct (k_gettimeofday (kern s)) as [now k].
  assert (sys_at sched main bm bs (λ _, []) (i, main, sched, main, fav, e) (set_kern (λ _, k) s)) as H1
    by (eapply sa_same; [exact Hs|done|by intros []|apply Hs]).
  destruct (stt_main (set_lastran (λ _, now)) _ _ _ _ _ H1) as (s2 & R2 & H2). rewrite (bind_run _ _ _ _ _ R2). erewrite bind_run by done.
  pose proof (sa_view _ _ _ _ _ _ _ H2) as Hv. injection Hv as _ _ -> _ _ _.
  destruct (stt_sched (set_running (λ r, pth_time_add r (pth_time_sub now snapshot))) _ _ _ _ _ H2) as (s3 & R3 & H3). rewrite (bind_run _ _ _ _ _ R3).
  rewrite (bind_run _ _ _ _ _ (ldt_main dispatches _ _ _ _ _ H3)). change (dispatches (set_lastran _ bm)) with (dispatches bm). rewrite Hd.
  erewrite bind_run by reflexivity. destruct (stt_main (set_dispatches (λ _, 0 + 1)) _ _ _ _ _ H3) as (s4 & R4 & H4). rewrite (bind_run _ _ _ _ _ R4).
  erewrite bind_run by done. pose proof (sa_view _ _ _ _ _ _ _ H4) as Hv. injection Hv as _ _ _ _ _ ->.
  destruct (stt_sched (set_mctx_error (λ _, e)) _ _ _ _ _ H4) as (s5 & R5 & H5). exists now, (pth_time_add (running bs) (pth_time_sub now snapshot)), s5.
  split; [exact R5|exact H5].
Qed.

Lemma first_dispatch snapshot bm bs i cur e s :
  sys_at sched main bm bs (<[NQ := [(main, PTH_PRIO_STD)]]> (λ _, [])) (i, main, sched, cur, 1, e) s → sigpendcnt bm = 0 → dispatches bm = 0 →
  ∃ now run s', sched_dispatch snapshot s = ORet tt s' ∧
    sys_at sched main (first_turn now bm) (set_mctx_error (λ _, e) (set_running (λ _, run) bs)) (λ _, []) (i, main, sched, main, 1, e) s'.
Proof.
  intros Hs Hp Hd. destruct (new_to_ready_main _ _ _ _ Hs eq_refl) as (s1 & P & R1 & HR & HP & H1).
  destruct (load_run snapshot _ _ _ _ _ H1) as (s2 & R2 & H2). destruct (pick_main _ _ _ _ _ _ _ _ H2 HR HP) as (s3 & R3 & H3).
  destruct (dispatch_main snapshot _ _ _ _ _ _ H3 Hp Hd) as (now & run & s4 & R4 & H4). exists now, run, s4. split; [|exact H4].
  unfold sched_dispatch. rewrite (cbind_atom (λ s, new_to_ready (S (size (threads s))) s) _ _ _ _ R1), (cbind_atom _ _ _ _ _ R2), (cbind_atom _ _ _ _ _ R3).
  rewrite is_null_false by done. by apply atom_run.
Qed.

End two.

(** ** Initialisation and the first dispatch *)
Definition unstarted s : Prop := threads s = ∅ ∧ pth_initialized s = false ∧ brk s ≠ NULL ∧ (k_pipe (kern s)).1.1.1 ≠ -1.

Lemma init_switch s :
  unstarted s →
  ∃ sched main stk tsS tsM s1 k, pth_init s = OSwitch s1 k ∧ sched ≠ main ∧ sched ≠ NULL ∧ main ≠ NULL ∧
    sys_at sched main (set_mctx_error (λ _, errno s) (main_tcb tsM)) (sched_tcb stk tsS) (<[NQ := [(main, PTH_PRIO_STD)]]> (λ _, []))
      (true, main, sched, sched, 1, errno s) s1 ∧
    ∀ s2 n, load (threads s2) (pth_main s2) = Some n → k s2 = ORet true (set_errno (λ _, mctx_error (q_body n)) s2).
Proof.
  intros (Hth & Hini & Hb & Hpipe). unfold pth_init. erewrite cbind_atom by done. rewrite Hini. erewrite cbind_atom by reflexivity.
  set (s1 := set_pth_initialized (λ _, true) s). erewrite cbind_atom by reflexivity.
  destruct (scheduler_init_run s1 Hpipe) as (s2 & R2 & T2 & Q2 & V2 & A2 & B2). erewrite cbind_atom by exact R2. cbn [negb].
  destruct (init_threads_run s2) as (sched & main & stk & tsS & tsM & s3 & R3 & Hne & Hsn & Hmn & H3); [by rewrite T2|done|by rewrite B2|].
  erewrite cbind_atom by exact R3. cbn [negb]. injection V2 as E1 E2 E3 E4 E5 E6. rewrite E1, E5, E6 in H3.
  change (pth_initialized s1) with true in H3. change (errno s1) with (errno s) in H3.
  pose proof (sa_view _ _ _ _ _ _ _ H3) as V3. injection V3 as F1 F2 F3 F4 F5 F6.
  erewrite cbind_atom by done. erewrite cbind_atom by done. rewrite F2, F6.
  destruct (stt_main sched main Hne Hsn Hmn (set_mctx_error (λ _, errno s)) _ _ _ _ _ H3) as (s4 & R4 & H4).
  erewrite cbind_atom by exact R4. eexists sched, main, stk, tsS, tsM, s4, _. split; [reflexivity|]. split_and!; [done..|exact H4|].
  intros s5 n Hn. transitivity ((do! main <- atom (gets pth_main); do! e <- atom (ldt main mctx_error);
    atom (modify (set_errno (λ _, e))) ;;! cret true) s5); [reflexivity|]. erewrite cbind_atom by done. erewrite cbind_atom by (by eapply ldt_run). by erewrite cbind_atom by reflexivity.
Qed.

(** The pool of threads after the first dispatch. *)
Definition boot_pool sched main (e : Z) : pool :=
  MkPool (λ _, []) (<[main := Info PTH_STATE_READY PTH_PRIO_STD 1 1]> {[ sched := Info PTH_STATE_SCHEDULER PTH_PRIO_MAX 0 0 ]})
    main sched 1 e true.

Lemma boot_pool_inv sched main e : sched ≠ main → main ≠ NULL → pool_inv (boot_pool sched main e).
Proof.
  intros Hne Hmn. split.
  - by intros q t Ht%not_elem_of_nil.
  - apply NoDup_singleton.
  - simpl. unfold places. simpl. set_solver.
  - intros _. unfold allocated. rewrite decide_False by done. simpl. rewrite lookup_insert_eq. by eexists.
Qed.


End boot.

(** ** An example *)
Definition toy_fresh : @St toy_kernel := set_pth_initialized (λ _, false) (set_threads (λ _, ∅) toy_state).

