(* ===== verification/Wakeup.v ===== *)
(** * Waking threads up (the event manager's second pass)

After [select] has returned, [em_late] goes through the waiting queue, gives every
pending event its final status and moves the threads that have something to run
for to the ready queue.  The theorem says which threads those are. *)
From stdpp Require Import functions.
From S2P Require Import State Pool Data Sys Event Tcb Sync Sched Lib Threads.

Section late.
Context {Kern : Kernel}.
Implicit Types (s : St) (e : event) (sets : gset Z * gset Z * gset Z).

(** Which objects are allocated; and with threads and queues. *)
Definition objects s :=
  ((dom (fdsets s), dom (ints s), dom (sigsets s)), (dom (conds s), dom (mutexes s), dom (msgports s))).
Definition shape s := (tpart s, objects s).

Definition lives {V} (h : gmap N V) (p : N) : Prop := p ≠ NULL ∧ p ∈ dom h.
Definition null_or_lives {V} (h : gmap N V) (p : N) : Prop := p = NULL ∨ lives h p.

Lemma lives_load {V} (h : gmap N V) p : lives h p ↔ is_Some (load h p).
Proof. unfold lives. rewrite elem_of_dom. unfold is_Some. setoid_rewrite load_Some. naive_solver. Qed.

(** An event whose arguments fit its type and whose pointers are valid. *)
Definition ev_good s e : Prop :=
  (ev_type e = PTH_EVENT_FD → ∃ fd, ev_args e = FD fd ∧ 0 ≤ fd < FD_SETSIZE) ∧
  (ev_type e = PTH_EVENT_SELECT → ∃ n nfd r w x, ev_args e = SELECT n nfd r w x ∧ 0 ≤ nfd ≤ FD_SETSIZE ∧
     null_or_lives (ints s) n ∧ null_or_lives (fdsets s) r ∧ null_or_lives (fdsets s) w ∧ null_or_lives (fdsets s) x) ∧
  (ev_type e = PTH_EVENT_SIGS → ∃ sigs sigp, ev_args e = SIGS sigs sigp ∧ lives (sigsets s) sigs ∧ null_or_lives (ints s) sigp) ∧
  (ev_type e = PTH_EVENT_COND → ∃ c, ev_args e = COND c ∧ lives (conds s) c).

Lemma ev_good_objects s s' e : objects s' = objects s → ev_good s e → ev_good s' e.
Proof.
  unfold objects, ev_good, null_or_lives, lives. intros He.
  replace (dom (fdsets s')) with (dom (fdsets s)) by congruence. replace (dom (ints s')) with (dom (ints s)) by congruence.
  replace (dom (sigsets s')) with (dom (sigsets s)) by congruence. by replace (dom (conds s')) with (dom (conds s)) by congruence.
Qed.

(** Is the descriptor of the event in the set of its goal? *)
Definition fd_hits sets (goal fd : Z) : bool :=
  let '(r, w, x) := sets in
  has goal PTH_UNTIL_FD_READABLE && bool_decide (fd ∈ r) ||
  has goal PTH_UNTIL_FD_WRITEABLE && bool_decide (fd ∈ w) ||
  has goal PTH_UNTIL_FD_EXCEPTION && bool_decide (fd ∈ x).

(** The status [x] that the second pass may give to the event [e]. *)
Definition status_ok sets e (x : pth_status) : Prop :=
  if decide (ev_status e = PTH_STATUS_PENDING) then
    if ev_type e =? PTH_EVENT_FD then
      ∃ fd, ev_args e = FD fd ∧ x = if fd_hits sets (ev_goal e) fd then PTH_STATUS_OCCURRED else PTH_STATUS_PENDING
    else if (ev_type e =? PTH_EVENT_SELECT) || (ev_type e =? PTH_EVENT_SIGS)
    then x = PTH_STATUS_PENDING ∨ x = PTH_STATUS_OCCURRED
    else x = PTH_STATUS_PENDING
  else x = ev_status e.

(** The state after the status of [ev] was set to [x]. *)
Definition decided ev x s s' : Prop :=
  shape s' = shape s ∧ evs s' = alter (set_ev_status (λ _, x)) ev (evs s).

Lemma decided_same ev e s s' :
  load (evs s) ev = Some e → shape s' = shape s → evs s' = evs s → decided ev (ev_status e) s s'.
Proof.
  intros [_ He]%load_Some Hs Hev. split; [done|]. rewrite Hev. apply map_eq. intros y. rewrite lookup_alter.
  case_decide; [subst|done]. rewrite He. simpl. f_equal. by destruct e.
Qed.

Lemma decided_set ev e x s :
  load (evs s) ev = Some e → wp (ste ev (set_ev_status (λ _, x))) (λ _ s', decided ev x s s') s.
Proof. intros He. rewrite (wp_ste _ _ _ _ e He). done. Qed.

Lemma fd_hit_run goal flag fd f s :
  0 ≤ fd < FD_SETSIZE → fd_hit goal flag fd f s = Some (has goal flag && bool_decide (fd ∈ f), s).
Proof.
  intros Hfd. unfold fd_hit. destruct (has goal flag); [|done]. unfold lift_opt. by rewrite FD_ISSET_ok.
Qed.

Lemma late_fd_wp fuel rc ev e fd sets s :
  0 ≤ rc → 0 ≤ fd < FD_SETSIZE → load (evs s) ev = Some e → ev_status e = PTH_STATUS_PENDING →
  wp (late_fd fuel rc ev (ev_goal e) fd sets)
    (λ sets' s', sets' = sets ∧
       decided ev (if fd_hits sets (ev_goal e) fd then PTH_STATUS_OCCURRED else PTH_STATUS_PENDING) s s') s.
Proof.
  intros Hrc Hfd He Hp. destruct sets as [[r w] x]. unfold late_fd, fd_hits.
  rewrite wp_bind. unfold wp at 1. rewrite fd_hit_run by done.
  assert (∀ (b : bool) flag f, wp (if b then ret true else fd_hit (ev_goal e) flag fd f)
    (λ h s', h = b || has (ev_goal e) flag && bool_decide (fd ∈ f) ∧ s' = s) s) as Hhit.
  { intros [] flag f; [done|]. unfold wp. by rewrite fd_hit_run. }
  rewrite wp_bind. eapply wp_mono; [apply Hhit|]. intros h2 s2 [-> ->].
  rewrite wp_bind. eapply wp_mono; [apply Hhit|]. intros h3 s3 [-> ->].
  destruct (_ || _ || _).
  - rewrite wp_bind. eapply wp_mono; [by eapply decided_set|]. intros [] s' Hd. by rewrite wp_ret.
  - rewrite (proj2 (Z.ltb_ge rc 0)) by lia. rewrite wp_ret. split; [done|]. rewrite <- Hp. by eapply decided_same.
Qed.

(** Steps that touch no event. *)
Definition quiet s s' : Prop := shape s' = shape s ∧ evs s' = evs s.

#[local] Instance quiet_refl : Reflexive quiet.
Proof. by split. Qed.
#[local] Instance quiet_trans : Transitive quiet.
Proof. intros s1 s2 s3 [? ?] [? ?]. split; congruence. Qed.

Lemma decided_trans ev x y s s1 s2 : decided ev x s s1 → decided ev y s1 s2 → decided ev y s s2.
Proof.
  intros [Hs1 He1] [Hs2 He2]. split; [congruence|]. rewrite He2, He1, alter_alter_eq. apply alter_ext. by intros [].
Qed.

Lemma quiet_decided ev x s s1 s2 : quiet s s1 → decided ev x s1 s2 → decided ev x s s2.
Proof. intros [Hs1 He1] [Hs2 He2]. split; congruence. Qed.

Lemma quiet_ld_fdset p s : null_or_lives (fdsets s) p → ∃ f, ld_fdset p s = Some (f, s).
Proof.
  unfold ld_fdset. intros [->|Hl]; [by eexists|]. pose proof Hl as [f Hf]%lives_load. destruct Hl as [Hnz _].
  rewrite is_null_false by done. eexists. erewrite bind_run by (unfold ld; by rewrite Hf). reflexivity.
Qed.

Lemma quiet_st_fdset p f s : null_or_lives (fdsets s) p → wp (st_fdset p f) (λ _ s', quiet s s') s.
Proof.
  intros Hp. destruct f as [f|]; [|done]. unfold st_fdset. destruct Hp as [->|Hl]; [done|].
  pose proof Hl as [g Hg]%lives_load. destruct Hl as [Hnz _]. rewrite is_null_false by done.
  rewrite (wp_st _ _ _ _ _ _ g) by done. split; [|done]. unfold shape, objects. cbn. by rewrite dom_alter_L.
Qed.

Lemma quiet_st_int p v s : null_or_lives (ints s) p → wp (if is_null p then ret tt else st ints set_ints p (λ _, v)) (λ _ s', quiet s s') s.
Proof.
  intros [->|Hl]; [done|]. pose proof Hl as [g Hg]%lives_load. destruct Hl as [Hnz _]. rewrite is_null_false by done.
  rewrite (wp_st _ _ _ _ _ _ g) by done. split; [|done]. unfold shape, objects. cbn. by rewrite dom_alter_L.
Qed.

Lemma quiet_null_or_lives_fd s s' p : quiet s s' → null_or_lives (fdsets s) p → null_or_lives (fdsets s') p.
Proof. intros [He _]. unfold null_or_lives, lives, shape, objects in *. by replace (dom (fdsets s')) with (dom (fdsets s)) by congruence. Qed.

Lemma quiet_null_or_lives_int s s' p : quiet s s' → null_or_lives (ints s) p → null_or_lives (ints s') p.
Proof. intros [He _]. unfold null_or_lives, lives, shape, objects in *. by replace (dom (ints s')) with (dom (ints s)) by congruence. Qed.

Lemma quiet_load s s' ev e : quiet s s' → load (evs s) ev = Some e → load (evs s') ev = Some e.
Proof. intros [_ ->]. done. Qed.

Lemma late_select_wp fuel rc ev e n nfd r w x sets s :
  0 ≤ rc → 0 ≤ nfd ≤ FD_SETSIZE → null_or_lives (ints s) n → null_or_lives (fdsets s) r →
  null_or_lives (fdsets s) w → null_or_lives (fdsets s) x → load (evs s) ev = Some e → ev_status e = PTH_STATUS_PENDING →
  wp (late_select fuel rc ev n nfd r w x sets)
    (λ _ s', ∃ y, (y = PTH_STATUS_PENDING ∨ y = PTH_STATUS_OCCURRED) ∧ decided ev y s s') s.
Proof.
  intros Hrc Hnfd Hn Hr Hw Hx He Hp. destruct sets as [[sr sw] sx]. unfold late_select.
  destruct (quiet_ld_fdset r s Hr) as [fr Hfr], (quiet_ld_fdset w s Hw) as [fw Hfw], (quiet_ld_fdset x s Hx) as [fx Hfx].
  rewrite wp_bind. unfold wp at 1. rewrite Hfr. rewrite wp_bind. unfold wp at 1. rewrite Hfw.
  rewrite wp_bind. unfold wp at 1. rewrite Hfx.
  unfold pth_util_fds_test, pth_util_fds_select, FD_SETSIZE in *.
  destruct (fds_test_loop_ok (Z.to_nat nfd) 0 fr fw fx sr sw sx) as (b & -> & _); [lia..|].
  rewrite wp_bind. change (wp (lift_opt (Some b)) ?Q s) with (Q b s). cbv beta. destruct b.
  - rewrite fds_select_loop_ok by lia. rewrite wp_bind. change (wp (lift_opt (Some ?c)) ?Q s) with (Q c s). cbv beta iota.
    rewrite wp_bind. eapply wp_mono; [by apply quiet_st_fdset|]. intros [] s1 H1.
    rewrite wp_bind. eapply wp_mono; [apply quiet_st_fdset; by eapply quiet_null_or_lives_fd|]. intros [] s2 H2.
    assert (quiet s s2) as H02 by (by etrans).
    rewrite wp_bind. eapply wp_mono; [apply quiet_st_fdset; by eapply quiet_null_or_lives_fd|]. intros [] s3 H3.
    assert (quiet s s3) as H03 by (by etrans).
    rewrite wp_bind. eapply wp_mono; [apply quiet_st_int; by eapply quiet_null_or_lives_int|]. intros [] s4 H4.
    assert (quiet s s4) as H04 by (by etrans).
    eapply wp_mono; [eapply decided_set; by eapply quiet_load|]. intros [] s5 H5.
    exists PTH_STATUS_OCCURRED. split; [by right|]. by eapply quiet_decided.
  - rewrite (proj2 (Z.ltb_ge rc 0)) by lia. rewrite wp_ret. exists PTH_STATUS_PENDING. split; [by left|].
    rewrite <- Hp. by eapply decided_same.
Qed.

Lemma late_sig_wp sigs sigp sig ev e s :
  lives (sigsets s) sigs → null_or_lives (ints s) sigp → load (evs s) ev = Some e →
  wp (late_sig ev sigs sigp sig tt) (λ _ s', ∃ y, (y = ev_status e ∨ y = PTH_STATUS_OCCURRED) ∧ decided ev y s s') s.
Proof.
  intros Hss Hsp He. unfold late_sig. pose proof Hss as [ss Hl]%lives_load.
  rewrite wp_bind, (wp_ld _ _ _ _ _ ss) by done. rewrite wp_bind, wp_gets. destruct (_ && _).
  - rewrite wp_bind. eapply wp_mono; [by apply quiet_st_int|]. intros [] s1 H1. rewrite wp_bind, wp_modify.
    eapply wp_mono; [eapply (decided_set _ e); by apply (quiet_load s s1)|]. intros [] s2 H2.
    exists PTH_STATUS_OCCURRED. split; [by right|]. by eapply quiet_decided.
  - rewrite wp_ret. exists (ev_status e). split; [by left|]. by eapply decided_same.
Qed.

Lemma decided_load ev x s s' e : decided ev x s s' → load (evs s) ev = Some e → load (evs s') ev = Some (set_ev_status (λ _, x) e).
Proof. intros [_ ->] He. by apply load_alter_eq. Qed.

Lemma late_sigs_wp sigs sigp l ev e s :
  lives (sigsets s) sigs → null_or_lives (ints s) sigp → load (evs s) ev = Some e →
  wp (for_sigs l (late_sig ev sigs sigp) tt)
    (λ _ s', ∃ y, (y = ev_status e ∨ y = PTH_STATUS_OCCURRED) ∧ decided ev y s s') s.
Proof.
  intros Hss Hsp He.
  apply (for_sigs_wp _ _ (λ _ s', ∃ y, (y = ev_status e ∨ y = PTH_STATUS_OCCURRED) ∧ decided ev y s s')).
  - intros sig [] s1 (y & Hy & Hd). pose proof Hd as [Hsh _]. eapply wp_mono; [eapply late_sig_wp|].
    + unfold lives, shape, objects in *. by replace (dom (sigsets s1)) with (dom (sigsets s)) by congruence.
    + unfold null_or_lives, lives, shape, objects in *. by replace (dom (ints s1)) with (dom (ints s)) by congruence.
    + by eapply decided_load.
    + intros [] s2 (z & Hz & Hd2). exists z. split; [|by eapply decided_trans]. simpl in Hz. naive_solver.
  - exists (ev_status e). split; [by left|]. by eapply decided_same.
Qed.

(** What the pass does to an event that is not pending any more. *)
Lemma late_cond_wp c s :
  lives (conds s) c →
  wp (do x <- ld conds c cn_state;
      if has x PTH_COND_SIGNALED then
        st conds set_conds c (λ c,
          Cond (Z.land (Z.land (Z.land (cn_state c) (Z.lnot PTH_COND_SIGNALED)) (Z.lnot PTH_COND_BROADCAST))
                       (Z.lnot PTH_COND_HANDLED)) (cn_waiters c))
      else ret tt) (λ _ s', quiet s s') s.
Proof.
  intros [cn Hc]%lives_load. rewrite wp_bind, (wp_ld _ _ _ _ _ cn) by done. destruct (has _ _); [|by rewrite wp_ret].
  rewrite (wp_st _ _ _ _ _ _ cn) by done. split; [|done]. unfold shape, objects. cbn. by rewrite dom_alter_L.
Qed.

Lemma late_event_wp fuel rc ev e sets any s :
  0 ≤ rc → load (evs s) ev = Some e → ev_good s e →
  wp (late_event fuel rc ev (sets, any))
    (λ r s', r.1 = sets ∧ ∃ x, status_ok sets e x ∧ decided ev x s s' ∧
       r.2 = any || negb (bool_decide (x = PTH_STATUS_PENDING))) s.
Proof.
  intros Hrc He (Hfd & Hsel & Hsig & Hcond). unfold late_event.
  do 4 (rewrite wp_bind, (wp_lde _ _ _ _ e He)). rewrite wp_bind.
  eapply (wp_mono _ (λ sets' s', sets' = sets ∧ ∃ x, status_ok sets e x ∧ decided ev x s s')).
  2: { intros sets' s' (-> & x & Hx & Hd). pose proof (decided_load _ _ _ _ _ Hd He) as He'.
       rewrite wp_bind, (wp_lde _ _ _ _ _ He'), wp_ret. split; [done|]. by exists x. }
  unfold status_ok. case_bool_decide as Hp.
  - destruct (decide (ev_status e = PTH_STATUS_PENDING)) as [_|]; [|done].
    destruct (Z.eqb_spec (ev_type e) PTH_EVENT_FD) as [Ht|_].
    { destruct (Hfd Ht) as (fd & Ha & Hr). rewrite Ha. eapply wp_mono; [by apply late_fd_wp|].
      intros sets' s' [-> Hd]. split; [done|]. eexists. split; [|exact Hd]. by exists fd. }
    destruct (Z.eqb_spec (ev_type e) PTH_EVENT_SELECT) as [Ht|_].
    { destruct (Hsel Ht) as (n & nfd & r & w & x & Ha & Hn & Hl1 & Hl2 & Hl3 & Hl4). rewrite Ha. rewrite wp_bind.
      eapply wp_mono; [by apply (late_select_wp fuel rc ev e)|]. intros [] s' (y & Hy & Hd). rewrite wp_ret.
      split; [done|]. by exists y. }
    destruct (Z.eqb_spec (ev_type e) PTH_EVENT_SIGS) as [Ht|_].
    { destruct (Hsig Ht) as (sigs & sigp & Ha & Hl1 & Hl2). rewrite Ha. rewrite wp_bind.
      eapply wp_mono; [by apply late_sigs_wp|]. intros [] s' (y & Hy & Hd). rewrite wp_ret.
      split; [done|]. rewrite Hp in Hy. by exists y. }
    rewrite wp_ret. split; [done|]. exists PTH_STATUS_PENDING. split; [done|]. rewrite <- Hp. by eapply decided_same.
  - destruct (decide (ev_status e = PTH_STATUS_PENDING)) as [|_]; [done|].
    destruct (Z.eqb_spec (ev_type e) PTH_EVENT_COND) as [Ht|_].
    { destruct (Hcond Ht) as (c & Ha & Hl). rewrite Ha. pose proof (late_cond_wp c s Hl) as Hc. rewrite wp_bind in Hc.
      rewrite wp_bind. eapply wp_mono; [exact Hc|]. intros z s1 Hz. rewrite wp_bind. eapply wp_mono; [exact Hz|].
      intros [] s' [Hq1 Hq2]. rewrite wp_ret. split; [done|]. exists (ev_status e). split; [done|]. by eapply decided_same. }
    rewrite wp_ret. split; [done|]. exists (ev_status e). split; [done|]. by eapply decided_same.
Qed.

(** ** A ring *)

(** The events [L] have been decided, the others are untouched. *)
Definition passed sets (L : list N) (h h' : gmap N event) : Prop :=
  ∀ y, if decide (y ∈ L)
       then option_Forall2 (λ e e', ∃ x, status_ok sets e x ∧ e' = set_ev_status (λ _, x) e) (h !! y) (h' !! y)
       else h' !! y = h !! y.

Lemma passed_nil sets h : passed sets [] h h.
Proof. by intros y. Qed.

Lemma passed_app sets L1 L2 h h1 h2 :
  L1 ## L2 → passed sets L1 h h1 → passed sets L2 h1 h2 → passed sets (L1 ++ L2) h h2.
Proof.
  intros Hd H1 H2 y. specialize (H1 y). specialize (H2 y). destruct (decide (y ∈ L1 ++ L2)) as [Hy|Hy].
  - apply elem_of_app in Hy. destruct (decide (y ∈ L1)) as [Hy1|Hy1].
    + rewrite (decide_False (P := y ∈ L2)) in H2 by (intros ?; by apply (Hd y)). by rewrite H2.
    + destruct Hy as [|Hy2]; [done|]. rewrite decide_True in H2 by done. by rewrite <- H1.
  - rewrite elem_of_app in Hy. rewrite decide_False in H1 by tauto. rewrite decide_False in H2 by tauto. congruence.
Qed.

Lemma passed_one sets ev e x h :
  load h ev = Some e → status_ok sets e x → passed sets [ev] h (alter (set_ev_status (λ _, x)) ev h).
Proof.
  intros [_ He]%load_Some Hx y. case_decide as Hy.
  - apply list_elem_of_singleton in Hy as ->. rewrite He, lookup_alter_eq, He. constructor. by exists x.
  - rewrite lookup_alter_ne; [done|]. intros ->. apply Hy. by left.
Qed.

Lemma passed_cyc sets L h h' l : passed sets L h h' → cyc h l → cyc h' l.
Proof.
  intros Hp Hc. assert (∀ y e, load h y = Some e → ∃ e', load h' y = Some e' ∧ ev_next e' = ev_next e ∧ ev_prev e' = ev_prev e) as Hl.
  { intros y e [Hnz He]%load_Some. specialize (Hp y). case_decide.
    - rewrite He in Hp. inversion Hp as [? ? (x & _ & ->)|]; subst. eexists. split; [by apply load_Some|done].
    - exists e. split; [|done]. apply load_Some. by rewrite Hp. }
  eapply cyc_ext; [exact Hc|..]; intros z Hz; destruct (cyc_load _ _ z Hc Hz) as [e He];
    destruct (Hl z e He) as (e' & He' & Hn & Hpv); unfold nxf, pvf; rewrite He, He'; simpl; f_equal; assumption.
Qed.

Lemma occurred_in_ext h h' l : (∀ y, y ∈ l → h' !! y = h !! y) → occurred_in h' l = occurred_in h l.
Proof.
  unfold occurred_in. induction l as [|y l IH]; intros Hl; [done|]. rewrite !filter_cons, Hl by (by left).
  rewrite IH; [done|]. intros z Hz. apply Hl. by right.
Qed.

Lemma occurred_in_app h l1 l2 : occurred_in h (l1 ++ l2) = occurred_in h l1 ++ occurred_in h l2.
Proof. apply filter_app. Qed.

Lemma occurred_in_one h y e :
  h !! y = Some e → occurred_in h [y] = match ev_status e with PTH_STATUS_PENDING => [] | _ => [y] end.
Proof. intros He. unfold occurred_in. rewrite filter_cons, He. simpl. by destruct (ev_status e). Qed.

Lemma late_ring_wp fuel rc ev l sets s :
  0 ≤ rc → cyc (evs s) (ev :: l) → (∀ y e, y ∈ ev :: l → evs s !! y = Some e → ev_good s e) →
  wp (over_ring ev (late_event fuel rc) (sets, false))
    (λ r s', r = (sets, negb (bool_decide (occurred_in (evs s') (ev :: l) = []))) ∧ shape s' = shape s ∧
       passed sets (ev :: l) (evs s) (evs s')) s.
Proof.
  intros Hrc Hc Hgood. pose proof (cyc_NoDup _ _ Hc) as Hnd.
  eapply wp_mono; [apply (over_ring_spec _ (λ done r s', r = (sets, negb (bool_decide (occurred_in (evs s') done = []))) ∧
    shape s' = shape s ∧ passed sets done (evs s) (evs s')) ev l); [done| |]|by intros r s' [? _]].
  - intros done y todo r s1 Hl (-> & Hsh & Hpass) Hc1.
    assert (y ∈ ev :: l) as Hy by (rewrite Hl; apply elem_of_app; right; by left).
    assert (y ∉ done) as Hnew. { rewrite Hl in Hnd. apply NoDup_app in Hnd as (_ & Hx & _). intros Hin. apply (Hx y Hin). by left. }
    destruct (cyc_load _ _ y Hc1 Hy) as [e He]. pose proof He as [Hnz He']%load_Some.
    assert (evs s !! y = Some e) as He0. { specialize (Hpass y). rewrite decide_False in Hpass by done. congruence. }
    eapply wp_mono; [apply (late_event_wp fuel rc y e); [done|done|]|].
    { eapply ev_good_objects; [|by eapply Hgood]. unfold shape in Hsh. congruence. }
    intros [sets' any'] s2 (Hsets & x & Hx & Hd & Hany). cbn in Hsets, Hany. subst sets' any'. pose proof Hd as [Hsh2 Hev2].
    assert (passed sets [y] (evs s1) (evs s2)) as Hp1 by (rewrite Hev2; by apply (passed_one _ _ e)).
    split; [|by eapply passed_cyc]. split_and!; [|congruence|eapply passed_app; [|done|done]].
    + assert (occurred_in (evs s2) done = occurred_in (evs s1) done) as Hocc.
      { apply occurred_in_ext. intros z Hz. rewrite Hev2, lookup_alter_ne; [done|]. by intros ->. }
      f_equal. rewrite occurred_in_app, Hocc, Hev2. rewrite (occurred_in_one _ y (set_ev_status (λ _, x) e)).
      2: { by rewrite lookup_alter_eq, He'. }
      simpl. destruct (occurred_in (evs s1) done) as [|z zs]; simpl; [|done]. by destruct x.
    + intros z Hz1 Hz2%list_elem_of_singleton. by subst.
  - split_and!; [done..|apply passed_nil].
Qed.

(** ** The waiting queue *)

(** The members of a thread that the pass reads. *)
Definition wants (b : tcb) : N * bool := (events b, cancelreq b).

(** The queue [W] of waiting threads, each with its ring of events. *)
Record waiting s (W : list N) (rings : N → list N) : Prop := {
  wt_ring t : t ∈ W → cyc (evs s) (rings t) ∧ ∃ n, load (threads s) t = Some n ∧ events (q_body n) = head_or NULL (rings t);
  wt_good t y e : t ∈ W → y ∈ rings t → evs s !! y = Some e → ev_good s e;
  wt_disj t t' : t ∈ W → t' ∈ W → t ≠ t' → rings t ## rings t'
}.

(** A thread is asked to end. *)
Definition asked s (t : N) : bool := default false (cancelreq ∘ q_body <$> threads s !! t).

(** Making the thread [t] ready on pools. *)
Definition woken (t : N) (a : pool) : pool :=
  match allocated a t with
  | Some i => with_q RQ (pq_ins (i_prio i + 1) t (pl_q a RQ))
                (with_state t PTH_STATE_READY (with_q WQ (pq_del t (pl_q a WQ)) a))
  | None => a
  end.

(** The pass leaves alone what it reads later. *)
Definition undisturbed s s' : Prop :=
  objects s' = objects s ∧ ∀ t, wants ∘ q_body <$> threads s' !! t = wants ∘ q_body <$> threads s !! t.

#[local] Instance undisturbed_trans : Transitive undisturbed.
Proof. intros s1 s2 s3 [? H1] [? H2]. split; [congruence|]. intros t. by rewrite H2, H1. Qed.

Lemma undisturbed_asked s s' t : undisturbed s s' → asked s' t = asked s t.
Proof.
  intros [_ Hw]. specialize (Hw t). unfold asked. destruct (threads s' !! t), (threads s !! t); simplify_eq/=; done.
Qed.

Lemma qdelta_undisturbed s s' : qdelta s s' → undisturbed s s' ∧ evs s' = evs s.
Proof.
  intros [Hr Hb]. split; [split|by apply (f_equal evs) in Hr].
  - by apply (f_equal objects) in Hr.
  - intros t. specialize (Hb t). destruct (threads s' !! t), (threads s !! t); simplify_eq/=; [|done]. unfold wants. congruence.
Qed.

Lemma wake_frame s a t i :
  pool_repr s a → queues_ok a → t ∈ (pl_q a WQ).*1 → allocated a t = Some i → - PB ≤ i_prio i < PB →
  wp (wake t) (λ _ s', undisturbed s s' ∧ evs s' = evs s) s.
Proof.
  intros Ha Hok Ht Hi Hp. destruct (pool_alloc _ _ _ _ Ha Hi) as (n & Hn & Hni). unfold wake. rewrite wp_bind.
  eapply wp_mono; [apply (onq_delete_spec WQ t s (pl_q a)); [apply Ha|apply Hok|done]|]. intros [] s1 [Hq1 Hd1].
  destruct (qdelta_undisturbed _ _ Hd1) as [Hu1 He1]. destruct (qdelta_load _ _ _ _ Hd1 Hn) as (n1 & Hn1 & Hb1).
  rewrite wp_bind, (wp_stt _ _ _ _ n1) by done. set (s2 := set_threads _ s1).
  assert (undisturbed s s2 ∧ evs s2 = evs s) as [Hu2 He2].
  { split; [|by rewrite <- He1]. etrans; [exact Hu1|]. split; [done|]. intros x. unfold s2. cbn. rewrite lookup_alter.
    case_decide; [subst|done]. by destruct (threads s1 !! x). }
  assert (load (threads s2) t = Some (on_body (set_state (λ _, PTH_STATE_READY)) n1)) as Hn2 by (by apply load_alter_eq).
  rewrite wp_bind, (wp_ldt _ _ _ _ _ Hn2).
  assert (prio (q_body (on_body (set_state (λ _, PTH_STATE_READY)) n1)) = i_prio i) as ->.
  { cbn. by rewrite Hb1, <- Hni. }
  rewrite wp_bind.
  apply wp_int_chk; [unfold PB, INT_MIN, INT_MAX in *; lia|].
  eapply wp_mono; [apply (onq_insert_spec RQ _ t s2 (<[WQ := pq_del t (pl_q a WQ)]> (pl_q a)))|].
  - by apply qrepr_alter.
  - apply Hok.
  - unfold prio_ok. lia.
  - apply (pool_unqueued s a WQ t Ha Ht).
  - by eexists.
  - intros [] s3 [_ Hd3]. destruct (qdelta_undisturbed _ _ Hd3) as [Hu3 He3]. split; [by etrans|congruence].
Qed.

(** Room in the ready queue for the threads [W], whose priorities can be increased. *)
Definition wakeable (a : pool) (W : list N) : Prop :=
  queues_ok a ∧ Z.of_nat (length (pl_q a RQ) + length W) < INT_MAX ∧
  ∀ t, t ∈ W → ∃ i, allocated a t = Some i ∧ - PB ≤ i_prio i < PB.

Lemma wakeable_skip a t W : wakeable a (t :: W) → wakeable a W.
Proof. intros (? & Hl & Hp). split_and!; [done|simpl in Hl; lia|]. intros t' Ht'. apply Hp. by right. Qed.

Lemma wakeable_woken a t W : t ∉ W → wakeable a (t :: W) → wakeable (woken t a) W.
Proof.
  intros Hnot (Hq & Hl & Hp). destruct (Hp t) as (i & Hi & Hr); [by left|]. unfold woken. rewrite Hi. simpl in Hl. split_and!.
  - intros q. cbn. destruct (decide (q = RQ)) as [->|Hne]; [rewrite fn_lookup_insert|rewrite fn_lookup_insert_ne by done].
    + destruct (Hq RQ) as [Hf _]. split; [|rewrite pq_ins_length; lia]. rewrite pq_ins_elems. constructor; [|done].
      unfold prio_ok. simpl. lia.
    + destruct (decide (q = WQ)) as [->|Hne2]; [rewrite fn_lookup_insert; by apply pq_del_ok|rewrite fn_lookup_insert_ne by done; apply Hq].
  - cbn. rewrite fn_lookup_insert, pq_ins_length. lia.
  - intros t' Ht'. destruct (Hp t') as (i' & Hi' & Hr'); [by right|]. exists i'. split; [|done]. rewrite <- Hi'.
    unfold allocated. cbn. case_decide; [done|]. rewrite lookup_alter_ne; [done|]. by intros ->.
Qed.

Lemma waiting_step s s' sets t W rings :
  undisturbed s s' → passed sets (rings t) (evs s) (evs s') → t ∉ W → waiting s (t :: W) rings → waiting s' W rings.
Proof.
  intros [Ho Hw] Hp Hnot [Hr Hg Hd]. assert (∀ t' y, t' ∈ W → y ∈ rings t' → y ∉ rings t) as Hother.
  { intros t' y Ht' Hy Hy'. apply (Hd t t' ltac:(by left) ltac:(by right) ltac:(by intros ->) y Hy' Hy). }
  split.
  - intros t' Ht'. destruct (Hr t') as (Hc & n & [Hnz Hn]%load_Some & He); [by right|]. split; [by eapply passed_cyc|].
    specialize (Hw t'). rewrite Hn in Hw. destruct (threads s' !! t') as [n'|] eqn:Hn'; simplify_eq/=.
    exists n'. split; [by apply load_Some|]. unfold wants in Hw. congruence.
  - intros t' y e Ht' Hy He. eapply ev_good_objects; [done|]. eapply (Hg t'); [by right|done|].
    specialize (Hp y). rewrite decide_False in Hp by (by eapply Hother). congruence.
  - intros t1 t2 H1 H2. apply Hd; by right.
Qed.

(** The ring of one thread, if it has one. *)
Lemma late_thread_wp fuel rc t W rings sets s n :
  0 ≤ rc → waiting s (t :: W) rings → load (threads s) t = Some n →
  wp (if is_null (events (q_body n)) then ret (sets, false) else over_ring (events (q_body n)) (late_event fuel rc) (sets, false))
    (λ r s', r = (sets, negb (bool_decide (occurred_in (evs s') (rings t) = []))) ∧ shape s' = shape s ∧
       passed sets (rings t) (evs s) (evs s')) s.
Proof.
  intros Hrc Hw Hn. destruct (wt_ring _ _ _ Hw t) as (Hc & n' & Hn' & He); [by left|]. simplify_eq. rewrite He.
  destruct (rings t) as [|ev l] eqn:Hl.
  - change (is_null (head_or NULL ([] : list N))) with true. cbn iota. rewrite wp_ret. split_and!; [done..|apply passed_nil].
  - rewrite head_or_cons. rewrite is_null_false by (eapply cyc_nonnull; [exact Hc|by left]).
    apply late_ring_wp; [done..|]. intros y e Hy. rewrite <- Hl in Hy. by apply (wt_good _ _ _ Hw t y e); [left|].
Qed.

Lemma shape_tpart s s' : shape s' = shape s → tpart s' = tpart s.
Proof. intros Hs. by apply (f_equal fst) in Hs. Qed.

Lemma shape_threads s s' : shape s' = shape s → threads s' = threads s.
Proof. intros Hs%shape_tpart. by apply (f_equal (λ x, x.1.1)) in Hs. Qed.

Lemma shape_undisturbed s s' : shape s' = shape s → undisturbed s s'.
Proof. intros He. unfold shape, tpart in He. split; [congruence|]. intros t. by replace (threads s') with (threads s) by congruence. Qed.

(** The threads of [W] that have something to run for. *)
Definition runnable s s' (rings : N → list N) (W : list N) : list N :=
  filter (λ t, asked s t || negb (bool_decide (occurred_in (evs s') (rings t) = []))) W.

Lemma runnable_cons s s1 s2 s' sets rings t W :
  (∀ t', asked s1 t' = asked s t') → passed sets (concat (rings <$> W)) (evs s2) (evs s') →
  rings t ## concat (rings <$> W) →
  runnable s s' rings (t :: W) =
    (if asked s t || negb (bool_decide (occurred_in (evs s2) (rings t) = [])) then [t] else []) ++ runnable s1 s' rings W.
Proof.
  intros Hask Hp Hd. unfold runnable. rewrite filter_cons.
  replace (filter (λ t0, asked s1 t0 || negb (bool_decide (occurred_in (evs s') (rings t0) = []))) W)
    with (filter (λ t0, asked s t0 || negb (bool_decide (occurred_in (evs s') (rings t0) = []))) W).
  2: { apply list_filter_iff. intros t'. by rewrite Hask. }
  rewrite (occurred_in_ext (evs s2) (evs s')).
  { by destruct (asked s t || _). }
  intros y Hy. specialize (Hp y). by rewrite decide_False in Hp by (intros ?; by apply (Hd y)).
Qed.

Lemma em_late_wp fuel n rc sets s a l1 todo rings :
  0 ≤ rc → pool_repr s a → pl_q a WQ = l1 ++ todo → wakeable a todo.*1 → waiting s todo.*1 rings → (length todo < n)%nat →
  wp (em_late fuel n rc (head_or NULL todo.*1) sets)
    (λ _ s', pool_repr s' (foldl (flip woken) a (runnable s s' rings todo.*1)) ∧
       undisturbed s s' ∧ passed sets (concat (rings <$> todo.*1)) (evs s) (evs s')) s.
Proof.
  intros Hrc. revert n s a l1. induction todo as [|[t p] todo IH]; intros n s a l1 Ha Hq Hwk Hw Hn; (destruct n as [|n]; [lia|]).
  - cbn. split_and!; [done|by split|apply passed_nil].
  - csimpl in *. cbn [em_late]. destruct (wt_ring _ _ _ Hw t) as (_ & nd & Hnd & _); [by left|].
    pose proof Hnd as [Hnz Hnd']%load_Some. rewrite is_null_false by done.
    pose proof (qrepr_NoDup s (pl_q a) WQ (pr_q _ _ Ha)) as Hdup. rewrite Hq in Hdup.
    assert (t ∉ todo.*1) as Hnew.
    { rewrite fmap_app in Hdup. csimpl in Hdup. apply NoDup_app in Hdup as (_ & _ & [? _]%NoDup_cons). done. }
    rewrite wp_bind, (wp_ldt _ _ _ _ nd) by done. rewrite wp_bind.
    eapply wp_mono; [by eapply late_thread_wp|]. intros r s1 (-> & Hsh1 & Hp1). cbv beta iota.
    assert (threads s1 = threads s) as Hth1 by (by apply shape_threads).
    assert (pool_repr s1 a) as Ha1 by (eapply pool_tpart; [by apply shape_tpart|done]).
    rewrite wp_bind, (wp_ldt _ _ _ _ nd) by (by rewrite Hth1). rewrite wp_bind.
    eapply wp_mono; [eapply onq_walk_spec; [apply (pr_q _ _ Ha1)|exact Hq]|]. intros t' s1' [-> ->].
    assert (asked s t = cancelreq (q_body nd)) as Hask by (unfold asked; by rewrite Hnd').
    set (b := negb _ || cancelreq _). assert (b = asked s t || negb (bool_decide (occurred_in (evs s1) (rings t) = []))) as Hb.
    { unfold b. rewrite Hask. apply orb_comm. }
    rewrite wp_bind. apply (wp_mono _ (λ _ s2, undisturbed s1 s2 ∧ evs s2 = evs s1 ∧
      pool_repr s2 (if b then woken t a else a))).
    + destruct b; [|rewrite wp_ret; split_and!; [by split|done|done]].
      destruct Hwk as (Hok & _ & Hpr). destruct (Hpr t) as (i & Hi & Hr); [by left|].
      assert (t ∈ (pl_q a WQ).*1) as Ht by (rewrite Hq, fmap_app; csimpl; apply elem_of_app; right; by left).
      eapply wp_mono; [apply wp_and; [by apply (wake_frame s1 a t i)|by apply (wake_spec s1 a t i)]|].
      intros [] s2 [[? ?] ?]. unfold woken. by rewrite Hi.
    + intros [] s2 (Hu2 & He2 & Ha2). set (a2 := if b then woken t a else a) in *.
      assert (undisturbed s s2) as Hu by (etrans; [by apply shape_undisturbed|done]).
      assert (∃ l2, pl_q a2 WQ = l2 ++ todo) as [l2 Hl2].
      { unfold a2. destruct b; [|exists (l1 ++ [(t, p)]); rewrite Hq; by rewrite <- app_assoc].
        destruct Hwk as (_ & _ & Hpr). destruct (Hpr t) as (i & Hi & _); [by left|]. exists l1. unfold woken. rewrite Hi. cbn.
        rewrite Hq. by apply pq_del_mid. }
      assert (wakeable a2 todo.*1) as Hwk2 by (unfold a2; destruct b; [by apply wakeable_woken|by eapply wakeable_skip]).
      assert (waiting s2 todo.*1 rings) as Hw2 by (eapply waiting_step; [done|by rewrite He2|done|done]).
      eapply wp_mono; [apply (IH n s2 a2 l2); try done; lia|]. intros [] s3 (Ha3 & Hu3 & Hp3).
      assert (rings t ## concat (rings <$> todo.*1)) as Hdj.
      { intros y Hy1 Hy2. apply list_elem_of_In, in_concat in Hy2 as (l & Hl%list_elem_of_In & Hy2%list_elem_of_In). apply list_elem_of_fmap in Hl as (t2 & -> & Ht2).
        apply (wt_disj _ _ _ Hw t t2) with y; [by left|by right|by intros ->|done..]. }
      split_and!; [|by etrans|rewrite <- He2 in Hp1; by eapply passed_app].
      rewrite (runnable_cons s s2 s2 s3 sets); [|by intros; apply undisturbed_asked|done|done].
      rewrite He2, <- Hb, foldl_app. unfold a2 in Ha3. by destruct b.
Qed.

Lemma passed_fd sets L h h' y n p goal fd :
  passed sets L h h' → y ∈ L → h !! y = Some (Event n p PTH_STATUS_PENDING PTH_EVENT_FD goal (FD fd)) →
  h' !! y = Some (Event n p (if fd_hits sets goal fd then PTH_STATUS_OCCURRED else PTH_STATUS_PENDING) PTH_EVENT_FD goal (FD fd)).
Proof.
  intros Hp Hy He. specialize (Hp y). rewrite decide_True, He in Hp by done.
  inversion Hp as [e e' (x & Hx & ->)|]; subst. unfold status_ok in Hx. cbn in Hx. by destruct Hx as (fd' & [= <-] & ->).
Qed.

(** C5: The second pass of the event manager over the waiting queue, after [select] has
    succeeded with the descriptor sets [sets], always ends and never follows a bad
    pointer.  It gives every pending descriptor event the status "occurred" exactly
    when its descriptor is in the set of its goal, changes no event that was already
    decided and no pending event that does not depend on [select] or on signals.  A
    waiting thread becomes ready, with its priority increased by one, exactly when one
    of its events is then no longer pending or when it was asked to end; all other
    threads stay where they are. *)
Theorem late_wakes fuel rc sets s a rings :
  0 ≤ rc → pool_repr s a → wakeable a (pl_q a WQ).*1 → waiting s (pl_q a WQ).*1 rings →
  ∃ s', (do t <- onq WQ pth_pqueue_head; em_late fuel (S (size (threads s))) rc t sets) s = Some (tt, s') ∧
    pool_repr s' (foldl (flip woken) a (runnable s s' rings (pl_q a WQ).*1)) ∧
    passed sets (concat (rings <$> (pl_q a WQ).*1)) (evs s) (evs s').
Proof.
  intros Hrc Ha Hwk Hw.
  assert (wp (do t <- onq WQ pth_pqueue_head; em_late fuel (S (size (threads s))) rc t sets)
    (λ _ s', pool_repr s' (foldl (flip woken) a (runnable s s' rings (pl_q a WQ).*1)) ∧ undisturbed s s' ∧
      passed sets (concat (rings <$> (pl_q a WQ).*1)) (evs s) (evs s')) s) as Hrun.
  { rewrite wp_bind. eapply wp_mono; [apply (onq_head_spec WQ s (pl_q a) (pr_q _ _ Ha))|]. intros t s0 [-> ->].
    apply (em_late_wp fuel _ rc sets s a []); try done. pose proof (qrepr_length s (pl_q a) WQ (pr_q _ _ Ha)). lia. }
  apply wp_run in Hrun as ([] & s' & Hs & Hp & _ & He). by exists s'.
Qed.

End late.

(** ** An example: a waiting thread

Thread 103 waits for descriptor 5 to become readable; nobody else waits. *)
Definition toy_waiting : @St toy_kernel :=
  set_evs (λ _, {[ 10%N := Event 10 10 PTH_STATUS_PENDING PTH_EVENT_FD PTH_UNTIL_FD_READABLE (FD 5) ]})
    (set_threads (alter (on_body (set_events (λ _, 10%N))) 103%N) toy_threads).

Lemma qrepr_evs {Kern : Kernel} f s P : qrepr s P → qrepr (set_evs f s) P.
Proof. apply qrepr_same; [done|by intros []]. Qed.

Lemma toy_waiting_repr : pool_repr toy_waiting toy_pool.
Proof.
  destruct toy_threads_repr as [[Hq _ _ _ _ _] _]. split; [|vm_compute; reflexivity..].
  unfold toy_waiting. by apply qrepr_evs, qrepr_alter.
Qed.

Lemma toy_waiting_rings : waiting toy_waiting [103%N] (λ _, [10%N]).
Proof.
  split.
  - intros t ->%list_elem_of_singleton. split; [by apply cyc_singleton|]. by eexists.
  - intros t y e _ ->%list_elem_of_singleton He. vm_compute in He. simplify_eq.
    split_and!; try done. intros _. exists 5. split; [done|]. unfold FD_SETSIZE. lia.
  - intros t t' ->%list_elem_of_singleton ->%list_elem_of_singleton. done.
Qed.

Lemma late_wakes_witness :
  ∃ s', (do t <- onq WQ pth_pqueue_head; em_late 1 6 1 t ({[ 5 ]}, ∅, ∅)) toy_waiting = Some (tt, s') ∧
    runnable toy_waiting s' (λ _, [10%N]) [103%N] = [103%N] ∧ pool_repr s' (woken 103 toy_pool).
Proof.
  destruct (late_wakes 1 1 ({[ 5 ]}, ∅, ∅) toy_waiting toy_pool (λ _, [10%N])) as (s' & Hs & Hp & He).
  - lia.
  - exact toy_waiting_repr.
  - split_and!; [|unfold INT_MAX; simpl; lia|].
    + intros []; (split; [repeat constructor; simpl; unfold PB; lia|unfold INT_MAX; simpl; lia]).
    + intros t ->%list_elem_of_singleton. eexists. split; [vm_compute; reflexivity|]. simpl. unfold PB. lia.
  - exact toy_waiting_rings.
  - assert (runnable toy_waiting s' (λ _, [10%N]) [103%N] = [103%N]) as Hr.
    { unfold runnable. rewrite filter_cons.
      rewrite (occurred_in_one _ _ _ (passed_fd _ _ _ _ _ _ _ _ _ He ltac:(by left) eq_refl)). vm_compute. reflexivity. }
    exists s'. split; [exact Hs|]. split; [exact Hr|].
    change ((pl_q toy_pool WQ).*1) with [103%N] in Hp. rewrite Hr in Hp. exact Hp.
Defined.
