(* ===== verification/Early.v ===== *)
(** * Looking at events (the event manager's first pass)

Before it waits in [select], the event manager goes through the waiting queue and the
rings of events: events that can be decided at once become "occurred", and what has to
be waited for is collected, as descriptor sets and as the next timer.  [early] is the
same pass on lists, as a pure function of the state the pass starts in; the pointer
code is shown equal to it, and what a condition variable and the timer do is read off.
The rings hold no signal events and no function events here. *)
From stdpp Require Import functions.
From S2P Require Import State Pool Data Sys Event Tcb Sync Sched Lib Threads Locks Wakeup.
From S2P Require Ring.

(** The type that goes with the arguments of an event. *)
Definition ev_code (a : ev_union) : Z :=
  match a with
  | FD _ => PTH_EVENT_FD | SELECT _ _ _ _ _ => PTH_EVENT_SELECT | SIGS _ _ => PTH_EVENT_SIGS
  | TIME _ => PTH_EVENT_TIME | MSG _ => PTH_EVENT_MSG | MUTEX _ => PTH_EVENT_MUTEX
  | COND _ => PTH_EVENT_COND | TID _ => PTH_EVENT_TID | FUNC _ _ _ => PTH_EVENT_FUNC
  end.

(** The condition is signalled, and not yet handed to a waiter unless all are meant. *)
Definition cond_open (c : pth_cond) : bool :=
  has (cn_state c) PTH_COND_SIGNALED && (has (cn_state c) PTH_COND_BROADCAST || negb (has (cn_state c) PTH_COND_HANDLED)).
Definition cond_hand (c : pth_cond) : pth_cond :=
  if has (cn_state c) PTH_COND_BROADCAST then c else Cond (Z.lor (cn_state c) PTH_COND_HANDLED) (cn_waiters c).

Section early.
Context {Kern : Kernel} {Ap : App}.
Implicit Types (s : St) (e : event) (now : timeval) (t ev : N) (x : em).

(** ** The pass on lists *)

(** Has the pending event occurred?  [cs] are the conditions as the pass has left them. *)
Definition occurs s now (cs : gmap N pth_cond) e : bool :=
  match ev_args e with
  | TIME tv => pth_time_cmp tv now <? 0
  | MSG mp => default false ((λ p, 0 <? s32 (Ring.r_nodes (mp_queue p))) <$> load (msgports s) mp)
  | MUTEX m => default false ((λ m, negb (has (mx_state m) PTH_MUTEX_LOCKED)) <$> load (mutexes s) m)
  | COND c => default false (cond_open <$> load cs c)
  | TID tid =>
      if is_null tid then 0 <? q_num (pth_DQ s)
      else default false ((λ n, state_num (state (q_body n)) =? ev_goal e) <$> load (threads s) tid)
  | _ => false
  end.

(** What an event that occurs does to the conditions. *)
Definition taken (cs : gmap N pth_cond) e : gmap N pth_cond :=
  match ev_args e with COND c => alter cond_hand c cs | _ => cs end.

(** What an event that has not occurred leaves to wait for. *)
Definition fd_opt (goal flag fd : Z) (f : gset Z) : gset Z := if has goal flag then {[ fd ]} ∪ f else f.
Definition set_at s (p : N) : option (gset Z) := if is_null p then None else load (fdsets s) p.
Definition note s t ev e x : em :=
  match ev_args e with
  | FD fd =>
      em_fds x (fd_opt (ev_goal e) PTH_UNTIL_FD_READABLE fd (em_rfds x)) (fd_opt (ev_goal e) PTH_UNTIL_FD_WRITEABLE fd (em_wfds x))
        (fd_opt (ev_goal e) PTH_UNTIL_FD_EXCEPTION fd (em_efds x)) (em_fdmax x `max` fd)
  | SELECT _ nfd r w y =>
      let below p := window 0 (Z.to_nat nfd) (opt_set (set_at s p)) in
      em_fds x (below r ∪ em_rfds x) (below w ∪ em_wfds x) (below y ∪ em_efds x) (em_fdmax x `max` (nfd - 1))
  | TIME tv => em_remember x t ev tv
  | _ => x
  end.

(** Where a pass is: the collected sets and timer, the conditions, the events that have
    occurred, in order, and the signals to block. *)
Record pass := Pass { p_em : em; p_conds : gmap N pth_cond; p_occ : list N; p_block : gset Z }.

Definition early_event s now t (p : pass) ev : pass :=
  match evs s !! ev with
  | Some e =>
      if negb (bool_decide (ev_status e = PTH_STATUS_PENDING)) then p
      else if occurs s now (p_conds p) e then
        Pass (em_occurred (p_em p)) (taken (p_conds p) e) (p_occ p ++ [ev]) (p_block p)
      else Pass (note s t ev e (p_em p)) (p_conds p) (p_occ p) (p_block p)
  | None => p
  end.

Definition unblocked (sigs : gset Z) (b : gset Z) : gset Z :=
  foldl (λ b sig, if decide (sig ∈ sigs) then b else b ∖ {[ sig ]}) b sig_range.

Definition early_thread s now (rings : N → list N) (p : pass) t : pass :=
  let p := Pass (if asked s t then em_occurred (p_em p) else p_em p) (p_conds p) (p_occ p)
             (unblocked (default ∅ (mctx_sigs ∘ q_body <$> threads s !! t)) (p_block p)) in
  foldl (early_event s now t) p (rings t).

Definition early s now (rings : N → list N) (W : list N) : pass :=
  foldl (early_thread s now rings) (Pass em_init (conds s) [] (pth_sigblock s)) W.

(** The state that the pass [p], started in [s], leaves. *)
Definition mark (occ : list N) (h : gmap N event) : gmap N event :=
  foldl (λ h y, alter (set_ev_status (λ _, PTH_STATUS_OCCURRED)) y h) h occ.
Definition after s (p : pass) : St :=
  set_conds (λ _, p_conds p) (set_evs (λ _, mark (p_occ p) (evs s)) (set_pth_sigblock (λ _, p_block p) s)).

(** ** One event *)

(** An event that the pass can look at: its arguments fit its type, its pointers are
    valid, and it is neither a signal nor a function event. *)
Definition lookable s e : Prop :=
  ev_type e = ev_code (ev_args e) ∧
  match ev_args e with
  | FD fd => 0 ≤ fd < FD_SETSIZE
  | SELECT _ nfd r w y => 0 ≤ nfd ≤ FD_SETSIZE ∧ null_or_lives (fdsets s) r ∧ null_or_lives (fdsets s) w ∧ null_or_lives (fdsets s) y
  | TIME _ => True
  | MSG mp => lives (msgports s) mp
  | MUTEX m => lives (mutexes s) m
  | COND c => lives (conds s) c
  | TID tid => null_or_lives (threads s) tid
  | SIGS _ _ | FUNC _ _ _ => False
  end.

Lemma lookup_mark_ne occ h y : y ∉ occ → mark occ h !! y = h !! y.
Proof.
  revert h. induction occ as [|z occ IH]; intros h Hy; [done|]. apply not_elem_of_cons in Hy as [Hne Hy]. simpl.
  rewrite IH by done. by rewrite lookup_alter_ne.
Qed.

Lemma mark_snoc occ y h : mark (occ ++ [y]) h = alter (set_ev_status (λ _, PTH_STATUS_OCCURRED)) y (mark occ h).
Proof. unfold mark. by rewrite foldl_snoc. Qed.

Lemma fd_add_run goal flag fd f s : 0 ≤ fd < FD_SETSIZE → fd_add goal flag fd f s = Some (fd_opt goal flag fd f, s).
Proof.
  intros Hfd. unfold fd_add, fd_opt. destruct (has goal flag); [|done]. unfold lift_opt, FD_SET. by rewrite fd_ok_true.
Qed.

Lemma ld_fdset_run s p : null_or_lives (fdsets s) p → ld_fdset p s = Some (set_at s p, s).
Proof.
  unfold ld_fdset, set_at. intros [->|Hl]; [done|]. pose proof Hl as [f Hf]%lives_load. destruct Hl as [Hnz _].
  rewrite is_null_false by done. erewrite bind_run by (unfold ld; by rewrite Hf). by rewrite Hf.
Qed.

Lemma max_if a b : (if a <? b then b else a) = a `max` b.
Proof. destruct (Z.ltb_spec a b); lia. Qed.

Lemma on_mp_elements s mp m :
  load (msgports s) mp = Some m → on_mp_queue mp Ring.pth_ring_elements s = Some (s32 (Ring.r_nodes (mp_queue m)), s).
Proof.
  intros Hm. pose proof Hm as [_ Hl]%load_Some. unfold on_mp_queue, onr. rewrite Hm. simpl. do 2 f_equal.
  destruct s; cbn in *. unfold set_msgports, set_rnodes, set_errno. cbn. f_equal. apply alter_id. intros y Hy. rewrite Hl in Hy. injection Hy as <-.
  by destruct m as [? ? []].
Qed.

Lemma onq_num s : onq DQ pth_pqueue_elements s = Some (q_num (pth_DQ s), s).
Proof. unfold onq, pth_pqueue_elements. cbn. by destruct s. Qed.

Lemma after_same s p : after s (Pass (p_em p) (p_conds p) (p_occ p) (p_block p)) = after s p.
Proof. done. Qed.

Lemma set_conds_alter c cn (g h : pth_cond → pth_cond) (cs : gmap N pth_cond) s :
  cs !! c = Some cn → g cn = h cn → set_conds (alter g c) (set_conds (λ _, cs) s) = set_conds (λ _, alter h c cs) s.
Proof.
  intros Hc Hgh. transitivity (set_conds (λ _, alter g c cs) s); [done|].
  replace (alter g c cs) with (alter h c cs); [done|]. apply map_eq. intros d. rewrite !lookup_alter. case_decide; [subst|done].
  by rewrite Hc; simpl; rewrite Hgh.
Qed.

Lemma em_check_run s now t ev e p :
  load (evs (after s p)) ev = Some e → lookable s e → dom (p_conds p) = dom (conds s) →
  em_check now t ev (p_em p) (after s p) =
    Some (let o := occurs s now (p_conds p) e in (o, if o then p_em p else note s t ev e (p_em p)),
          after s (Pass (p_em p) (if occurs s now (p_conds p) e then taken (p_conds p) e else p_conds p) (p_occ p) (p_block p))).
Proof.
  intros He [Hty Hok] Hdom. unfold em_check, lde, occurs, note, taken. do 3 (erewrite bind_run by (unfold ld; rewrite He; reflexivity)).
  rewrite Hty. destruct (ev_args e) as [fd|n nfd r w y|? ?|tv|mp|m|c|tid|? ? ?]; cbn [ev_code]; try done;
    repeat (match goal with |- context [?a =? ?b] => change (a =? b) with false || change (a =? b) with true end); cbn iota.
  - do 3 (rewrite (bind_run _ _ _ _ _ (fd_add_run _ _ _ _ _ Hok))). rewrite max_if. done.
  - destruct Hok as (Hn & Hr & Hw & Hy). do 3 (erewrite bind_run by (by apply ld_fdset_run)).
    unfold pth_util_fds_merge, FD_SETSIZE in *. rewrite fds_merge_loop_ok by lia. cbn. by rewrite max_if.
  - by destruct (pth_time_cmp tv now <? 0).
  - apply lives_load in Hok as [m Hm]. erewrite bind_run by (by apply on_mp_elements). rewrite Hm. simpl. by destruct (0 <? _).
  - apply lives_load in Hok as [mx Hm]. erewrite bind_run by (unfold ld; cbn; rewrite Hm; reflexivity). rewrite Hm. cbn. by destruct (negb _).
  - assert (lives (p_conds p) c) as [cn Hc]%lives_load by (unfold lives; by rewrite Hdom).
    erewrite bind_run by (unfold ld; cbn; rewrite Hc; reflexivity). rewrite Hc. simpl. unfold cond_open.
    destruct (has (cn_state cn) PTH_COND_SIGNALED); [|done]. simpl. destruct (has (cn_state cn) PTH_COND_BROADCAST) eqn:Hb; simpl.
    + replace (alter cond_hand c (p_conds p)) with (p_conds p); [done|]. symmetry. apply alter_id. intros d Hd.
      apply load_Some in Hc as [_ Hc]. rewrite Hc in Hd. injection Hd as <-. unfold cond_hand. by rewrite Hb.
    + destruct (has (cn_state cn) PTH_COND_HANDLED); simpl; [done|].
      erewrite bind_run by (unfold st; cbn; rewrite Hc; reflexivity). unfold ret, after. do 2 f_equal. cbn.
      apply (set_conds_alter c cn); [by apply load_Some in Hc as [_ ?]|]. unfold cond_hand. by rewrite Hb.
  - destruct Hok as [->|Hl].
    + change (is_null NULL) with true. cbn iota. erewrite bind_run by apply onq_num. cbn. by destruct (0 <? _).
    + pose proof Hl as [n Hn]%lives_load. destruct Hl as [Hnz _]. rewrite is_null_false by done.
      erewrite bind_run by (by eapply ldt_run). rewrite Hn. cbn. by destruct (_ =? _).
Qed.

Lemma em_event_run s now t ev e p :
  load (evs s) ev = Some e → ev ∉ p_occ p → lookable s e → dom (p_conds p) = dom (conds s) →
  em_event now t ev (p_em p) (after s p) = Some (p_em (early_event s now t p ev), after s (early_event s now t p ev)).
Proof.
  intros [Hnz He]%load_Some Hnew Hok Hdom. assert (load (evs (after s p)) ev = Some e) as Hl.
  { apply load_Some. split; [done|]. cbn. by rewrite lookup_mark_ne. }
  unfold em_event, early_event. rewrite He. erewrite bind_run by (unfold lde, ld; rewrite Hl; reflexivity).
  case_bool_decide; [|done]. cbn [negb]. erewrite bind_run by (by apply em_check_run). cbv zeta beta iota.
  destruct (occurs s now (p_conds p) e); [|done]. erewrite bind_run by (eapply ste_run; exact Hl). unfold ret. cbn [p_em].
  do 2 f_equal. unfold after. cbn [p_conds p_occ p_block]. by rewrite mark_snoc.
Qed.

(** ** Rings and queues *)
Record on_track s (D : list N) (p : pass) : Prop := {
  ot_dom : dom (p_conds p) = dom (conds s);
  ot_occ y : y ∈ p_occ p → y ∈ D
}.

Lemma taken_dom cs e : dom (taken cs e) = dom cs.
Proof. unfold taken. destruct (ev_args e); try done. apply dom_alter_L. Qed.

Lemma on_track_event s now t D p ev : on_track s D p → on_track s (D ++ [ev]) (early_event s now t p ev).
Proof.
  intros [Hd Ho]. unfold early_event. destruct (evs s !! ev) as [e|]; [|split; [done|]; intros y Hy%Ho; apply elem_of_app; by left].
  destruct (negb _); [split; [done|]; intros y Hy%Ho; apply elem_of_app; by left|].
  destruct (occurs _ _ _ _); (split; cbn; [by rewrite ?taken_dom|]); intros y Hy.
  - apply elem_of_app in Hy as [Hy%Ho|Hy]; apply elem_of_app; [by left|by right].
  - apply elem_of_app. left. by apply Ho.
Qed.

Lemma after_evs_cyc s p l : cyc (evs s) l → cyc (evs (after s p)) l.
Proof.
  intros Hc. unfold after. cbn. generalize (p_occ p). intros occ. revert Hc. generalize (evs s).
  induction occ as [|y occ IH]; intros h Hc; [done|]. cbn. apply IH.
  eapply cyc_ext; [exact Hc|..]; intros z _; [apply nxf_alter_other|apply pvf_alter_other]; done.
Qed.

Lemma em_ring_run s now t D p ev l :
  on_track s D p → cyc (evs s) (ev :: l) → D ## (ev :: l) → (∀ y e, y ∈ ev :: l → evs s !! y = Some e → lookable s e) →
  over_ring ev (em_event now t) (p_em p) (after s p) =
    Some (p_em (foldl (early_event s now t) p (ev :: l)), after s (foldl (early_event s now t) p (ev :: l))) ∧
  on_track s (D ++ ev :: l) (foldl (early_event s now t) p (ev :: l)).
Proof.
  intros Hp Hc Hdis Hok. pose proof (cyc_NoDup _ _ Hc) as Hnd.
  set (Q := λ done x s', x = p_em (foldl (early_event s now t) p done) ∧ s' = after s (foldl (early_event s now t) p done) ∧
    on_track s (D ++ done) (foldl (early_event s now t) p done)).
  assert (wp (over_ring ev (em_event now t) (p_em p)) (λ x s', Q (ev :: l) x s' ∧ cyc (evs s') (ev :: l)) (after s p)) as Hwp.
  { apply over_ring_spec; [by apply after_evs_cyc| |unfold Q; rewrite app_nil_r; done].
    intros done y todo x s1 Hl (-> & -> & Htr) _. set (p1 := foldl _ p done) in *.
    assert (y ∈ ev :: l) as Hy by (rewrite Hl; apply elem_of_app; right; by left).
    destruct (cyc_load _ _ y Hc Hy) as [e He]. pose proof He as [_ He']%load_Some.
    assert (y ∉ p_occ p1) as Hnew.
    { intros [Hin|Hin]%(ot_occ _ _ _ Htr)%elem_of_app; [by apply (Hdis y)|]. rewrite Hl in Hnd.
      apply NoDup_app in Hnd as (_ & Hx & _). apply (Hx y Hin). by left. }
    unfold wp. rewrite (em_event_run s now t y e p1 He Hnew (Hok _ _ Hy He') (ot_dom _ _ _ Htr)).
    unfold Q. rewrite foldl_snoc. fold p1. split; [|by apply after_evs_cyc]. split_and!; [done..|].
    rewrite app_assoc. by apply on_track_event. }
  apply wp_run in Hwp as (x & s' & Hrun & (-> & -> & Htr) & _). done.
Qed.

Lemma sigs_run s (sigs : gset Z) l p :
  for_sigs l (λ sig _, if negb (bool_decide (sig ∈ sigs)) then modify (set_pth_sigblock (λ ss, ss ∖ {[ sig ]})) else ret tt) tt
    (after s p) =
  Some (tt, after s (Pass (p_em p) (p_conds p) (p_occ p) (foldl (λ b sig, if decide (sig ∈ sigs) then b else b ∖ {[ sig ]}) (p_block p) l))).
Proof.
  revert p. induction l as [|sig l IH]; intros p; [done|]. cbn [for_sigs foldl].
  rewrite (bind_run _ _ tt _ (after s (Pass (p_em p) (p_conds p) (p_occ p)
    (if decide (sig ∈ sigs) then p_block p else p_block p ∖ {[ sig ]})))); [by rewrite IH|].
  by destruct (decide (sig ∈ sigs)); [rewrite bool_decide_true by done|rewrite bool_decide_false by done].
Qed.

Lemma unblock_run s (sigs : gset Z) p :
  for_sigs sig_range (λ sig _, if negb (bool_decide (sig ∈ sigs)) then modify (set_pth_sigblock (λ ss, ss ∖ {[ sig ]})) else ret tt) tt
    (after s p) = Some (tt, after s (Pass (p_em p) (p_conds p) (p_occ p) (unblocked sigs (p_block p)))).
Proof. exact (sigs_run s sigs sig_range p). Qed.
#[local] Opaque unblocked.

Lemma early_thread_eq s now rings p t n :
  threads s !! t = Some n →
  early_thread s now rings p t =
    foldl (early_event s now t)
      (Pass (if cancelreq (q_body n) then em_occurred (p_em p) else p_em p) (p_conds p) (p_occ p)
         (unblocked (mctx_sigs (q_body n)) (p_block p))) (rings t).
Proof. intros Hn. unfold early_thread, asked. by rewrite Hn. Qed.

Lemma em_thread_run s now t rings D p n :
  on_track s D p → load (threads s) t = Some n → events (q_body n) = head_or NULL (rings t) → cyc (evs s) (rings t) →
  D ## rings t → (∀ y e, y ∈ rings t → evs s !! y = Some e → lookable s e) →
  em_thread now t (p_em p) (after s p) =
    Some (p_em (early_thread s now rings p t), after s (early_thread s now rings p t)) ∧
  on_track s (D ++ rings t) (early_thread s now rings p t).
Proof.
  intros [Hdm Ho] Hn Hev Hc Hdis Hok. pose proof Hn as [_ Hn']%load_Some.
  rewrite (early_thread_eq _ _ _ _ _ _ Hn'). unfold em_thread.
  erewrite bind_run by (by eapply ldt_run). erewrite bind_run by apply unblock_run.
  erewrite bind_run by (by eapply ldt_run). erewrite bind_run by (by eapply ldt_run). cbv zeta.
  generalize (unblocked (mctx_sigs (q_body n)) (p_block p)). intros b.
  set (p1 := Pass (if cancelreq (q_body n) then em_occurred (p_em p) else p_em p) (p_conds p) (p_occ p) b).
  change (after s (Pass (p_em p) (p_conds p) (p_occ p) b)) with (after s p1).
  change (if cancelreq (q_body n) then em_occurred (p_em p) else p_em p) with (p_em p1).
  assert (on_track s D p1) as H1 by done. rewrite Hev. destruct (rings t) as [|ev l].
  - change (is_null (head_or NULL ([] : list N))) with true. cbn iota. by rewrite app_nil_r.
  - rewrite head_or_cons. rewrite is_null_false by (eapply cyc_nonnull; [exact Hc|by left]). by apply em_ring_run.
Qed.

(** The queue [W] of waiting threads, each with its ring of events. *)
Record looking s (W : list N) (rings : N → list N) : Prop := {
  lk_ring t : t ∈ W → cyc (evs s) (rings t) ∧ ∃ n, load (threads s) t = Some n ∧ events (q_body n) = head_or NULL (rings t);
  lk_good t y e : t ∈ W → y ∈ rings t → evs s !! y = Some e → lookable s e;
  lk_disj t t' : t ∈ W → t' ∈ W → t ≠ t' → rings t ## rings t'
}.

Lemma qrepr_after s P p : qrepr s P → qrepr (after s p) P.
Proof. apply qrepr_same; [done|by intros []]. Qed.

Lemma em_threads_run s now P rings l1 todo p n D :
  qrepr s P → P WQ = l1 ++ todo → looking s todo.*1 rings → on_track s D p → (∀ t, t ∈ todo.*1 → D ## rings t) →
  (length todo < n)%nat →
  em_threads n now (head_or NULL todo.*1) (p_em p) (after s p) =
    Some (p_em (foldl (early_thread s now rings) p todo.*1), after s (foldl (early_thread s now rings) p todo.*1)).
Proof.
  intros Hq. revert p n D l1. induction todo as [|[t pr] todo IH]; intros p n D l1 HW Hlk Htr HD Hf; (destruct n as [|n]; [lia|]); [done|].
  csimpl in *. cbn [em_threads]. destruct (lk_ring _ _ _ Hlk t) as (Hc & nd & Hnd & Hev); [by left|].
  pose proof Hnd as [Hnz _]%load_Some. rewrite is_null_false by done.
  assert (t ∉ todo.*1) as Hnew.
  { pose proof (qrepr_NoDup s P WQ Hq) as Hdup. rewrite HW, fmap_app in Hdup. csimpl in Hdup.
    by apply NoDup_app in Hdup as (_ & _ & [? _]%NoDup_cons). }
  destruct (em_thread_run s now t rings D p nd Htr Hnd Hev Hc) as [Hrun Htr1]; [apply HD; by left| |].
  { intros y e. by apply (lk_good _ _ _ Hlk); left. }
  erewrite bind_run by exact Hrun.
  destruct (proj1 (wp_run _ _ _) (onq_walk_spec WQ _ P l1 t pr todo (qrepr_after s P (early_thread s now rings p t) Hq) HW))
    as (t' & s' & Hw & -> & ->).
  erewrite bind_run by exact Hw. apply (IH _ _ (D ++ rings t) (l1 ++ [(t, pr)])); [by rewrite <- app_assoc| |done| |lia].
  - destruct Hlk as [H1 H2 H3]. split; [intros; apply H1; by right|intros ? ? ? ?; apply H2; by right|intros; apply H3; [by right..|done]].
  - intros u Hu y [Hy|Hy]%elem_of_app Hy'; [by apply (HD u ltac:(by right) y)|].
    apply (lk_disj _ _ _ Hlk t u ltac:(by left) ltac:(by right) ltac:(by intros ->) y Hy Hy').
Qed.

Lemma early_run s now P rings :
  qrepr s P → looking s (P WQ).*1 rings →
  (do nthreads <- gets (λ s, S (size (threads s))); do t <- onq WQ pth_pqueue_head; em_threads nthreads now t em_init) s =
    Some (p_em (early s now rings (P WQ).*1), after s (early s now rings (P WQ).*1)).
Proof.
  intros Hq Hlk. erewrite bind_run by done.
  destruct (proj1 (wp_run _ _ _) (onq_head_spec WQ s P Hq)) as (t & s' & Hw & -> & ->). erewrite bind_run by exact Hw.
  assert (s = after s (Pass em_init (conds s) [] (pth_sigblock s))) as Hs by (by destruct s). unfold early.
  rewrite Hs at 2. change em_init with (p_em (Pass em_init (conds s) [] (pth_sigblock s))) at 1.
  apply (em_threads_run s now P rings [] (P WQ) _ _ []); try done.
  - intros t _ y Hy%not_elem_of_nil. done.
  - pose proof (qrepr_length s P WQ Hq). lia.
Qed.

(** C4: The first pass of the event manager over the waiting queue is the pass [early] on
    lists.  It visits every event of every waiting thread once, in the order of the queue
    and the rings, changes the events that occur, the conditions that they use up and the
    set of signals to block, and nothing else. *)
Theorem early_pass s now P rings :
  qrepr s P → looking s (P WQ).*1 rings →
  (do nthreads <- gets (λ s, S (size (threads s))); do t <- onq WQ pth_pqueue_head; em_threads nthreads now t em_init) s =
    Some (p_em (early s now rings (P WQ).*1), after s (early s now rings (P WQ).*1)).
Proof. apply early_run. Qed.

(** ** Condition variables *)

(** A pending event for the condition [c]. *)
Definition awaits s (c ev : N) : bool :=
  match evs s !! ev with
  | Some e => bool_decide (ev_status e = PTH_STATUS_PENDING) && match ev_args e with COND c' => bool_decide (c' = c) | _ => false end
  | None => false
  end.

(** The events of a pass, each with its thread, in order. *)
Definition visits (rings : N → list N) (W : list N) : list N := concat (rings <$> W).

(** The part of a pass that concerns the condition [c]: its value and the events that
    have occurred for it. *)
Definition cond_step s (c : N) (acc : option pth_cond * list N) ev : option pth_cond * list N :=
  if awaits s c ev && default false (cond_open <$> acc.1) then (cond_hand <$> acc.1, acc.2 ++ [ev]) else acc.
Definition cond_view s (c : N) (p : pass) : option pth_cond * list N :=
  (load (p_conds p) c, filter (λ ev, awaits s c ev) (p_occ p)).

Lemma cond_view_event s now t c p ev :
  c ≠ NULL → cond_view s c (early_event s now t p ev) = cond_step s c (cond_view s c p) ev.
Proof.
  intros Hc. unfold early_event, cond_step, cond_view. cbn [fst snd]. destruct (awaits s c ev) eqn:Haw.
  - pose proof Haw as Haw'. unfold awaits in Haw'. destruct (evs s !! ev) as [e|]; [|done]. apply andb_prop in Haw' as [->%bool_decide_eq_true Ha].
    rewrite bool_decide_true by done. cbn [negb]. unfold occurs, taken.
    destruct (ev_args e) as [| | | | | |c'| |]; try done. apply bool_decide_eq_true in Ha as ->.
    cbn [andb]. destruct (default false (cond_open <$> load (p_conds p) c)); cbn; [|done].
    rewrite load_alter, decide_True by done. by rewrite filter_app, (filter_cons_True _ ev) by (by rewrite Haw).
  - cbn [andb]. unfold awaits in Haw. destruct (evs s !! ev) as [e|] eqn:He; [|done]. case_bool_decide; [|done]. cbn [negb andb] in *.
    destruct (occurs s now (p_conds p) e); cbn; [|done]. f_equal.
    + unfold taken. destruct (ev_args e); try done. rewrite load_alter, decide_False; [done|].
      intros ->. by rewrite bool_decide_true in Haw.
    + rewrite filter_app, (filter_cons_False _ ev); [by rewrite app_nil_r|]. unfold awaits. rewrite He, Haw. rewrite andb_false_r. by intros [].
Qed.

Lemma cond_view_events s now t c p l :
  c ≠ NULL → cond_view s c (foldl (early_event s now t) p l) = foldl (cond_step s c) (cond_view s c p) l.
Proof.
  intros Hc. revert p. induction l as [|ev l IH]; intros p; [done|]. cbn [foldl]. by rewrite IH, cond_view_event.
Qed.

Lemma cond_view_pass s now rings W p c :
  c ≠ NULL →
  cond_view s c (foldl (early_thread s now rings) p W) = foldl (cond_step s c) (cond_view s c p) (visits rings W).
Proof.
  intros Hc. revert p. induction W as [|t W IH]; intros p; [done|]. cbn [foldl]. unfold visits. csimpl. rewrite foldl_app.
  fold (visits rings W). rewrite IH. unfold early_thread. rewrite cond_view_events by done. done.
Qed.

(** The flags that [pth_cond_notify(c, broadcast)] leaves when there are waiters. *)
Definition notified (broadcast : bool) (z : Z) : Z :=
  let z := Z.lor z PTH_COND_SIGNALED in
  let z := if broadcast then Z.lor z PTH_COND_BROADCAST else Z.land z (Z.lnot PTH_COND_BROADCAST) in
  Z.land z (Z.lnot PTH_COND_HANDLED).

Lemma has_lor_or (x f g : Z) : has (Z.lor x f) g = has x g || has f g.
Proof.
  unfold has. rewrite Z.land_lor_distr_l. destruct (Z.eqb_spec (Z.land x g) 0) as [->|Hx]; [by rewrite Z.lor_0_l|].
  destruct (Z.eqb_spec (Z.lor (Z.land x g) (Z.land f g)) 0) as [[? _]%Z.lor_eq_0_iff|]; done.
Qed.

Lemma has_keep (x f g : Z) : Z.land (Z.lnot f) g = g → has (Z.land x (Z.lnot f)) g = has x g.
Proof. intros Hg. unfold has. by rewrite <- Z.land_assoc, Hg. Qed.

Lemma has_clear (x f : Z) : has (Z.land x (Z.lnot f)) f = false.
Proof. unfold has. rewrite <- Z.land_assoc, (Z.land_comm (Z.lnot f)), Z.land_lnot_diag, Z.land_0_r. done. Qed.

Lemma notified_flags b (x : Z) :
  has (notified b x) PTH_COND_SIGNALED = true ∧ has (notified b x) PTH_COND_BROADCAST = b ∧
  has (notified b x) PTH_COND_HANDLED = false.
Proof.
  unfold notified. cbv zeta. split_and!; [..|apply has_clear]; rewrite has_keep by done; destruct b;
    rewrite ?has_lor_or, ?has_clear; try rewrite has_keep by done; rewrite ?has_lor_or; by rewrite ?orb_true_r.
Qed.

Lemma hand_closed cn : has (cn_state cn) PTH_COND_BROADCAST = false → cond_open (cond_hand cn) = false.
Proof.
  intros Hb. unfold cond_open, cond_hand. rewrite Hb. cbn [cn_state]. rewrite !has_lor_or, Hb.
  change (has PTH_COND_HANDLED PTH_COND_HANDLED) with true. rewrite orb_true_r. change (has PTH_COND_HANDLED PTH_COND_BROADCAST) with false.
  by rewrite andb_false_r.
Qed.

Lemma cond_closed_fold s c cn acc L :
  cond_open cn = false → foldl (cond_step s c) (Some cn, acc) L = (Some cn, acc).
Proof.
  intros Hop. induction L as [|ev L IH]; [done|]. cbn [foldl]. unfold cond_step at 2. cbn. rewrite Hop, andb_false_r. done.
Qed.

Lemma cond_single_fold s c cn L :
  cond_open cn = true → has (cn_state cn) PTH_COND_BROADCAST = false →
  (foldl (cond_step s c) (Some cn, []) L).2 = take 1 (filter (λ ev, awaits s c ev) L).
Proof.
  intros Hop Hb. induction L as [|ev L IH]; [done|]. rewrite filter_cons. cbn [foldl]. unfold cond_step at 2. cbn [fst snd]. unfold default. cbn. rewrite Hop.
  destruct (awaits s c ev); cbn.
  - rewrite cond_closed_fold by (by apply hand_closed). done.
  - exact IH.
Qed.

Lemma cond_all_fold s c cn acc L :
  cond_open cn = true → has (cn_state cn) PTH_COND_BROADCAST = true →
  (foldl (cond_step s c) (Some cn, acc) L).2 = acc ++ filter (λ ev, awaits s c ev) L.
Proof.
  intros Hop Hb. assert (cond_hand cn = cn) as Hh by (unfold cond_hand; by rewrite Hb).
  revert acc. induction L as [|ev L IH]; intros acc; [cbn; by rewrite app_nil_r|]. rewrite filter_cons. cbn [foldl]. unfold cond_step at 2. cbn [fst snd]. unfold default. cbn. rewrite Hop.
  destruct (awaits s c ev); cbn; [|done]. rewrite Hh, IH. by rewrite <- app_assoc.
Qed.

Lemma lookup_mark occ h y : h !! y ≠ None →
  ev_status <$> mark occ h !! y = if decide (y ∈ occ) then Some PTH_STATUS_OCCURRED else ev_status <$> h !! y.
Proof.
  revert h. induction occ as [|z occ IH]; intros h Hy; [done|]. simpl. destruct (decide (z = y)) as [->|Hne].
  - rewrite IH by (rewrite lookup_alter_eq; by destruct (h !! y)). rewrite lookup_alter_eq. rewrite (decide_True (P := y ∈ y :: occ)) by (by left).
    case_decide; [done|]. by destruct (h !! y).
  - rewrite IH by (by rewrite lookup_alter_ne). rewrite lookup_alter_ne by done.
    destruct (decide (y ∈ occ)) as [Hin|Hin]; [by rewrite decide_True by (by right)|].
    rewrite decide_False; [done|]. by intros [?|?]%elem_of_cons.
Qed.

(** C14: Waking one waiter or all.  [pth_cond_notify] on a condition with waiters raises
    its flags and yields.  The next first pass of the event manager then gives the status
    "occurred" to all events that wait for the condition, for a broadcast, and otherwise to
    exactly one of them, the first in the order of the waiting queue. *)
Theorem notify_wakes s now P rings c cn b {Kn : Knot} s0 cn0 :
  load (conds s0) c = Some cn0 → has (cn_state cn0) PTH_COND_INITIALIZED = true → 0 < cn_waiters cn0 →
  qrepr s P → looking s (P WQ).*1 rings → load (conds s) c = Some cn → cn_state cn = notified b (cn_state cn0) →
  pth_cond_notify c b s0 =
    (do! _ <- (do! _ <- pth_yield NULL; cret tt); cret true) (set_conds (alter (λ cn, Cond (notified b (cn_state cn)) (cn_waiters cn)) c) s0) ∧
  ∃ x s', (do nthreads <- gets (λ s, S (size (threads s))); do t <- onq WQ pth_pqueue_head; em_threads nthreads now t em_init) s =
            Some (x, s') ∧
    ∀ ev, ev ∈ visits rings (P WQ).*1 → awaits s c ev = true →
      ev_status <$> evs s' !! ev =
        Some (if b || bool_decide (head (filter (λ ev, awaits s c ev) (visits rings (P WQ).*1)) = Some ev)
              then PTH_STATUS_OCCURRED else PTH_STATUS_PENDING).
Proof.
  intros Hc0 Hini Hw Hq Hlk Hc Hn. pose proof Hc as [Hnz _]%load_Some. split.
  - unfold pth_cond_notify. rewrite is_null_false by done. unfold ldc, stc.
    erewrite cbind_atom by (unfold ld; rewrite Hc0; reflexivity). rewrite Hini. cbn [negb].
    erewrite cbind_atom by (unfold ld; rewrite Hc0; reflexivity). rewrite (proj2 (Z.ltb_lt _ _) Hw). cbn iota.
    apply cbind_run_eq. pose proof Hc0 as [_ Hc0']%load_Some.
    erewrite cbind_atom by (unfold st; rewrite Hc0; reflexivity).
    erewrite cbind_atom by (unfold st; cbn; rewrite (load_alter_eq _ _ _ _ Hc0); reflexivity).
    erewrite cbind_atom by (unfold st; cbn; rewrite (load_alter_eq _ _ _ _ (load_alter_eq _ _ _ _ Hc0)); reflexivity).
    f_equal. transitivity (set_conds (λ m, alter (set_cn_state (λ x : Z, Z.land x (Z.lnot PTH_COND_HANDLED))) c
      (alter (set_cn_state (λ x : Z, if b then Z.lor x PTH_COND_BROADCAST else Z.land x (Z.lnot PTH_COND_BROADCAST))) c
        (alter (set_cn_state (λ x : Z, Z.lor x PTH_COND_SIGNALED)) c m))) s0); [done|].
    unfold set_conds. f_equal. rewrite !alter_alter_eq. apply alter_ext. by intros [].
  - eexists _, _. split; [by apply (early_run s now P rings)|]. intros ev Hev Haw.
    set (p := early s now rings (P WQ).*1). change (evs (after s p)) with (mark (p_occ p) (evs s)).
    assert (∃ e, evs s !! ev = Some e ∧ ev_status e = PTH_STATUS_PENDING) as (e & He & Hp).
    { unfold awaits in Haw. destruct (evs s !! ev) as [e|]; [|done]. apply andb_prop in Haw as [?%bool_decide_eq_true _]. by exists e. }
    rewrite lookup_mark by (by rewrite He). rewrite He. simpl. rewrite Hp.
    assert (ev ∈ p_occ p ↔ ev ∈ (cond_view s c p).2) as Hin.
    { unfold cond_view. cbn. rewrite list_elem_of_filter, Haw. naive_solver. }
    assert ((cond_view s c p).2 = (if b then id else take 1) (filter (λ ev, awaits s c ev) (visits rings (P WQ).*1))) as Hview.
    { unfold p, early. rewrite cond_view_pass by done. unfold cond_view. cbn [p_conds p_occ]. rewrite Hc.
      destruct (notified_flags b (cn_state cn0)) as (H1 & H2 & H3). rewrite <- Hn in H1, H2, H3.
      assert (cond_open cn = true) as Hop by (unfold cond_open; by rewrite H1, H3, orb_true_r).
      destruct b; [by apply (cond_all_fold s c cn [])|by apply cond_single_fold]. }
    rewrite Hview in Hin. destruct b; cbn [orb].
    + rewrite decide_True; [done|]. apply Hin, list_elem_of_filter. by rewrite Haw.
    + destruct (filter _ (visits rings (P WQ).*1)) as [|z l]; cbn in *.
      * rewrite decide_False; [done|]. by intros ?%Hin%not_elem_of_nil.
      * rewrite take_0, list_elem_of_singleton in Hin. destruct (decide (z = ev)) as [->|Hne].
        -- rewrite decide_True by (by apply Hin). by rewrite bool_decide_true.
        -- rewrite decide_False by (by intros <-%Hin). rewrite bool_decide_false; [done|]. by intros [=].
Qed.

(** ** Timers *)

(** The time that the pending event waits for, if it waits for one that has not come. *)
Definition timer s now ev : option timeval :=
  match evs s !! ev with
  | Some e =>
      match ev_args e with
      | TIME tv => if bool_decide (ev_status e = PTH_STATUS_PENDING) && negb (pth_time_cmp tv now <? 0) then Some tv else None
      | _ => None
      end
  | None => None
  end.

(** [x] remembers the earliest timer of the events [D]. *)
Definition earliest s now (D : list N) x : Prop :=
  (∀ ev tv, ev ∈ D → timer s now ev = Some tv → is_Some (em_next x) ∧ total (em_next_value x) ≤ total tv) ∧
  (∀ t ev, em_next x = Some (t, ev) → ev ∈ D ∧ timer s now ev = Some (em_next_value x)).

(** The times of events are normal and not further apart than an [int] can tell. *)
Definition comparable s now (D : list N) : Prop :=
  ∀ ev ev' tv tv', ev ∈ D → ev' ∈ D → timer s now ev = Some tv → timer s now ev' = Some tv' →
    norm tv ∧ - 2147483648 ≤ tv_sec tv - tv_sec tv' ≤ 2147483647.

Lemma cmp_before (t1 t2 : timeval) :
  norm t1 → norm t2 → - 2147483648 ≤ tv_sec t1 - tv_sec t2 ≤ 2147483647 → (pth_time_cmp t1 t2 <? 0) = (total t1 <? total t2).
Proof.
  intros H1 H2 Hr. pose proof (pth_time_cmp_sign t1 t2 H1 H2 Hr) as Hs.
  destruct (Z.ltb_spec (pth_time_cmp t1 t2) 0), (Z.ltb_spec (total t1) (total t2)); lia.
Qed.

Lemma earliest_same s now D ev x y :
  timer s now ev = None → em_next y = em_next x → em_next_value y = em_next_value x →
  earliest s now D x → earliest s now (D ++ [ev]) y.
Proof.
  intros Hev Hn Hv [He1 He2]. split; rewrite ?Hn, ?Hv.
  - intros z tv [Hz| ->%list_elem_of_singleton]%elem_of_app Ht; [by eapply He1|congruence].
  - intros t z Hz. destruct (He2 t z Hz) as [? ?]. split; [apply elem_of_app; by left|done].
Qed.

Lemma earliest_remember s now D t ev tv x :
  comparable s now (D ++ [ev]) → timer s now ev = Some tv → earliest s now D x → earliest s now (D ++ [ev]) (em_remember x t ev tv).
Proof.
  intros Hcmp Ht [He1 He2]. assert (ev ∈ D ++ [ev]) as Hin by (apply elem_of_app; right; by left). unfold em_remember.
  destruct (em_next x) as [[t0 ev0]|] eqn:Hnx.
  - destruct (He2 t0 ev0 eq_refl) as [Hin0 Ht0].
    assert (ev0 ∈ D ++ [ev]) as Hin0' by (apply elem_of_app; by left).
    destruct (Hcmp ev ev0 _ _ Hin Hin0' Ht Ht0) as [Hn1 Hr]. destruct (Hcmp ev0 ev _ _ Hin0' Hin Ht0 Ht) as [Hn2 _].
    rewrite cmp_before by done. destruct (Z.ltb_spec (total tv) (total (em_next_value x))); split; cbn; rewrite ?Hnx.
    + intros z tz [Hz| ->%list_elem_of_singleton]%elem_of_app Hz'; (split; [by eexists|]); [|by simplify_eq].
      destruct (He1 z tz Hz Hz') as [_ ?]. lia.
    + intros u z [= <- <-]. done.
    + intros z tz [Hz| ->%list_elem_of_singleton]%elem_of_app Hz'; (split; [by eexists|]); [by eapply He1|]. simplify_eq. done.
    + intros u z [= <- <-]. done.
  - split; cbn.
    + intros z tz [Hz| ->%list_elem_of_singleton]%elem_of_app Hz'; (split; [by eexists|]); [|by simplify_eq].
      by destruct (He1 z tz Hz Hz') as [[? ?] _].
    + intros u z [= <- <-]. done.
Qed.

Lemma earliest_event s now t D p ev :
  comparable s now (D ++ [ev]) → earliest s now D (p_em p) → earliest s now (D ++ [ev]) (p_em (early_event s now t p ev)).
Proof.
  intros Hcmp He. destruct (timer s now ev) as [tv|] eqn:Ht.
  - pose proof (earliest_remember s now D t ev tv (p_em p) Hcmp Ht He) as Hr. unfold timer in Ht. unfold early_event, occurs, note.
    destruct (evs s !! ev) as [e|]; [|done]. destruct (ev_args e) as [| | |tv'| | | | |]; try done.
    destruct (bool_decide _), (pth_time_cmp tv' now <? 0); cbn in *; try done. by simplify_eq.
  - unfold early_event. destruct (evs s !! ev) as [e|] eqn:Hev; [|by eapply earliest_same].
    destruct (bool_decide _) eqn:Hp; cbn [negb]; [|by eapply earliest_same].
    destruct (occurs s now (p_conds p) e) eqn:Ho; cbn; [by eapply earliest_same|]. unfold note.
    destruct (ev_args e) as [| | |tv'| | | | |] eqn:Ha; try (by eapply earliest_same).
    exfalso. unfold timer in Ht. rewrite Hev, Ha, Hp in Ht. unfold occurs in Ho. rewrite Ha in Ho. by rewrite Ho in Ht.
Qed.

Lemma comparable_sub s now D D' : (∀ ev, ev ∈ D' → ev ∈ D) → comparable s now D → comparable s now D'.
Proof. intros Hsub Hc ev ev' tv tv' H1 H2. apply Hc; by apply Hsub. Qed.

Lemma earliest_events s now t D p l :
  comparable s now (D ++ l) → earliest s now D (p_em p) → earliest s now (D ++ l) (p_em (foldl (early_event s now t) p l)).
Proof.
  revert D p. induction l as [|ev l IH]; intros D p Hcmp He; [by rewrite app_nil_r|]. rewrite (cons_middle ev D l), app_assoc in *.
  cbn [foldl]. apply IH; [done|]. apply earliest_event; [|done]. eapply comparable_sub; [|exact Hcmp].
  intros z Hz. apply elem_of_app. by left.
Qed.

Lemma earliest_pass s now rings W D p :
  comparable s now (D ++ visits rings W) → earliest s now D (p_em p) →
  earliest s now (D ++ visits rings W) (p_em (foldl (early_thread s now rings) p W)).
Proof.
  revert D p. induction W as [|t W IH]; intros D p Hcmp He; [by rewrite app_nil_r|]. unfold visits in *. csimpl in *. fold (visits rings W) in *.
  rewrite app_assoc in *. apply IH; [done|]. unfold early_thread. apply earliest_events.
  - eapply comparable_sub; [|exact Hcmp]. intros z Hz. apply elem_of_app. by left.
  - cbn. by destruct (asked s t).
Qed.

(** C27: The timer that the event manager sets before it waits is the earliest of all
    times that waiting threads wait for: it is the time of such an event, and no pending
    time event elapses before it. *)
Theorem timer_earliest s now P rings :
  qrepr s P → looking s (P WQ).*1 rings → comparable s now (visits rings (P WQ).*1) →
  ∃ x s', (do nthreads <- gets (λ s, S (size (threads s))); do t <- onq WQ pth_pqueue_head; em_threads nthreads now t em_init) s =
            Some (x, s') ∧
    (∀ ev tv, ev ∈ visits rings (P WQ).*1 → timer s now ev = Some tv →
       is_Some (em_next x) ∧ total (em_next_value x) ≤ total tv) ∧
    (∀ t ev, em_next x = Some (t, ev) → ev ∈ visits rings (P WQ).*1 ∧ timer s now ev = Some (em_next_value x)).
Proof.
  intros Hq Hlk Hcmp. eexists _, _. split; [by apply (early_run s now P rings)|].
  apply (earliest_pass s now rings (P WQ).*1 [] (Pass em_init (conds s) [] (pth_sigblock s))); [done|].
  by split; [intros ? ? ?%not_elem_of_nil|].
Qed.

End early.

(** ** An example: thread 103 waits for condition 70, twice, and for a time

The condition was signalled once; nothing is due. *)
Definition toy_app : @App toy_kernel :=
  @Build_App toy_kernel (λ _ _, cret tt) (λ _ _, ret 0) (λ _ v, cret v).
Definition toy_signalled : @St toy_kernel :=
  set_evs (λ _, list_to_map
    [(10%N, Event 11 12 PTH_STATUS_PENDING PTH_EVENT_COND 0 (COND 70));
     (11%N, Event 12 10 PTH_STATUS_PENDING PTH_EVENT_COND 0 (COND 70));
     (12%N, Event 10 11 PTH_STATUS_PENDING PTH_EVENT_TIME 0 (TIME (Tv 20 0)))])
    (set_conds (λ _, {[ 70%N := Cond (notified false PTH_COND_INITIALIZED) 2 ]})
      (set_threads (alter (on_body (set_events (λ _, 10%N))) 103%N) toy_threads)).
Definition toy_ring (t : N) : list N := if decide (t = 103%N) then [10%N; 11%N; 12%N] else [].

Lemma qrepr_conds {Kern : Kernel} f s P : qrepr s P → qrepr (set_conds f s) P.
Proof. apply qrepr_same; [done|by intros []]. Qed.

Lemma toy_signalled_queues : qrepr toy_signalled toy_queues.
Proof.
  destruct toy_threads_repr as [[Hq _ _ _ _ _] _]. unfold toy_signalled. by apply qrepr_evs, qrepr_conds, qrepr_alter.
Qed.

Lemma toy_signalled_looking : looking toy_signalled (toy_queues WQ).*1 toy_ring.
Proof.
  change ((toy_queues WQ).*1) with [103%N]. split.
  - intros t ->%list_elem_of_singleton. split; [|by eexists].
    split; [by apply (bool_decide_eq_true_1 (NoDup [10%N; 11%N; 12%N]))|]. done.
  - intros t y e ->%list_elem_of_singleton Hy He. change (toy_ring 103) with [10%N; 11%N; 12%N] in Hy.
    repeat (apply elem_of_cons in Hy as [->|Hy]); [..|by apply not_elem_of_nil in Hy]; vm_compute in He; simplify_eq; split; try done.
  - intros t t' ->%list_elem_of_singleton ->%list_elem_of_singleton. done.
Qed.

Lemma early_pass_witness :
  ∃ x s', (do n <- gets (λ s, S (size (threads s))); do t <- onq WQ pth_pqueue_head; @em_threads toy_kernel toy_app n (Tv 9 0) t em_init)
            toy_signalled = Some (x, s') ∧ em_next x = Some (103%N, 12%N) ∧ em_any x = true.
Proof.
  eexists _, _. split; [exact (@early_pass toy_kernel toy_app toy_signalled (Tv 9 0) toy_queues toy_ring toy_signalled_queues toy_signalled_looking)|].
  by vm_compute.
Defined.

Lemma notify_wakes_witness :
  ∃ x s', (do n <- gets (λ s, S (size (threads s))); do t <- onq WQ pth_pqueue_head; @em_threads toy_kernel toy_app n (Tv 9 0) t em_init)
            toy_signalled = Some (x, s') ∧
    ev_status <$> evs s' !! 10%N = Some PTH_STATUS_OCCURRED ∧ ev_status <$> evs s' !! 11%N = Some PTH_STATUS_PENDING.
Proof.
  destruct (@notify_wakes toy_kernel toy_app toy_signalled (Tv 9 0) toy_queues toy_ring 70 (Cond (notified false PTH_COND_INITIALIZED) 2) false
    toy_knot (set_conds (λ _, {[ 70%N := Cond PTH_COND_INITIALIZED 2 ]}) toy_state) (Cond PTH_COND_INITIALIZED 2))
    as (_ & x & s' & Hs & Hev).
  - reflexivity.
  - reflexivity.
  - done.
  - exact toy_signalled_queues.
  - exact toy_signalled_looking.
  - reflexivity.
  - reflexivity.
  - exists x, s'. split; [exact Hs|]. split; [apply (Hev 10%N)|apply (Hev 11%N)]; solve [done | by left | by right; left].
Defined.

Lemma timer_earliest_witness :
  ∃ x s', (do n <- gets (λ s, S (size (threads s))); do t <- onq WQ pth_pqueue_head; @em_threads toy_kernel toy_app n (Tv 9 0) t em_init)
            toy_signalled = Some (x, s') ∧ total (em_next_value x) ≤ 20000000.
Proof.
  destruct (@timer_earliest toy_kernel toy_app toy_signalled (Tv 9 0) toy_queues toy_ring toy_signalled_queues toy_signalled_looking)
    as (x & s' & Hs & Hev & _).
  - intros ev ev' tv tv' Hev Hev'. change (visits toy_ring (toy_queues WQ).*1) with [10%N; 11%N; 12%N] in *.
    assert (∀ ev tv, ev ∈ [10%N; 11%N; 12%N] → timer toy_signalled (Tv 9 0) ev = Some tv → tv = Tv 20 0) as Hall.
    { intros z tz Hz. repeat (apply elem_of_cons in Hz as [->|Hz]); [..|by apply not_elem_of_nil in Hz]; by intros [=]. }
    intros ->%Hall ->%Hall; [|done..]. unfold norm. cbn. lia.
  - exists x, s'. split; [exact Hs|]. apply (Hev 12%N (Tv 20 0)); [by right; right; left|reflexivity].
Defined.
