(* ===== verification/Barrier.v ===== *)
(** * Barriers

What [pth_barrier_reach] (pth_sync.c) promises to the threads that meet at a
barrier, whatever the other threads do in the meantime.  A thread's call is
proved against a rely condition (what the other threads may do to the barrier and
to this thread while it is suspended) and guarantees the same to the others: the
threads compose ([others_arrive]).  The ghost ticket of a thread records the
count that it found when it arrived and how many threads arrived after it. *)
From S2P Require Import State Data Sys Event Sync Locks Rwlocks.

(** ** The abstract barrier *)

(** The threads still missing in the current cycle, and the parity of the cycle. *)
Definition bview : Type := Z * bool.
(** One arrival at a barrier of [th] threads. *)
Definition arrive (th : Z) (x : bview) : bview := if x.1 =? 1 then (th, negb x.2) else (x.1 - 1, x.2).
Definition arrivals (th : Z) (n : nat) : bview → bview := Nat.iter n (arrive th).

Inductive ticket := Before | After (c : Z) (cycle : bool) (n : nat).
(** [n] arrivals of other threads. *)
Definition theirs (n : nat) (p : ticket) : ticket :=
  match p with Before => Before | After c y k => After c y (n + k) end.
(** A thread with ticket [p] at a barrier in state [x]. *)
Definition ticket_ok (th : Z) (p : ticket) (x : bview) : Prop :=
  match p with
  | Before => 1 ≤ x.1 ≤ th
  | After c y n => 1 ≤ c ≤ th ∧ x = arrivals th n (arrive th (c, y))
  end.

Lemma arrive_range th x : 1 ≤ x.1 ≤ th → 1 ≤ (arrive th x).1 ≤ th.
Proof. unfold arrive. destruct (Z.eqb_spec x.1 1); simpl; lia. Qed.

Lemma arrivals_range th n x : 1 ≤ x.1 ≤ th → 1 ≤ (arrivals th n x).1 ≤ th.
Proof. intros Hx. induction n as [|n IH]; [done|]. by apply arrive_range. Qed.

Lemma arrivals_add th n k x : arrivals th (n + k) x = arrivals th n (arrivals th k x).
Proof. unfold arrivals. apply Nat.iter_add. Qed.

Lemma ticket_range th p x : 1 ≤ th → ticket_ok th p x → 1 ≤ x.1 ≤ th.
Proof. destruct p; [done|]. intros _ [Hc ->]. by apply arrivals_range, arrive_range. Qed.

(** As long as fewer threads arrive than are missing, the cycle does not change. *)
Lemma arrivals_early th n x : Z.of_nat n < x.1 → arrivals th n x = (x.1 - Z.of_nat n, x.2).
Proof.
  induction n as [|n IH]; intros Hn; [destruct x; simpl; f_equal; lia|].
  change (arrivals th (S n) x) with (arrive th (arrivals th n x)). rewrite IH by lia.
  unfold arrive. cbn [fst snd]. rewrite (proj2 (Z.eqb_neq _ _)) by lia. f_equal. lia.
Qed.

(** Nobody passes before the missing threads have arrived. *)
Lemma cycle_needs_all th c y n x :
  ticket_ok th (After c y n) x → c ≠ 1 → x.2 ≠ y → c - 1 ≤ Z.of_nat n.
Proof.
  intros [Hc ->] Hc1 Hy. destruct (Z.leb_spec (c - 1) (Z.of_nat n)); [done|]. exfalso. apply Hy.
  unfold arrive. cbn [fst snd]. rewrite (proj2 (Z.eqb_neq _ _)) by done. by rewrite arrivals_early by (cbn; lia).
Qed.

Lemma theirs_ok th p x n : ticket_ok th p x → ticket_ok th (theirs n p) (arrivals th n x).
Proof.
  destruct p as [|c y k]; simpl; [apply arrivals_range|]. intros [Hc ->]. by rewrite arrivals_add.
Qed.

Section barrier.
Context {Kern : Kernel} {Kn : Knot}.
Implicit Types (s : St) (p : ticket).

(** The thread [me] at the barrier [b] of [th] threads with its mutex [mx] and
    condition [cn]; [cev] and [mev] are the thread's two event structures. *)
Context (me b mx cn cev mev : N) (th : Z).

(** ** What is observed of a state *)
Definition bx s : bview := default (0, false) ((λ br, (br_count br, br_cycle br)) <$> barriers s !! b).
Definition mxst s : option mstate := mx_of <$> mutexes s !! mx.
Definition mine_held s : Prop := ∃ c, mxst s = Some (MHeld me c).
Definition cstate s : option Z := cancelstate ∘ q_body <$> load (threads s) me.
Definition waits s : option N := events ∘ q_body <$> load (threads s) me.

(** ** Rely and guarantee *)

(** What the thread does between two suspensions: nothing to the barrier, or it
    arrives, once; nothing at all while another thread holds the mutex; and it does
    not take the mutex for another thread. *)
Definition mine p s p' s' : Prop :=
  ((p' = p ∧ bx s' = bx s) ∨ (p = Before ∧ p' = After (bx s).1 (bx s).2 0 ∧ bx s' = arrive th (bx s))) ∧
  (∀ o c, o ≠ me → mxst s = Some (MHeld o c) → mxst s' = mxst s ∧ bx s' = bx s) ∧
  (∀ o c, o ≠ me → mxst s' = Some (MHeld o c) → mxst s' = mxst s).

Lemma mine_refl p s : mine p s p s.
Proof. split_and!; [by left|done..]. Qed.

Lemma mine_trans p1 s1 p2 s2 p3 s3 : mine p1 s1 p2 s2 → mine p2 s2 p3 s3 → mine p1 s1 p3 s3.
Proof.
  intros (H1 & G1 & F1) (H2 & G2 & F2). split_and!.
  - destruct H1 as [[-> E1]|(-> & -> & E1)], H2 as [[-> E2]|(? & -> & E2)].
    + left. split; [done|congruence].
    + right. rewrite E1 in *. done.
    + right. split_and!; congruence.
    + done.
  - intros o c Ho Hm. destruct (G1 o c Ho Hm) as [Hm1 Hb1]. rewrite <- Hm1 in Hm. destruct (G2 o c Ho Hm) as [Hm2 Hb2].
    split; congruence.
  - intros o c Ho Hm. pose proof (F2 o c Ho Hm) as E. rewrite E in Hm. rewrite E. by eapply F1.
Qed.

(** The thread's event for the [static] key [key] exists: it is [ev]. *)
Definition own_event s (key ev : N) : Prop :=
  ∃ k n, load (ints s) key = Some k ∧ k ≠ PTH_KEY_INIT ∧ key_live s k ∧ load (threads s) me = Some n ∧
    data_wf (q_body n) ∧ data_at (q_body n) (Z.to_nat k) = ev ∧ is_Some (load (evs s) ev).

(** The barrier's condition is only ever broadcast. *)
Record base s : Prop := {
  e_cur : pth_current s = me;
  e_sched : is_Some (load (threads s) (pth_sched s));
  e_cev : own_event s cond_ev_key cev;
  e_mev : own_event s mutex_ev_key mev;
  e_bar : ∃ br, load (barriers s) b = Some br ∧ has (br_state br) PTH_BARRIER_INITIALIZED = true ∧
            br_threshold br = th ∧ br_cond br = cn ∧ br_mutex br = mx;
  e_cond : ∃ cd, load (conds s) cn = Some cd ∧ has (cn_state cd) PTH_COND_INITIALIZED = true ∧
             has (cn_state cd) PTH_COND_SIGNALED && negb (has (cn_state cd) PTH_COND_BROADCAST) = false
}.
Definition lockok s : Prop :=
  ∃ a, lock_repr s a ∧ lock_inv a ∧ is_Some (lk_held a !! me) ∧ ∃ x, lk_mx a !! mx = Some x ∧ x ≠ MUninit.
Record env s : Prop := { e_base : base s; e_lock : lockok s }.

(** The top of the thread's stack of cleanup handlers can be read. *)
Definition cleantop s : Prop :=
  ∃ n, load (threads s) me = Some n ∧
    (cleanups (q_body n) = NULL ∨ is_Some (load (cleanup_recs s) (cleanups (q_body n)))).

(** The thread is suspended in [s] and resumed in [s'] after [n] arrivals. *)
Record rely (n : nat) s s' : Prop := {
  r_env : env s';
  r_cev : cyc (evs s') [cev];
  r_mev : cyc (evs s') [mev];
  r_clean : cleantop s';
  r_cancel : cstate s' = cstate s;
  r_nocancel m : load (threads s') me = Some m → cancelreq (q_body m) && has (cancelstate (q_body m)) PTH_CANCEL_ENABLE = false;
  r_bx : bx s' = arrivals th n (bx s);
  r_held c : mxst s = Some (MHeld me c) → mxst s' = mxst s ∧ n = 0%nat;
  r_nheld : ¬ mine_held s → ¬ mine_held s'
}.

(** What the thread waits for in [s] has happened in [s']: for a condition, the
    barrier is in another cycle and its mutex is free; for a mutex, it is free. *)
Definition ready s s' : Prop :=
  match waits s with
  | Some w =>
      if decide (w = cev) then mxst s' = Some MFree ∧ (bx s').2 ≠ (bx s).2
      else if decide (w = mev) then mxst s' = Some MFree else True
  | None => False
  end.

(** A run that starts in [s0] with ticket [p]: in each segment the thread does what
    it guarantees, it is never undefined and not out of fuel as long as it has not
    been woken up in vain more than [k] times, and it ends with [Q]. *)
Inductive rg {A} (Q : nat → ticket → A → St → Prop) : nat → ticket → St → out A → Prop :=
  | rg_ret k p s0 p' a s : mine p s0 p' s → Q k p' a s → rg Q k p s0 (ORet a s)
  | rg_switch k p s0 p' s c :
      mine p s0 p' s →
      (∀ n s', rely n s s' → ready s s' → rg Q k (theirs n p') s' (c s')) →
      (∀ k' n s', k = S k' → rely n s s' → rg Q k' (theirs n p') s' (c s')) →
      rg Q k p s0 (OSwitch s c).

Lemma rg_prefix {A} (Q : nat → ticket → A → St → Prop) k p s0 p1 s1 o :
  mine p s0 p1 s1 → rg Q k p1 s1 o → rg Q k p s0 o.
Proof.
  intros Hm Ho. destruct Ho; econstructor; try done; by eapply mine_trans.
Qed.

Lemma rg_mono {A} (P Q : nat → ticket → A → St → Prop) k p s0 o :
  rg P k p s0 o → (∀ k' p' a s, P k' p' a s → Q k' p' a s) → rg Q k p s0 o.
Proof. intros Ho HQ. induction Ho; econstructor; eauto. Qed.

Lemma rg_bind {A B} (Q : nat → ticket → B → St → Prop) k p s0 o (f : A → coro B) :
  rg (λ k p a s, rg Q k p s (f a s)) k p s0 o → rg Q k p s0 (obind o f).
Proof.
  intros Ho. induction Ho as [k p s0 p' a s Hm Ha|k p s0 p' s c Hm _ IH1 _ IH2]; simpl.
  - by eapply rg_prefix.
  - by econstructor.
Qed.

Lemma rg_cbind {A B} (Q : nat → ticket → B → St → Prop) k p s (c : coro A) (f : A → coro B) :
  rg (λ k p a s, rg Q k p s (f a s)) k p s (c s) → rg Q k p s (cbind c f s).
Proof. apply rg_bind. Qed.

(** ** Steps that the observations do not see *)

(** The members of a control block that the promises are about. *)
Definition core (n : qnode tcb) := (data_value (q_body n), data_count (q_body n), cancelstate (q_body n)).
Record like s s' : Prop := {
  k_cur : pth_current s' = pth_current s;
  k_sched : pth_sched s' = pth_sched s;
  k_ints : ints s' = ints s;
  k_keytab : pth_keytab s' = pth_keytab s;
  k_threads t : core <$> load (threads s') t = core <$> load (threads s) t;
  k_evs e : is_Some (load (evs s) e) → is_Some (load (evs s') e)
}.

#[local] Instance like_refl : Reflexive like.
Proof. by split. Qed.
#[local] Instance like_trans : Transitive like.
Proof. intros s1 s2 s3 [] []. split; try congruence. auto. Qed.

Lemma like_cstate s s' : like s s' → cstate s' = cstate s.
Proof.
  intros Hl. pose proof (k_threads _ _ Hl me) as Ht. unfold cstate.
  destruct (load (threads s') me), (load (threads s) me); try done. simpl in *. unfold core in Ht. congruence.
Qed.

Lemma own_event_like s s' key ev : like s s' → own_event s key ev → own_event s' key ev.
Proof.
  intros [Hc Hs Hi Hk Ht He] (k & n & H1 & H2 & H3 & H4 & H5 & H6 & H7). specialize (Ht me). rewrite H4 in Ht.
  destruct (load (threads s') me) as [n'|] eqn:Hn'; [|done]. injection Ht as Hd1 Hd2 _. exists k, n'.
  unfold key_live, data_wf, data_at in *. rewrite Hi, Hk, Hd1, Hd2. do 6 (split; [done|]). auto.
Qed.

Lemma own_event_has s key ev : pth_current s = me → own_event s key ev → has_event s key ev.
Proof.
  intros Hc (k & n & H1 & H2 & H3 & H4 & H5 & <- & [e H7]). exists k, e. split_and!; [done..| |done].
  apply getdata_run; [by rewrite Hc|done..].
Qed.

Lemma base_like s s' : like s s' → barriers s' = barriers s → conds s' = conds s → base s → base s'.
Proof.
  intros Hl Hb Hc [H1 H2 H3 H4 H5 H6]. split.
  - by rewrite (k_cur _ _ Hl).
  - pose proof (k_threads _ _ Hl (pth_sched s)) as Ht. rewrite (k_sched _ _ Hl). destruct H2 as [m Hm]. rewrite Hm in Ht.
    destruct (load (threads s') (pth_sched s)); [by eexists|done].
  - by eapply own_event_like.
  - by eapply own_event_like.
  - by rewrite Hb.
  - by rewrite Hc.
Qed.

Lemma base_me s : base s → ∃ n, load (threads s) me = Some n.
Proof. intros [_ _ (k & n & H) _ _ _]. exists n. tauto. Qed.

Lemma base_bar s g :
  base s → (∀ br, br_state (g br) = br_state br ∧ br_threshold (g br) = br_threshold br ∧
              br_cond (g br) = br_cond br ∧ br_mutex (g br) = br_mutex br) →
  base (set_barriers (alter g b) s).
Proof.
  intros [H1 H2 H3 H4 (br & Hbr & Hb) H6] Hg. split; try done. exists (g br).
  split; [by apply load_alter_eq|]. destruct (Hg br) as (-> & -> & -> & ->). done.
Qed.

Lemma base_cond s g :
  base s → (∀ cd, has (cn_state (g cd)) PTH_COND_INITIALIZED = has (cn_state cd) PTH_COND_INITIALIZED) →
  (∀ cd, has (cn_state cd) PTH_COND_SIGNALED && negb (has (cn_state cd) PTH_COND_BROADCAST) = false →
     has (cn_state (g cd)) PTH_COND_SIGNALED && negb (has (cn_state (g cd)) PTH_COND_BROADCAST) = false) →
  base (set_conds (alter g cn) s).
Proof.
  intros [H1 H2 H3 H4 H5 (cd & Hcd & Hi & Hs)] Hgi Hgs. split; try done. exists (g cd).
  split; [by apply load_alter_eq|]. rewrite Hgi. auto.
Qed.

(** The mutex operations. *)
Lemma beside_like s s' :
  beside s' = beside s → pth_current s' = pth_current s →
  like s s' ∧ barriers s' = barriers s ∧ conds s' = conds s ∧ waits s' = waits s.
Proof.
  unfold beside. intros [= _ _ _ _ Hb Hc He Hi Hk Hs Ht] Hcur.
  assert (∀ t, ringless <$> load (threads s') t = ringless <$> load (threads s) t) as Hl.
  { intros t. unfold load. case_decide; [done|]. rewrite <- !lookup_fmap. by rewrite Ht. }
  split_and!; [|done..|].
  - split; [done..| |by rewrite He]. intros t. specialize (Hl t). unfold ringless in Hl.
    destruct (load (threads s') t) as [n'|], (load (threads s) t) as [n|]; try done. unfold core, fmap in *; simpl in *. injection Hl; intros. congruence.
  - unfold waits. specialize (Hl me). unfold ringless in Hl.
    destruct (load (threads s') me) as [n'|], (load (threads s) me) as [n|]; try done. unfold fmap in *; simpl in *. injection Hl; intros. by f_equal.
Qed.

(** ** Taking and releasing the barrier's mutex *)

Lemma lock_mxst s a : lock_repr s a → lk_mx a !! mx = mxst s.
Proof. intros Ha. by rewrite (lr_mx _ _ Ha), lookup_fmap. Qed.

Lemma mx_nonnull s : env s → mx ≠ NULL → is_null mx = false.
Proof. intros _. apply is_null_false. Qed.

Lemma bx_barriers s s' : barriers s' = barriers s → bx s' = bx s.
Proof. intros Hb. unfold bx. by rewrite Hb. Qed.

Context (Hmx : mx ≠ NULL) (Hev : cev ≠ mev) (Hth : 1 ≤ th ≤ INT_MAX).

(** The states around an operation on the mutex. *)
Record moved s s' : Prop := {
  m_env : env s';
  m_like : like s s';
  m_bx : bx s' = bx s;
  m_waits : waits s' = waits s
}.

Lemma moved_beside s s' a' :
  base s → lock_repr s' a' → lock_inv a' → pth_current s' = pth_current s → beside s' = beside s →
  is_Some (lk_held a' !! me) → (∃ x, lk_mx a' !! mx = Some x ∧ x ≠ MUninit) → moved s s'.
Proof.
  intros Hb Ha Hi Hc Hbs Hh Hx. destruct (beside_like _ _ Hbs Hc) as (Hl & Hbar & Hcn & Hw). split; [|done| |done].
  - split; [by eapply base_like|]. by exists a'.
  - by apply bx_barriers.
Qed.

Lemma take_run fuel s :
  env s → mxst s = Some MFree →
  ∃ s', pth_mutex_acquire fuel mx false NULL s = ORet true s' ∧ moved s s' ∧ mxst s' = Some (MHeld me 1).
Proof.
  intros [Hb (a & Ha & Hi & Hh & x & Hx & Hxu)] Hm. pose proof (lock_mxst _ _ Ha) as Hxm. rewrite Hm in Hxm.
  pose proof (e_cur _ Hb) as Hcur. pose proof (lr_cur _ _ Ha) as Hca. rewrite Hcur in Hca.
  destruct (take_free a mx Hmx Hxm) as (a' & Hsp & Hm' & Hcur' & _ & Hheld); [by rewrite Hca|]. rewrite Hca in Hm'.
  destruct (acquire_run fuel mx false s a true a' Ha Hi Hsp) as (s' & Hrun & Ha' & Hi' & Hbs); [by right|].
  assert (lk_mx a' !! mx = Some (MHeld me 1)) as Hx' by (rewrite Hm'; apply lookup_insert_eq).
  exists s'. split_and!; [done| |by rewrite <- (lock_mxst _ _ Ha')].
  eapply moved_beside; try done; [by rewrite <- (lr_cur _ _ Ha'), <- (lr_cur _ _ Ha)|by apply Hheld|by exists (MHeld me 1)].
Qed.

Lemma drop_run s :
  env s → mxst s = Some (MHeld me 1) →
  ∃ s', pth_mutex_release mx s = Some (true, s') ∧ moved s s' ∧ mxst s' = Some MFree.
Proof.
  intros [Hb (a & Ha & Hi & Hh & x & Hx & Hxu)] Hm. pose proof (lock_mxst _ _ Ha) as Hxm. rewrite Hm in Hxm.
  pose proof (e_cur _ Hb) as Hcur. pose proof (lr_cur _ _ Ha) as Hca. rewrite Hcur in Hca. rewrite <- Hca in Hxm, Hh.
  destruct (drop_own a mx Hmx Hxm Hh) as (a' & Hsp & Hm' & Hcur' & _ & Hheld).
  destruct (release_run mx s a true a' Ha Hi Hsp) as (s' & Hrun & Ha' & Hi' & Hbs).
  assert (lk_mx a' !! mx = Some MFree) as Hx' by (rewrite Hm'; apply lookup_insert_eq).
  exists s'. split_and!; [done| |by rewrite <- (lock_mxst _ _ Ha')].
  eapply moved_beside; try done; [by rewrite <- (lr_cur _ _ Ha'), <- (lr_cur _ _ Ha)|apply Hheld; by rewrite <- Hca|by exists MFree].
Qed.

(** A thread that has been resumed and has unlinked its events. *)
Lemma resumed_moved s :
  env s → env (resumed s) ∧ like s (resumed s) ∧ bx (resumed s) = bx s ∧ mxst (resumed s) = mxst s ∧
          waits (resumed s) = Some NULL.
Proof.
  intros [Hb (a & Ha & Hi & Hh & Hx)]. destruct (base_me _ Hb) as [n Hn].
  assert (like s (resumed s)) as Hl.
  { split; try done. intros t. unfold resumed. simpl. rewrite load_alter. case_decide; [subst|done].
    by destruct (load (threads s) (pth_current s)). }
  split_and!; [|done|done|done|].
  - split; [by eapply base_like|]. exists (lock_errno (default 0 (mctx_error ∘ q_body <$> load (threads s) (pth_current s))) a).
    split_and!; [|by destruct Hi|done|done]. unfold resumed. apply lock_repr_alter; [|done]. by apply lock_repr_errno.
  - unfold waits, resumed. simpl. rewrite (e_cur _ Hb), load_alter, decide_True by done. by rewrite Hn.
Qed.

Lemma mine_still p s s' : bx s' = bx s → mxst s' = mxst s → mine p s p s'.
Proof. intros Hb Hm. split_and!; [by left|done..]. Qed.

(** A step of a thread while no other thread holds the mutex. *)
Lemma mine_own p s s' :
  bx s' = bx s → (∀ o c, o ≠ me → mxst s ≠ Some (MHeld o c)) → (∀ o c, o ≠ me → mxst s' ≠ Some (MHeld o c)) → mine p s p s'.
Proof. intros Hb Hm Hm'. split_and!; [by left| |]; intros o c Ho H; [by destruct (Hm o c Ho)|by destruct (Hm' o c Ho)]. Qed.

Definition same_kind p p' : Prop :=
  match p with Before => p' = Before | After c y _ => ∃ n, p' = After c y n end.

Lemma same_kind_theirs n p p' : same_kind (theirs n p) p' → same_kind p p'.
Proof. by destruct p. Qed.

(** The state after taking the mutex, and what is known about the way there. *)
Definition acquired k p s k' p' (ok : bool) s' : Prop :=
  ok = true ∧ env s' ∧ mxst s' = Some (MHeld me 1) ∧ ticket_ok th p' (bx s') ∧ (k' ≤ k)%nat ∧ same_kind p p' ∧
  cstate s' = cstate s ∧ waits s' = Some NULL ∧ (mxst s = Some MFree → k' = k ∧ p' = p ∧ bx s' = bx s).

Lemma rg_take fuel k p s :
  env s → mxst s = Some MFree → ticket_ok th p (bx s) → waits s = Some NULL →
  rg (acquired k p s) k p s (pth_mutex_acquire fuel mx false NULL s).
Proof.
  intros He Hm Hp Hw. destruct (take_run fuel s He Hm) as (s' & -> & [He' Hl Hb Hw'] & Hm').
  apply rg_ret with p; [apply mine_own; [done|congruence..]|]. unfold acquired.
  split_and!; try done; try lia; [by rewrite Hb|by destruct p; [|eexists]|by apply like_cstate|by rewrite Hw'].
Qed.

Lemma not_mine s c : ¬ mine_held s → mxst s ≠ Some (MHeld me c).
Proof. intros Hn Hm. apply Hn. by exists c. Qed.

(** The states of the mutex that the thread may find. *)
Lemma env_mutex s :
  env s → ¬ mine_held s →
  ∃ a x, lock_repr s a ∧ lock_inv a ∧ lk_cur a = me ∧ lk_mx a !! mx = Some x ∧ mxst s = Some x ∧
    (x = MFree ∨ ∃ o c, x = MHeld o c ∧ o ≠ lk_cur a).
Proof.
  intros [Hb (a & Ha & Hi & Hh & x & Hx & Hxu)] Hn. pose proof (lock_mxst _ _ Ha) as Hxm. rewrite Hx in Hxm.
  assert (lk_cur a = me) as Hca by (rewrite (lr_cur _ _ Ha); apply Hb).
  exists a, x. split_and!; try done. destruct x as [| |o c]; [done|by left|right]. exists o, c. split; [done|].
  rewrite Hca. intros ->. by apply (not_mine s c Hn).
Qed.

(** A thread that was suspended in [s1] and goes on as [c]. *)
Lemma acquired_resumed k k' p n s s1 s2 (c : coro bool) :
  rely n s1 s2 → (k' ≤ k)%nat → cstate s1 = cstate s → mxst s ≠ Some MFree →
  rg (acquired k' (theirs n p) (resumed s2)) k' (theirs n p) (resumed s2) (c (resumed s2)) →
  rg (acquired k p s) k' (theirs n p) s2 (c (resumed s2)).
Proof.
  intros Hr Hk Hc Hnf Hrg. destruct (resumed_moved _ (r_env _ _ _ Hr)) as (_ & Hl & Hb & Hm & Hw).
  eapply rg_prefix; [by apply mine_still|]. eapply rg_mono; [exact Hrg|].
  intros k2 p2 ok s3 (-> & He3 & Hm3 & Hp3 & Hk3 & Hkind & Hc3 & Hw3 & _). unfold acquired.
  split_and!; try done; [lia|by eapply same_kind_theirs|].
  rewrite Hc3, (like_cstate _ _ Hl), (r_cancel _ _ _ Hr). done.
Qed.

Lemma rg_acquire fuel k p s :
  env s → ¬ mine_held s → ticket_ok th p (bx s) → waits s = Some NULL → (k < fuel)%nat →
  rg (acquired k p s) k p s (pth_mutex_acquire fuel mx false NULL s).
Proof.
  revert k p s. induction fuel as [|fuel IH]; intros k p s He Hn Hp Hw Hk; [lia|].
  destruct (env_mutex s He Hn) as (a & x & Ha & Hi & Hca & Hx & Hxm & [->|(o & c & -> & Ho)]); [by apply rg_take|].
  destruct (base_me _ (e_base _ He)) as [m Hm]. pose proof (e_cur _ (e_base _ He)) as Hcur.
  destruct (e_sched _ (e_base _ He)) as [m' Hm'].
  destruct (acquire_busy fuel s a mx o c mev m m') as (kk & -> & Hback);
    [done|by apply is_null_false|done|done|by apply own_event_has; [|apply He]|by rewrite Hcur|done|].
  set (s1 := set_threads _ _).
  assert (waits s1 = Some mev) as Hw1.
  { unfold waits, s1. simpl. rewrite Hcur, load_alter, decide_True by done. by rewrite Hm. }
  assert (cstate s1 = cstate s) as Hc1.
  { unfold cstate, s1. simpl. rewrite Hcur, load_alter, decide_True by done. by rewrite Hm. }
  assert (¬ mine_held s1) as Hn1 by done.
  assert (∀ n s2, rely n s1 s2 →
    kk s2 = pth_mutex_acquire fuel mx false NULL (resumed s2) ∧ env (resumed s2) ∧ ¬ mine_held (resumed s2) ∧
    ticket_ok th (theirs n p) (bx (resumed s2)) ∧ waits (resumed s2) = Some NULL ∧ mxst (resumed s2) = mxst s2) as Hres.
  { intros n s2 Hr. pose proof (r_nheld _ _ _ Hr Hn1) as Hn2. pose proof (r_env _ _ _ Hr) as He2.
    destruct (resumed_moved _ He2) as (He3 & Hl3 & Hb3 & Hm3 & Hw3).
    destruct (env_mutex s2 He2 Hn2) as (a2 & x2 & Ha2 & _ & Hca2 & Hx2 & _ & Hcase).
    destruct (base_me _ (e_base _ He2)) as [m2 Hm2]. pose proof (e_cur _ (e_base _ He2)) as Hcur2.
    destruct (Hback s2 a2 m2 x2) as [Hk2 _]; [done|by rewrite Hcur2|apply Hr|by apply (r_nocancel _ _ _ Hr)|done|done|].
    split_and!; try done.
    rewrite Hb3, (r_bx _ _ _ Hr). by apply theirs_ok. }
  apply rg_switch with p; [by apply mine_still| |].
  - intros n s2 Hr Hrd. destruct (Hres n s2 Hr) as (-> & He3 & Hn3 & Hp3 & Hw3 & Hm3).
    unfold ready in Hrd. rewrite Hw1, decide_False, decide_True in Hrd by done.
    eapply acquired_resumed; [done|lia|done|congruence|]. apply rg_take; try done; by rewrite Hm3.
  - intros k' n s2 -> Hr. destruct (Hres n s2 Hr) as (-> & He3 & Hn3 & Hp3 & Hw3 & Hm3).
    eapply acquired_resumed; [done|lia|done|congruence|]. apply IH; try done; lia.
Qed.

(** ** Waiting for the condition *)

(** Steps that change neither the barrier nor the mutexes nor the conditions. *)
Record quiet s s' : Prop := {
  q_like : like s s';
  q_bar : barriers s' = barriers s;
  q_conds : conds s' = conds s;
  q_mx : mutexes s' = mutexes s;
  q_lock : lockok s → lockok s';
  q_waits : waits s' = waits s
}.

#[local] Instance quiet_trans : Transitive quiet.
Proof. intros s1 s2 s3 [] []. split; try congruence; [by etrans|auto]. Qed.

Lemma quiet_env s s' : quiet s s' → env s → env s' ∧ bx s' = bx s ∧ mxst s' = mxst s.
Proof.
  intros [] [Hb Hl]. split_and!; [split; [by eapply base_like|auto]|by apply bx_barriers|]. unfold mxst. congruence.
Qed.

Lemma lockok_same s s' :
  mutexes s' = mutexes s → rnodes s' = rnodes s → pth_current s' = pth_current s →
  (∀ t, mutexring ∘ q_body <$> load (threads s') t = mutexring ∘ q_body <$> load (threads s) t) → lockok s → lockok s'.
Proof.
  intros Hm Hr Hc Ht (a & [H1 H2 H3 H4 H5] & Hi & Hh & Hx). exists (lock_errno (errno s') a).
  split_and!; [|by destruct Hi|done|done]. split; simpl; [by rewrite Hm| |by rewrite Hm, Hr|by rewrite Hc|done].
  intros t l Hl. destruct (H2 t l Hl) as (n & Hn & Hrr). specialize (Ht t). rewrite Hn in Ht.
  destruct (load (threads s') t) as [n'|]; [|done]. injection Ht as Ht. exists n'. by rewrite Hr, Ht.
Qed.

(** Storing a member of a control block other than those observed. *)
Lemma quiet_threads s t g :
  (∀ x, data_value (g x) = data_value x ∧ data_count (g x) = data_count x ∧ cancelstate (g x) = cancelstate x ∧
        mutexring (g x) = mutexring x ∧ events (g x) = events x) →
  quiet s (set_threads (alter (on_body g) t) s).
Proof.
  intros Hg. assert (∀ A (f : tcb → A) u, (∀ x, f (g x) = f x) →
    f ∘ q_body <$> load (alter (on_body g) t (threads s)) u = f ∘ q_body <$> load (threads s) u) as Hf.
  { intros A f u Hgf. rewrite load_alter. case_decide; [|done]. destruct (load (threads s) u) as [m|]; [|done]. simpl. by rewrite Hgf. }
  split; try done.
  - split; try done. intros u. simpl. apply (Hf _ (λ x, (data_value x, data_count x, cancelstate x))). intros x.
    destruct (Hg x) as (-> & -> & -> & _). done.
  - apply lockok_same; try done. intros u. apply Hf. intros x. apply Hg.
  - apply Hf. intros x. apply Hg.
Qed.

Lemma quiet_same s s' :
  pth_current s' = pth_current s → pth_sched s' = pth_sched s → ints s' = ints s → pth_keytab s' = pth_keytab s →
  threads s' = threads s → (∀ e, is_Some (load (evs s) e) → is_Some (load (evs s') e)) →
  barriers s' = barriers s → conds s' = conds s → mutexes s' = mutexes s → rnodes s' = rnodes s → quiet s s'.
Proof.
  intros H1 H2 H3 H4 H5 H6 H7 H8 H9 H10. split; try done.
  - split; try done. by rewrite H5.
  - apply lockok_same; try done. by rewrite H5.
  - unfold waits. by rewrite H5.
Qed.

Lemma push_run s f c :
  env s → f ≠ NULL → ∃ r s', pth_cleanup_push f c s = Some (r, s') ∧ quiet s s' ∧ evs s' = evs s.
Proof.
  intros He Hf. unfold pth_cleanup_push. rewrite is_null_false by done.
  destruct (base_me _ (e_base _ He)) as [m Hm]. pose proof (e_cur _ (e_base _ He)) as Hcur.
  unfold malloc, kcall, bind, pth_error, gets, modify, ret.
  destruct (k_enomem 24 (kern s)) as [[] kr]; [by eexists _, _; split; [reflexivity|]; split; [by apply quiet_same|]|].
  cbn [fst snd]. destruct (is_null _); [by eexists _, _; split; [reflexivity|]; split; [by apply quiet_same|]|].
  set (s1 := set_brk _ _). change (pth_current s1) with (pth_current s).
  rewrite (ldt_run _ _ s1 m) by (by rewrite Hcur).
  set (s2 := set_cleanup_recs _ s1). change (pth_current s2) with (pth_current s).
  rewrite (stt_run _ _ s2 m) by (by rewrite Hcur). eexists _, _. split; [reflexivity|]. split; [|done].
  transitivity s2; [by apply quiet_same|]. apply quiet_threads. by intros [].
Qed.

Lemma pop_run s :
  env s → cleantop s → ∃ r s', pth_cleanup_pop false s = ORet r s' ∧ quiet s s'.
Proof.
  intros He (m & Hm & Hc). pose proof (e_cur _ (e_base _ He)) as Hcur. unfold pth_cleanup_pop.
  erewrite cbind_atom by done. erewrite cbind_atom by (eapply ldt_run; by rewrite Hcur).
  destruct Hc as [->|[x Hx]]; [by eexists _, _; split; [reflexivity|]; apply quiet_same|].
  rewrite is_null_false by (by apply load_Some in Hx as [? _]). unfold pop_top.
  set (c := cleanups (q_body m)) in *. set (s1 := set_threads (alter (on_body (set_cleanups (λ _, cl_next x))) (pth_current s)) s).
  eexists _, (set_cleanup_recs (delete c) s1). split.
  - erewrite cbind_ret; [reflexivity|]. erewrite cbind_atom by (unfold ld; by rewrite Hx).
    erewrite cbind_atom by (eapply stt_run; by rewrite Hcur). erewrite cbind_ret by done. apply atom_run.
    unfold free. rewrite is_null_false by (by apply load_Some in Hx as [? _]). unfold bind, ld. simpl. by rewrite Hx.
  - transitivity s1; [|by apply quiet_same]. apply quiet_threads. by intros [].
Qed.

Definition cond_event (ev c : N) : event → event := fresh_event ev PTH_EVENT_COND 0 (COND c).

Lemma cond_event_run s ev c :
  has_event s cond_ev_key ev →
  pth_event (Z.lor PTH_EVENT_COND PTH_MODE_STATIC) [VPtr cond_ev_key; VPtr c] s =
    Some (ev, set_evs (alter (cond_event ev c) ev) s).
Proof.
  intros He. destruct (static_event_run s (Z.lor PTH_EVENT_COND PTH_MODE_STATIC) cond_ev_key [VPtr c] ev He)
    as (e & Hl & ->); [done..|]. by eapply event_fill_run.
Qed.

Lemma quiet_evs s e g : quiet s (set_evs (alter g e) s).
Proof.
  apply quiet_same; try done. intros x [y Hx]. simpl. rewrite load_alter. case_decide; [subst|by eexists]. rewrite Hx. by eexists.
Qed.

(** [pth_cond_await] from the end of its wait on. *)
Definition after_wait (fuel : nat) (cleanvec : N) : coro bool :=
  do! _ <- pth_cleanup_pop false;
  do! _ <- pth_mutex_acquire fuel mx false NULL;
  atom (stc cn (set_cn_waiters (λ n, u32 (n - 1)))) ;;!
  atom (modify (set_cleanvecs (delete cleanvec))) ;;!
  cret true.

(** Up to the wait: the number of waiters is counted, the mutex is released, the
    event is prepared and the handler for cancellation is pushed. *)
Lemma await_start fuel s :
  env s → mxst s = Some (MHeld me 1) → waits s = Some NULL →
  ∃ v s', pth_cond_await fuel cn mx NULL s = (do! _ <- pth_wait cev; after_wait fuel v) s' ∧
    env s' ∧ mxst s' = Some MFree ∧ bx s' = bx s ∧ cstate s' = cstate s ∧ waits s' = Some NULL ∧ cyc (evs s') [cev].
Proof.
  intros He Hm Hw. destruct (e_cond _ (e_base _ He)) as (cd & Hcd & Hci & Hcs). unfold pth_cond_await.
  rewrite !is_null_false by (done || by apply load_Some in Hcd as [? _]). cbn [orb].
  erewrite cbind_atom by (unfold ldc, ld; rewrite Hcd; reflexivity). rewrite Hci, Hcs. cbn [negb].
  erewrite cbind_atom by (unfold stc, st; rewrite Hcd; reflexivity).
  set (s1 := set_conds _ s).
  assert (env s1) as He1 by (destruct He as [? Hlk]; split; [by apply base_cond|by apply (lockok_same s)]).
  destruct (drop_run s1 He1 Hm) as (s2 & Hrel & [He2 Hl2 Hb2 Hw2] & Hm2).
  erewrite cbind_atom by exact Hrel.
  pose proof (own_event_has s2 cond_ev_key cev (e_cur _ (e_base _ He2)) (e_cev _ (e_base _ He2))) as Hev2.
  erewrite cbind_atom by (by apply cond_event_run). set (s3 := set_evs _ s2).
  assert (cyc (evs s3) [cev]) as Hc3.
  { destruct Hev2 as (key & e & _ & _ & _ & Hle). apply cyc_singleton; unfold nxf, pvf; simpl; by rewrite (load_alter_eq _ _ _ _ Hle). }
  erewrite cbind_ret by reflexivity.
  erewrite cbind_atom by (unfold new_cleanvec, bind, gets, modify, ret; reflexivity). set (s4 := set_cleanvecs _ _).
  assert (quiet s2 s4) as Hq4 by (transitivity s3; [apply quiet_evs|by apply quiet_same]).
  destruct (quiet_env _ _ Hq4 He2) as (He4 & Hb4 & Hm4).
  destruct (push_run s4 fp_cond_cleanup (brk s3) He4) as (r & s5 & Hpush & Hq5 & Hev5); [done|].
  erewrite cbind_atom by exact Hpush. destruct (quiet_env _ _ Hq5 He4) as (He5 & Hb5 & Hm5).
  assert (like s s5) as Hl5.
  { transitivity s1; [by split|]. transitivity s2; [done|]. transitivity s4; [apply Hq4|apply Hq5]. }
  eexists _, s5. split; [reflexivity|]. split_and!; [done|by rewrite Hm5, Hm4| | | |by rewrite Hev5].
  - by rewrite Hb5, Hb4, Hb2.
  - by apply like_cstate.
  - rewrite (q_waits _ _ Hq5), (q_waits _ _ Hq4), Hw2. done.
Qed.

Lemma rg_after fuel v k p s :
  env s → ¬ mine_held s → ticket_ok th p (bx s) → waits s = Some NULL → cleantop s → ((k < fuel)%nat ∨ mxst s = Some MFree) →
  rg (acquired k p s) k p s (after_wait fuel v s).
Proof.
  intros He Hn Hp Hw Hcl Hk. destruct (pop_run s He Hcl) as (r & s1 & Hpop & Hq).
  destruct (quiet_env _ _ Hq He) as (He1 & Hb1 & Hm1). unfold after_wait. rewrite (cbind_ret _ _ _ _ _ Hpop).
  eapply rg_prefix; [by apply (mine_still p s s1)|]. apply rg_cbind.
  assert (waits s1 = Some NULL) as Hw1 by (by rewrite (q_waits _ _ Hq)).
  assert (ticket_ok th p (bx s1)) as Hp1 by (by rewrite Hb1).
  assert (rg (acquired k p s1) k p s1 (pth_mutex_acquire fuel mx false NULL s1)) as Hacq.
  { destruct Hk as [Hk|Hfree]; [|apply rg_take; try done; congruence]. apply rg_acquire; try done.
    intros [c Hc]. apply Hn. exists c. congruence. }
  eapply rg_mono; [exact Hacq|]. intros k2 p2 ok s2 (_ & He2 & Hm2 & Hp2 & Hk2 & Hkind & Hc2 & Hw2 & Hfree).
  destruct (e_cond _ (e_base _ He2)) as (cd & Hcd & _).
  erewrite cbind_atom by (unfold stc, st; rewrite Hcd; reflexivity). erewrite cbind_atom by reflexivity.
  apply rg_ret with p2; [by apply mine_still|]. unfold acquired. set (s3 := set_cleanvecs _ _).
  split_and!; try done.
  - destruct He2 as [? Hlk]. split; [|by apply (lockok_same s2)].
    assert (base (set_conds (alter (set_cn_waiters (λ n, u32 (n - 1))) cn) s2)) as Hb3 by (by apply base_cond).
    by destruct Hb3.
  - change (cstate s3) with (cstate s2). by rewrite Hc2, (like_cstate _ _ (q_like _ _ Hq)).
  - intros Hf. destruct Hfree as (-> & -> & Hb); [by rewrite Hm1|]. split_and!; [done..|]. change (bx s3) with (bx s2). by rewrite Hb.
Qed.

(** The condition has been awaited: the mutex is held again, and the thread was
    woken up in vain or the barrier is in another cycle. *)
Definition awaited k p s k' p' (ok : bool) s' : Prop :=
  ok = true ∧ env s' ∧ mxst s' = Some (MHeld me 1) ∧ ticket_ok th p' (bx s') ∧ (k' ≤ k)%nat ∧ same_kind p p' ∧
  cstate s' = cstate s ∧ waits s' = Some NULL ∧ ((k' < k)%nat ∨ (bx s').2 ≠ (bx s).2).

Lemma rg_await fuel k p s :
  env s → mxst s = Some (MHeld me 1) → waits s = Some NULL → ticket_ok th p (bx s) → (k ≤ fuel)%nat →
  rg (awaited k p s) k p s (pth_cond_await fuel cn mx NULL s).
Proof.
  intros He Hm Hw Hp Hk. destruct (await_start fuel s He Hm Hw) as (v & s1 & -> & He1 & Hm1 & Hb1 & Hc1 & Hw1 & Hcy1).
  eapply rg_prefix; [apply (mine_own p s s1); [done|congruence..]|].
  destruct (base_me _ (e_base _ He1)) as [n Hn]. destruct (e_sched _ (e_base _ He1)) as [n' Hn'].
  pose proof (e_cur _ (e_base _ He1)) as Hcur.
  destruct (pth_wait_run s1 cev [] n n' Hcy1) as (kk & Hrun & Hback); [by rewrite Hcur|done|done|].
  rewrite (cbind_switch _ _ _ _ _ Hrun). set (s2 := set_threads _ _).
  assert (waits s2 = Some cev) as Hw2.
  { unfold waits, s2. simpl. rewrite Hcur, load_alter, decide_True by done. by rewrite Hn. }
  assert (cstate s2 = cstate s1) as Hc2.
  { unfold cstate, s2. simpl. rewrite Hcur, load_alter, decide_True by done. by rewrite Hn. }
  assert (¬ mine_held s2) as Hn2. { intros [c Hc]. change (mxst s2) with (mxst s1) in Hc. congruence. }
  assert (∀ k3 m s3, rely m s2 s3 → (k3 ≤ k)%nat → ((k3 < fuel)%nat ∨ mxst s3 = Some MFree) →
    ((k3 < k)%nat ∨ mxst s3 = Some MFree ∧ (bx s3).2 ≠ (bx s2).2) →
    rg (awaited k p s) k3 (theirs m p) s3 (cbind kk (λ _, after_wait fuel v) s3)) as Hgo.
  { intros k3 m s3 Hr Hk3 Hfuel Hwhy. pose proof (r_env _ _ _ Hr) as He3. destruct (resumed_moved _ He3) as (He4 & Hl4 & Hb4 & Hm4 & Hw4).
    destruct (base_me _ (e_base _ He3)) as [n3 Hn3]. pose proof (e_cur _ (e_base _ He3)) as Hcur3.
    erewrite cbind_ret.
    2: { rewrite (Hback s3 n3); [|by rewrite Hcur3|apply Hr|by apply (r_nocancel _ _ _ Hr)].
         assert (resumed s3 = set_threads (alter (on_body (set_events (λ _, NULL))) (pth_current s3))
                  (set_errno (λ _, mctx_error (q_body n3)) s3)) as <- by (unfold resumed; by rewrite Hcur3, Hn3). reflexivity. }
    eapply rg_prefix; [by apply (mine_still _ s3 (resumed s3))|].
    eapply rg_mono; [apply (rg_after fuel v k3 (theirs m p) (resumed s3)); try done|].
    - intros [c Hc]. apply (r_nheld _ _ _ Hr Hn2). exists c. congruence.
    - rewrite Hb4, (r_bx _ _ _ Hr). apply theirs_ok. change (bx s2) with (bx s1). by rewrite Hb1.
    - destruct (r_clean _ _ _ Hr) as (n4 & Hn4 & Hcl). eexists. split; [unfold resumed; simpl; rewrite Hcur3; by apply load_alter_eq|].
      exact Hcl.
    - intros k5 p5 ok s5 (-> & He5 & Hm5 & Hp5 & Hk5 & Hkind & Hc5 & Hw5 & Hfree). unfold awaited.
      split_and!; try done; [lia|by eapply same_kind_theirs| |].
      + rewrite Hc5, (like_cstate _ _ Hl4), (r_cancel _ _ _ Hr). congruence.
      + destruct Hwhy as [?|[Hf3 Hfl]]; [left; lia|right]. destruct Hfree as (_ & _ & Hb5); [congruence|].
        rewrite Hb5, Hb4. change (bx s2) with (bx s1) in Hfl. congruence. }
  apply rg_switch with p; [by apply mine_still| |].
  - intros m s3 Hr Hrd. unfold ready in Hrd. rewrite Hw2, decide_True in Hrd by done. destruct Hrd as [Hf Hfl].
    by apply Hgo; auto.
  - intros k' m s3 -> Hr. apply Hgo; [done|lia|left; lia|left; lia].
Qed.

(** ** The barrier *)

(** The thread is inside, with the mutex. *)
Record within p s : Prop := {
  i_env : env s;
  i_held : mxst s = Some (MHeld me 1);
  i_ticket : ticket_ok th p (bx s);
  i_idle : waits s = Some NULL
}.

Lemma ldb_run {A} s (f : pth_barrier → A) br : load (barriers s) b = Some br → ldb b f s = Some (f br, s).
Proof. intros Hb. unfold ldb, ld. by rewrite Hb. Qed.
Lemma stb_run s g br : load (barriers s) b = Some br → stb b g s = Some (tt, set_barriers (alter g b) s).
Proof. intros Hb. unfold stb, st. by rewrite Hb. Qed.
Lemma bx_load s br : load (barriers s) b = Some br → bx s = (br_count br, br_cycle br).
Proof. intros [_ Hb]%load_Some. unfold bx. by rewrite Hb. Qed.

(** The loop ends when the cycle has changed. *)
Definition passed p (y : bool) s (k' : nat) p' (rv : Z) s' : Prop :=
  rv = 1 ∧ within p' s' ∧ same_kind p p' ∧ cstate s' = cstate s ∧ (bx s').2 ≠ y.

Lemma rg_wait fuel k p y rv s :
  within p s → (0 < fuel)%nat → ((bx s).2 ≠ y ∨ (k + 1 < fuel)%nat) → ((bx s).2 = y ∨ rv = 1) →
  rg (passed p y s) k p s (barrier_wait fuel b y rv s).
Proof.
  revert k p rv s. induction fuel as [|fuel IH]; intros k p rv s Hi Hf Hk Hrv; [lia|]. pose proof Hi as [He Hm Hp Hw].
  destruct (e_bar _ (e_base _ He)) as (br & Hbr & _ & Hbth & Hbc & Hbm). pose proof (bx_load _ _ Hbr) as Hbx. cbn [barrier_wait].
  erewrite cbind_atom by (by apply ldb_run). case_bool_decide as Hy.
  - erewrite cbind_atom by (by apply ldb_run). erewrite cbind_atom by (by apply ldb_run). rewrite Hbc, Hbm.
    assert (k + 1 < S fuel)%nat by (destruct Hk as [Hne|?]; [rewrite Hbx in Hne; by destruct Hne|done]).
    apply rg_cbind. eapply rg_mono; [apply (rg_await fuel k p s); try done; lia|].
    intros k2 p2 ok s2 (-> & He2 & Hm2 & Hp2 & Hk2 & Hkind & Hc2 & Hw2 & Hwhy). cbn [negb].
    eapply rg_mono; [apply IH; [done|lia| |by right]|].
    + destruct Hwhy as [?|Hne]; [right; lia|]. left. rewrite Hbx in Hne. by subst y.
    + intros k3 p3 a s3 (-> & Hi3 & Hkind3 & Hc3 & Hy3). unfold passed. split_and!; try done; [|congruence].
      destruct p, p2; naive_solver.
  - assert ((bx s).2 ≠ y) as Hne by (rewrite Hbx; by intros <-). apply rg_ret with p; [apply mine_refl|].
    split_and!; try done; [by destruct Hrv|]. destruct p; [done|by eexists].
Qed.

Definition broadcasted (c : pth_cond) : pth_cond :=
  set_cn_state (λ x, Z.land (Z.lor (Z.lor x PTH_COND_SIGNALED) PTH_COND_BROADCAST) (Z.lnot PTH_COND_HANDLED)) c.

Lemma stc_run s g cd : load (conds s) cn = Some cd → stc cn g s = Some (tt, set_conds (alter g cn) s).
Proof. intros Hc. unfold stc, st. by rewrite Hc. Qed.

Lemma set_conds_comp f g s : set_conds f (set_conds g s) = set_conds (f ∘ g) s.
Proof. done. Qed.

Lemma base_broadcast s : base s → base (set_conds (alter broadcasted cn) s).
Proof.
  intros Hb. apply base_cond; [done| |].
  - intros cd. cbn. rewrite has_ldiff by done. unfold has. rewrite !Z.land_lor_distr_l. simpl. by rewrite !Z.lor_0_r.
  - intros cd _. cbn. rewrite !has_ldiff by done. rewrite (has_lor _ PTH_COND_BROADCAST) by done. by rewrite andb_false_r.
Qed.

(** A broadcast by the thread inside: nobody arrives while it gives up the processor. *)
Definition notified p s (_ : nat) p' (ok : bool) s' : Prop :=
  ok = true ∧ p' = p ∧ env s' ∧ mxst s' = Some (MHeld me 1) ∧ bx s' = bx s ∧ cstate s' = cstate s.

Lemma rg_yield k p s :
  within p s →
  rg (λ k' p' (_ : bool) s', notified p s k' p' true s') k p s (pth_yield NULL s).
Proof.
  intros [He Hm Hp Hw]. pose proof (e_cur _ (e_base _ He)) as Hcur. destruct (base_me _ (e_base _ He)) as [n Hn].
  destruct (e_sched _ (e_base _ He)) as [n' Hn']. unfold pth_yield. erewrite cbind_atom by done. cbn [negb].
  destruct (switch_run s n n') as (kk & Hrun & Hback); [by rewrite Hcur|done|].
  rewrite (cbind_switch _ _ _ _ _ Hrun). set (s1 := set_threads _ s).
  assert (cstate s1 = cstate s ∧ waits s1 = waits s) as [Hc1 Hw1].
  { unfold cstate, waits, s1. simpl. rewrite Hcur, load_alter, decide_True by done. by rewrite Hn. }
  assert (∀ k' m s2, rely m s1 s2 →
    rg (λ k' p' (_ : bool) s', notified p s k' p' true s') k' (theirs m p) s2 (cbind kk (λ _, cret true) s2)) as Hgo.
  { intros k' m s2 Hr. destruct (r_held _ _ _ Hr 1 Hm) as [Hm2 ->]. pose proof (r_env _ _ _ Hr) as He2.
    destruct (base_me _ (e_base _ He2)) as [n2 Hn2]. rewrite (cbind_ret _ _ tt _ (set_errno (λ _, mctx_error (q_body n2)) s2)).
    2: { apply Hback. by rewrite (e_cur _ (e_base _ He2)). }
    assert (theirs 0 p = p) as -> by (by destruct p).
    apply rg_ret with p; [by apply mine_still|]. unfold notified.
    assert (bx s2 = bx s) as Hb2 by (rewrite (r_bx _ _ _ Hr); done).
    set (s3 := set_errno _ s2). assert (quiet s2 s3) as Hq by (by apply quiet_same).
    destruct (quiet_env _ _ Hq He2) as (He3 & Hb3 & Hm3).
    split_and!; try done; [by rewrite Hm3, Hm2|by rewrite <- Hc1, <- (r_cancel _ _ _ Hr)]. }
  apply rg_switch with p; [by apply mine_still| |].
  - intros m s2 Hr _. by apply Hgo.
  - intros k' m s2 _ Hr. by apply Hgo.
Qed.

Lemma rg_notify k p s : within p s → rg (notified p s) k p s (pth_cond_notify cn true s).
Proof.
  intros Hi. pose proof Hi as [He Hm Hp Hw]. destruct (e_cond _ (e_base _ He)) as (cd & Hcd & Hci & Hcs). unfold pth_cond_notify.
  rewrite is_null_false by (by apply load_Some in Hcd as [? _]).
  erewrite cbind_atom by (unfold ldc, ld; rewrite Hcd; reflexivity). rewrite Hci. cbn [negb].
  erewrite cbind_atom by (unfold ldc, ld; rewrite Hcd; reflexivity). apply rg_cbind.
  destruct (0 <? cn_waiters cd); [|by apply rg_ret with p; [apply mine_refl|]; apply rg_ret with p; [apply mine_refl|]].
  erewrite cbind_atom by (eapply stc_run; exact Hcd).
  erewrite cbind_atom by (eapply stc_run; simpl; by apply load_alter_eq).
  erewrite cbind_atom by (eapply stc_run; simpl; by do 2 apply load_alter_eq).
  rewrite !set_conds_comp. set (s1 := set_conds _ s).
  assert (s1 = set_conds (alter broadcasted cn) s) as Hs1.
  { unfold s1, set_conds, compose. by rewrite !alter_alter_eq. }
  clearbody s1. subst s1. set (s1 := set_conds _ s).
  assert (within p s1) as Hi1.
  { destruct He as [? Hlk]. split; [split; [by apply base_broadcast|by apply (lockok_same s)]|done..]. }
  eapply rg_prefix; [by apply (mine_still p s s1)|]. apply rg_cbind. eapply rg_mono; [by apply rg_yield|].
  intros k2 p2 _ s2 (_ & -> & H2). apply rg_ret with p; [apply mine_refl|].
  apply rg_ret with p; [apply mine_refl|]. by split_and!; try apply H2.
Qed.

(** The cancellation state of the thread. *)
Lemma cancel_run new p s old :
  within p s → cstate s = Some old → new ≠ 0 →
  ∃ s', pth_cancel_state new s = Some (old, s') ∧ within p s' ∧ cstate s' = Some new ∧ bx s' = bx s ∧ mxst s' = mxst s ∧
    barriers s' = barriers s.
Proof.
  intros [[Hb Hl] Hm Hp Hw] Hc Hnew. pose proof (e_cur _ Hb) as Hcur. destruct (base_me _ Hb) as [n Hn].
  unfold cstate in Hc. rewrite Hn in Hc. injection Hc as <-. unfold pth_cancel_state.
  erewrite bind_run by done. erewrite bind_run by (eapply ldt_run; by rewrite Hcur).
  rewrite (proj2 (Z.eqb_neq _ _) Hnew). cbn [negb]. erewrite bind_run by (eapply stt_run; by rewrite Hcur).
  rewrite Hcur. set (s1 := set_threads _ s). exists s1.
  assert (load (threads s1) me = Some (on_body (set_cancelstate (λ _, new)) n)) as Hn1 by (by apply load_alter_eq).
  assert (∀ key ev, own_event s key ev → own_event s1 key ev) as Hown.
  { intros key ev (k & n0 & H1 & H2 & H3 & H4 & H5 & H6 & H7). simplify_eq. by exists k, (on_body (set_cancelstate (λ _, new)) n). }
  split_and!; [done| |by unfold cstate; rewrite Hn1|done..]. split; [|done|done|].
  - split.
    + destruct Hb as [? [m Hs] ? ? ? ?]. split; auto. simpl. rewrite load_alter. case_decide; rewrite Hs; by eexists.
    + apply (lockok_same s); try done. intros t. simpl. rewrite load_alter. case_decide; [subst|done]. by rewrite Hn.
  - unfold waits in *. rewrite Hn1. rewrite Hn in Hw. done.
Qed.

(** The thread has arrived: the members of the barrier after that. *)
Lemma arrived_within s br :
  within Before s → load (barriers s) b = Some br → ∀ g,
  (∀ br, br_state (g br) = br_state br ∧ br_threshold (g br) = br_threshold br ∧ br_cond (g br) = br_cond br ∧ br_mutex (g br) = br_mutex br) →
  (br_count (g br), br_cycle (g br)) = arrive th (br_count br, br_cycle br) →
  let s' := set_barriers (alter g b) s in
  let p' := After (br_count br) (br_cycle br) 0 in
  within p' s' ∧ mine Before s p' s' ∧ load (barriers s') b = Some (g br) ∧ cstate s' = cstate s.
Proof.
  intros [[Hb Hl] Hm Hp Hw] Hbr g Hg Hx s' p'. assert (load (barriers s') b = Some (g br)) as Hbr' by (by apply load_alter_eq).
  pose proof (bx_load _ _ Hbr) as Hb1. pose proof (bx_load _ _ Hbr') as Hb2. rewrite Hx in Hb2. cbn in Hp. rewrite Hb1 in Hp.
  split_and!; [| |done|done].
  - split; [split; [by apply base_bar|by apply (lockok_same s)]|done| |done]. split; [done|]. exact Hb2.
  - split_and!; [|intros o c Ho Hc; congruence|done]. right. rewrite Hb1. by split_and!.
Qed.

(** What a call of [pth_barrier_reach] ends with, for a thread with the cancellation
    state [cs]. *)
Definition reached (cs : option Z) (_ : nat) p (rv : Z) s : Prop :=
  ∃ c y n, p = After c y n ∧ ticket_ok th p (bx s) ∧ env s ∧ mxst s = Some MFree ∧ cstate s = cs ∧
    if decide (c = 1) then rv = PTH_BARRIER_TAILLIGHT ∧ n = 0%nat
    else rv = 1 ∧ c - 1 ≤ Z.of_nat n ∧ (bx s).2 ≠ y.

Lemma rg_leave cs k c y n rv s :
  env s → mxst s = Some (MHeld me 1) → ticket_ok th (After c y n) (bx s) → cstate s = cs →
  (if decide (c = 1) then rv = PTH_BARRIER_TAILLIGHT ∧ n = 0%nat else rv = 1 ∧ c - 1 ≤ Z.of_nat n ∧ (bx s).2 ≠ y) →
  rg (reached cs) k (After c y n) s ((do! _ <- atom (pth_mutex_release mx); cret rv) s).
Proof.
  intros He Hm Hp Hc Hrv. destruct (drop_run s He Hm) as (s' & Hrun & [He' Hl Hb Hw] & Hm').
  rewrite (cbind_atom _ _ _ _ _ Hrun). apply rg_ret with (After c y n); [apply mine_own; [done|congruence..]|].
  exists c, y, n. rewrite Hb. split_and!; try done. by rewrite (like_cstate _ _ Hl).
Qed.

(** The last thread: it starts the next cycle and wakes up the others. *)
Definition last_arrival (cycle : bool) : coro Z :=
  atom (stb b (set_br_cycle (negb cycle))) ;;!
  do! th <- atom (ldb b br_threshold);
  atom (stb b (set_br_count th)) ;;!
  do! cn <- atom (ldb b br_cond);
  do! ok <- pth_cond_notify cn true;
  cret (if ok then PTH_BARRIER_TAILLIGHT else 0).
(** Any other thread. *)
Definition early_arrival (fuel : nat) (cycle : bool) : coro Z :=
  do! cancel <- atom (pth_cancel_state PTH_CANCEL_DISABLE);
  do! th <- atom (ldb b br_threshold);
  do! cnt <- atom (ldb b br_count);
  do! rv <- barrier_wait fuel b cycle (if th =? cnt then PTH_BARRIER_HEADLIGHT else 1);
  do! _ <- atom (pth_cancel_state cancel);
  cret rv.

Lemma rg_last cs k s br :
  within Before s → load (barriers s) b = Some br → br_count br = 1 → cstate s = cs →
  rg (reached cs) k Before s
    ((do! rv <- last_arrival (br_cycle br); do! _ <- atom (pth_mutex_release mx); cret rv)
       (set_barriers (alter (set_br_count 0) b) s)).
Proof.
  intros Hi Hbr Hcnt Hc. destruct (e_bar _ (e_base _ (i_env _ _ Hi))) as (br' & Hbr' & _ & Hbth & Hbc & Hbm).
  rewrite Hbr in Hbr'. injection Hbr' as <-.
  set (g := set_br_count th ∘ (set_br_cycle (negb (br_cycle br)) ∘ set_br_count 0)).
  destruct (arrived_within s br Hi Hbr g) as (Hi1 & Hmine & Hbr1 & Hc1); [done|unfold arrive, g; simpl; by rewrite Hcnt|].
  rewrite Hcnt in *. eapply rg_prefix; [exact Hmine|].
  unfold last_arrival. apply rg_bind.
  erewrite cbind_atom by (eapply stb_run; by apply load_alter_eq).
  erewrite cbind_atom by (eapply ldb_run; simpl; by do 2 apply load_alter_eq). simpl br_threshold. rewrite Hbth.
  erewrite cbind_atom by (eapply stb_run; simpl; by do 2 apply load_alter_eq).
  set (s1 := set_barriers (alter g b) s) in *.
  match goal with |- rg _ _ _ _ (_ ?st) => assert (st = s1) as -> end.
  { unfold s1, g, set_barriers. simpl. by rewrite !alter_alter_eq. }
  erewrite cbind_atom by (by apply ldb_run). simpl br_cond. rewrite Hbc. apply rg_cbind.
  eapply rg_mono; [by apply rg_notify|]. intros k2 p2 ok s2 (-> & -> & He2 & Hm2 & Hb2 & Hc2).
  eapply rg_ret; [apply mine_refl|]. apply rg_leave; [done|done|rewrite Hb2; apply Hi1|congruence|done].
Qed.

Lemma rg_early cs v fuel k s br :
  within Before s → load (barriers s) b = Some br → br_count br ≠ 1 → cstate s = cs → cs = Some v → v ≠ 0 → (k + 1 < fuel)%nat →
  rg (reached cs) k Before s
    ((do! rv <- early_arrival fuel (br_cycle br); do! _ <- atom (pth_mutex_release mx); cret rv)
       (set_barriers (alter (set_br_count (br_count br - 1)) b) s)).
Proof.
  intros Hi Hbr Hcnt Hc Hv Hv0 Hf.
  destruct (arrived_within s br Hi Hbr (set_br_count (br_count br - 1))) as (Hi1 & Hmine & Hbr1 & Hc1);
    [done|unfold arrive; simpl; by rewrite (proj2 (Z.eqb_neq _ _) Hcnt)|].
  eapply rg_prefix; [exact Hmine|]. set (s1 := set_barriers _ s) in *. set (p1 := After _ _ _) in *. unfold early_arrival.
  destruct (cancel_run PTH_CANCEL_DISABLE p1 s1 v Hi1) as (s2 & Hrun & Hi2 & Hc2 & Hb2 & Hm2 & Hbar2); [congruence|done|].
  apply rg_cbind. rewrite (cbind_atom _ _ _ _ _ Hrun). rewrite <- Hbar2 in Hbr1.
  eapply rg_prefix; [by apply (mine_still p1 s1 s2)|].
  erewrite cbind_atom by (by apply ldb_run). erewrite cbind_atom by (by apply ldb_run). apply rg_cbind.
  pose proof (bx_load _ _ Hbr1) as Hbx2. simpl in Hbx2.
  eapply rg_mono; [apply rg_wait; [done|lia|right; done|left; by rewrite Hbx2]|].
  intros k3 p3 rv s3 (-> & Hi3 & [n ->] & Hc3 & Hy3).
  destruct (cancel_run v _ s3 PTH_CANCEL_DISABLE Hi3) as (s4 & Hrun4 & [He4 Hm4 Hp4 Hw4] & Hc4 & Hb4 & Hm34 & _); [congruence|done|].
  rewrite (cbind_atom _ _ _ _ _ Hrun4). eapply rg_ret; [by apply mine_still|].
  apply rg_leave; [done|done|done|congruence|]. rewrite decide_False by done. split_and!; [done| |by rewrite Hb4].
  eapply cycle_needs_all; [exact Hp4|done|by rewrite Hb4].
Qed.

Lemma reach_rg fuel k v s :
  env s → ¬ mine_held s → waits s = Some NULL → cstate s = Some v → v ≠ 0 → 1 ≤ (bx s).1 ≤ th → (k + 1 < fuel)%nat →
  rg (reached (Some v)) k Before s (pth_barrier_reach fuel b s).
Proof.
  intros He Hn Hw Hc Hv Hp Hf. destruct (e_bar _ (e_base _ He)) as (br & Hbr & Hini & Hbth & Hbc & Hbm).
  unfold pth_barrier_reach. rewrite is_null_false by (by apply load_Some in Hbr as [? _]).
  erewrite cbind_atom by (by apply ldb_run). rewrite Hini. cbn [negb]. erewrite cbind_atom by (by apply ldb_run). rewrite Hbm.
  apply rg_cbind. eapply rg_mono; [apply (rg_acquire fuel k Before s); try done; lia|].
  intros k1 p1 ok s1 (-> & He1 & Hm1 & Hp1 & Hk1 & Hkind & Hc1 & Hw1 & _). cbn [negb]. cbn in Hkind. subst p1.
  assert (within Before s1) as Hi1 by done. clear br Hbr Hini Hbth Hbc Hbm.
  destruct (e_bar _ (e_base _ He1)) as (br & Hbr & _). pose proof (bx_load _ _ Hbr) as Hbx. cbn in Hp1. rewrite Hbx in Hp1. cbn in Hp1.
  do 2 (erewrite cbind_atom by (by apply ldb_run)).
  erewrite cbind_atom.
  2: { unfold int_chk. assert (int_ok (br_count br - 1) = true) as -> by (unfold int_ok, INT_MIN, INT_MAX in *; lia). reflexivity. }
  erewrite cbind_atom by (by eapply stb_run). destruct (Z.eqb_spec (br_count br - 1) 0) as [Hz|Hz].
  - replace (br_count br - 1) with 0 by lia. eapply rg_last; [done|done|lia|congruence].
  - eapply rg_early; [done|done|lia|congruence|done|done|lia].
Qed.

End barrier.

(** ** Composition *)
Section compose.
Context {Kern : Kernel}.
Context (me b mx : N) (th : Z).
Implicit Types (s : St).

(** A segment of another thread's call, with its own ticket. *)
Definition segment s s' : Prop := ∃ o p p', o ≠ me ∧ mine o b mx th p s p' s'.

(** What the other threads guarantee is what the thread relies on: any interleaving
    of segments of their calls is a number of arrivals, none while the thread holds
    the mutex, and leaves the mutex to the thread that holds it. *)
Lemma others_arrive s s' :
  rtc segment s s' →
  (∃ n, bx b s' = arrivals th n (bx b s) ∧ ∀ c, mxst mx s = Some (MHeld me c) → mxst mx s' = mxst mx s ∧ n = 0%nat) ∧
  (¬ mine_held me mx s → ¬ mine_held me mx s').
Proof.
  induction 1 as [s|s s1 s2 (o & p & p' & Ho & Hstep & Hkeep & Hnew) _ [(n & Hn & Hheld) IH2]]; [by split; [exists 0%nat|]|].
  assert (¬ mine_held me mx s → ¬ mine_held me mx s1) as Hback.
  { intros Hns [c Hc]. apply Hns. exists c. rewrite <- Hc. symmetry. by apply (Hnew me c). }
  split; [|auto]. destruct (decide (bx b s1 = bx b s)) as [Heq|Hne].
  - exists n. rewrite <- Heq. split; [done|]. intros c Hc. destruct (Hkeep me c) as [Hm _]; [done..|].
    destruct (Hheld c) as [Hm2 ->]; [congruence|]. split; congruence.
  - destruct Hstep as [[_ ?]|(_ & _ & Harr)]; [done|]. exists (n + 1)%nat. split; [by rewrite Hn, Harr, arrivals_add|].
    intros c Hc. by destruct (Hkeep me c) as [_ ?].
Qed.

End compose.

(** C18: A barrier holds every thread back until all have arrived.  A thread that
    calls [pth_barrier_reach] on a barrier of [th] threads arrives exactly once,
    under the barrier's mutex, whatever the other threads do meanwhile.  If it is the
    last of its cycle it returns [PTH_BARRIER_TAILLIGHT], having reset the count,
    begun the next cycle and broadcast the condition; otherwise it returns [TRUE],
    and only after as many further arrivals as were missing when it came.  In the end
    the mutex is free and the thread's cancellation state is what it was.  The call is
    never undefined, fails nowhere, and returns at once when the thread is resumed
    with the mutex free and the cycle changed; [fuel] only bounds how often it may be
    woken up in vain. *)
Theorem barrier_reach_all {Kern : Kernel} {Kn : Knot} (me b mx cn cev mev : N) (th : Z) fuel k v s :
  mx ≠ NULL → cev ≠ mev → 1 ≤ th ≤ INT_MAX →
  env me b mx cn cev mev th s → ¬ mine_held me mx s → waits me s = Some NULL →
  cstate me s = Some v → v ≠ 0 → 1 ≤ (bx b s).1 ≤ th → (k + 1 < fuel)%nat →
  rg me b mx cn cev mev th (reached me b mx cn cev mev th (Some v)) k Before s (pth_barrier_reach fuel b s).
Proof. intros. by apply reach_rg. Qed.

(** ** An example: the first of two threads *)
Definition toy_barrier : @St toy_kernel :=
  set_barriers (λ _, {[ 70%N := Barrier PTH_BARRIER_INITIALIZED 2 2 false 60 50 ]})
    (set_conds (λ _, {[ 60%N := Cond PTH_COND_INITIALIZED 0 ]})
      (set_mutexes (λ _, {[ 50%N := Mutex PTH_MUTEX_INITIALIZED 0 0 ]})
        (set_rnodes (λ _, {[ 50%N := Ring.Ringnode 0 0 ]})
          (set_evs (λ _, list_to_map [(10%N, raw_event); (11%N, raw_event)])
            (set_ints (λ _, list_to_map [(mutex_ev_key, 0); (cond_ev_key, 1)])
              (set_pth_keytab (λ l, <[1%nat := Keytab true fp_event_destructor]> (<[0%nat := Keytab true fp_event_destructor]> l))
                (set_threads (alter (on_body (set_data_count (λ _, 2) ∘
                    set_data_value (λ _, Some (<[1%nat := 11%N]> (<[0%nat := 10%N]> data_zero))))) 100%N) toy_state))))))).

Lemma toy_barrier_env : env 100 70 50 60 11 10 2 toy_barrier.
Proof.
  split.
  - split; try done; try (by eexists).
    + exists 1. eexists. split; [reflexivity|]. split; [done|]. split; [split; [lia|]; eexists; split; [reflexivity|done]|].
      split; [vm_compute; reflexivity|]. split; [split; vm_compute; reflexivity|]. split; [vm_compute; reflexivity|]. by eexists.
    + exists 0. eexists. split; [reflexivity|]. split; [done|]. split; [split; [lia|]; eexists; split; [reflexivity|done]|].
      split; [vm_compute; reflexivity|]. split; [split; vm_compute; reflexivity|]. split; [vm_compute; reflexivity|]. by eexists.
  - exists (Locks {[ 50%N := MFree ]} {[ 100%N := [] ]} 100 0). split_and!; [|split| |].
    + split; try done.
      * intros t l Hl. simpl in Hl; apply lookup_singleton_Some in Hl as [<- <-]. eexists. split; [vm_compute; reflexivity|]. by apply rrepr_nil.
      * intros m [x Hx]%elem_of_dom _. simpl in Hx. apply lookup_singleton_Some in Hx as [<- _]. by eexists.
    + intros t l m Hl Hm. simpl in Hl. apply lookup_singleton_Some in Hl as [<- <-]. by apply not_elem_of_nil in Hm.
    + intros m t c Hc. simpl in Hc. by apply lookup_singleton_Some in Hc as [_ ?].
    + by eexists.
    + by exists MFree.
Qed.

Lemma barrier_reach_all_witness :
  rg 100 70 50 60 11 10 2 (reached 100 70 50 60 11 10 2 (Some PTH_CANCEL_DEFAULT)) 3 Before toy_barrier
    (@pth_barrier_reach toy_kernel toy_knot 5 70 toy_barrier).
Proof.
  apply (@barrier_reach_all toy_kernel toy_knot 100 70 50 60 11 10 2 5 3 PTH_CANCEL_DEFAULT toy_barrier).
  - done.
  - done.
  - unfold INT_MAX. lia.
  - exact toy_barrier_env.
  - intros [c Hc]. vm_compute in Hc. discriminate Hc.
  - vm_compute. reflexivity.
  - vm_compute. reflexivity.
  - done.
  - vm_compute. split; discriminate.
  - lia.
Defined.
