(* ===== verification/Ending.v ===== *)
(** * The end of a thread

A thread ends by itself ([pth_exit]) or at the hands of another one ([pth_cancel],
[pth_abort]).  In both cases [pth_thread_cleanup] runs its cleanup handlers and the
destructors of its values and gives back its mutexes.  [closing] says what a thread
owns that has to be taken care of, [torn] is the state after handlers and destructors
have run. *)
From stdpp Require Import functions.
From S2P Require Import State Pool Data Sys Event Tcb Sync Sched Lib Threads Locks Rwlocks Forks Join.
From S2P Require Ring.

Section ending.
Context {Kern : Kernel} {Kn : Knot}.
(** Handlers and destructors act on the outside world only. *)
Context (kc : N → N → K → K).
Hypothesis call_kern : ∀ f a s, call f a s = ORet tt (set_kern (kc f a) s).
Implicit Types (s : St) (P : qid → list (N * Z)) (t : N) (n : qnode tcb).

(** The thread [t] has the control block [n], the cleanup records [l] and the values
    [vs], which all belong to live keys. *)
Record closing s t n (l : list (N * (N * N))) (vs : list N) : Prop := {
  cg_load : load (threads s) t = Some n;
  cg_recs : cl_chain (cleanup_recs s) (cleanups (q_body n)) l;
  cg_nodup : NoDup l.*1;
  cg_data : data_wf (q_body n);
  cg_vals : vs = default [] (data_value (q_body n));
  cg_keys : length (pth_keytab s) = 256%nat;
  cg_used : keys_used (pth_keytab s) vs;
}.

Definition emptied : tcb → tcb :=
  set_data_value (λ _, None) ∘ set_data_count (λ _, 0) ∘ set_cleanups (λ _, NULL).

(** The calls: handlers from the top of the stack, then destructors by key. *)
Definition last_calls s (l : list (N * (N * N))) (vs : list N) : list (N * N) :=
  l.*2 ++ destroy_calls (pth_keytab s) vs.

Definition torn t l vs s : St :=
  set_kern (run_calls kc (last_calls s l vs)) (set_cleanup_recs (without l.*1) (set_threads (alter (on_body emptied) t) s)).

Lemma popall_part fuel s t n l vs :
  closing s t n l vs → (length l < fuel)%nat →
  (do! cl <- atom (ldt t cleanups); if negb (is_null cl) then pth_cleanup_popall fuel t true else cret tt) s =
    ORet tt (set_kern (run_calls kc l.*2)
      (set_cleanup_recs (without l.*1) (set_threads (alter (on_body (set_cleanups (λ _, NULL))) t) s))).
Proof.
  intros [Hn Hc Hnd _ _ _ _] Hf. erewrite cbind_atom by (by eapply ldt_run).
  unfold is_null. case_bool_decide as Hz; cbn [negb].
  - destruct l as [|[a [f x]] l]; simpl in Hc.
    + unfold cret. rewrite (set_threads_id s t n); [by destruct s|done|]. unfold set_cleanups. rewrite <- Hz. by destruct (q_body n).
    + destruct Hc as (<- & nx & [Ha _]%load_Some & _). done.
  - by erewrite (cleanup_popall_lifo kc call_kern) by done.
Qed.

Lemma destroy_part s t n vs :
  load (threads s) t = Some n → data_wf (q_body n) → vs = default [] (data_value (q_body n)) →
  length (pth_keytab s) = 256%nat → keys_used (pth_keytab s) vs →
  (do! dv <- atom (ldt t data_value); match dv with Some _ => pth_key_destroydata t | None => cret tt end) s =
    ORet tt (set_kern (run_calls kc (destroy_calls (pth_keytab s) vs))
      (set_threads (alter (on_body (set_data_value (λ _, None) ∘ set_data_count (λ _, 0))) t) s)).
Proof.
  intros Hn Hwf -> Hk Hu. erewrite cbind_atom by (by eapply ldt_run). destruct (data_value (q_body n)) as [l|] eqn:Hl.
  - by erewrite (key_destroydata_all kc call_kern) by done.
  - unfold cret. cbn [default from_option]. unfold destroy_calls. rewrite zip_with_nil_r. rewrite (set_threads_id s t n); [by destruct s|done|].
    unfold data_wf in Hwf. rewrite Hl in Hwf. unfold compose, set_data_value, set_data_count. cbn. rewrite <- Hl, <- Hwf.
    by destruct (q_body n).
Qed.

Lemma cleanup_run fuel s t n l vs :
  closing s t n l vs → (length l < fuel)%nat →
  pth_thread_cleanup fuel t s = atom (pth_mutex_releaseall t) (torn t l vs s).
Proof.
  intros Hc Hf. pose proof Hc as [Hn _ _ Hwf Hv Hk Hu]. unfold pth_thread_cleanup.
  pose proof (popall_part fuel s t n l vs Hc Hf) as Hp. set (s1 := set_kern _ _) in Hp.
  assert (load (threads s1) t = Some (on_body (set_cleanups (λ _, NULL)) n)) as Hn1 by (cbn; by apply load_alter_eq).
  pose proof (destroy_part s1 t _ vs Hn1 Hwf Hv Hk Hu) as Hd. set (s2 := set_kern _ (set_threads _ s1)) in Hd.
  assert (s2 = torn t l vs s) as Heq.
  { unfold s2, s1, torn, last_calls. change (pth_keytab (set_kern _ _)) with (pth_keytab s).
    transitivity (set_kern (run_calls kc (destroy_calls (pth_keytab s) vs) ∘ run_calls kc l.*2) (set_cleanup_recs (without l.*1)
      (set_threads (alter (on_body (set_data_value (λ _, None) ∘ set_data_count (λ _, 0))) t ∘
        alter (on_body (set_cleanups (λ _, NULL))) t) s))); [reflexivity|].
    rewrite (set_threads_ext _ (alter (on_body emptied) t)) by apply alter_on_body_comp.
    unfold set_kern. f_equal. unfold compose, run_calls. by rewrite foldl_app. }
  rewrite <- Heq. clearbody s2. revert Hp Hd. unfold cbind.
  destruct (atom (ldt t cleanups) s) as [cl s0| | | | |]; try done. cbn [obind]. intros ->. cbn [obind].
  destruct (atom (ldt t data_value) s1) as [dv s0'| | | | |]; try done. cbn [obind]. intros ->. done.
Qed.

(** ** The mutexes of another thread *)

(** The mutexes [ms] are those that the thread [t] holds. *)
Definition holding s t n (ms : list N) : Prop :=
  rrepr (rnodes s) (mutexring (q_body n)) ms ∧ ∀ m, m ∈ ms → ∃ c, mx_of <$> load (mutexes s) m = Some (MHeld t c).

Lemma release_foreign s t m c :
  mx_of <$> load (mutexes s) m = Some (MHeld t c) → pth_current s ≠ t →
  pth_mutex_release m s = Some (false, set_errno (λ _, EACCES) s).
Proof.
  intros Hm Hne. destruct (load (mutexes s) m) as [mx|] eqn:Hmx; simplify_eq/=. pose proof Hmx as [Hnn _]%load_Some.
  destruct (mx_held mx t c) as (Hi & Hl & Ho & _); [done|]. unfold pth_mutex_release. rewrite is_null_false by done.
  do 2 (erewrite bind_run; [|unfold ldm, ld; rewrite Hmx; reflexivity]; rewrite ?Hi, ?Hl; cbn [negb]).
  erewrite bind_run by done. rewrite Ho, bool_decide_false by congruence. done.
Qed.

Lemma releaseall_foreign_loop fuel s t n ms1 m ms2 :
  load (threads s) t = Some n → holding s t n (ms1 ++ m :: ms2) → pth_current s ≠ t → (S (length ms2) < fuel)%nat →
  releaseall_loop fuel t (head_or NULL (ms1 ++ m :: ms2)) m s = Some (tt, set_errno (λ _, EACCES) s).
Proof.
  revert s ms1 m ms2. induction fuel as [|fuel IH]; intros s ms1 m ms2 Hn [Hr Hm] Hne Hf; [lia|]. cbn [releaseall_loop].
  pose proof Hr as (_ & _ & Hcyc). pose proof (cyc_NoDup _ _ Hcyc) as Hnd.
  assert (∀ y, y ∈ ms1 ++ m :: ms2 → y ≠ NULL) as Hnz by (intros y; exact (cyc_nonnull _ _ _ Hcyc)).
  rewrite is_null_false by (apply Hnz; set_solver). destruct (Hm m) as [c Hc]; [set_solver|].
  rewrite (bind_run _ _ _ _ _ (release_foreign _ _ _ _ Hc Hne)). set (s1 := set_errno (λ _, EACCES) s).
  destruct (proj1 (wp_run _ _ _) (on_mutexring_read t (Ring.pth_ring_next m) s1 n (λ v, v = head_or NULL ms2) Hn
    (Ring.pth_ring_next_spec _ ms1 m ms2 (proj1 (rrepr_ring _ _ _ _) Hr)))) as (v & s' & Hrun & -> & ->).
  rewrite (bind_run _ _ _ _ _ Hrun). assert (head_or NULL (ms1 ++ m :: ms2) ∈ ms1 ++ m :: ms2) as Hin by (destruct ms1; csimpl; set_solver).
  destruct ms2 as [|y ms2].
  - rewrite bool_decide_false by (intros Heq; apply (Hnz _ Hin); by rewrite <- Heq). destruct fuel; [simpl in Hf; lia|]. done.
  - csimpl. change (head_or NULL (y :: ms2)) with y. rewrite bool_decide_false.
    2: { intros Heq. destruct ms1 as [|x ms1]; csimpl in *; subst; apply NoDup_cons in Hnd as [Hx _]; set_solver. }
    replace (ms1 ++ m :: y :: ms2) with ((ms1 ++ [m]) ++ y :: ms2) in * by (by rewrite <- app_assoc).
    rewrite (IH s1 (ms1 ++ [m]) y ms2) by (done || (simpl in Hf; lia)). done.
Qed.

(** A thread cannot give back what another one holds: every attempt fails. *)
Lemma releaseall_foreign s t n ms :
  load (threads s) t = Some n → holding s t n ms → pth_current s ≠ t →
  pth_mutex_releaseall t s = Some (tt, if ms is [] then s else set_errno (λ _, EACCES) s).
Proof.
  intros Hn Hh Hne. pose proof Hn as [Hnn _]%load_Some. pose proof Hh as [Hr _]. unfold pth_mutex_releaseall. rewrite is_null_false by done.
  destruct (proj1 (wp_run _ _ _) (on_mutexring_read t Ring.pth_ring_first s n (λ v, v = head_or NULL ms) Hn
    (Ring.ring_first_run _ ms (proj1 (rrepr_ring _ _ _ _) Hr)))) as (v & s' & Hrun & -> & ->).
  rewrite (bind_run _ _ _ _ _ Hrun). cbv beta. destruct ms as [|m ms]; [done|].
  pose proof Hr as (_ & _ & Hc). apply cyc_size in Hc. simpl in Hc.
  apply (releaseall_foreign_loop _ s t n [] m ms); try done. lia.
Qed.

(** ** Cancellation *)

(** What [pth_cancel] decides about the thread [t]: the call is refused, the thread is
    asked to end at its next cancellation point, it ought to end now but is not in the
    queue of its state, or it ends now. *)
Inductive fate := Refused (e : Z) | Later | Missing | Now (q : qid).
Definition cancel_fate s P t n : fate :=
  if decide (t = pth_current s) then Refused EINVAL
  else if decide (state (q_body n) = PTH_STATE_DEAD) then Refused EPERM
  else if has (cancelstate (q_body n)) PTH_CANCEL_ENABLE && has (cancelstate (q_body n)) PTH_CANCEL_ASYNCHRONOUS then
    match state_queue (state (q_body n)) with
    | Some q => if decide (t ∈ (P q).*1) then Now q else Missing
    | None => Missing
    end
  else Later.

Definition asked t s : St := set_threads (alter (on_body (set_cancelreq (λ _, true))) t) s.

(** Apart from threads and queues: the handlers and destructors have run, the records
    are freed, and [errno] tells that a mutex could not be given back, if there was one. *)
Definition aftermath l vs (ms : list N) s : St :=
  let s' := set_kern (run_calls kc (last_calls s l vs)) (set_cleanup_recs (without l.*1) s) in
  if ms is [] then s' else set_errno (λ _, EACCES) s'.

Definition own_stack n : list N :=
  if negb (is_null (stack (q_body n))) && negb (stackloan (q_body n)) then [stack (q_body n)] else [].

(** The thread [t] has been ended by another one. *)
Definition cancelled P t n l vs ms q s s' : Prop :=
  let P' := <[q := pq_del t (P q)]> P in
  (∀ x, x ≠ t → q_body <$> threads s' !! x = q_body <$> threads s !! x) ∧
  if joinable (q_body n) =? 0 then
    qrepr s' P' ∧ threads s' !! t = None ∧ rest s' = rest (set_longs (without (own_stack n)) (aftermath l vs ms s))
  else
    qrepr s' (<[DQ := pq_ins PTH_PRIO_STD t (P' DQ)]> P') ∧ rest s' = rest (aftermath l vs ms s) ∧
    q_body <$> threads s' !! t =
      Some (set_state (λ _, PTH_STATE_DEAD) (set_join_arg (λ _, PTH_CANCELED) (emptied (set_cancelreq (λ _, true) (q_body n))))).

Lemma closing_same s s' t n n' l vs :
  closing s t n l vs → load (threads s') t = Some n' → rest s' = rest s →
  cleanups (q_body n') = cleanups (q_body n) → data_value (q_body n') = data_value (q_body n) →
  data_count (q_body n') = data_count (q_body n) → closing s' t n' l vs.
Proof.
  intros [Hn Hc Hnd Hwf Hv Hk Hu] Hn' Hr E1 E2 E3. pose proof (f_equal cleanup_recs Hr) as R1. pose proof (f_equal pth_keytab Hr) as R2.
  cbn in R1, R2. split; [done|by rewrite E1, R1|done| |by rewrite E2|by rewrite R2|by rewrite R2].
  unfold data_wf. by rewrite E2, E3.
Qed.

Lemma holding_same s s' t n n' ms :
  holding s t n ms → rest s' = rest s → mutexring (q_body n') = mutexring (q_body n) → holding s' t n' ms.
Proof.
  intros [Hr Hm] R E. pose proof (f_equal rnodes R) as R1. pose proof (f_equal mutexes R) as R2. cbn in R1, R2.
  split; [by rewrite E, R1|by rewrite R2].
Qed.

Lemma rest_aftermath l vs ms s : rest (aftermath l vs ms s) = aftermath l vs ms (rest s).
Proof. by destruct ms. Qed.

Lemma rest_longs f s : rest (set_longs f s) = set_longs f (rest s).
Proof. done. Qed.

(** Handlers, destructors and mutexes of a thread that is not running. *)
Lemma cleanup_foreign fuel s t n l vs ms :
  closing s t n l vs → holding s t n ms → pth_current s ≠ t → (length l < fuel)%nat →
  pth_thread_cleanup fuel t s = ORet tt (set_threads (alter (on_body emptied) t) (aftermath l vs ms s)).
Proof.
  intros Hc Hh Hne Hf. rewrite (cleanup_run _ _ _ _ _ _ Hc Hf). apply atom_run.
  rewrite (releaseall_foreign (torn t l vs s) t (on_body emptied n) ms).
  - by destruct ms.
  - cbn. apply load_alter_eq, Hc.
  - exact Hh.
  - exact Hne.
Qed.

(** The part of [pth_cancel] that ends the thread. *)
Definition cancel_now (fuel : nat) (q : qid) t : coro bool :=
  atom (onq q (pth_pqueue_delete t)) ;;!
  pth_thread_cleanup fuel t ;;!
  do! j <- atom (ldt t joinable);
  (if j =? 0 then atom (pth_tcb_free t)
   else
     atom (stt t (set_join_arg (λ _, PTH_CANCELED))) ;;!
     atom (stt t (set_state (λ _, PTH_STATE_DEAD))) ;;!
     atom (onq DQ (pth_pqueue_insert PTH_PRIO_STD t))) ;;!
  cret true.

Lemma lookup_body s t n x g :
  load (threads s) t = Some n →
  q_body <$> alter (on_body g) t (threads s) !! x = if decide (x = t) then Some (g (q_body n)) else q_body <$> threads s !! x.
Proof.
  intros [_ Hn]%load_Some. rewrite lookup_alter. case_decide; [subst|by rewrite decide_False by congruence].
  by rewrite decide_True, Hn by done.
Qed.

(** The detached thread is freed. *)
Lemma end_detached s P t n :
  qrepr s P → unqueued P t → load (threads s) t = Some n → cleanups (q_body n) = NULL →
  (∀ a, a ∈ own_stack n → is_Some (load (longs s) a)) →
  ∃ s', pth_tcb_free t s = Some (tt, s') ∧ qrepr s' P ∧ threads s' = delete t (threads s) ∧
    rest s' = rest (set_longs (without (own_stack n)) s).
Proof.
  intros Hq Hu Hn Hcl Hst. eexists. split.
  - apply (tcb_free_run s t (own_stack n, [])). exists n, []. by split_and!; [..|constructor].
  - split_and!; [|done|reflexivity]. destruct Hq as [Hq Hd]. split; [|done]. intros q.
    eapply (pq_repr_heap (threads s)); [specialize (Hq q); by destruct q|]. intros x Hx. cbn.
    rewrite lookup_delete_ne; [done|]. intros <-. by apply (Hu q).
Qed.

(** The joinable thread is kept with its exit value. *)
Lemma end_joinable s P t n :
  qrepr s P → unqueued P t → load (threads s) t = Some n → pq_ok (P DQ) →
  ∃ s', (stt t (set_join_arg (λ _, PTH_CANCELED)) ;; stt t (set_state (λ _, PTH_STATE_DEAD)) ;;
         onq DQ (pth_pqueue_insert PTH_PRIO_STD t)) s = Some (tt, s') ∧
    qrepr s' (<[DQ := pq_ins PTH_PRIO_STD t (P DQ)]> P) ∧ rest s' = rest s ∧
    ∀ x, q_body <$> threads s' !! x =
      if decide (x = t) then Some (set_state (λ _, PTH_STATE_DEAD) (set_join_arg (λ _, PTH_CANCELED) (q_body n)))
      else q_body <$> threads s !! x.
Proof.
  intros Hq Hu Hn Hok. rewrite (bind_run _ _ _ _ _ (stt_run _ _ _ _ Hn)).
  set (s1 := set_threads _ s). assert (load (threads s1) t = Some (on_body (set_join_arg (λ _, PTH_CANCELED)) n)) as Hn1 by (by apply load_alter_eq).
  rewrite (bind_run _ _ _ _ _ (stt_run _ _ _ _ Hn1)). set (s2 := set_threads _ s1).
  assert (qrepr s2 P) as Hq2 by (by apply qrepr_alter, qrepr_alter).
  destruct (proj1 (wp_run _ _ _) (onq_insert_spec DQ PTH_PRIO_STD t s2 P Hq2 Hok ltac:(done) Hu
    ltac:(eexists; by apply load_alter_eq))) as ([] & s' & Hrun & Hq' & Hr & Hb).
  exists s'. split_and!; [done|done|done|]. intros x. rewrite Hb. unfold s2. cbn [threads set_threads].
  rewrite (lookup_body s1 t _ x _ Hn1). case_decide; [done|]. unfold s1. cbn. by rewrite lookup_alter_ne by done.
Qed.

Lemma cancel_now_run fuel s P t n l vs ms q :
  qrepr s P → (∀ q, pq_ok (P q)) → t ∈ (P q).*1 → pth_current s ≠ t →
  closing s t n l vs → holding s t n ms → (∀ a, a ∈ own_stack n → is_Some (load (longs s) a)) → (length l < fuel)%nat →
  ∃ s', cancel_now fuel q t (asked t s) = ORet true s' ∧ cancelled P t n l vs ms q s s'.
Proof.
  intros Hq Hok Hin Hne Hc Hh Hst Hf. pose proof (cg_load _ _ _ _ _ Hc) as Hn. set (s0 := asked t s).
  set (n0 := on_body (set_cancelreq (λ _, true)) n).
  assert (load (threads s0) t = Some n0) as Hn0 by (by apply load_alter_eq). assert (qrepr s0 P) as Hq0 by (by apply qrepr_alter).
  destruct (proj1 (wp_run _ _ _) (onq_delete_spec q t s0 P Hq0 (Hok q) Hin)) as ([] & s1 & Hr1 & Hq1 & Hd1).
  destruct (qdelta_load _ _ _ _ Hd1 Hn0) as (n1 & Hn1 & Hb1). pose proof Hd1 as [Hrest1 Hbody1].
  pose proof (deleted_unqueued s0 P q t Hq0 Hin) as Hu. set (P' := <[q := pq_del t (P q)]> P) in *.
  assert (closing s1 t n1 l vs) as Hc1 by (apply (closing_same s s1 t n n1 l vs Hc Hn1); by rewrite ?Hb1).
  assert (holding s1 t n1 ms) as Hh1 by (apply (holding_same s s1 t n n1 ms Hh); by rewrite ?Hb1).
  assert (pth_current s1 = pth_current s) as Hcur by (by apply (f_equal pth_current Hrest1)).
  unfold cancel_now. erewrite cbind_atom by exact Hr1.
  erewrite cbind_ret by (eapply (cleanup_foreign fuel s1 t n1 l vs ms); [done|done|congruence|done]). set (s2 := set_threads _ _).
  assert (load (threads s2) t = Some (on_body emptied n1)) as Hn2 by (unfold s2; destruct ms; by apply load_alter_eq).
  assert (qrepr s2 P') as Hq2 by (apply qrepr_alter; apply (qrepr_same s1); [by destruct ms|by destruct ms; intros []|done]).
  assert (rest s2 = rest (aftermath l vs ms s)) as Hrest2.
  { transitivity (rest (aftermath l vs ms s1)); [done|]. rewrite !rest_aftermath. by rewrite Hrest1. }
  assert (∀ x, x ≠ t → q_body <$> threads s2 !! x = q_body <$> threads s !! x) as Hbody2.
  { intros x Hx. transitivity (q_body <$> threads s1 !! x); [unfold s2; destruct ms; cbn; by rewrite lookup_alter_ne by done|].
    rewrite Hbody1. cbn. by rewrite lookup_alter_ne by done. }
  erewrite cbind_atom by (by eapply ldt_run).
  assert (joinable (q_body (on_body emptied n1)) = joinable (q_body n)) as -> by (cbn; by rewrite Hb1).
  unfold cancelled. cbv zeta. fold P'. destruct (joinable (q_body n) =? 0).
  - destruct (end_detached s2 P' t _ Hq2 Hu Hn2) as (s' & Hrun & Hq' & Ht' & Hr'); [done|..].
    { assert (own_stack (on_body emptied n1) = own_stack n) as -> by (unfold own_stack; cbn; by rewrite Hb1).
      assert (longs s2 = longs s) as -> by (by apply (f_equal longs) in Hrest2; destruct ms). done. }
    exists s'. split; [by erewrite cbind_atom by exact Hrun|]. split_and!; [|done|by rewrite Ht', lookup_delete_eq|].
    + intros x Hx. rewrite Ht', lookup_delete_ne by done. by apply Hbody2.
    + assert (own_stack (on_body emptied n1) = own_stack n) as E by (unfold own_stack; cbn; by rewrite Hb1).
      rewrite Hr', E, !rest_longs. f_equal. exact Hrest2.
  - destruct (end_joinable s2 P' t _ Hq2 Hu Hn2) as (s' & Hrun & Hq' & Hr' & Hb').
    { unfold P'. destruct (decide (q = DQ)) as [->|]; [rewrite fn_lookup_insert; by apply pq_del_ok|by rewrite fn_lookup_insert_ne]. }
    exists s'. split; [|split_and!; [|done|by rewrite Hr'|]].
    + revert Hrun. unfold bind. destruct (stt t _ s2) as [[[] sa]|] eqn:E1; [|done]. destruct (stt t _ sa) as [[[] sb]|] eqn:E2; [|done].
      intros Hrun. erewrite cbind_ret; [reflexivity|]. do 2 erewrite cbind_atom by done. by apply atom_run.
    + intros x Hx. rewrite Hb', decide_False by done. by apply Hbody2.
    + rewrite Hb', decide_True by done. cbn. by rewrite Hb1.
Qed.


End ending.

(** ** Changes beside the mutexes *)
Section lockless.
Context {Kern : Kernel}.
Implicit Types (s : St) (P : qid → list (N * Z)) (t : N) (n : qnode tcb) (a : locks).

Lemma keeps_releaseall t : keeps (pth_mutex_releaseall t).
Proof.
  assert (∀ fuel rnf rn, keeps (releaseall_loop fuel t rnf rn)) as Hloop.
  { induction fuel as [|fuel IH]; intros rnf rn; cbn [releaseall_loop]; [by intros ? ? ?|].
    destruct (is_null rn); [apply keeps_ret|]. apply keeps_bind; [apply keeps_release|intros _].
    apply keeps_bind; [apply keeps_ring|intros nx]. case_bool_decide; [apply keeps_ret|apply IH]. }
  unfold pth_mutex_releaseall. destruct (is_null t); [apply keeps_ret|]. apply keeps_bind; [apply keeps_ring|intros rn].
  intros s x s'. apply Hloop.
Qed.

Definition ringfree n : qnode tcb := on_body (set_mutexring (λ _, Ring.PTH_RING_INIT)) n.

Lemma lockless_lookup s s' x : lockless s' = lockless s → ringfree <$> threads s' !! x = ringfree <$> threads s !! x.
Proof. intros He. pose proof (f_equal (λ s, threads s !! x) He) as Hx. cbn in Hx. by rewrite !lookup_fmap in Hx. Qed.

Lemma lockless_load s s' t n :
  lockless s' = lockless s → load (threads s) t = Some n → ∃ n', load (threads s') t = Some n' ∧ ringfree n' = ringfree n.
Proof.
  intros He [Ht Hn]%load_Some. pose proof (lockless_lookup _ _ t He) as Hx. rewrite Hn in Hx. clear He.
  destruct (threads s' !! t) as [n'|] eqn:Hn'; [|done]. exists n'. split; [by apply load_Some|]. by apply (inj Some).
Qed.

(** A change to a member other than the ring. *)
Lemma lockless_alter s s' t g :
  (∀ r b, set_mutexring r (g b) = g (set_mutexring r b)) → lockless s' = lockless s →
  lockless (set_threads (alter (on_body g) t) s') = lockless (set_threads (alter (on_body g) t) s).
Proof.
  intros Hg He. assert (∀ s, lockless (set_threads (alter (on_body g) t) s) = set_threads (alter (on_body g) t) (lockless s)) as Hc.
  { intros s0. transitivity (set_mutexes (λ _, ∅) (set_rnodes (λ _, ∅) (set_errno (λ _, 0)
      (set_threads (fmap (on_body (set_mutexring (λ _, Ring.PTH_RING_INIT))) ∘ alter (on_body g) t) s0)))); [reflexivity|].
    transitivity (set_mutexes (λ _, ∅) (set_rnodes (λ _, ∅) (set_errno (λ _, 0)
      (set_threads (alter (on_body g) t ∘ fmap (on_body (set_mutexring (λ _, Ring.PTH_RING_INIT)))) s0)))); [|reflexivity].
    do 3 f_equal. apply set_threads_ext. unfold compose. apply map_eq. intros x.
    rewrite lookup_fmap, !lookup_alter, lookup_fmap. case_decide; [subst|by rewrite lookup_fmap]. destruct (threads s0 !! x); [|done].
    unfold on_body. cbn. by rewrite Hg. }
  by rewrite !Hc, He.
Qed.

Lemma qrepr_lockless s s' P : lockless s' = lockless s → qrepr s P → qrepr s' P.
Proof.
  intros He [Hq Hd]. split; [|done]. intros q. destruct (Hq q) as (q0 & Hq0 & Hh & Hnum & Hc & Hv).
  assert (queue q s' = queue q s) as Hqq by (pose proof (f_equal (queue q) He) as Hx; by destruct q).
  assert (∀ x, (λ m : qnode tcb, (q_next m, q_prev m, q_prio m)) <$> load (threads s') x =
               (λ m : qnode tcb, (q_next m, q_prev m, q_prio m)) <$> load (threads s) x) as Hl.
  { intros x. unfold load. case_decide; [done|]. pose proof (lockless_lookup _ _ x He) as Hx. clear He.
    destruct (threads s' !! x) as [n1|], (threads s !! x) as [n2|]; try done. apply (inj Some) in Hx. simpl. f_equal.
    exact (f_equal (λ m : qnode tcb, (q_next m, q_prev m, q_prio m)) Hx). }
  clear He.
  exists q0. split_and!; [by rewrite Hqq|done|done| |].
  - eapply cyc_ext; [exact Hc|..]; intros z _; cbn; specialize (Hl z); unfold nxf, pvf;
      destruct (load (threads s') z), (load (threads s) z); simplify_eq/=; unfold nx, pv; cbn; congruence.
  - eapply pq_vals_ext; [exact Hv|]. intros z _. cbn. specialize (Hl z). unfold prf.
      destruct (load (threads s') z), (load (threads s) z); simplify_eq/=; congruence.
Qed.

(** What a thread that ends gives back: the first of its mutexes. *)
Definition parted (ms : list N) a : locks :=
  if ms is m :: rest then lock_held (lk_cur a) rest (lock_mx m MFree a) else a.

Lemma releaseall_self s a ms :
  lock_repr s a → lock_inv a → lk_held a !! lk_cur a = Some ms → (∀ m, m ∈ ms → lk_mx a !! m = Some (MHeld (lk_cur a) 1)) →
  ∃ s', pth_mutex_releaseall (lk_cur a) s = Some (tt, s') ∧ lock_repr s' (parted ms a) ∧ lockless s' = lockless s.
Proof.
  intros Ha Hi Hl Hm. assert (∃ s', pth_mutex_releaseall (lk_cur a) s = Some (tt, s') ∧ lock_repr s' (parted ms a)) as (s' & Hr & Ha').
  2: { exists s'. split_and!; [done..|]. by eapply keeps_releaseall. }
  destruct ms as [|m ms]; [|by apply releaseall_run; [..|apply Hm; left]].
  destruct (lr_ring _ _ Ha _ _ Hl) as (n & Hn & Hr). pose proof Hn as [Hnn _]%load_Some. exists s. split; [|done].
  unfold pth_mutex_releaseall. rewrite is_null_false by done.
  destruct (proj1 (wp_run _ _ _) (on_mutexring_read (lk_cur a) Ring.pth_ring_first s n (λ v, v = NULL) Hn
    (Ring.ring_first_run _ [] (proj1 (rrepr_ring _ _ _ _) Hr)))) as (v & s' & Hrun & -> & ->).
  by rewrite (bind_run _ _ _ _ _ Hrun).
Qed.

End lockless.

(** ** The thread itself *)
Section exit.
Context {Kern : Kernel} {Kn : Knot}.
Context (kc : N → N → K → K).
Hypothesis call_kern : ∀ f a s, call f a s = ORet tt (set_kern (kc f a) s).
Implicit Types (s : St) (P : qid → list (N * Z)) (own : N → list N * list N) (t : N) (n : qnode tcb) (a : locks).

(** A thread that has ended with the value [v]. *)
Definition departed (v : N) (e : Z) : tcb → tcb :=
  set_mctx_error (λ _, e) ∘ set_state (λ _, PTH_STATE_DEAD) ∘ set_join_arg (λ _, v) ∘ emptied.
Definition gone v t l vs s : St := set_threads (alter (on_body (departed v (errno s))) t) (aftermath kc l vs [] s).

Lemma gone_torn v t l vs s :
  gone v t l vs s =
    set_threads (alter (on_body (set_mctx_error (λ _, errno s))) t) (set_threads (alter (on_body (set_state (λ _, PTH_STATE_DEAD))) t)
      (set_threads (alter (on_body (set_join_arg (λ _, v))) t) (torn kc t l vs s))).
Proof.
  transitivity (set_kern (run_calls kc (last_calls s l vs)) (set_cleanup_recs (without l.*1)
    (set_threads (alter (on_body (set_mctx_error (λ _, errno s))) t ∘ (alter (on_body (set_state (λ _, PTH_STATE_DEAD))) t ∘
      (alter (on_body (set_join_arg (λ _, v))) t ∘ alter (on_body emptied) t))) s))); [|reflexivity].
  transitivity (set_kern (run_calls kc (last_calls s l vs)) (set_cleanup_recs (without l.*1)
    (set_threads (alter (on_body (departed v (errno s))) t) s))); [reflexivity|].
  do 2 f_equal. apply set_threads_ext. unfold compose. rewrite !alter_on_body_comp. done.
Qed.

Lemma exit_run garbage fuel v s t n n' l vs a ms :
  closing s t n l vs → lock_repr s a → lock_inv a → pth_current s = t → t ≠ pth_main s → load (threads s) (pth_sched s) = Some n' →
  lk_held a !! t = Some ms → (∀ m, m ∈ ms → lk_mx a !! m = Some (MHeld t 1)) → (length l < fuel)%nat →
  ∃ s' k, pth_exit garbage fuel v s = OSwitch s' k ∧ lock_repr s' (parted ms a) ∧ lockless s' = lockless (gone v t l vs s).
Proof.
  intros Hc Ha Hi Hcur Hmain Hs Hl Hm Hf. pose proof (cg_load _ _ _ _ _ Hc) as Hn.
  assert (lk_cur a = t) as Hlc by (by rewrite (lr_cur _ _ Ha)). rewrite <- Hlc in Hl, Hm.
  assert (lock_repr (torn kc t l vs s) a) as Ha1.
  { apply (lock_repr_alter s a t emptied) in Ha; [|done]. destruct Ha. by split. }
  destruct (releaseall_self _ a ms Ha1 Hi Hl Hm) as (s1 & Hr1 & Ha1' & Hk1). rewrite Hlc in Hr1.
  assert (load (threads (torn kc t l vs s)) t = Some (on_body emptied n)) as Hn0 by (by apply load_alter_eq).
  destruct (lockless_load _ _ _ _ Hk1 Hn0) as (n1 & Hn1 & _).
  assert (pth_current s1 = t) as Hcur1 by (etrans; [exact (f_equal pth_current Hk1)|done]).
  assert (pth_main s1 = pth_main s) as Hmain1 by exact (f_equal pth_main Hk1).
  assert (pth_sched s1 = pth_sched s) as Hs1 by exact (f_equal pth_sched Hk1).
  assert (errno s1 = errno s) as He1.
  { rewrite <- (lr_errno _ _ Ha1'), <- (lr_errno _ _ Ha). by destruct ms. }
  set (s2 := set_threads (alter (on_body (set_join_arg (λ _, v))) t) s1).
  set (s3 := set_threads (alter (on_body (set_state (λ _, PTH_STATE_DEAD))) t) s2).
  assert (∃ m, load (threads s3) (pth_sched s3) = Some m) as [m Hm3].
  { assert (∃ m, load (threads (torn kc t l vs s)) (pth_sched s) = Some m) as [m0 Hm0].
    { cbn. rewrite load_alter. case_decide; rewrite Hs; by eexists. }
    destruct (lockless_load _ _ _ _ Hk1 Hm0) as (m1 & Hm1 & _). change (pth_sched s3) with (pth_sched s1). rewrite Hs1.
    cbn. rewrite !load_alter, Hm1. repeat case_decide; by eexists. }
  destruct (switch_run s3 (on_body (set_state (λ _, PTH_STATE_DEAD)) (on_body (set_join_arg (λ _, v)) n1)) m) as (k & Hk & _); [|done|].
  { change (pth_current s3) with (pth_current s1). rewrite Hcur1. cbn. by apply load_alter_eq, load_alter_eq. }
  eexists _, _. split_and!.
  - unfold pth_exit. erewrite cbind_atom by done. erewrite cbind_atom by done. rewrite Hcur, bool_decide_false by done.
    erewrite cbind_ret by done. erewrite cbind_atom by done. rewrite Hcur.
    erewrite cbind_ret by (rewrite (cleanup_run kc call_kern _ _ _ _ _ _ Hc Hf); by apply atom_run).
    erewrite cbind_atom by done. erewrite cbind_atom by done. rewrite Hcur1, Hmain1, bool_decide_false by done. cbn [negb].
    erewrite cbind_switch; [reflexivity|]. erewrite cbind_atom by (by eapply stt_run). erewrite cbind_atom.
    2: { eapply stt_run. by apply load_alter_eq. }
    exact Hk.
  - change (pth_current s3) with (pth_current s1). change (errno s3) with (errno s1).
    by apply lock_repr_alter; [apply lock_repr_alter; [apply lock_repr_alter|]|].
  - change (pth_current s3) with (pth_current s1). change (errno s3) with (errno s1). rewrite Hcur1, He1, gone_torn.
    apply lockless_alter; [done|]. apply lockless_alter; [done|]. by apply lockless_alter.
Qed.

Lemma gone_lookup v t l vs s s' n x :
  load (threads s) t = Some n → lockless s' = lockless (gone v t l vs s) →
  ringless <$> threads s' !! x =
    if decide (x = t) then Some (set_mutexring (λ _, Ring.PTH_RING_INIT) (departed v (errno s) (q_body n))) else ringless <$> threads s !! x.
Proof.
  intros [_ Hn]%load_Some He. pose proof (f_equal (fmap q_body) (lockless_lookup _ _ x He)) as Hx. clear He.
  rewrite <- !option_fmap_compose in Hx. etrans; [exact Hx|]. cbn. rewrite lookup_alter. case_decide; [subst|by rewrite decide_False by congruence].
  rewrite decide_True by done. by rewrite Hn.
Qed.

Lemma rest_current f s : rest (set_pth_current f s) = set_pth_current f (rest s).
Proof. done. Qed.

(** The scheduler takes over a thread that has ended. *)
Lemma retire_run s P t n :
  qrepr s P → unqueued P t → pq_ok (P DQ) → load (threads s) t = Some n → state (q_body n) = PTH_STATE_DEAD →
  cleanups (q_body n) = NULL → (∀ y, y ∈ own_stack n → is_Some (load (longs s) y)) →
  ∃ s', retire t s = Some (tt, s') ∧ pth_current s' = NULL ∧
    if joinable (q_body n) =? 0 then
      qrepr s' P ∧ threads s' = delete t (threads s) ∧ rest s' = rest (set_pth_current (λ _, NULL) (set_longs (without (own_stack n)) s))
    else
      qrepr s' (<[DQ := pq_ins PTH_PRIO_STD t (P DQ)]> P) ∧ rest s' = rest (set_pth_current (λ _, NULL) s) ∧
      ∀ x, q_body <$> threads s' !! x = q_body <$> threads s !! x.
Proof.
  intros Hq Hu Hok Hn Hst Hcl Hlongs.
  assert (∀ s1, (if joinable (q_body n) =? 0 then pth_tcb_free t else onq DQ (pth_pqueue_insert PTH_PRIO_STD t)) s = Some (tt, s1) →
    retire t s = Some (tt, set_pth_current (λ _, NULL) s1)) as Hend.
  { intros s1 Hr. unfold retire. rewrite (bind_run _ _ _ _ _ (ldt_run _ state _ _ Hn)), Hst, bool_decide_true by done.
    rewrite (bind_run _ _ tt s (set_pth_current (λ _, NULL) s1)); [done|]. rewrite (bind_run _ _ _ _ _ (ldt_run _ joinable _ _ Hn)).
    by rewrite (bind_run _ _ _ _ _ Hr). }
  destruct (joinable (q_body n) =? 0).
  - destruct (end_detached s P t n Hq Hu Hn Hcl Hlongs) as (s1 & Hr & Hq1 & Ht1 & Hr1). eexists. split; [by apply Hend|].
    split_and!; [done|by apply (qrepr_same s1); [|intros []|]|done|].
    rewrite !rest_current. f_equal. exact Hr1.
  - destruct (proj1 (wp_run _ _ _) (onq_insert_spec DQ PTH_PRIO_STD t s P Hq Hok ltac:(done) Hu ltac:(by eexists)))
      as ([] & s1 & Hr & Hq1 & Hr1 & Hb1). eexists. split; [by apply Hend|].
    split_and!; [done|by apply (qrepr_same s1); [|intros []|]| |done].
    rewrite !rest_current. f_equal. exact Hr1.
Qed.

(** A thread that had ended keeps the facts that joining relies on. *)
Lemma owns_alike s s' x o :
  owns s x o → ringless <$> threads s' !! x = ringless <$> threads s !! x →
  longs s' = longs s → (∀ y, y ∈ o.2 → cleanup_recs s' !! y = cleanup_recs s !! y) → owns s' x o.
Proof.
  intros (m & l & [Hx Hm]%load_Some & Hstk & Hlongs & Hc & Hrecs & Hnd) Hb Hl Hr. rewrite Hm in Hb.
  destruct (threads s' !! x) as [m'|] eqn:Hm'; [|done]. apply (inj Some) in Hb.
  assert (stack (q_body m') = stack (q_body m)) as E1 by exact (f_equal stack Hb).
  assert (stackloan (q_body m') = stackloan (q_body m)) as E2 by exact (f_equal stackloan Hb).
  assert (cleanups (q_body m') = cleanups (q_body m)) as E3 by exact (f_equal cleanups Hb). clear Hb.
  exists m', l. rewrite E1, E2, E3, Hl. split_and!; [by apply load_Some|done|done| |done|done].
  eapply cl_chain_frame; [done|]. by rewrite <- Hrecs.
Qed.

Lemma joinable_gone v s s1 s2 P own t n l vs :
  joinable_in s P own → unqueued P t → Z.of_nat (length (P DQ)) < INT_MAX - 1 → closing s t n l vs →
  (∀ y, y ∈ own_stack n → is_Some (load (longs s) y)) →
  (∀ q x, x ∈ (P q).*1 → own_stack n ## (own x).1 ∧ l.*1 ## (own x).2) →
  lockless s1 = lockless (gone v t l vs s) → qrepr s2 (<[DQ := pq_ins PTH_PRIO_STD t (P DQ)]> P) →
  longs s2 = longs s1 → cleanup_recs s2 = cleanup_recs s1 → (∀ x, q_body <$> threads s2 !! x = q_body <$> threads s1 !! x) →
  joinable_in s2 (<[DQ := pq_ins PTH_PRIO_STD t (P DQ)]> P) (<[t := (own_stack n, [])]> own) ∧ exit_value s2 t = Some v.
Proof.
  intros [Hq Hok Hfew Hdead [Hown Hdis]] Hu Hlen Hc Hst Hap He Hq2 Hl2 Hr2 Hb2. pose proof (cg_load _ _ _ _ _ Hc) as Hn.
  pose proof Hn as [Hnn Hnt]%load_Some.
  assert (∀ x, ringless <$> threads s2 !! x = if decide (x = t) then Some (set_mutexring (λ _, Ring.PTH_RING_INIT) (departed v (errno s) (q_body n)))
             else ringless <$> threads s !! x) as Hx.
  { intros x. rewrite <- (gone_lookup v t l vs s s1 n x Hn He). specialize (Hb2 x).
    destruct (threads s2 !! x) as [u|], (threads s1 !! x) as [w|]; try done. apply (inj Some) in Hb2. simpl. unfold ringless. by rewrite Hb2. }
  assert (longs s1 = longs s) as Hl1 by exact (f_equal longs He).
  assert (cleanup_recs s1 = without l.*1 (cleanup_recs s)) as Hr1 by exact (f_equal cleanup_recs He). clear He Hb2.
  destruct (threads s2 !! t) as [n2|] eqn:Hn2; [|specialize (Hx t); by rewrite Hn2, decide_True in Hx].
  assert (ringless n2 = set_mutexring (λ _, Ring.PTH_RING_INIT) (departed v (errno s) (q_body n))) as Hbt.
  { specialize (Hx t). rewrite Hn2, decide_True in Hx by done. by apply (inj Some). }
  assert (load (threads s2) t = Some n2) as Hlt by (by apply load_Some).
  assert (∀ q x, x ∈ ((<[DQ := pq_ins PTH_PRIO_STD t (P DQ)]> P) q).*1 ↔ x ∈ (P q).*1 ∨ (q = DQ ∧ x = t)) as Hin.
  { intros q x. destruct (decide (q = DQ)) as [->|]; [rewrite fn_lookup_insert, pq_ins_keys; set_solver|rewrite fn_lookup_insert_ne by done; naive_solver]. }
  split; [split|].
  - done.
  - rewrite fn_lookup_insert. destruct Hok as [Hf _]. split; [|rewrite pq_ins_length; lia].
    rewrite (pq_ins_elems PTH_PRIO_STD t (P DQ)). by constructor.
  - assert (size (threads s2) ≤ size (threads s))%nat as Hsz; [|lia]. rewrite <- !size_dom. apply subseteq_size.
    intros x [m Hm]%elem_of_dom. specialize (Hx x). rewrite Hm in Hx. apply elem_of_dom. case_decide; [subst; by eexists|].
    by destruct (threads s !! x).
  - intros x m [Hxn Hm]%load_Some. rewrite Hin. destruct (decide (x = t)) as [->|Hne].
    + assert (m = n2) as -> by congruence. split; [by right|intros _]. exact (f_equal state Hbt).
    + specialize (Hx x). rewrite Hm, decide_False in Hx by done. destruct (threads s !! x) as [m0|] eqn:Hm0; [|done].
      apply (inj Some) in Hx. assert (state (q_body m) = state (q_body m0)) as -> by exact (f_equal state Hx).
      rewrite (Hdead x m0) by (by apply load_Some). naive_solver.
  - assert (∀ q x, x ∈ (P q).*1 → x ≠ t) as Hne by (intros q x Hxq ->; by apply (Hu q)). split.
    + intros q x [Hxq|[-> ->]]%Hin.
      * rewrite fn_lookup_insert_ne by (intros <-; by eapply Hne). eapply owns_alike; [by eapply Hown| |congruence|].
        { rewrite Hx, decide_False; [done|]. by eapply Hne. }
        intros y Hy. rewrite Hr2, Hr1, lookup_without, decide_False; [done|]. destruct (Hap _ _ Hxq). set_solver.
      * rewrite fn_lookup_insert. exists n2, []. split_and!; [done| |by rewrite Hl2, Hl1| |done|constructor].
        { assert (stack (q_body n2) = stack (q_body n)) as -> by exact (f_equal stack Hbt).
          by assert (stackloan (q_body n2) = stackloan (q_body n)) as -> by exact (f_equal stackloan Hbt). }
        exact (f_equal cleanups Hbt).
    + intros q q' x x' [Hxq|[-> ->]]%Hin [Hxq'|[-> ->]]%Hin Hxx; [| | |done].
      * pose proof (Hne _ _ Hxq). pose proof (Hne _ _ Hxq'). rewrite !fn_lookup_insert_ne by congruence. by eapply Hdis.
      * rewrite fn_lookup_insert, fn_lookup_insert_ne by congruence. destruct (Hap _ _ Hxq). set_solver.
      * rewrite fn_lookup_insert, fn_lookup_insert_ne by congruence. destruct (Hap _ _ Hxq'). set_solver.
  - unfold exit_value. rewrite Hlt. simpl. f_equal. exact (f_equal join_arg Hbt).
Qed.


End exit.

(** ** Examples *)

(** Thread 101 is ready, allows asynchronous cancellation, has one cleanup handler
    (function 70, argument 1) and holds mutex 50. *)
Definition toy_doomed : tcb :=
  set_cancelstate (λ _, Z.lor PTH_CANCEL_ENABLE PTH_CANCEL_ASYNCHRONOUS)
    (set_cleanups (λ _, 80%N) (set_mutexring (λ _, Ring.Ring 50 1) toy_tcb)).
Definition toy_cancel : @St toy_kernel :=
  set_mutexes (λ _, {[ 50%N := Mutex 3 101 1 ]})
    (set_rnodes (λ _, {[ 50%N := Ring.Ringnode 50 50 ]})
      (set_cleanup_recs (λ _, {[ 80%N := Cleanup 0 70 1 ]})
        (set_pth_RQ (λ _, Pqueue 101 1) (set_threads (<[101%N := Qnode 101 101 0 toy_doomed]>) toy_state)))).
Definition toy_ready (q : qid) : list (N * Z) := match q with RQ => [(101%N, 0)] | _ => [] end.


(** Thread 100 runs, is not the main thread, has the handler 71 and holds mutex 50. *)
Definition toy_leaving : tcb := set_cleanups (λ _, 80%N) (set_mutexring (λ _, Ring.Ring 50 1) toy_tcb).
Definition toy_exit : @St toy_kernel :=
  set_mutexes (λ _, {[ 50%N := Mutex 3 100 1 ]})
    (set_rnodes (λ _, {[ 50%N := Ring.Ringnode 50 50 ]})
      (set_cleanup_recs (λ _, {[ 80%N := Cleanup 0 71 2 ]})
        (set_pth_main (λ _, 98%N) (set_threads (<[100%N := Qnode 0 0 0 toy_leaving]>) toy_state)))).
Definition toy_exit_locks : locks := Locks {[ 50%N := MHeld 100 1 ]} {[ 100%N := [50%N] ]} 100 0.

Lemma toy_exit_repr : lock_repr toy_exit toy_exit_locks ∧ lock_inv toy_exit_locks.
Proof.
  split; split; try done.
  - intros t l Hl. cbn in Hl. apply lookup_singleton_Some in Hl as [<- <-]. eexists. split; [reflexivity|]. split_and!; [done|done|by apply cyc_singleton].
  - intros m [x Hx]%elem_of_dom _. cbn in Hx. apply lookup_singleton_Some in Hx as [<- _]. by eexists.
  - intros t l m Hl Hm. cbn in Hl. apply lookup_singleton_Some in Hl as [<- <-]. apply list_elem_of_singleton in Hm as ->. exists 1. split; [done|lia].
  - intros m t c Hm. cbn in Hm. apply lookup_singleton_Some in Hm as [<- [= <- <-]]. exists [50%N]. split; [done|by left].
Qed.

Lemma toy_exit_joinable : joinable_in toy_exit (λ _, []) (λ _, ([], [])).
Proof.
  split; [split; [intros []; by eexists|by intros q q' x Hx%not_elem_of_nil]|by split; [constructor|]|by vm_compute| |
    split; [by intros q t Ht%not_elem_of_nil|by intros q q' t t' Ht%not_elem_of_nil]].
  intros t n Hn. split; [|by intros Hx%not_elem_of_nil]. apply load_Some in Hn as [_ Hn]. unfold toy_exit in Hn. cbn in Hn.
  apply lookup_insert_Some in Hn as [[<- <-]|[_ Hn]]; [done|].
  apply lookup_insert_Some in Hn as [[<- <-]|[_ Hn]]; [done|]. apply lookup_insert_Some in Hn as [[<- <-]|[_ Hn]]; [done|]. done.
Qed.

