(* ===== verification/Poll.v ===== *)
(** * Polling descriptors (what [pth_poll] promises)

[pth_poll] is built on [select]: it turns the array of [struct pollfd] into three sets
of descriptors, asks [pth_select] about them, and turns the answer back.  [fdview] is
what the kernel knows of the descriptors; [verdict] is what an entry of the array
should report, by a look at the view alone. *)
From S2P Require Import State Util Data Sys Event Tcb Sync Sched Fork Lib High Write Early.
From S2P Require Barrier.

(** The open descriptors, and those that can be read, can be written, have urgent data,
    and whose peer has hung up. *)
Record fdview := Fdview { fv_open : gset Z; fv_in : gset Z; fv_out : gset Z; fv_pri : gset Z; fv_hup : gset Z }.

Section poll.
Context {Kern : Kernel} {IoK : IoKernel} {Kn : Knot}.
Implicit Types (s : St) (p : pollfd) (l : list pollfd) (x : poll_sets) (v : fdview).

Definition hang (e : Z) : bool := (e =? ESHUTDOWN) || (e =? ECONNRESET) || (e =? ECONNABORTED) || (e =? ENETRESET).

(** The system calls that polling uses, as documented, in the kernel states [steady v] in
    which the descriptors are as in [v]: none is interrupted by a signal, and
    [select] without waiting leaves the ready descriptors in the sets and counts them. *)
Record surveys (steady : fdview → K → Prop) : Prop := {
  sv_getfl v fd k : steady v k → ∃ rc e k', k_getfl fd k = ((rc, e), k') ∧ steady v k' ∧
    (rc =? -1) && (e =? EBADF) = negb (bool_decide (fd ∈ fv_open v));
  sv_select v nfd r w e k : steady v k → (∀ fd, fd ∈ r ∪ w ∪ e → 0 ≤ fd < nfd ∧ fd ∈ fv_open v) →
    ∃ en sigs k', k_select nfd (Some r) (Some w) (Some e) (Some pth_time_zero) k =
      (SelResult (Z.of_nat (size (r ∩ fv_in v) + size (w ∩ fv_out v) + size (e ∩ fv_pri v))) en
         (Some (r ∩ fv_in v)) (Some (w ∩ fv_out v)) (Some (e ∩ fv_pri v)) sigs, k') ∧ steady v k';
  sv_peek v fd k : steady v k → ∃ rc e k', k_peek fd 64 k = ((rc, e), k') ∧ steady v k' ∧
    (rc =? -1) && hang e = bool_decide (fd ∈ fv_hup v)
}.

Context (steady : fdview → K → Prop) (Hsv : surveys steady).

(** ** What an entry asks for and what it reports *)
Definition wants_in p : bool := has (pfd_events p) (Z.lor POLLIN POLLRDNORM).
Definition wants_out p : bool := has (pfd_events p) (Z.lor (Z.lor POLLOUT POLLWRNORM) POLLWRBAND).
Definition wants_pri p : bool := has (pfd_events p) (Z.lor POLLPRI POLLRDBAND).

(** It asks for something of an open descriptor; and that has happened. *)
Definition watched v p : bool := bool_decide (pfd_fd p ∈ fv_open v) && (wants_in p || wants_out p || wants_pri p).
Definition is_ready v p : bool :=
  bool_decide (pfd_fd p ∈ fv_open v) &&
  (wants_in p && bool_decide (pfd_fd p ∈ fv_in v) || wants_out p && bool_decide (pfd_fd p ∈ fv_out v)
   || wants_pri p && bool_decide (pfd_fd p ∈ fv_pri v)).

Definition verdict v p : Z :=
  let fd := pfd_fd p in let ev := pfd_events p in
  if negb (bool_decide (fd ∈ fv_open v)) then POLLNVAL
  else if wants_in p && bool_decide (fd ∈ fv_in v) then
    if bool_decide (fd ∈ fv_hup v) then POLLHUP else asked ev [POLLIN; POLLRDNORM]
  else if wants_out p && bool_decide (fd ∈ fv_out v) then asked ev [POLLOUT; POLLWRNORM; POLLWRBAND]
  else if wants_pri p && bool_decide (fd ∈ fv_pri v) then asked ev [POLLPRI; POLLRDBAND]
  else 0.

Lemma has_or (x f g : Z) : has x (Z.lor f g) = has x f || has x g.
Proof.
  unfold has. rewrite Z.land_lor_distr_r. destruct (Z.eqb_spec (Z.land x f) 0) as [->|Hx]; [by rewrite Z.lor_0_l|].
  destruct (Z.eqb_spec (Z.lor (Z.land x f) (Z.land x g)) 0) as [[? _]%Z.lor_eq_0_iff|]; done.
Qed.

Lemma asks_any p :
  has (pfd_events p) (foldr Z.lor 0 [POLLIN; POLLOUT; POLLPRI; POLLRDNORM; POLLRDBAND; POLLWRNORM; POLLWRBAND]) =
  wants_in p || wants_out p || wants_pri p.
Proof.
  unfold wants_in, wants_out, wants_pri. rewrite <- !has_or. f_equal.
Qed.

(** ** From the array to the sets *)
Definition add v x p : poll_sets :=
  let fd := pfd_fd p in
  if bool_decide (fd ∈ fv_open v) then
    PollSets (if wants_in p then {[fd]} ∪ ps_r x else ps_r x) (if wants_out p then {[fd]} ∪ ps_w x else ps_w x)
      (if wants_pri p then {[fd]} ∪ ps_e x else ps_e x) (ps_x x)
      (if (ps_max x <=? fd) && (wants_in p || wants_out p || wants_pri p) then fd else ps_max x)
  else PollSets (ps_r x) (ps_w x) (ps_e x) ({[fd]} ∪ ps_x x) (ps_max x).

Definition array_at s pfd i l : Prop := ∀ j p, l !! j = Some p → load (pollfds (usr s)) (pfd_at pfd (i + j)) = Some p.
Definition in_set p : Prop := 0 ≤ pfd_fd p < FD_SETSIZE.

Lemma valid_run v fd s :
  steady v (kern s) → 0 ≤ fd < FD_SETSIZE →
  ∃ s', pth_util_fd_valid fd s = Some (bool_decide (fd ∈ fv_open v), s') ∧ kept s s' ∧ steady v (kern s').
Proof.
  intros Hs Hfd. unfold pth_util_fd_valid. rewrite (proj2 (orb_false_iff (fd <? 0) (FD_SETSIZE <=? fd))) by lia.
  destruct (sv_getfl _ Hsv v fd _ Hs) as (rc & e & k & Hk & Hs' & Hv). erewrite bind_run by (by apply kcall_errno_run).
  rewrite <- (negb_involutive (bool_decide _)), <- Hv. destruct (Z.eqb_spec rc (-1)) as [->|].
  - eexists. split; [reflexivity|]. split; [by exists e, k|done].
  - eexists. split; [reflexivity|]. split; [apply kept_kern|done].
Qed.

Lemma fd_set_if_run (c : bool) fd (f : fdset) s :
  0 ≤ fd < FD_SETSIZE → fd_set_if c fd f s = Some (if c then {[fd]} ∪ f else f, s).
Proof. intros Hfd. unfold fd_set_if, FD_SET. destruct c; [|done]. by rewrite fd_ok_true. Qed.

Lemma add_run v p x s :
  steady v (kern s) → in_set p →
  ∃ s', poll_add p x s = Some (add v x p, s') ∧ kept s s' ∧ steady v (kern s').
Proof.
  intros Hs Hp. destruct (valid_run v (pfd_fd p) s Hs Hp) as (s1 & H1 & Hk & Hs1). exists s1. split; [|done].
  unfold poll_add, add. rewrite (bind_run _ _ _ _ _ H1). destruct (bool_decide _); cbn [negb].
  - do 3 rewrite (bind_run _ _ _ _ _ (fd_set_if_run _ _ _ _ Hp)). by rewrite asks_any.
  - unfold FD_SET. by rewrite fd_ok_true.
Qed.

#[local] Existing Instance kept_trans.
Lemma kept_refl s : kept s s.
Proof. exists (errno s), (kern s). by destruct s. Qed.
Lemma kept_usr s s' : kept s s' → usr s' = usr s ∧ fdsets s' = fdsets s ∧ brk s' = brk s.
Proof. by intros (e & k & ->). Qed.

Lemma convert_run v pfd l i x s :
  steady v (kern s) → Forall in_set l → array_at s pfd i l →
  ∃ s', poll_convert (length l) i pfd x s = Some (foldl (add v) x l, s') ∧ kept s s' ∧ steady v (kern s').
Proof.
  revert i x s. induction l as [|p l IH]; intros i x s Hs Hl Ha.
  { exists s. split; [done|]. split; [apply kept_refl|done]. }
  apply Forall_cons in Hl as [Hp Hl]. cbn [length poll_convert foldl].
  assert (ldu pollfds (pfd_at pfd i) id s = Some (p, s)) as Hld.
  { unfold ldu, ld, compose. pose proof (Ha 0%nat p eq_refl) as H0. rewrite Nat.add_0_r in H0. by rewrite H0. }
  rewrite (bind_run _ _ _ _ _ Hld). destruct (add_run v p x s Hs Hp) as (s1 & H1 & Hk1 & Hs1). rewrite (bind_run _ _ _ _ _ H1).
  destruct (IH (S i) (add v x p) s1 Hs1 Hl) as (s2 & H2 & Hk2 & Hs2).
  { intros j q Hq. destruct (kept_usr _ _ Hk1) as [-> _]. rewrite Nat.add_succ_comm. by apply Ha. }
  exists s2. split; [done|]. split; [by etrans|done].
Qed.

(** Who is in the sets once the whole array has been gone through. *)
Lemma elem_fold v (π : poll_sets → fdset) (want : pollfd → bool) :
  (∀ x p fd, fd ∈ π (add v x p) ↔ fd ∈ π x ∨ want p = true ∧ fd = pfd_fd p) →
  ∀ l x fd, fd ∈ π (foldl (add v) x l) ↔ fd ∈ π x ∨ ∃ p, p ∈ l ∧ want p = true ∧ fd = pfd_fd p.
Proof.
  intros Hadd l. induction l as [|p l IH]; intros x fd; simpl.
  - split; [by left|intros [?|(p & Hp%not_elem_of_nil & _)]; done].
  - rewrite IH, Hadd. setoid_rewrite elem_of_cons. naive_solver.
Qed.

Lemma fold_max v l x :
  Forall in_set l → let m := ps_max (foldl (add v) x l) in
  ps_max x ≤ m ∧ (∀ p, p ∈ l → watched v p = true → pfd_fd p ≤ m) ∧
  (m = ps_max x ∨ ∃ p, p ∈ l ∧ watched v p = true ∧ m = pfd_fd p).
Proof.
  revert x. induction l as [|p l IH]; intros x Hl; simpl.
  { split_and!; [lia|by intros p Hp%not_elem_of_nil|by left]. }
  apply Forall_cons in Hl as [Hp Hl]. destruct (IH (add v x p) Hl) as (H1 & H2 & H3). clear IH.
  assert (ps_max x ≤ ps_max (add v x p) ∧ (watched v p = true → pfd_fd p ≤ ps_max (add v x p)) ∧
    (ps_max (add v x p) = ps_max x ∨ watched v p = true ∧ ps_max (add v x p) = pfd_fd p)) as (A1 & A2 & A3).
  { unfold add, watched. destruct (bool_decide _); cbn [andb ps_max]; [|split_and!; [lia|done|by left]].
    destruct (Z.leb_spec (ps_max x) (pfd_fd p)), (wants_in p || wants_out p || wants_pri p); cbn [andb]; split_and!; auto; lia. }
  split_and!; [lia| |].
  - intros q [->|Hq]%elem_of_cons Hw; [specialize (A2 Hw); lia|by apply H2].
  - destruct H3 as [->|(q & Hq & Hw & ->)]; [|right; exists q; split; [by right|done]].
    destruct A3 as [->|[Hw ->]]; [by left|]. right. exists p. split; [by left|done].
Qed.

Definition no_sets : poll_sets := PollSets ∅ ∅ ∅ ∅ (-1).
Definition sets_of v l : poll_sets := foldl (add v) no_sets l.
Definition open_and v (w : pollfd → bool) p : bool := bool_decide (pfd_fd p ∈ fv_open v) && w p.

Lemma elem_sets v l fd :
  (fd ∈ ps_r (sets_of v l) ↔ ∃ p, p ∈ l ∧ open_and v wants_in p = true ∧ fd = pfd_fd p) ∧
  (fd ∈ ps_w (sets_of v l) ↔ ∃ p, p ∈ l ∧ open_and v wants_out p = true ∧ fd = pfd_fd p) ∧
  (fd ∈ ps_e (sets_of v l) ↔ ∃ p, p ∈ l ∧ open_and v wants_pri p = true ∧ fd = pfd_fd p) ∧
  (fd ∈ ps_x (sets_of v l) ↔ ∃ p, p ∈ l ∧ negb (bool_decide (pfd_fd p ∈ fv_open v)) = true ∧ fd = pfd_fd p).
Proof.
  unfold sets_of. split_and!.
  - rewrite (elem_fold v ps_r (open_and v wants_in)); [set_solver|]. intros x p f. unfold add, open_and.
    destruct (bool_decide _), (wants_in p); set_solver.
  - rewrite (elem_fold v ps_w (open_and v wants_out)); [set_solver|]. intros x p f. unfold add, open_and.
    destruct (bool_decide _), (wants_out p); set_solver.
  - rewrite (elem_fold v ps_e (open_and v wants_pri)); [set_solver|]. intros x p f. unfold add, open_and.
    destruct (bool_decide _), (wants_pri p); set_solver.
  - rewrite (elem_fold v ps_x (λ p, negb (bool_decide (pfd_fd p ∈ fv_open v)))); [set_solver|]. intros x p f. unfold add.
    destruct (bool_decide _); set_solver.
Qed.

(** In an array without repetitions, an entry is in the sets on its own account. *)
Lemma own_account l (w : pollfd → bool) p :
  NoDup (pfd_fd <$> l) → p ∈ l → (∃ q, q ∈ l ∧ w q = true ∧ pfd_fd p = pfd_fd q) ↔ w p = true.
Proof.
  intros Hnd Hp. split; [|intros Hw; by exists p]. intros (q & Hq & Hw & Heq).
  apply list_elem_of_lookup in Hp as [i Hi], Hq as [j Hj]. assert (i = j) as ->.
  { eapply (NoDup_lookup _ _ _ (pfd_fd p) Hnd); rewrite list_lookup_fmap; [by rewrite Hi|by rewrite Hj, Heq]. }
  by assert (p = q) as -> by congruence.
Qed.

(** ** From the sets to the array *)
Definition entry v p x : Z * Z :=
  let fd := pfd_fd p in let ev := pfd_events p in
  if bool_decide (fd ∈ ps_x x) then (POLLNVAL, 1)
  else if ps_max x =? -1 then (0, 0)
  else if bool_decide (fd ∈ ps_r x) then
    let rev := asked ev [POLLIN; POLLRDNORM] in
    (if bool_decide (fd ∈ fv_hup v) then Z.lor (Z.land (Z.land rev (Z.lnot POLLIN)) (Z.lnot POLLRDNORM)) POLLHUP else rev, 1)
  else if bool_decide (fd ∈ ps_w x) then (asked ev [POLLOUT; POLLWRNORM; POLLWRBAND], 1)
  else if bool_decide (fd ∈ ps_e x) then (asked ev [POLLPRI; POLLRDBAND], 1) else (0, 0).

Lemma hup_run v fd s :
  steady v (kern s) → ∃ s', poll_hup fd s = Some (bool_decide (fd ∈ fv_hup v), s') ∧ kept s s' ∧ steady v (kern s').
Proof.
  intros Hs. destruct (sv_peek _ Hsv v fd _ Hs) as (rc & e & k & Hk & Hs' & Hh).
  unfold poll_hup. erewrite bind_run by (by apply kcall_errno_run). rewrite <- Hh. destruct (Z.eqb_spec rc (-1)) as [->|].
  - eexists. split; [reflexivity|]. split; [by exists e, k|done].
  - eexists. split; [reflexivity|]. split; [apply kept_kern|done].
Qed.

Lemma isset_run fd (f : fdset) s : 0 ≤ fd < FD_SETSIZE → lift_opt (FD_ISSET fd f) s = Some (bool_decide (fd ∈ f), s).
Proof. intros Hfd. by rewrite FD_ISSET_ok. Qed.

Lemma entry_run v p x s :
  steady v (kern s) → in_set p →
  ∃ s', poll_entry p x s = Some (entry v p x, s') ∧ kept s s' ∧ steady v (kern s').
Proof.
  intros Hs Hp. unfold poll_entry, entry. rewrite (bind_run _ _ _ _ _ (isset_run _ _ _ Hp)).
  assert (∀ r : Z * Z, ∃ s', (ret r : M St _) s = Some (r, s') ∧ kept s s' ∧ steady v (kern s')) as Hdone.
  { intros r. exists s. split; [done|]. split; [apply kept_refl|done]. }
  destruct (bool_decide _). { rewrite (proj2 (Z.leb_le _ _)) by apply Hp. apply Hdone. }
  destruct (ps_max x =? -1); [apply Hdone|]. rewrite (bind_run _ _ _ _ _ (isset_run _ _ _ Hp)). destruct (bool_decide (_ ∈ ps_r x)).
  { destruct (hup_run v (pfd_fd p) s Hs) as (s1 & H1 & Hk1 & Hs1). exists s1. split; [|done]. by rewrite (bind_run _ _ _ _ _ H1). }
  rewrite (bind_run _ _ _ _ _ (isset_run _ _ _ Hp)). destruct (bool_decide (_ ∈ ps_w x)); [apply Hdone|].
  rewrite (bind_run _ _ _ _ _ (isset_run _ _ _ Hp)). destruct (bool_decide (_ ∈ ps_e x)); apply Hdone.
Qed.

(** The array with the reports, and how many entries count. *)
Fixpoint reports (rev : pollfd → Z) pfd i l (m : gmap N pollfd) : gmap N pollfd :=
  match l with
  | [] => m
  | p :: l' => reports rev pfd (S i) l' (alter (set_revents (rev p)) (pfd_at pfd i) m)
  end.
Definition counted (c : pollfd → Z) l : Z := foldr (λ p n, c p + n) 0 l.

Definition polled m s s' : Prop := ∃ e k, s' = set_errno (λ _, e) (set_kern (λ _, k) (set_usr (upd_pollfds (λ _, m)) s)).

Lemma polled_step m s s1 s2 s3 a g :
  kept s s1 → s2 = set_usr (upd_pollfds (alter g a)) s1 → polled m s2 s3 → polled m s s3.
Proof. intros (e & k & ->) -> (e' & k' & ->). by exists e', k'. Qed.

Lemma results_run v pfd l x i n s :
  steady v (kern s) → Forall in_set l → array_at s pfd i l →
  ∃ s', poll_results (length l) i pfd x n s = Some (n + counted (λ p, (entry v p x).2) l, s') ∧
    polled (reports (λ p, (entry v p x).1) pfd i l (pollfds (usr s))) s s' ∧ steady v (kern s').
Proof.
  revert i n s. induction l as [|p l IH]; intros i n s Hs Hl Ha.
  { exists s. unfold counted. simpl. rewrite Z.add_0_r. split; [done|]. split; [|done]. exists (errno s), (kern s). by destruct s as [], usr. }
  apply Forall_cons in Hl as [Hp Hl]. cbn [length poll_results reports].
  assert (load (pollfds (usr s)) (pfd_at pfd i) = Some p) as Hld.
  { pose proof (Ha 0%nat p eq_refl) as H0. by rewrite Nat.add_0_r in H0. }
  erewrite bind_run by (unfold ldu, ld, compose; rewrite Hld; reflexivity). change (id p) with p.
  destruct (entry_run v p x s Hs Hp) as (s1 & H1 & Hk1 & Hs1). rewrite (bind_run _ _ _ _ _ H1).
  destruct (kept_usr _ _ Hk1) as [Hu1 _]. destruct (entry v p x) as [rev c] eqn:He. cbv beta iota.
  set (s2 := set_usr (upd_pollfds (alter (set_revents rev) (pfd_at pfd i))) s1).
  rewrite (bind_run _ _ tt s1 s2) by (unfold stu, st, compose; by rewrite Hu1, Hld).
  destruct (IH (S i) (n + c) s2 Hs1 Hl) as (s3 & H3 & Hk3 & Hs3).
  { intros j q Hq. pose proof (Ha (S j) q Hq) as [Hn Hq']%load_Some. apply load_Some. rewrite Nat.add_succ_comm. split; [done|].
    change (pollfds (usr s2)) with (alter (set_revents rev) (pfd_at pfd i) (pollfds (usr s1))). rewrite Hu1, lookup_alter_ne; [done|].
    unfold pfd_at. lia. }
  exists s3. split_and!; [|eapply polled_step; [done|reflexivity|]|done].
  - rewrite H3. do 2 f_equal. unfold counted. simpl. rewrite He. simpl. lia.
  - change (pollfds (usr s2)) with (alter (set_revents rev) (pfd_at pfd i) (pollfds (usr s1))) in Hk3. by rewrite Hu1 in Hk3.
Qed.

(** ** Entry by entry *)
Lemma asked_some ev b1 b2 : 0 < b1 → 0 < b2 → has ev (Z.lor b1 b2) = true → asked ev [b1; b2] ≠ 0.
Proof.
  intros H1 H2. rewrite has_or. unfold asked. cbn [foldl]. assert (Z.lor 0 b1 ≠ 0) by (rewrite Z.lor_0_l; lia).
  destruct (has ev b1), (has ev b2); cbn [orb]; intros Hh; try done; [|rewrite Z.lor_0_l; lia].
  intros [? ?]%Z.lor_eq_0_iff. lia.
Qed.
Lemma asked_some3 ev b1 b2 b3 :
  0 < b1 → 0 < b2 → 0 < b3 → has ev (Z.lor (Z.lor b1 b2) b3) = true → asked ev [b1; b2; b3] ≠ 0.
Proof.
  intros H1 H2 H3. rewrite has_or. change (asked ev [b1; b2; b3]) with (if has ev b3 then Z.lor (asked ev [b1; b2]) b3 else asked ev [b1; b2]).
  destruct (has ev (Z.lor b1 b2)) eqn:E.
  - apply asked_some in E; [|done..]. destruct (has ev b3); [|done]. intros _ [? ?]%Z.lor_eq_0_iff. lia.
  - destruct (has ev b3); [|done]. intros _ [? ?]%Z.lor_eq_0_iff. lia.
Qed.

(** The mark of a hang-up replaces the marks of readable data. *)
Lemma hup_only ev : Z.lor (Z.land (Z.land (asked ev [POLLIN; POLLRDNORM]) (Z.lnot POLLIN)) (Z.lnot POLLRDNORM)) POLLHUP = POLLHUP.
Proof. unfold asked. cbn [foldl]. by destruct (has ev POLLIN), (has ev POLLRDNORM). Qed.

Definition flag (z : Z) : Z := if z =? 0 then 0 else 1.
Lemma flag_some z : z ≠ 0 → flag z = 1.
Proof. intros Hz. unfold flag. by rewrite (proj2 (Z.eqb_neq _ _) Hz). Qed.

Lemma entry_verdict v p x :
  (pfd_fd p ∈ ps_x x ↔ pfd_fd p ∉ fv_open v) → (ps_max x = -1 → watched v p = false) →
  (ps_max x ≠ -1 →
    (pfd_fd p ∈ ps_r x ↔ open_and v wants_in p = true ∧ pfd_fd p ∈ fv_in v) ∧
    (pfd_fd p ∈ ps_w x ↔ open_and v wants_out p = true ∧ pfd_fd p ∈ fv_out v) ∧
    (pfd_fd p ∈ ps_e x ↔ open_and v wants_pri p = true ∧ pfd_fd p ∈ fv_pri v)) →
  entry v p x = (verdict v p, flag (verdict v p)).
Proof.
  intros Hx Hm Hs. unfold entry, verdict. cbv zeta. rewrite (bool_decide_ext _ _ Hx), bool_decide_not. unfold watched in Hm. unfold open_and in Hs.
  destruct (bool_decide (pfd_fd p ∈ fv_open v)); cbn [negb andb] in *; [|done].
  destruct (Z.eqb_spec (ps_max x) (-1)) as [E|E].
  { specialize (Hm E). apply orb_false_iff in Hm as [[-> ->]%orb_false_iff ->]. done. }
  destruct (Hs E) as (H1 & H2 & H3). clear Hs Hm.
  assert (∀ (b : bool) (f g : fdset), (pfd_fd p ∈ f ↔ b = true ∧ pfd_fd p ∈ g) → bool_decide (pfd_fd p ∈ f) = b && bool_decide (pfd_fd p ∈ g)) as Hb.
  { intros b f g Hf. destruct b; [by apply bool_decide_ext; naive_solver|]. by apply bool_decide_eq_false_2; intros []%Hf. }
  rewrite (Hb _ _ _ H1), (Hb _ _ _ H2), (Hb _ _ _ H3). rewrite hup_only.
  destruct (wants_in p) eqn:W1; cbn [andb]; [destruct (bool_decide (_ ∈ fv_in v))|].
  { destruct (bool_decide _); [done|]. f_equal. symmetry. by apply flag_some, asked_some. }
  all: destruct (wants_out p) eqn:W2; cbn [andb]; [destruct (bool_decide (_ ∈ fv_out v))|].
  1,4: f_equal; symmetry; by apply flag_some, asked_some3.
  all: destruct (wants_pri p) eqn:W3; cbn [andb]; [destruct (bool_decide (_ ∈ fv_pri v))|]; [|done..]; f_equal; symmetry; by apply flag_some, asked_some.
Qed.

(** The sets after [select]: what is ready of them. *)
Definition ready_of v x : poll_sets := PollSets (ps_r x ∩ fv_in v) (ps_w x ∩ fv_out v) (ps_e x ∩ fv_pri v) (ps_x x) (ps_max x).

Lemma nobody_watched v l :
  Forall in_set l → ps_max (sets_of v l) = -1 ↔ existsb (watched v) l = false.
Proof.
  intros Hl. destruct (fold_max v l no_sets Hl) as (_ & H2 & H3). fold (sets_of v l) in H2, H3. rewrite Forall_forall in Hl. split.
  - intros Hm. apply not_true_iff_false. intros (p & Hp%list_elem_of_In & Hw)%existsb_exists. specialize (H2 p Hp Hw). specialize (Hl p Hp).
    unfold in_set in Hl. lia.
  - intros He. destruct H3 as [->|(p & Hp & Hw & _)]; [done|]. apply not_true_iff_false in He. destruct He. apply existsb_exists.
    exists p. split; [by apply list_elem_of_In|done].
Qed.

Lemma entries_verdicts v l x :
  NoDup (pfd_fd <$> l) → Forall in_set l →
  (x = ready_of v (sets_of v l) ∨ existsb (watched v) l = false ∧ x = sets_of v l) →
  ∀ p, p ∈ l → entry v p x = (verdict v p, flag (verdict v p)).
Proof.
  intros Hnd Hl Hx p Hp. pose proof (elem_sets v l (pfd_fd p)) as (H1 & H2 & H3 & H4).
  rewrite own_account in H1, H2, H3, H4 by done.
  assert (ps_x x = ps_x (sets_of v l) ∧ ps_max x = ps_max (sets_of v l)) as [Ex Em] by (destruct Hx as [->|[_ ->]]; done).
  apply entry_verdict.
  - rewrite Ex, H4, negb_true_iff, bool_decide_eq_false. done.
  - rewrite Em, nobody_watched by done. intros He. apply not_true_iff_false. intros Hw. apply not_true_iff_false in He.
    destruct He. apply existsb_exists. exists p. split; [by apply list_elem_of_In|done].
  - rewrite Em, nobody_watched by done. destruct Hx as [->|[? _]]; [|congruence]. intros _. unfold ready_of. cbn [ps_r ps_w ps_e].
    rewrite !elem_of_intersection, H1, H2, H3. done.
Qed.

Lemma reports_ext f g pfd l i m : (∀ p, p ∈ l → f p = g p) → reports f pfd i l m = reports g pfd i l m.
Proof.
  revert i m. induction l as [|p l IH]; intros i m Hfg; simpl; [done|]. rewrite (Hfg p) by (by left). apply IH. intros q Hq. apply Hfg. by right.
Qed.
Lemma counted_ext f g l : (∀ p, p ∈ l → f p = g p) → counted f l = counted g l.
Proof.
  induction l as [|p l IH]; intros Hfg; [done|]. unfold counted in *. simpl. rewrite (Hfg p) by (by left). f_equal. apply IH. intros q Hq. apply Hfg. by right.
Qed.

(** The number of entries with something to report. *)
Lemma counted_flag v l : counted (λ p, flag (verdict v p)) l = Z.of_nat (length (filter (λ p, verdict v p ≠ 0) l)).
Proof.
  induction l as [|p l IH]; [done|]. unfold counted in *. cbn [foldr]. rewrite IH, filter_cons. unfold flag.
  destruct (Z.eqb_spec (verdict v p) 0) as [E|E]; [rewrite decide_False by (by intros Hn; apply Hn)|rewrite decide_True by done]; simpl; lia.
Qed.

(** ** Asking [select] *)

(** The state in which the three sets are local variables. *)
Definition loc_r s : N := brk s.
Definition loc_w s : N := (brk s + 128)%N.
Definition loc_e s : N := (brk s + 128 + 128)%N.
Definition with_sets r w e x s : St := set_fdsets (<[e := ps_e x]> ∘ <[w := ps_w x]> ∘ <[r := ps_r x]>) s.
Definition locals x s : St := with_sets (loc_r s) (loc_w s) (loc_e s) x (set_brk (λ b, b + 128 + 128 + 128)%N s).

(** The addresses that locals will get are free. *)
Definition room s : Prop := brk s ≠ NULL ∧ ∀ a, (brk s ≤ a)%N → fdsets s !! a = None ∧ ints s !! a = None.

Lemma sets_loaded r w e x s :
  r ≠ NULL → w ≠ NULL → e ≠ NULL → r ≠ w → w ≠ e → r ≠ e →
  load (fdsets (with_sets r w e x s)) r = Some (ps_r x) ∧ load (fdsets (with_sets r w e x s)) w = Some (ps_w x) ∧
  load (fdsets (with_sets r w e x s)) e = Some (ps_e x).
Proof.
  intros Hr Hw He H1 H2 H3. unfold with_sets, compose. cbn.
  split_and!; apply load_Some; (split; [done|]); rewrite ?lookup_insert_ne by done; by rewrite lookup_insert_eq.
Qed.

(** What is left of the block of [poll_select_ev] once [select] has returned. *)
Definition read_back r w e (rc : Z) x : coro (Z * poll_sets) :=
  do! rf <- atom (ld fdsets r id);
  do! wf <- atom (ld fdsets w id);
  do! ef <- atom (ld fdsets e id);
  atom (drop_fdset r ;; drop_fdset w ;; drop_fdset e) ;;!
  cret (rc, PollSets rf wf ef (ps_x x) (ps_max x)).
Definition dropped_sets r w e s : St := set_fdsets (delete e ∘ delete w ∘ delete r) s.

Lemma read_back_run r w e rc x R W E s :
  load (fdsets s) r = Some R → load (fdsets s) w = Some W → load (fdsets s) e = Some E →
  read_back r w e rc x s = ORet (rc, PollSets R W E (ps_x x) (ps_max x)) (dropped_sets r w e s).
Proof.
  intros Hr Hw He. unfold read_back.
  erewrite cbind_atom by (unfold ld; rewrite Hr; reflexivity). erewrite cbind_atom by (unfold ld; rewrite Hw; reflexivity).
  erewrite cbind_atom by (unfold ld; rewrite He; reflexivity). reflexivity.
Qed.

(** [n] descriptors of the sets [x] are ready. *)
Definition ready_count v x : Z := Z.of_nat (size (ps_r x ∩ fv_in v) + size (ps_w x ∩ fv_out v) + size (ps_e x ∩ fv_pri v)).

Lemma survey_run fuel v x s :
  steady v (kern s) → (∀ fd, fd ∈ ps_r x ∪ ps_w x ∪ ps_e x → 0 ≤ fd < ps_max x + 1 ∧ fd ∈ fv_open v) →
  ∃ k, poll_select (S fuel) (ps_max x + 1) (Some (ps_r x)) (Some (ps_w x)) (Some (ps_e x)) (Some pth_time_zero) s =
    Some ((ready_count v x, Some (ps_r x ∩ fv_in v), Some (ps_w x ∩ fv_out v), Some (ps_e x ∩ fv_pri v)), set_kern (λ _, k) s) ∧
    steady v k.
Proof.
  intros Hs Hx. destruct (sv_select _ Hsv v _ _ _ _ _ Hs Hx) as (en & sigs & k & Hk & Hs'). exists k. split; [|done].
  cbn [poll_select]. rewrite (bind_run _ _ _ _ _ (kcall_run _ _ _ _ Hk)). cbn [sel_rc sel_errno sel_rfds sel_wfds sel_efds].
  unfold ready_count. rewrite (proj2 (Z.ltb_ge _ 0)) by lia. done.
Qed.

Lemma sets_below v l :
  Forall in_set l → ∀ fd, fd ∈ ps_r (sets_of v l) ∪ ps_w (sets_of v l) ∪ ps_e (sets_of v l) →
  0 ≤ fd < ps_max (sets_of v l) + 1 ∧ fd ∈ fv_open v.
Proof.
  intros Hl fd Hfd. pose proof (elem_sets v l fd) as (H1 & H2 & H3 & _).
  destruct (fold_max v l no_sets Hl) as (_ & Hmax & _). fold (sets_of v l) in Hmax.
  assert (∃ p, p ∈ l ∧ watched v p = true ∧ fd = pfd_fd p) as (p & Hp & Hw & ->).
  { unfold open_and in *. unfold watched. apply elem_of_union in Hfd as [[Hf|Hf]%elem_of_union|Hf].
    - apply H1 in Hf as (p & Hp & [Ho Hw]%andb_true_iff & ->). exists p. by rewrite Ho, Hw.
    - apply H2 in Hf as (p & Hp & [Ho Hw]%andb_true_iff & ->). exists p. by rewrite Ho, Hw, orb_true_r.
    - apply H3 in Hf as (p & Hp & [Ho Hw]%andb_true_iff & ->). exists p. by rewrite Ho, Hw, orb_true_r. }
  specialize (Hmax p Hp Hw). rewrite Forall_forall in Hl. destruct (Hl p Hp). unfold watched in Hw.
  apply andb_true_iff in Hw as [Ho%bool_decide_eq_true _]. split; [lia|done].
Qed.

Lemma size_elem (f : fdset) : (0 < size f)%nat ↔ ∃ fd, fd ∈ f.
Proof.
  split; [apply size_pos_elem_of|]. intros [fd Hfd]. destruct (decide (size f = 0%nat)) as [E%size_empty_iff|]; [set_solver|lia].
Qed.

Lemma count_elem v x :
  0 < ready_count v x ↔ (∃ fd, fd ∈ ps_r x ∩ fv_in v) ∨ (∃ fd, fd ∈ ps_w x ∩ fv_out v) ∨ (∃ fd, fd ∈ ps_e x ∩ fv_pri v).
Proof. rewrite <- !size_elem. unfold ready_count. lia. Qed.

Lemma count_ready v l : 0 < ready_count v (sets_of v l) ↔ existsb (is_ready v) l = true.
Proof.
  rewrite count_elem, existsb_exists. setoid_rewrite <- list_elem_of_In. unfold is_ready. split.
  - intros [[fd [(p & Hp & [Ho Hw]%andb_true_iff & ->)%elem_sets Hf]%elem_of_intersection]|
            [[fd [(p & Hp & [Ho Hw]%andb_true_iff & ->)%elem_sets Hf]%elem_of_intersection]|
             [fd [(p & Hp & [Ho Hw]%andb_true_iff & ->)%elem_sets Hf]%elem_of_intersection]]];
      exists p; (split; [done|]); rewrite Ho, Hw, (bool_decide_eq_true_2 _ Hf), ?orb_true_r; done.
  - intros (p & Hp & [Ho [[[Hw Hf%bool_decide_eq_true]%andb_true_iff|[Hw Hf%bool_decide_eq_true]%andb_true_iff]%orb_true_iff|
      [Hw Hf%bool_decide_eq_true]%andb_true_iff]%orb_true_iff]%andb_true_iff); [left|right; left|right; right];
      exists (pfd_fd p); apply elem_of_intersection; (split; [|done]); apply elem_sets; exists p; unfold open_and; by rewrite Ho, Hw.
Qed.

Lemma set_fdsets_ext f g s : f (fdsets s) = g (fdsets s) → set_fdsets f s = set_fdsets g s.
Proof. intros Hfg. unfold set_fdsets. by rewrite Hfg. Qed.
Lemma set_fdsets_id f s : f (fdsets s) = fdsets s → set_fdsets f s = s.
Proof. intros Hf. transitivity (set_fdsets (λ m, m) s); [by apply set_fdsets_ext|by destruct s]. Qed.

Definition distinct (r w e : N) : Prop := r ≠ NULL ∧ w ≠ NULL ∧ e ≠ NULL ∧ r ≠ w ∧ w ≠ e ∧ r ≠ e.
Lemma locals_distinct s : brk s ≠ NULL → distinct (loc_r s) (loc_w s) (loc_e s).
Proof. intros Hb. unfold distinct, loc_r, loc_w, loc_e. lia. Qed.

Lemma load_sets r w e x s : distinct r w e →
  load (fdsets (with_sets r w e x s)) r = Some (ps_r x) ∧ load (fdsets (with_sets r w e x s)) w = Some (ps_w x) ∧
  load (fdsets (with_sets r w e x s)) e = Some (ps_e x).
Proof. intros (? & ? & ? & ? & ? & ?). by apply sets_loaded. Qed.

Lemma dropped_with r w e x s :
  fdsets s !! r = None → fdsets s !! w = None → fdsets s !! e = None → dropped_sets r w e (with_sets r w e x s) = s.
Proof.
  intros Hr Hw He. unfold dropped_sets, with_sets.
  transitivity (set_fdsets (λ m, (delete e ∘ delete w ∘ delete r) ((<[e:=ps_e x]> ∘ <[w:=ps_w x]> ∘ <[r:=ps_r x]>) m)) s); [reflexivity|].
  apply set_fdsets_id. unfold compose. apply map_eq. intros a. rewrite !lookup_delete, !lookup_insert. repeat case_decide; subst; congruence.
Qed.

Lemma store_run r w e x R W E s :
  distinct r w e →
  (st_fdset r (Some R) ;; st_fdset w (Some W) ;; st_fdset e (Some E)) (with_sets r w e x s) =
    Some (tt, with_sets r w e (PollSets R W E (ps_x x) (ps_max x)) s).
Proof.
  intros Hd. pose proof Hd as (Hr & Hw & He & H1 & H2 & H3). destruct (load_sets r w e x s Hd) as (Lr & Lw & Le).
  unfold st_fdset. rewrite !is_null_false by done. rewrite (bind_run _ _ tt _ (set_fdsets (alter (λ _, R) r) (with_sets r w e x s))) by (unfold st; by rewrite Lr).
  rewrite (bind_run _ _ tt _ (set_fdsets (alter (λ _, W) w) (set_fdsets (alter (λ _, R) r) (with_sets r w e x s)))).
  2: { unfold st. cbn [set_fdsets fdsets]. rewrite load_alter, decide_False by done. rewrite Lw. reflexivity. }
  unfold st. cbn [set_fdsets fdsets]. rewrite !load_alter, !decide_False by done. rewrite Le.
  transitivity (Some (tt, set_fdsets (λ m, alter (λ _, E) e (alter (λ _, W) w (alter (λ _, R) r (<[e:=ps_e x]> (<[w:=ps_w x]> (<[r:=ps_r x]> m)))))) s)); [reflexivity|].
  unfold with_sets. do 2 f_equal. apply set_fdsets_ext. unfold compose. cbn [ps_r ps_w ps_e]. apply map_eq. intros a.
  rewrite !lookup_alter, !lookup_insert. repeat case_decide; subst; done.
Qed.

(** ** When the answer is known at once *)

Lemma select_now fuel v x r w e tv s :
  steady v (kern s) → (∀ fd, fd ∈ ps_r x ∪ ps_w x ∪ ps_e x → 0 ≤ fd < ps_max x + 1 ∧ fd ∈ fv_open v) → distinct r w e →
  0 < ready_count v x ∨ tv = Some (Tv 0 0) →
  ∃ k, select_fds (S fuel) (ps_max x + 1) r w e tv NULL (with_sets r w e x s) =
    ORet (ready_count v x) (with_sets r w e (ready_of v x) (set_kern (λ _, k) s)) ∧ steady v k.
Proof.
  intros Hs Hx Hd Hnow. pose proof Hd as (Hr & Hw & He & _). destruct (load_sets r w e x s Hd) as (Lr & Lw & Le).
  unfold select_fds, ld_fdset. rewrite !is_null_false by done.
  erewrite cbind_atom by (unfold ld, bind; rewrite Lr; reflexivity). erewrite cbind_atom by (unfold ld, bind; rewrite Lw; reflexivity).
  erewrite cbind_atom by (unfold ld, bind; rewrite Le; reflexivity). change (id (ps_r x)) with (ps_r x). change (id (ps_w x)) with (ps_w x). change (id (ps_e x)) with (ps_e x).
  destruct (survey_run fuel v x (with_sets r w e x s) Hs Hx) as (k & Hk & Hs'). exists k. split; [|done].
  rewrite (cbind_atom _ _ _ _ _ Hk). cbv beta iota. assert (ready_count v x <? 0 = false) as -> by (apply Z.ltb_ge; unfold ready_count; lia).
  assert ((0 <? ready_count v x) || match tv with Some tv => pth_time_cmp tv pth_time_zero =? 0 | None => false end = true) as ->.
  { destruct Hnow as [Hn| ->]; [by rewrite (proj2 (Z.ltb_lt _ _) Hn)|]. by rewrite orb_true_r. }
  apply atom_run. change (set_kern (λ _, k) (with_sets r w e x s)) with (with_sets r w e x (set_kern (λ _, k) s)).
  pose proof (store_run r w e x (ps_r x ∩ fv_in v) (ps_w x ∩ fv_out v) (ps_e x ∩ fv_pri v) (set_kern (λ _, k) s) Hd) as Hst.
  change (PollSets _ _ _ _ _) with (ready_of v x) in Hst. unfold bind in Hst |- *. destruct (st_fdset r _ _) as [[[] s1]|]; [|done].
  destruct (st_fdset w _ _) as [[[] s2]|]; [|done]. by rewrite Hst.
Qed.

Lemma select_ev_run fuel nfd r w e tv s :
  pth_initialized s = true → r ≠ NULL → select_timeout nfd tv = Some tv →
  pth_select_ev fuel nfd r w e tv NULL s = cbind (select_fds fuel nfd r w e tv NULL) (λ rc, cret (rc, tv)) s.
Proof.
  intros Hi Hr Ht. unfold pth_select_ev, pth_implicit_init. erewrite cbind_ret by (erewrite cbind_atom by reflexivity; by rewrite Hi).
  rewrite Ht, is_null_false, andb_false_r by done. by destruct tv.
Qed.

(** The milliseconds are a valid [struct timeval], which [select] does not shorten. *)
Lemma timeout_run t nfd :
  -1 ≤ t ≤ INT_MAX → nfd ≤ FD_SETSIZE →
  ∃ tv, poll_timeout t = Some tv ∧ select_timeout nfd tv = Some tv ∧ (tv = Some (Tv 0 0) ↔ t = 0) ∧ (tv = None ↔ t = -1).
Proof.
  intros Ht Hn. unfold poll_timeout, select_timeout, INFTIM, INT_MAX in *. rewrite (proj2 (Z.ltb_ge FD_SETSIZE nfd)) by lia.
  destruct (Z.eqb_spec t 0) as [->|H0]; [by eexists|]. destruct (Z.eqb_spec t (-1)) as [->|H1]; [by eexists|].
  rewrite (proj2 (Z.ltb_lt 0 t)) by lia. eexists. split; [reflexivity|]. cbn [tv_sec tv_usec].
  pose proof (Z.mod_pos_bound t 1000). pose proof (Z.div_mod t 1000).
  rewrite (proj2 (Z.ltb_ge (t / 1000) 0)), (proj2 (Z.ltb_ge (t mod 1000 * 1000) 0)), (proj2 (Z.leb_gt 1000000 _)) by lia. cbn [orb].
  rewrite (proj2 (Z.ltb_ge (31 * 24 * 60 * 60) _)) by lia. split_and!; [done| |done]. split; [|lia]. intros [= E1 E2]. lia.
Qed.

Lemma sets_run fuel x tv s :
  poll_select_ev fuel x tv NULL s =
    cbind (pth_select_ev fuel (ps_max x + 1) (loc_r s) (loc_w s) (loc_e s) tv NULL)
      (λ '(rc, _), read_back (loc_r s) (loc_w s) (loc_e s) rc x) (locals x s).
Proof. reflexivity. Qed.

(** The state that a call leaves behind, with the array [m]. *)
Definition looked (m : gmap N pollfd) s s' : Prop :=
  ∃ e k b, s' = set_errno (λ _, e) (set_kern (λ _, k) (set_brk (λ _, b) (set_usr (upd_pollfds (λ _, m)) s))).

Lemma looked_polled m s s1 s2 : (∃ k b, s1 = set_kern (λ _, k) (set_brk b s)) → polled m s1 s2 → looked m s s2.
Proof. intros (k & b & ->) (e & k' & ->). by exists e, k', (b (brk s)). Qed.
Lemma looked_kept m s s1 s2 : kept s s1 → looked m s1 s2 → looked m s s2.
Proof. intros (e & k & ->) (e' & k' & b & ->). by exists e', k', b. Qed.

(** The number of entries that report something. *)
Definition reporting v l : Z := Z.of_nat (length (filter (λ p, verdict v p ≠ 0) l)).

Lemma finish_run v pfd l x s :
  steady v (kern s) → Forall in_set l → NoDup (pfd_fd <$> l) → array_at s pfd 0 l →
  (x = ready_of v (sets_of v l) ∨ existsb (watched v) l = false ∧ x = sets_of v l) →
  ∃ s', poll_results (length l) 0 pfd x 0 s = Some (reporting v l, s') ∧
    polled (reports (verdict v) pfd 0 l (pollfds (usr s))) s s' ∧ steady v (kern s').
Proof.
  intros Hs Hl Hnd Ha Hx. destruct (results_run v pfd l x 0 0 s Hs Hl Ha) as (s' & Hrun & Hp & Hs'). exists s'.
  pose proof (entries_verdicts v l x Hnd Hl Hx) as He.
  rewrite (reports_ext _ (verdict v)) in Hp by (intros p Hp'; by rewrite He). split_and!; [|done|done].
  rewrite Hrun, (counted_ext _ (λ p, flag (verdict v p))) by (intros p Hp'; by rewrite He). by rewrite counted_flag.
Qed.

(** What a call needs: the library runs, the array [l] is at [pfd], no descriptor is in it
    twice, and all are ones that an [fd_set] can hold. *)
Record pollable v pfd l s : Prop := {
  pb_init : pth_initialized s = true;
  pb_steady : steady v (kern s);
  pb_array : array_at s pfd 0 l;
  pb_null : pfd ≠ NULL;
  pb_once : NoDup (pfd_fd <$> l);
  pb_range : Forall in_set l;
  pb_length : Z.of_nat (length l) ≤ FD_SETSIZE;
  pb_room : room s
}.

(** What follows the conversion of the array. *)
Definition poll_body fuel pfd (n : nat) (tv : option timeval) x : coro Z :=
  if negb (ps_max x =? -1) then
    do! (rc, x) <- poll_select_ev fuel x tv NULL;
    if rc <? 0 then do! en <- atom (gets errno); atom (pth_error (-1) en)
    else if rc =? 0 then cret 0
    else atom (poll_results n 0 pfd x 0)
  else atom (poll_results n 0 pfd x 0).

Lemma poll_head fuel v pfd l t tv s :
  pollable v pfd l s → poll_timeout t = Some tv →
  ∃ s1, kept s s1 ∧ steady v (kern s1) ∧
    pth_poll fuel pfd (Z.of_nat (length l)) t s = poll_body fuel pfd (length l) tv (sets_of v l) s1.
Proof.
  intros [Hi Hs Ha Hn _ Hl Hlen _] Ht. unfold pth_poll, pth_poll_ev, pth_implicit_init.
  erewrite cbind_ret by (erewrite cbind_atom by reflexivity; by rewrite Hi).
  rewrite is_null_false, (proj2 (Z.ltb_ge FD_SETSIZE _)), Ht, Nat2Z.id by done. cbv zeta.
  destruct (convert_run v pfd l 0 no_sets s Hs Hl Ha) as (s1 & H1 & Hk & Hs1). exists s1. split_and!; [done..|].
  by rewrite (cbind_atom _ _ _ _ _ H1).
Qed.

Lemma max_below v l : Forall in_set l → ps_max (sets_of v l) + 1 ≤ FD_SETSIZE.
Proof.
  intros Hl. destruct (fold_max v l no_sets Hl) as (_ & _ & [H|(p & Hp & _ & H)]); fold (sets_of v l) in H; rewrite H; [done|].
  rewrite Forall_forall in Hl. specialize (Hl p Hp). unfold in_set in Hl. lia.
Qed.

Lemma kept_room s s' : kept s s' → room s → room s'.
Proof. by intros (e & k & ->). Qed.
Lemma kept_array pfd l s s' : kept s s' → array_at s pfd 0 l → array_at s' pfd 0 l.
Proof. by intros (e & k & ->). Qed.

Definition more_brk s : St := set_brk (λ b, b + 128 + 128 + 128)%N s.

Lemma ask_now fuel v x t tv s :
  steady v (kern s) → pth_initialized s = true → room s → ps_max x + 1 ≤ FD_SETSIZE →
  (∀ fd, fd ∈ ps_r x ∪ ps_w x ∪ ps_e x → 0 ≤ fd < ps_max x + 1 ∧ fd ∈ fv_open v) →
  -1 ≤ t ≤ INT_MAX → poll_timeout t = Some tv → 0 < ready_count v x ∨ t = 0 →
  ∃ k, poll_select_ev (S fuel) x tv NULL s = ORet (ready_count v x, ready_of v x) (set_kern (λ _, k) (more_brk s)) ∧ steady v k.
Proof.
  intros Hs Hi [Hb Hfree] Hm Hx Ht Htv Hnow. destruct (timeout_run t (ps_max x + 1) Ht Hm) as (tv' & Htv' & Hsel & H0 & _).
  assert (tv' = tv) as -> by congruence. pose proof (locals_distinct s Hb) as Hd.
  destruct (select_now fuel v x _ _ _ tv (more_brk s) Hs Hx Hd) as (k & Hrun & Hk); [by rewrite H0|]. exists k. split; [|done].
  destruct (load_sets (loc_r s) (loc_w s) (loc_e s) (ready_of v x) (set_kern (λ _, k) (more_brk s)) Hd) as (Lr & Lw & Le).
  rewrite sets_run. erewrite cbind_ret by (rewrite select_ev_run; [by rewrite (cbind_ret _ _ _ _ _ Hrun)|done|apply Hd|done]).
  cbv beta iota. erewrite read_back_run by done. rewrite dropped_with; [done|..]; cbn; apply Hfree; unfold loc_r, loc_w, loc_e; lia.
Qed.

(** Nothing to wait for, or something is ready: the answer comes at once. *)
Lemma poll_at_once fuel v pfd l t s :
  pollable v pfd l s → -1 ≤ t ≤ INT_MAX → negb (existsb (watched v) l) || existsb (is_ready v) l = true →
  ∃ s', pth_poll (S fuel) pfd (Z.of_nat (length l)) t s = ORet (reporting v l) s' ∧
    looked (reports (verdict v) pfd 0 l (pollfds (usr s))) s s' ∧ steady v (kern s').
Proof.
  intros Hp Ht Hr. destruct (timeout_run t (ps_max (sets_of v l) + 1) Ht) as (tv & Htv & _); [by apply max_below, Hp|].
  destruct (poll_head (S fuel) v pfd l t tv s Hp Htv) as (s1 & Hk1 & Hs1 & ->). pose proof Hp as [Hi _ Ha _ Hnd Hl _ Hroom].
  pose proof (kept_array _ _ _ _ Hk1 Ha) as Ha1. destruct (kept_usr _ _ Hk1) as [Hu _].
  assert (pth_initialized s1 = true) as Hi1 by (by destruct Hk1 as (? & ? & ->)).
  unfold poll_body. destruct (Z.eqb_spec (ps_max (sets_of v l)) (-1)) as [Em|Em]; cbn [negb].
  - destruct (finish_run v pfd l (sets_of v l) s1 Hs1 Hl Hnd Ha1) as (s2 & H2 & Hp2 & Hs2).
    { right. split; [by apply nobody_watched|done]. }
    exists s2. rewrite (atom_run _ _ _ _ H2), <- Hu. split_and!; [done| |done]. eapply looked_kept; [exact Hk1|].
    eapply looked_polled; [|exact Hp2]. exists (kern s1), id. by destruct s1.
  - assert (existsb (is_ready v) l = true) as Hready%count_ready.
    { destruct (existsb (watched v) l) eqn:E; [done|]. by apply nobody_watched in E. }
    destruct (ask_now fuel v (sets_of v l) t tv s1 Hs1 Hi1 (kept_room _ _ Hk1 Hroom) (max_below v l Hl) (sets_below v l Hl) Ht Htv) as (k & Hask & Hsk);
      [by left|]. rewrite (cbind_ret _ _ _ _ _ Hask). cbv beta iota. rewrite (proj2 (Z.ltb_ge _ 0)) by lia.
    destruct (Z.eqb_spec (ready_count v (sets_of v l)) 0); [lia|].
    destruct (finish_run v pfd l (ready_of v (sets_of v l)) (set_kern (λ _, k) (more_brk s1)) Hsk Hl Hnd Ha1 ltac:(by left)) as (s3 & H3 & Hp3 & Hs3).
    exists s3. split_and!; [by apply atom_run| |done]. eapply looked_kept; [exact Hk1|]. rewrite <- Hu.
    eapply looked_polled; [|exact Hp3]. by exists k, (λ b, b + 128 + 128 + 128)%N.
Qed.

(** Something is watched, nothing is ready and the call shall not wait: the array is left as it is. *)
Lemma poll_no_wait fuel v pfd l s :
  pollable v pfd l s → existsb (watched v) l = true → existsb (is_ready v) l = false →
  ∃ s', pth_poll (S fuel) pfd (Z.of_nat (length l)) 0 s = ORet 0 s' ∧ looked (pollfds (usr s)) s s' ∧ steady v (kern s').
Proof.
  intros Hp Hw Hr. destruct (poll_head (S fuel) v pfd l 0 (Some (Tv 0 0)) s Hp eq_refl) as (s1 & Hk1 & Hs1 & ->).
  pose proof Hp as [Hi _ _ _ _ Hl _ Hroom]. assert (pth_initialized s1 = true) as Hi1 by (by destruct Hk1 as (? & ? & ->)).
  unfold poll_body. destruct (Z.eqb_spec (ps_max (sets_of v l)) (-1)) as [Em|Em]; cbn [negb].
  { apply nobody_watched in Em; [congruence|done]. }
  destruct (ask_now fuel v (sets_of v l) 0 (Some (Tv 0 0)) s1 Hs1 Hi1 (kept_room _ _ Hk1 Hroom) (max_below v l Hl) (sets_below v l Hl)) as (k & Hask & Hsk);
    [done|done|by right|]. rewrite (cbind_ret _ _ _ _ _ Hask). cbv beta iota.
  assert (ready_count v (sets_of v l) = 0) as ->.
  { apply not_true_iff_false in Hr. rewrite <- count_ready in Hr. unfold ready_count in *. lia. }
  eexists. split; [reflexivity|]. split; [|done]. eapply looked_kept; [exact Hk1|]. destruct (kept_usr _ _ Hk1) as [<- _].
  exists (errno s1), k, (brk s1 + 128 + 128 + 128)%N. by destruct s1 as [], usr.
Qed.

(** ** Waiting *)
Notation own_event := Barrier.own_event.
Context (es et : N).

(** The calling thread has its two event structures for [select]. *)
Record sleeper s : Prop := {
  sl_select : own_event (pth_current s) s select_ev_key_select es;
  sl_timeout : own_event (pth_current s) s select_ev_key_timeout et;
  sl_two : es ≠ et;
  sl_sched : is_Some (load (threads s) (pth_sched s))
}.

Lemma event_same me s s' key ev :
  own_event me s key ev → threads s' = threads s → pth_keytab s' = pth_keytab s → load (ints s') key = load (ints s) key →
  (is_Some (load (evs s) ev) → is_Some (load (evs s') ev)) → own_event me s' key ev.
Proof.
  intros (k & n & H1 & H2 & [H3 (kt & H4 & H5)] & H6 & H7 & H8 & H9) Ht Hk Hi He. exists k, n. rewrite Hi, Ht.
  split_and!; auto. split; [done|]. exists kt. by rewrite Hk.
Qed.

Lemma armed_select s nfd r w e rcp :
  own_event (pth_current s) s select_ev_key_select es →
  ∃ ev0, load (evs s) es = Some ev0 ∧
  pth_event (Z.lor PTH_EVENT_SELECT PTH_MODE_STATIC)
    [VPtr select_ev_key_select; VPtr rcp; VInt nfd; VPtr r; VPtr w; VPtr e] s =
    Some (es, set_evs (alter (fresh_event es PTH_EVENT_SELECT 0 (SELECT rcp nfd r w e)) es) s).
Proof.
  intros Ho. destruct (static_event_run s (Z.lor PTH_EVENT_SELECT PTH_MODE_STATIC) select_ev_key_select
    [VPtr rcp; VInt nfd; VPtr r; VPtr w; VPtr e] es) as (e0 & He0 & ->); [by apply (Barrier.own_event_has (pth_current s))|done..|].
  exists e0. split; [done|]. exact (event_fill_run _ _ _ _ _ PTH_EVENT_SELECT 0 (SELECT rcp nfd r w e) _ He0).
Qed.

Lemma armed_timeout s tv :
  own_event (pth_current s) s select_ev_key_timeout et →
  ∃ ev0, load (evs s) et = Some ev0 ∧
  pth_event (Z.lor PTH_EVENT_TIME PTH_MODE_STATIC) [VPtr select_ev_key_timeout; VTime tv] s =
    Some (et, set_evs (alter (fresh_event et PTH_EVENT_TIME 0 (TIME tv)) et) s).
Proof.
  intros Ho. destruct (static_event_run s (Z.lor PTH_EVENT_TIME PTH_MODE_STATIC) select_ev_key_timeout [VTime tv] et)
    as (e0 & He0 & ->); [by apply (Barrier.own_event_has (pth_current s))|done..|].
  exists e0. split; [done|]. exact (event_fill_run _ _ _ _ _ PTH_EVENT_TIME 0 (TIME tv) _ He0).
Qed.

(** The ring that the thread waits for, and the second result of [select_events]. *)
Definition ring_of (tv : option timeval) : list N := match tv with None => [] | Some _ => [et] end.
Definition second (tv : option timeval) : N := match tv with None => NULL | Some _ => et end.
Definition after_arming (tv : option timeval) : coro (N * N) :=
  do! _ <- pth_wait es;
  cret tt ;;!
  (match tv with None => cret tt | Some _ => do! _ <- atom (pth_event_isolate (second tv)); cret tt end) ;;!
  cret (es, second tv).

Lemma events_armed nfd r w e tv rcp s :
  sleeper s →
  ∃ h k, cyc h (es :: ring_of tv) ∧ ev_data <$> h !! es = Some (PTH_STATUS_PENDING, PTH_EVENT_SELECT, 0, SELECT rcp nfd r w e) ∧
    select_events nfd r w e tv NULL rcp s = after_arming tv (set_kern (λ _, k) (set_evs (λ _, h) s)).
Proof.
  intros [Hsel Htime Hne _]. destruct (armed_select s nfd r w e rcp Hsel) as (e0 & He0 & Harm). pose proof He0 as [Hnn Hle0]%load_Some.
  unfold select_events. rewrite (cbind_atom _ _ _ _ _ Harm). set (h1 := alter (fresh_event es PTH_EVENT_SELECT 0 (SELECT rcp nfd r w e)) es (evs s)).
  assert (cyc h1 [es]) as Hc1 by by eapply fresh_event_cyc. assert (ev_data <$> h1 !! es = Some (PTH_STATUS_PENDING, PTH_EVENT_SELECT, 0, SELECT rcp nfd r w e)) as Hd1.
  { unfold h1. by rewrite lookup_alter_eq, Hle0. }
  destruct tv as [tv|]; cbn [ring_of second].
  - set (s1 := set_evs _ s). unfold pth_timeout, gettimeofday, kcall. destruct (k_gettimeofday (kern s)) as [now k] eqn:Hk.
    set (s2 := set_kern (λ _, k) s1). set (until := pth_time_add now (Tv (tv_sec tv) (tv_usec tv))).
    assert (own_event (pth_current s) s2 select_ev_key_timeout et) as Ht2.
    { eapply event_same; [exact Htime|done..|]. intros [x Hx]. cbn. rewrite load_alter. case_decide; [|by eexists]. rewrite Hx. by eexists. }
    destruct (armed_timeout s2 until Ht2) as (e1 & He1 & Harm2). pose proof He1 as [Hnn1 _]%load_Some. set (s3 := set_evs (alter _ et) s2) in Harm2.
    assert (cyc (evs s3) [et]) as Hc2 by by eapply fresh_event_cyc.
    assert (cyc (evs s3) [es]) as Hc3.
    { cbn. eapply cyc_ext; [exact Hc1|..]; intros z ->%list_elem_of_singleton; unfold nxf, pvf; by rewrite load_alter, decide_False by (by intros <-). }
    assert (ev_data <$> evs s3 !! es = ev_data <$> h1 !! es) as Hd3 by (cbn; by rewrite lookup_alter_ne).
    pose proof (concat_spec s3 es [] et [] Hc3 Hc2) as Hcat. apply wp_run in Hcat as (x & s4 & Hrun & -> & Hc4 & Hf4 & Hs4);
      [|intros z ->%list_elem_of_singleton Hz%list_elem_of_singleton; done].
    exists (evs s4), k. split; [done|]. split; [by rewrite (proj2 Hf4), Hd3, Hd1|].
    erewrite cbind_ret.
    2: { erewrite cbind_atom. 2: { unfold bind. cbn [kern set_evs s1]. rewrite Hk. reflexivity. }
         fold s1 s2 until. rewrite (cbind_atom _ _ _ _ _ Harm2), (cbind_atom _ _ _ _ _ Hrun). reflexivity. }
    rewrite Hs4. reflexivity.
  - exists h1, (kern s). split_and!; [done..|]. by destruct s.
Qed.

(** What the thread finds when it is resumed: its ring, and no request to end. *)
Definition woken tv s : Prop :=
  cyc (evs s) (es :: ring_of tv) ∧
  ∃ n, load (threads s) (pth_current s) = Some n ∧ cancelreq (q_body n) && has (cancelstate (q_body n)) PTH_CANCEL_ENABLE = false.
(** What the wait itself leaves alone from then on. *)
Definition undisturbed s s' : Prop :=
  (∀ z, ev_data <$> evs s' !! z = ev_data <$> evs s !! z) ∧ usr s' = usr s ∧ ints s' = ints s ∧ fdsets s' = fdsets s ∧ kern s' = kern s.

Lemma armed_waits tv s n n' :
  cyc (evs s) (es :: ring_of tv) → load (threads s) (pth_current s) = Some n → load (threads s) (pth_sched s) = Some n' →
  ∃ k, after_arming tv s = OSwitch (set_threads (alter (on_body (waiting_on es (errno s))) (pth_current s))
                                     (set_evs (mark_all (es :: ring_of tv)) s)) k ∧
    ∀ s2, woken tv s2 → ∃ s3, k s2 = ORet (es, second tv) s3 ∧ undisturbed s2 s3.
Proof.
  intros Hc Hn Hn'. destruct (pth_wait_run s es (ring_of tv) n n' Hc Hn Hn') as (k & Hk & Hback); [by destruct tv|].
  unfold after_arming. erewrite cbind_switch by exact Hk. eexists. split; [reflexivity|].
  intros s2 (Hc2 & n2 & Hn2 & Hcan). rewrite (cbind_ret _ _ _ _ _ (Hback s2 n2 Hn2 Hc2 Hcan)).
  clear k Hk Hback.
  set (s3 := set_threads _ _). destruct tv as [tv|]; [|by exists s3].
  assert (cyc (evs s3) [et; es]) as Hc3 by (apply (cyc_rotate _ [es] [et]); exact Hc2).
  pose proof (isolate_spec s3 et [es] Hc3) as Hiso. apply wp_run in Hiso as (x & s4 & Hrun & _ & _ & _ & [_ Hf] & Hs4).
  exists s4. split.
  - erewrite cbind_ret by reflexivity. erewrite cbind_ret by (erewrite cbind_atom by exact Hrun; reflexivity). reflexivity.
  - split; [intros z; by rewrite Hf|]. by rewrite Hs4.
Qed.

(** The status of an event. *)
Definition status_of s ev : option pth_status := ev_status <$> evs s !! ev.

Lemma status_undisturbed s s' ev : undisturbed s s' → status_of s' ev = status_of s ev.
Proof.
  intros [H _]. specialize (H ev). unfold status_of. destruct (evs s' !! ev), (evs s !! ev); try done.
  simpl in *. unfold ev_data in H. injection H as H _. by rewrite H.
Qed.

Lemma status_run s ev st : ev ≠ NULL → status_of s ev = Some st → pth_event_status ev s = Some (st, s).
Proof.
  intros Hn Hst. unfold status_of in Hst. unfold pth_event_status, lde, ld. rewrite is_null_false by done.
  destruct (evs s !! ev) as [e|] eqn:E; [|done]. assert (load (evs s) ev = Some e) as -> by by apply load_Some. cbn.
  injection Hst as <-. done.
Qed.

(** Some descriptors were found ready, and the time was not up. *)
Lemma result_ready tv r w e rcp n s :
  es ≠ NULL → et ≠ NULL → status_of s es = Some PTH_STATUS_OCCURRED →
  (∀ d, tv = Some d → status_of s et = Some PTH_STATUS_PENDING) → load (ints s) rcp = Some n →
  select_result r w e tv NULL rcp es (second tv) s = Some (n, s).
Proof.
  intros Hes Het Hst Htv Hn. unfold select_result. rewrite (bind_run _ _ _ _ _ (status_run _ _ _ Hes Hst)). cbn [bool_decide].
  rewrite bool_decide_eq_false_2 by done. erewrite bind_run.
  2: { instantiate (2 := PTH_STATUS_PENDING). instantiate (1 := s). destruct tv as [d|]; [|done]. apply status_run; [done|]. by eapply Htv. }
  rewrite (bool_decide_eq_false_2 (PTH_STATUS_PENDING = PTH_STATUS_OCCURRED)) by done. cbv zeta iota.
  erewrite bind_run by reflexivity. change (is_null NULL) with true. cbn [negb andb]. unfold ld. by rewrite Hn.
Qed.

(** The time is up. *)
Lemma result_timed d r w e rcp s st n :
  es ≠ NULL → et ≠ NULL → status_of s es = Some st → st ≠ PTH_STATUS_FAILED → status_of s et = Some PTH_STATUS_OCCURRED →
  distinct r w e → is_Some (load (fdsets s) r) → is_Some (load (fdsets s) w) → is_Some (load (fdsets s) e) → load (ints s) rcp = Some n →
  ∃ s', select_result r w e (Some d) NULL rcp es et s = Some (0, s') ∧ usr s' = usr s ∧
    load (fdsets s') r = Some ∅ ∧ load (fdsets s') w = Some ∅ ∧ load (fdsets s') e = Some ∅ ∧ kern s' = kern s.
Proof.
  intros Hes Het Hst Hnf Htm (Hr & Hw & He & H1 & H2 & H3) [R Lr] [W Lw] [E Le] Hn. unfold select_result.
  rewrite (bind_run _ _ _ _ _ (status_run _ _ _ Hes Hst)), bool_decide_eq_false_2 by done.
  rewrite (bind_run _ _ _ _ _ (status_run _ _ _ Het Htm)), (bool_decide_eq_true_2 (PTH_STATUS_OCCURRED = PTH_STATUS_OCCURRED)) by done. cbv zeta iota.
  set (s' := set_ints (alter (λ _, 0) rcp) (set_fdsets (λ m, alter (λ _, ∅) e (alter (λ _, ∅) w (alter (λ _, ∅) r m))) s)).
  exists s'. split.
  - erewrite bind_run.
    2: { unfold fd_zero, st_fdset. rewrite !is_null_false by done.
         erewrite bind_run by (unfold State.st; rewrite Lr; reflexivity).
         erewrite bind_run by (unfold State.st; cbn; rewrite load_alter, decide_False, Lw by done; reflexivity).
         erewrite bind_run by (unfold State.st; cbn; rewrite !load_alter, !decide_False, Le by done; reflexivity).
         unfold st_int, State.st. cbn. rewrite Hn. reflexivity. }
    change (is_null NULL) with true. cbn [negb andb]. unfold ld. cbn. rewrite load_alter, decide_True, Hn by done. reflexivity.
  - split_and!; [done| | | |done]; cbn; rewrite !load_alter, ?Lr, ?Lw, ?Le; repeat case_decide; simpl; congruence.
Qed.

Lemma mark_all_pending (ys : list N) h z ty g a :
  ev_data <$> h !! z = Some (PTH_STATUS_PENDING, ty, g, a) → ev_data <$> mark_all ys h !! z = Some (PTH_STATUS_PENDING, ty, g, a).
Proof.
  unfold mark_all. revert h. induction ys as [|y ys IH]; intros h Hz; [done|]. apply IH. rewrite lookup_alter. case_decide; [subst z|done].
  destruct (h !! y) as [ev0|]; [|done]. injection Hz as _ <- <- <-. done.
Qed.

(** The thread sleeps on the event structure, which names the local variables. *)
Definition sleeping_on (rcp r w e : N) (nfd : Z) s : Prop :=
  ev_data <$> evs s !! es = Some (PTH_STATUS_PENDING, PTH_EVENT_SELECT, 0, SELECT rcp nfd r w e) ∧
  ∃ n, load (threads s) (pth_current s) = Some n ∧ state (q_body n) = PTH_STATE_WAITING ∧ events (q_body n) = es.

(** What the event manager reports: the sets are cut down to what is ready and counted, in time; or the time is up. *)
Definition found v tv (rcp r w e : N) x s : Prop :=
  woken tv s ∧ status_of s es = Some PTH_STATUS_OCCURRED ∧ (∀ d, tv = Some d → status_of s et = Some PTH_STATUS_PENDING) ∧
  load (ints s) rcp = Some (ready_count v x) ∧ load (fdsets s) r = Some (ps_r x ∩ fv_in v) ∧
  load (fdsets s) w = Some (ps_w x ∩ fv_out v) ∧ load (fdsets s) e = Some (ps_e x ∩ fv_pri v).
Definition time_up tv (rcp r w e : N) s : Prop :=
  woken tv s ∧ (∃ st, status_of s es = Some st ∧ st ≠ PTH_STATUS_FAILED) ∧ (∃ d, tv = Some d ∧ status_of s et = Some PTH_STATUS_OCCURRED) ∧
  is_Some (load (ints s) rcp) ∧ is_Some (load (fdsets s) r) ∧ is_Some (load (fdsets s) w) ∧ is_Some (load (fdsets s) e).

Definition not_zero (tv : option timeval) : Prop := match tv with Some tv => pth_time_cmp tv pth_time_zero ≠ 0 | None => True end.

Lemma sleeper_ne s : sleeper s → es ≠ NULL ∧ et ≠ NULL.
Proof.
  intros [(k & n & _ & _ & _ & _ & _ & _ & [a Ha]) (k' & n' & _ & _ & _ & _ & _ & _ & [b Hb]) _ _].
  apply load_Some in Ha as [Ha _], Hb as [Hb _]. done.
Qed.

Lemma select_sleeps fuel v x r w e tv s :
  steady v (kern s) → (∀ fd, fd ∈ ps_r x ∪ ps_w x ∪ ps_e x → 0 ≤ fd < ps_max x + 1 ∧ fd ∈ fv_open v) → distinct r w e →
  sleeper s → brk s ≠ NULL → ints s !! brk s = None → ready_count v x = 0 → not_zero tv →
  ∃ s1 k, select_fds (S fuel) (ps_max x + 1) r w e tv NULL (with_sets r w e x s) = OSwitch s1 k ∧
    sleeping_on (brk s) r w e (ps_max x + 1) s1 ∧
    (∀ v' s2, found v' tv (brk s) r w e x s2 →
      ∃ s3, k s2 = ORet (ready_count v' x) s3 ∧ usr s3 = usr s2 ∧ fdsets s3 = fdsets s2 ∧ kern s3 = kern s2) ∧
    (∀ s2, time_up tv (brk s) r w e s2 →
      ∃ s3, k s2 = ORet 0 s3 ∧ usr s3 = usr s2 ∧ load (fdsets s3) r = Some ∅ ∧ load (fdsets s3) w = Some ∅ ∧ load (fdsets s3) e = Some ∅).
Proof.
  intros Hs Hx Hd Hsl Hb Hint Hzero Htv. pose proof Hd as (Hr & Hw & He & _). destruct (load_sets r w e x s Hd) as (Lr & Lw & Le).
  destruct (sleeper_ne s Hsl) as [Hes Het]. unfold select_fds, ld_fdset. rewrite !is_null_false by done.
  erewrite cbind_atom by (unfold ld, bind; rewrite Lr; reflexivity). erewrite cbind_atom by (unfold ld, bind; rewrite Lw; reflexivity).
  erewrite cbind_atom by (unfold ld, bind; rewrite Le; reflexivity). change (id (ps_r x)) with (ps_r x). change (id (ps_w x)) with (ps_w x). change (id (ps_e x)) with (ps_e x).
  destruct (survey_run fuel v x (with_sets r w e x s) Hs Hx) as (k & Hk & _).
  rewrite (cbind_atom _ _ _ _ _ Hk). cbv beta iota. rewrite Hzero. cbn [Z.ltb Z.compare orb].
  assert (match tv with Some tv => pth_time_cmp tv pth_time_zero =? 0 | None => false end = false) as ->.
  { destruct tv; [by apply Z.eqb_neq|done]. }
  erewrite cbind_atom by reflexivity. change (brk (set_kern (λ _, k) (with_sets r w e x s))) with (brk s).
  set (s0 := set_ints _ _). assert (sleeper s0) as Hsl0.
  { destruct Hsl as [H1 H2 H3 H4]. assert (∀ key ev, own_event (pth_current s) s key ev → own_event (pth_current s0) s0 key ev) as Hkeep.
    { intros key ev H. eapply event_same; [exact H|done|done| |done]. destruct H as (kk & _ & [_ Hkk]%load_Some & _). cbn.
      unfold load. case_decide; [done|]. rewrite lookup_insert_ne; [done|]. intros <-. congruence. }
    split; auto. }
  destruct (events_armed (ps_max x + 1) r w e tv (brk s) s0 Hsl0) as (h & k1 & Hc & Hdata & Harm). set (s1 := set_kern _ (set_evs _ s0)) in Harm.
  destruct (sl_sched _ Hsl) as [n' Hn']. destruct (sl_select _ Hsl) as (kk & n & _ & _ & _ & Hn & _).
  destruct (armed_waits tv s1 n n' Hc Hn Hn') as (c & Hwait & Hback). rewrite <- Harm in Hwait. clear Harm.
  erewrite cbind_switch by exact Hwait. eexists _, _. split; [reflexivity|]. split_and!.
  - split; [by apply mark_all_pending|]. exists (on_body (waiting_on es (errno s1)) n). split; [|done]. by apply load_alter_eq.
  - intros v' s2 (Hwk & Hst & Htm & Hn2 & _). destruct (Hback s2 Hwk) as (s3 & Hk3 & Hu). rewrite (cbind_ret _ _ _ _ _ Hk3). cbv beta iota.
    pose proof Hu as (_ & Hu1 & Hu2 & Hu3 & Hu4).
    erewrite cbind_atom by (apply (result_ready tv r w e (brk s) (ready_count v' x) s3); [done|done|by rewrite (status_undisturbed s2)|
      intros d Hd'; rewrite (status_undisturbed s2) by done; by eapply Htm|by rewrite Hu2]).
    erewrite cbind_atom by reflexivity. eexists. split; [reflexivity|done].
  - intros s2 (Hwk & (st & Hst & Hnf) & (d & -> & Htm) & [i Hi] & Hfr & Hfw & Hfe). destruct (Hback s2 Hwk) as (s3 & Hk3 & Hu). rewrite (cbind_ret _ _ _ _ _ Hk3). cbv beta iota.
    pose proof Hu as (_ & Hu1 & Hu2 & Hu3 & Hu4).
    destruct (result_timed d r w e (brk s) s3 st i) as (s4 & Hres & Hu5 & Hr4 & Hw4 & He4 & _); [done|done|by rewrite (status_undisturbed s2)|done|
      by rewrite (status_undisturbed s2)|done|by rewrite Hu3..|by rewrite Hu2|].
    erewrite cbind_atom by exact Hres. erewrite cbind_atom by reflexivity. eexists. split; [reflexivity|]. split; [by rewrite <- Hu1|done].
Qed.

Lemma sets_open v v' l : fv_open v' = fv_open v → sets_of v' l = sets_of v l.
Proof.
  intros Ho. unfold sets_of. generalize no_sets. induction l as [|p l IH]; intros x; [done|]. simpl. rewrite IH. f_equal.
  unfold add. by rewrite Ho.
Qed.

Lemma positive_timeout t tv : 0 < t ≤ INT_MAX → poll_timeout t = Some tv → not_zero tv.
Proof.
  intros Ht. unfold poll_timeout, INFTIM, INT_MAX in *. destruct (Z.eqb_spec t 0); [lia|]. destruct (Z.eqb_spec t (-1)); [lia|].
  rewrite (proj2 (Z.ltb_lt 0 t)) by lia. intros [= <-]. unfold not_zero, pth_time_cmp. cbn [tv_sec tv_usec pth_time_zero].
  pose proof (Z.mod_pos_bound t 1000). pose proof (Z.div_mod t 1000). change (tv_sec pth_time_zero) with 0. change (tv_usec pth_time_zero) with 0.
  rewrite !Z.sub_0_r, !s64_id, !s32_id by (unfold INT_MIN, INT_MAX; lia). destruct (Z.eqb_spec (t / 1000) 0); lia.
Qed.

Definition loc_rc s : N := (brk s + 128 + 128 + 128)%N.

(** Something is watched, nothing is ready and the call may wait. *)
Lemma poll_waits fuel v pfd l t tv s :
  pollable v pfd l s → sleeper s → -1 ≤ t ≤ INT_MAX → t ≠ 0 → poll_timeout t = Some tv →
  existsb (watched v) l = true → existsb (is_ready v) l = false →
  ∃ s1 k, pth_poll (S fuel) pfd (Z.of_nat (length l)) t s = OSwitch s1 k ∧
    sleeping_on (loc_rc s) (loc_r s) (loc_w s) (loc_e s) (ps_max (sets_of v l) + 1) s1 ∧
    (∀ v' s2, fv_open v' = fv_open v → found v' tv (loc_rc s) (loc_r s) (loc_w s) (loc_e s) (sets_of v l) s2 →
      0 < ready_count v' (sets_of v l) → steady v' (kern s2) → array_at s2 pfd 0 l →
      ∃ s3, k s2 = ORet (reporting v' l) s3 ∧ pollfds (usr s3) = reports (verdict v') pfd 0 l (pollfds (usr s2))) ∧
    (∀ s2, time_up tv (loc_rc s) (loc_r s) (loc_w s) (loc_e s) s2 → ∃ s3, k s2 = ORet 0 s3 ∧ usr s3 = usr s2).
Proof.
  intros Hp Hsl Ht Ht0 Htv Hw Hr. destruct (poll_head (S fuel) v pfd l t tv s Hp Htv) as (s1 & Hk1 & Hs1 & ->).
  pose proof Hp as [Hi _ _ _ Hnd Hl _ [Hb Hfree]]. assert (pth_initialized s1 = true) as Hi1 by (by destruct Hk1 as (? & ? & ->)).
  assert (brk s1 = brk s) as Hb1 by apply (kept_usr _ _ Hk1). pose proof (locals_distinct s Hb) as Hd.
  assert (loc_r s1 = loc_r s ∧ loc_w s1 = loc_w s ∧ loc_e s1 = loc_e s) as (Er & Ew & Ee) by (unfold loc_r, loc_w, loc_e; by rewrite Hb1).
  destruct (timeout_run t (ps_max (sets_of v l) + 1) Ht (max_below v l Hl)) as (tv' & Htv' & Hsel & _ & Hnone).
  assert (tv' = tv) as -> by congruence. clear Htv'.
  assert (not_zero tv) as Hnz.
  { destruct (decide (t = -1)) as [E|E]; [by rewrite (proj2 Hnone E)|]. apply (positive_timeout t); [lia|done]. }
  unfold poll_body. destruct (Z.eqb_spec (ps_max (sets_of v l)) (-1)) as [Em|Em]; cbn [negb].
  { apply nobody_watched in Em; [congruence|done]. }
  assert (ready_count v (sets_of v l) = 0) as Hzero.
  { apply not_true_iff_false in Hr. rewrite <- count_ready in Hr. unfold ready_count in *. lia. }
  set (x := sets_of v l) in *. rewrite <- Er, <- Ew, <- Ee in Hd.
  assert (brk (more_brk s1) = loc_rc s) as Hrc by (unfold loc_rc; cbn; by rewrite Hb1).
  destruct (select_sleeps fuel v x _ _ _ tv (more_brk s1) Hs1 (sets_below v l Hl) Hd) as (s2 & k & Hrun & Hon & Hfound & Hup); [| | |done..|].
  { destruct Hk1 as (? & ? & ->). destruct Hsl as [H1 H2 H3 H4]. split; [eapply event_same; [exact H1|done..]|eapply event_same; [exact H2|done..]|done|done]. }
  { rewrite Hrc. unfold loc_rc. lia. }
  { rewrite Hrc. destruct Hk1 as (? & ? & ->). apply Hfree. unfold loc_rc. lia. }
  rewrite Hrc in *. rewrite Er, Ew, Ee in *.
  erewrite cbind_switch.
  2: { rewrite sets_run, Er, Ew, Ee. erewrite cbind_switch; [reflexivity|]. rewrite select_ev_run by (done || apply Hd).
       erewrite cbind_switch; [reflexivity|]. change (locals x s1) with (with_sets (loc_r s1) (loc_w s1) (loc_e s1) x (more_brk s1)).
       rewrite Er, Ew, Ee. exact Hrun. }
  eexists _, _. split; [reflexivity|]. split_and!; [done| |].
  - intros v' s3 Ho Hf Hpos Hs3 Ha3. destruct (Hfound v' s3 Hf) as (s4 & Hk4 & Hu4 & Hf4 & Hkn4). destruct Hf as (_ & _ & _ & _ & Lr & Lw & Le).
    erewrite cbind_ret.
    2: { erewrite cbind_ret by (erewrite cbind_ret by exact Hk4; reflexivity). cbv beta iota. apply read_back_run; rewrite Hf4; done. }
    cbv beta iota. rewrite (proj2 (Z.ltb_ge _ 0)) by lia. destruct (Z.eqb_spec (ready_count v' x) 0); [lia|].
    set (s5 := dropped_sets _ _ _ s4). assert (usr s5 = usr s3) as Hu5 by done.
    destruct (finish_run v' pfd l (ready_of v' (sets_of v' l)) s5) as (s6 & H6 & (en & kk & ->) & _); [| | | |by left|].
    { change (kern s5) with (kern s4). by rewrite Hkn4. }
    { done. }
    { done. }
    { intros j p Hj. rewrite Hu5. by apply Ha3. }
    eexists. split; [apply atom_run|]. { rewrite (sets_open v v') in H6 by done. exact H6. }
    by rewrite Hu5.
  - intros s3 Htu. destruct (Hup s3 Htu) as (s4 & Hk4 & Hu4 & Lr & Lw & Le).
    erewrite cbind_ret.
    2: { erewrite cbind_ret by (erewrite cbind_ret by exact Hk4; reflexivity). cbv beta iota. by apply read_back_run. }
    cbv beta iota. eexists. split; [reflexivity|]. exact Hu4.
Qed.

(** The calls that are refused. *)
Lemma poll_refuses fuel v pfd l t s :
  pollable v pfd l s →
  pth_poll fuel NULL (Z.of_nat (length l)) t s = ORet (-1) (set_errno (λ _, EFAULT) s) ∧
  (∀ big, FD_SETSIZE < big → pth_poll fuel pfd big t s = ORet (-1) (set_errno (λ _, EINVAL) s)) ∧
  (∀ bad, bad < -1 → pth_poll fuel pfd (Z.of_nat (length l)) bad s = ORet (-1) (set_errno (λ _, EINVAL) s)).
Proof.
  intros Hp. assert (pth_implicit_init s = ORet tt s) as Hini.
  { unfold pth_implicit_init. erewrite cbind_atom by reflexivity. by rewrite (pb_init _ _ _ _ Hp). }
  unfold pth_poll, pth_poll_ev. split_and!; intros; rewrite (cbind_ret _ _ _ _ _ Hini); [done|..]; rewrite is_null_false by apply Hp.
  - by rewrite (proj2 (Z.ltb_lt _ _)).
  - rewrite (proj2 (Z.ltb_ge _ _)) by apply Hp. unfold poll_timeout, INFTIM.
    rewrite (proj2 (Z.eqb_neq bad 0)), (proj2 (Z.eqb_neq bad (-1))), (proj2 (Z.ltb_ge 0 bad)) by lia. done.
Qed.

(** C22: [pth_poll] on an array that names no descriptor twice.  The array must not be
    [NULL], too long or come with a negative timeout other than [INFTIM]: those calls fail
    with [EFAULT], [EINVAL] and [EINVAL].  If nothing is watched (every descriptor is
    closed or nothing is asked of it), or if something watched is ready, the call returns
    at once: every entry gets the [verdict] of the kernel's view on it, the result is the
    number of entries that report something, and nothing has changed but the array,
    [errno] and what the kernel keeps.  If something is watched and nothing is ready, a
    call with timeout 0 returns 0 and leaves the array as it was, and any other call puts
    the thread to sleep on an event for exactly the descriptors that are watched.  When it
    is resumed because some have become ready, in the view [v'], it reports the verdicts
    of [v'] in the same way; when it is resumed because its time is up it returns 0 and
    leaves the array alone.  So while nothing watched is ready, a closed descriptor in the
    array is not reported. *)
Theorem poll_reports fuel v pfd l t s :
  pollable v pfd l s → sleeper s → -1 ≤ t ≤ INT_MAX →
  let n := Z.of_nat (length l) in
  let x := sets_of v l in
  pth_poll (S fuel) NULL n t s = ORet (-1) (set_errno (λ _, EFAULT) s) ∧
  (∀ big, FD_SETSIZE < big → pth_poll (S fuel) pfd big t s = ORet (-1) (set_errno (λ _, EINVAL) s)) ∧
  (∀ bad, bad < -1 → pth_poll (S fuel) pfd n bad s = ORet (-1) (set_errno (λ _, EINVAL) s)) ∧
  if negb (existsb (watched v) l) || existsb (is_ready v) l then
    ∃ s', pth_poll (S fuel) pfd n t s = ORet (reporting v l) s' ∧
      looked (reports (verdict v) pfd 0 l (pollfds (usr s))) s s'
  else if t =? 0 then
    ∃ s', pth_poll (S fuel) pfd n t s = ORet 0 s' ∧ looked (pollfds (usr s)) s s'
  else
    ∃ tv s1 k, poll_timeout t = Some tv ∧ pth_poll (S fuel) pfd n t s = OSwitch s1 k ∧
      sleeping_on (loc_rc s) (loc_r s) (loc_w s) (loc_e s) (ps_max x + 1) s1 ∧
      (∀ v' s2, fv_open v' = fv_open v → found v' tv (loc_rc s) (loc_r s) (loc_w s) (loc_e s) x s2 →
        0 < ready_count v' x → steady v' (kern s2) → array_at s2 pfd 0 l →
        ∃ s3, k s2 = ORet (reporting v' l) s3 ∧ pollfds (usr s3) = reports (verdict v') pfd 0 l (pollfds (usr s2))) ∧
      (∀ s2, time_up tv (loc_rc s) (loc_r s) (loc_w s) (loc_e s) s2 → ∃ s3, k s2 = ORet 0 s3 ∧ usr s3 = usr s2).
Proof.
  intros Hp Hsl Ht. cbv zeta. destruct (poll_refuses (S fuel) v pfd l t s Hp) as (R1 & R2 & R3). split; [exact R1|]. split; [exact R2|]. split; [exact R3|].
  destruct (existsb (watched v) l) eqn:Ew; cbn [negb orb].
  - destruct (existsb (is_ready v) l) eqn:Er.
    + destruct (poll_at_once fuel v pfd l t s Hp Ht) as (s' & Hr & Hl & _); [by rewrite Er, orb_true_r|]. by exists s'.
    + destruct (Z.eqb_spec t 0) as [->|Ht0].
      * destruct (poll_no_wait fuel v pfd l s Hp Ew Er) as (s' & Hr & Hl & _). by exists s'.
      * destruct (timeout_run t 0 Ht ltac:(done)) as (tv & Htv & _).
        destruct (poll_waits fuel v pfd l t tv s Hp Hsl Ht Ht0 Htv Ew Er) as (s1 & k & H). by exists tv, s1, k.
  - destruct (poll_at_once fuel v pfd l t s Hp Ht) as (s' & Hr & Hl & _); [by rewrite Ew|]. by exists s'.
Qed.

End poll.

(** ** Examples: descriptors 3 and 4 are open, 5 is not *)
Definition poll_kernel : Kernel := {|
  K := fdview;
  k_enomem _ k := (false, k);
  k_gettimeofday k := (Tv 0 0, k);
  k_time k := (0, k);
  k_getfl fd k := (if bool_decide (fd ∈ fv_open k) then (0, 0) else (-1, EBADF), k);
  k_setfl _ _ k := k;
  k_pipe k := ((0, 0, (8, 9)), k);
  k_close _ k := k;
  k_read _ _ k := ((0, 0, []), k);
  k_write _ b k := ((Z.of_nat (length b), 0), k);
  k_select _ r w e _ k :=
    (let r' := default ∅ r ∩ fv_in k in let w' := default ∅ w ∩ fv_out k in let e' := default ∅ e ∩ fv_pri k in
     SelResult (Z.of_nat (size r' + size w' + size e')) 0 (Some r') (Some w') (Some e') [], k);
  k_sigpending _ := ∅;
  k_kill _ k := k;
  k_sigprocmask _ _ k := (∅, k);
  k_sigaction _ _ k := ((0, SIG_DFL), k);
  k_sigsuspend _ k := k;
  k_fork k := ((42, 0), k);
|}.
Definition poll_io : @IoKernel poll_kernel :=
  @Build_IoKernel poll_kernel (λ _ _ k, ((-1, 0, 0), k)) (λ _, true) (λ _ k, (None, k)) (λ _ _ k, ((0, 0), k))
    (λ _ k, ((0, 0, 0), k)) (λ _ k, ((-1, 0, []), k))
    (λ fd _ k, (if bool_decide (fd ∈ fv_hup k) then (-1, ECONNRESET) else (1, 0), k))
    (λ _ _ _ k, ((0, 0, [], []), k)) (λ _ _ _ _ k, ((0, 0), k)) (λ _ _ k, ((0, 0, []), k)) (λ _ _ k, ((0, 0), k))
    (λ _ _ _ k, ((0, 0), k)).
Definition poll_knot : @Knot poll_kernel := {| call _ _ := λ s, ORet tt s; kexit _ := λ _, OFuel |}.

Lemma poll_kernel_surveys : @surveys poll_kernel poll_io (λ v k, k = v).
Proof.
  split.
  - intros v fd k ->. unfold k_getfl; simpl. case_bool_decide; eexists _, _, _; (split; [reflexivity|]); done.
  - intros v nfd r w e k -> _. eexists _, _, _. split; [reflexivity|done].
  - intros v fd k ->. unfold k_peek; simpl. case_bool_decide; eexists _, _, _; (split; [reflexivity|]); done.
Qed.

(** 3 has data, or nothing has happened. *)
Definition toy_view : fdview := Fdview {[3; 4]} {[3]} ∅ ∅ ∅.
Definition toy_entries : list pollfd := [Pollfd 3 POLLIN 0; Pollfd 4 POLLOUT 0; Pollfd 5 POLLIN 0].
Definition toy_polling : @St poll_kernel :=
  @MkSt poll_kernel
    (list_to_map [(100%N, Qnode 0 0 0 (set_data_count (λ _, 2)
       (set_data_value (λ _, Some (<[1%nat := 11%N]> (<[0%nat := 10%N]> data_zero))) toy_tcb)));
                  (99%N, Qnode 0 0 0 (set_state (λ _, PTH_STATE_SCHEDULER) toy_tcb))])
    (list_to_map [(10%N, raw_event); (11%N, raw_event)]) ∅ ∅ ∅ ∅ ∅ ∅ ∅ ∅ ∅
    (list_to_map [(select_ev_key_select, 0); (select_ev_key_timeout, 1)]) ∅ ∅ ∅ ∅
    true 100 99 100 (Pqueue 0 0) (Pqueue 0 0) (Pqueue 0 0) (Pqueue 0 0) (Pqueue 0 0) 1
    (S754_finite false 1 0) pth_time_zero (8, 9) ∅ ∅ ∅ ∅
    (<[1%nat := Keytab true fp_event_destructor]> (<[0%nat := Keytab true fp_event_destructor]> (replicate 256 (Keytab false 0))))
    Ring.PTH_RING_INIT [] 0 0 0 false
    (upd_pollfds (λ _, list_to_map [(200%N, Pollfd 3 POLLIN 0); (208%N, Pollfd 4 POLLOUT 0); (216%N, Pollfd 5 POLLIN 0)]) user_init)
    1000 toy_view.

Lemma toy_pollable : @pollable poll_kernel (λ v k, k = v) toy_view 200 toy_entries toy_polling.
Proof.
  split; try done.
  - intros j p Hp. destruct j as [|[|[|j]]]; [injection Hp as <-; reflexivity..|done].
  - repeat constructor; set_solver.
  - repeat constructor; unfold in_set, FD_SETSIZE; simpl; lia.
  - split; [done|]. intros a Ha. split; [done|]. simpl in *. rewrite !lookup_insert_ne by (intros <-; unfold select_ev_key_select, select_ev_key_timeout in *; lia). done.
Qed.

Lemma toy_sleeper : @sleeper poll_kernel 10 11 toy_polling.
Proof.
  split; [| |done|by eexists].
  - exists 0. eexists. split; [reflexivity|]. split; [done|]. split; [split; [lia|]; eexists; split; [reflexivity|done]|].
    split; [vm_compute; reflexivity|]. split; [split; vm_compute; reflexivity|]. split; [vm_compute; reflexivity|]. by eexists.
  - exists 1. eexists. split; [reflexivity|]. split; [done|]. split; [split; [lia|]; eexists; split; [reflexivity|done]|].
    split; [vm_compute; reflexivity|]. split; [split; vm_compute; reflexivity|]. split; [vm_compute; reflexivity|]. by eexists.
Qed.

(** 3 is readable and 5 is not open. *)
Lemma poll_reports_witness :
  ∃ s', @pth_poll poll_kernel poll_io poll_knot 1 200 3 0 toy_polling = ORet 2 s' ∧
    pfd_revents <$> pollfds (usr s') !! 200%N = Some POLLIN ∧ pfd_revents <$> pollfds (usr s') !! 208%N = Some 0 ∧
    pfd_revents <$> pollfds (usr s') !! 216%N = Some POLLNVAL.
Proof.
  destruct (@poll_reports poll_kernel poll_io poll_knot (λ v k, k = v) poll_kernel_surveys 10 11 0 toy_view 200 toy_entries 0
    toy_polling toy_pollable toy_sleeper) as (_ & _ & _ & H); [unfold INT_MAX; lia|].
  change (negb (existsb (watched toy_view) toy_entries) || existsb (is_ready toy_view) toy_entries) with true in H. cbn iota in H.
  destruct H as (s' & Hr & (e & k & b & ->)). eexists. split; [exact Hr|]. split_and!; vm_compute; reflexivity.
Defined.
