(* ===== verification/Syscall.v ===== *)
(** * Hard system call mapping (pth_syscall.c with [PTH_SYSCALL_HARD])

With this option the library defines [read], [write], [fork], ... itself.  The
entry points call the thread-aware functions; the exit points [pth_sc_read], ...
reach the real calls, through addresses that [pth_syscall_init] has looked up by
name, or by [syscall(2)].  The dynamic loader ([dlopen], [dlsym], [dlclose]) and
the code behind a looked up address are parameters. *)
From Stdlib Require Import String Ascii.
From S2P Require Import State Sys Sync Sched Fork Lib High Rw.
From S2P Require Util.

(** A C string literal, without its NUL. *)
Definition chars (s : string) : list Z := (λ a, Z.of_nat (nat_of_ascii a)) <$> list_ascii_of_string s.

(** ** The loader *)

(** [dl_sym (Some h)] looks a name up in an open library, [dl_sym None] is
    [dlsym(RTLD_NEXT, ..)]; [dl_nomem] says whether [strdup] fails. *)
Class Loader := {
  D : Type;
  dl_nomem : D → bool;
  dl_sym : option N → list Z → D → N;
  dl_open : list Z → D → N * D;
  dl_close : N → D → D;
}.

(** ** The tables *)

(** The path of a library is a position in the copy of [PTH_SYSCALL_LIBS]. *)
Record pth_syscall_lib_tab_t := Lib_tab { lib_path : option nat; lib_handle : N }.
Record pth_syscall_fct_tab_t := Fct_tab { fct_name : option (list Z); fct_addr : N }.

Definition PTH_SCF_fork : nat := 0.
Definition PTH_SCF_waitpid : nat := 1.
Definition PTH_SCF_system : nat := 2.
Definition PTH_SCF_nanosleep : nat := 3.
Definition PTH_SCF_usleep : nat := 4.
Definition PTH_SCF_sleep : nat := 5.
Definition PTH_SCF_sigprocmask : nat := 6.
Definition PTH_SCF_sigwait : nat := 7.
Definition PTH_SCF_select : nat := 8.
Definition PTH_SCF_poll : nat := 9.
Definition PTH_SCF_connect : nat := 10.
Definition PTH_SCF_accept : nat := 11.
Definition PTH_SCF_read : nat := 12.
Definition PTH_SCF_write : nat := 13.
Definition PTH_SCF_readv : nat := 14.
Definition PTH_SCF_writev : nat := 15.
Definition PTH_SCF_recv : nat := 16.
Definition PTH_SCF_send : nat := 17.
Definition PTH_SCF_recvfrom : nat := 18.
Definition PTH_SCF_sendto : nat := 19.
Definition PTH_SCF_pread : nat := 20.
Definition PTH_SCF_pwrite : nat := 21.

Definition fct_names : list (list Z) :=
  chars <$> ["fork"; "waitpid"; "system"; "nanosleep"; "usleep"; "sleep"; "sigprocmask"; "sigwait"; "select"; "poll";
             "connect"; "accept"; "read"; "write"; "readv"; "writev"; "recv"; "send"; "recvfrom"; "sendto"; "pread";
             "pwrite"]%string.
(** The initial tables. *)
Definition pth_syscall_fct_tab : list pth_syscall_fct_tab_t :=
  ((λ n, Fct_tab (Some n) NULL) <$> fct_names) ++ [Fct_tab None NULL].
Definition pth_syscall_lib_tab : list pth_syscall_lib_tab_t := replicate 128 (Lib_tab None NULL).

Section init.
Context {Ld : Loader}.

Record Sc := MkSc {
  sc_libs : option (list Z);
  sc_lib : list pth_syscall_lib_tab_t;
  sc_fct : list pth_syscall_fct_tab_t;
  sc_dl : D
}.

(** Array accesses; outside of the array they are undefined. *)
Definition ld_lib (j : nat) : M Sc pth_syscall_lib_tab_t := do t <- gets sc_lib; lift_opt (t !! j).
Definition ld_fct (i : nat) : M Sc pth_syscall_fct_tab_t := do t <- gets sc_fct; lift_opt (t !! i).
Definition st_lib (j : nat) (e : pth_syscall_lib_tab_t) : M Sc unit :=
  do _ <- ld_lib j; modify (λ c, MkSc (sc_libs c) (<[j := e]> (sc_lib c)) (sc_fct c) (sc_dl c)).
Definition st_path (j : nat) (p : option nat) : M Sc unit := do e <- ld_lib j; st_lib j (Lib_tab p (lib_handle e)).
Definition st_handle (j : nat) (h : N) : M Sc unit := do e <- ld_lib j; st_lib j (Lib_tab (lib_path e) h).
Definition st_addr (i : nat) (a : N) : M Sc unit :=
  do e <- ld_fct i; modify (λ c, MkSc (sc_libs c) (sc_lib c) (<[i := Fct_tab (fct_name e) a]> (sc_fct c)) (sc_dl c)).
Definition set_libs (b : option (list Z)) : M Sc unit := modify (λ c, MkSc b (sc_lib c) (sc_fct c) (sc_dl c)).

(** The bytes of the copy from a position on, and the string there. *)
Definition libs_at (p : nat) : M Sc (list Z) := do b <- gets sc_libs; do b <- lift_opt b; ret (drop p b).
Definition dlsym (h : option N) (name : list Z) : M Sc N := gets (dl_sym h name ∘ sc_dl).
Definition dlopen (p : nat) : M Sc N :=
  do b <- libs_at p;
  λ c, let '(h, d) := dl_open (Util.cstr b) (sc_dl c) in Some (h, MkSc (sc_libs c) (sc_lib c) (sc_fct c) d).
Definition dlclose (h : N) : M Sc unit := modify (λ c, MkSc (sc_libs c) (sc_lib c) (sc_fct c) (dl_close h (sc_dl c))).

(** [strchr(s, c)]: the position of [c] before the NUL, if there is one; undefined
    when there is no NUL. *)
Fixpoint strchr (s : list Z) (c : Z) : option (option nat) :=
  match s with
  | [] => None
  | x :: s' => if x =? c then Some (Some 0%nat) else if x =? 0 then Some None else option_map (option_map S) (strchr s' c)
  end.

(** ** Initialisation *)

(** [for (i = 0; i < 127; )]: [n] turns are left.  The final [i] is returned. *)
Fixpoint split_loop (n i cpLib : nat) : M Sc nat :=
  match n with
  | O => ret i
  | S n' =>
      do s <- libs_at cpLib;
      do cp <- lift_opt (strchr s 58);
      (match cp with
       | Some q => do b <- gets sc_libs; set_libs (<[(cpLib + q)%nat := 0]> <$> b)
       | None => ret tt
       end) ;;
      st_lib i (Lib_tab (Some cpLib) NULL) ;;
      match cp with Some q => split_loop n' (S i) (cpLib + q + 1) | None => ret (S i) end
  end.

(** The search in the libraries that are open already.  The loops end at the first
    entry without a path, so the length of the table is fuel enough. *)
Fixpoint open_loop (fuel i j : nat) (name : list Z) : M Sc unit :=
  match fuel with
  | O => ub
  | S fuel' =>
      do e <- ld_lib j;
      match lib_path e with
      | None => ret tt
      | Some _ =>
          if is_null (lib_handle e) then open_loop fuel' i (S j) name else
          do a <- dlsym (Some (lib_handle e)) name;
          st_addr i a ;;
          if is_null a then open_loop fuel' i (S j) name else ret tt
      end
  end.

(** The search in the other libraries, which are opened. *)
Fixpoint closed_loop (fuel i j : nat) (name : list Z) : M Sc unit :=
  match fuel with
  | O => ub
  | S fuel' =>
      do e <- ld_lib j;
      match lib_path e with
      | None => ret tt
      | Some p =>
          if negb (is_null (lib_handle e)) then closed_loop fuel' i (S j) name else
          do h <- dlopen p;
          st_handle j h ;;
          if is_null h then closed_loop fuel' i (S j) name else
          do a <- dlsym (Some h) name;
          st_addr i a ;;
          if is_null a then closed_loop fuel' i (S j) name else ret tt
      end
  end.

Fixpoint resolve_loop (fuel i : nat) : M Sc unit :=
  match fuel with
  | O => ub
  | S fuel' =>
      do f <- ld_fct i;
      match fct_name f with
      | None => ret tt
      | Some name =>
          do a <- dlsym None name;
          st_addr i a ;;
          (if negb (is_null a) then ret tt else
           open_loop 129 i 0 name ;;
           do f <- ld_fct i;
           if negb (is_null (fct_addr f)) then ret tt else closed_loop 129 i 0 name) ;;
          resolve_loop fuel' (S i)
      end
  end.

(** [libs] is [PTH_SYSCALL_LIBS].  The result of [strdup] is not checked: [NULL] goes
    to [strchr]. *)
Definition pth_syscall_init_hard (libs : list Z) : M Sc unit :=
  do nomem <- gets (dl_nomem ∘ sc_dl);
  set_libs (if nomem then None else Some (libs ++ [0])) ;;
  do i <- split_loop 127 0 0;
  st_path i None ;;
  resolve_loop 24 0.

Fixpoint kill_loop (fuel i : nat) : M Sc unit :=
  match fuel with
  | O => ub
  | S fuel' =>
      do e <- ld_lib i;
      match lib_path e with
      | None => ret tt
      | Some _ =>
          (if negb (is_null (lib_handle e)) then dlclose (lib_handle e) ;; st_handle i NULL else ret tt) ;;
          st_path i None ;;
          kill_loop fuel' (S i)
      end
  end.
Definition pth_syscall_kill_hard : M Sc unit := kill_loop 129 0 ;; set_libs None.

End init.
#[global] Arguments Sc : clear implicits.
#[global] Arguments Sc {_}.

(** ** The exit points *)
Inductive sysno :=
  | SYS_fork | SYS_sigprocmask | SYS_waitpid | SYS_connect | SYS_accept | SYS_select | SYS_read | SYS_write | SYS_readv
  | SYS_writev | SYS_recvfrom | SYS_sendto.

(** The code behind a looked up address, and [syscall(2)].  Arguments are words. *)
Class Calls {Kern : Kernel} := {
  dl_call : N → list Z → M St Z;
  syscall : sysno → list Z → M St Z;
}.

Section wrappers.
Context {Kern : Kernel} {IoK : IoKernel} {Ap : App} {Kn : Knot} {Ld : Loader} {Cl : Calls}.
Implicit Types (sc : Sc).

Definition word (p : N) : Z := Z.of_N p.

(** [if (pth_syscall_fct_tab[i].addr != NULL) return ( *addr)(args); else return syscall(no, args)] *)
Definition pth_sc_call sc (i : nat) (no : sysno) (args args' : list Z) : M St Z :=
  do f <- lift_opt (sc_fct sc !! i);
  if negb (is_null (fct_addr f)) then dl_call (fct_addr f) args else syscall no args'.

Definition pth_sc_fork sc : M St Z := pth_sc_call sc PTH_SCF_fork SYS_fork [] [].
Definition pth_sc_sigprocmask sc (how : Z) (set oset : N) : M St Z :=
  let args := [how; word set; word oset] in pth_sc_call sc PTH_SCF_sigprocmask SYS_sigprocmask args args.
Definition pth_sc_waitpid sc (wpid : Z) (status : N) (options : Z) : M St Z :=
  let args := [wpid; word status; options] in pth_sc_call sc PTH_SCF_waitpid SYS_waitpid args args.
Definition pth_sc_connect sc (s : Z) (addr : N) (addrlen : Z) : M St Z :=
  let args := [s; word addr; addrlen] in pth_sc_call sc PTH_SCF_connect SYS_connect args args.
Definition pth_sc_accept sc (s : Z) (addr addrlen : N) : M St Z :=
  let args := [s; word addr; word addrlen] in pth_sc_call sc PTH_SCF_accept SYS_accept args args.
Definition pth_sc_select sc (nfds : Z) (readfds writefds exceptfds timeout : N) : M St Z :=
  let args := [nfds; word readfds; word writefds; word exceptfds; word timeout] in
  pth_sc_call sc PTH_SCF_select SYS_select args args.
Definition pth_sc_read sc (fd : Z) (buf : N) (nbytes : Z) : M St Z :=
  let args := [fd; word buf; nbytes] in pth_sc_call sc PTH_SCF_read SYS_read args args.
Definition pth_sc_write sc (fd : Z) (buf : N) (nbytes : Z) : M St Z :=
  let args := [fd; word buf; nbytes] in pth_sc_call sc PTH_SCF_write SYS_write args args.
Definition pth_sc_readv sc (fd : Z) (iov : N) (iovcnt : Z) : M St Z :=
  let args := [fd; word iov; iovcnt] in pth_sc_call sc PTH_SCF_readv SYS_readv args args.
Definition pth_sc_writev sc (fd : Z) (iov : N) (iovcnt : Z) : M St Z :=
  let args := [fd; word iov; iovcnt] in pth_sc_call sc PTH_SCF_writev SYS_writev args args.
(** [recv] and [send] fall back on the system calls with an address. *)
Definition pth_sc_recv sc (fd : Z) (buf : N) (nbytes flags : Z) : M St Z :=
  pth_sc_call sc PTH_SCF_recv SYS_recvfrom [fd; word buf; nbytes; flags] [fd; word buf; nbytes; flags; word NULL; word NULL].
Definition pth_sc_send sc (fd : Z) (buf : N) (nbytes flags : Z) : M St Z :=
  pth_sc_call sc PTH_SCF_send SYS_sendto [fd; word buf; nbytes; flags] [fd; word buf; nbytes; flags; word NULL; 0].
Definition pth_sc_recvfrom sc (fd : Z) (buf : N) (nbytes flags : Z) (from fromlen : N) : M St Z :=
  let args := [fd; word buf; nbytes; flags; word from; word fromlen] in
  pth_sc_call sc PTH_SCF_recvfrom SYS_recvfrom args args.
Definition pth_sc_sendto sc (fd : Z) (buf : N) (nbytes flags : Z) (to : N) (tolen : Z) : M St Z :=
  let args := [fd; word buf; nbytes; flags; word to; tolen] in
  pth_sc_call sc PTH_SCF_sendto SYS_sendto args args.

(** ** The entry points *)
Definition sc_fork : coro Z := pth_implicit_init ;;! pth_fork.
Definition sc_nanosleep (rqtp : option timespec) (rmtp : bool) : coro (Z * option timespec) :=
  pth_implicit_init ;;! pth_nanosleep rqtp rmtp.
Definition sc_usleep (sec : Z) : coro Z := pth_implicit_init ;;! pth_usleep sec.
Definition sc_sleep (sec : Z) : coro Z := pth_implicit_init ;;! pth_sleep sec.
Definition sc_system (fuel : nat) (cmd : ptr) : coro Z := pth_implicit_init ;;! pth_system fuel cmd.
Definition sc_sigprocmask (how : sig_how) (set : option (gset Z)) : coro (Z * gset Z) :=
  pth_implicit_init ;;! atom (pth_sigmask how set).
Definition sc_sigwait (set sigp : ptr) : coro Z := pth_implicit_init ;;! pth_sigwait set sigp.
Definition sc_waitpid (fuel : nat) (wpid : Z) (status : ptr) (options : Z) : coro Z :=
  pth_implicit_init ;;! pth_waitpid fuel wpid status options.
Definition sc_connect (fuel : nat) (s : Z) (addr : ptr) (addrlen : Z) : coro Z :=
  pth_implicit_init ;;! pth_connect fuel s addr addrlen.
Definition sc_accept (fuel : nat) (s : Z) (addr addrlen : ptr) : coro Z :=
  pth_implicit_init ;;! pth_accept fuel s addr addrlen.
Definition sc_select (fuel : nat) (nfds : Z) (readfds writefds exceptfds : ptr) (timeout : option timeval)
  : coro (Z * option timeval) := pth_implicit_init ;;! pth_select fuel nfds readfds writefds exceptfds timeout.
Definition sc_pselect (fuel : nat) (nfds : Z) (rfds wfds efds : ptr) (ts : option timespec) (mask : option (gset Z))
  : coro Z := pth_implicit_init ;;! pth_pselect fuel nfds rfds wfds efds ts mask.
Definition sc_poll (fuel : nat) (pfd : ptr) (nfd timeout : Z) : coro Z :=
  pth_implicit_init ;;! pth_poll fuel pfd nfd timeout.
Definition sc_read (fuel : nat) (fd : Z) (buf : ptr) (nbytes : Z) : coro Z :=
  pth_implicit_init ;;! pth_read fuel fd buf nbytes.
Definition sc_write (fuel : nat) (fd : Z) (buf : ptr) (nbytes : Z) : coro Z :=
  pth_implicit_init ;;! pth_write fuel fd buf nbytes.
Definition sc_readv (fuel : nat) (fd : Z) (iov : ptr) (iovcnt : Z) : coro Z :=
  pth_implicit_init ;;! pth_readv fuel fd iov iovcnt.
Definition sc_writev (fuel : nat) (fd : Z) (iov : ptr) (iovcnt : Z) : coro Z :=
  pth_implicit_init ;;! pth_writev fuel fd iov iovcnt.
Definition sc_pread (fuel : nat) (fd : Z) (buf : ptr) (nbytes offset : Z) : coro Z :=
  pth_implicit_init ;;! pth_pread fuel fd buf nbytes offset.
Definition sc_pwrite (fuel : nat) (fd : Z) (buf : ptr) (nbytes offset : Z) : coro Z :=
  pth_implicit_init ;;! pth_pwrite fuel fd buf nbytes offset.
Definition sc_recv (fuel : nat) (fd : Z) (buf : ptr) (nbytes flags : Z) : coro Z :=
  pth_implicit_init ;;! pth_recv fuel fd buf nbytes flags.
Definition sc_send (fuel : nat) (fd : Z) (buf : ptr) (nbytes flags : Z) : coro Z :=
  pth_implicit_init ;;! pth_send fuel fd buf nbytes flags.
Definition sc_recvfrom (fuel : nat) (fd : Z) (buf : ptr) (nbytes flags : Z) (from fromlen : ptr) : coro Z :=
  pth_implicit_init ;;! pth_recvfrom fuel fd buf nbytes flags from fromlen.
Definition sc_sendto (fuel : nat) (fd : Z) (buf : ptr) (nbytes flags : Z) (to : ptr) (tolen : Z) : coro Z :=
  pth_implicit_init ;;! pth_sendto fuel fd buf nbytes flags to tolen.

End wrappers.

(** ** Splitting the list of libraries *)

(** [p1:p2:..:pn], and the bytes after the colons have been overwritten. *)
Fixpoint join (ps : list (list Z)) : list Z :=
  match ps with
  | [] => []
  | [p] => p
  | p :: ps' => p ++ 58 :: join ps'
  end.
Definition spiked (ps : list (list Z)) : list Z := concat ((λ p, p ++ [0]) <$> ps).
Fixpoint offsets (o : nat) (ps : list (list Z)) : list nat :=
  match ps with [] => [] | p :: ps' => o :: offsets (o + List.length p + 1) ps' end.
(** A path has no colon and no NUL in it. *)
Definition path_ok (p : list Z) : Prop := Forall (λ c, c ≠ 58 ∧ c ≠ 0) p.
Definition path_at (buf : list Z) (o : nat) : list Z := Util.cstr (drop o buf).

Lemma offsets_length o ps : List.length (offsets o ps) = List.length ps.
Proof. revert o. induction ps as [|p ps IH]; intros o; simpl; [done|]. by rewrite IH. Qed.

Lemma spiked_cons p ps : spiked (p :: ps) = p ++ 0 :: spiked ps.
Proof. unfold spiked. simpl. by rewrite <- app_assoc. Qed.

Lemma path_at_app pre p post : path_ok p → path_at (pre ++ p ++ 0 :: post) (List.length pre) = p.
Proof.
  intros Hp. unfold path_at. rewrite drop_app_length. apply Util.cstr_app. eapply Forall_impl; [exact Hp|]. by intros c [_ ?].
Qed.

(** The positions lead to the paths. *)
Lemma offsets_paths pre ps :
  Forall path_ok ps → path_at (pre ++ spiked ps) <$> offsets (List.length pre) ps = ps.
Proof.
  intros Hps. revert pre. induction Hps as [|p ps Hp Hps IH]; intros pre; [done|]. simpl. rewrite spiked_cons. f_equal.
  - by apply path_at_app.
  - specialize (IH (pre ++ p ++ [0])). rewrite !length_app in IH. simpl in IH. rewrite <- !app_assoc in IH. simpl in IH.
    rewrite Nat.add_assoc in IH. exact IH.
Qed.

Lemma strchr_colon p post : path_ok p → strchr (p ++ 58 :: post) 58 = Some (Some (List.length p)).
Proof.
  induction 1 as [|c p [H1 H2] _ IH]; simpl; [done|]. rewrite (proj2 (Z.eqb_neq c 58)), (proj2 (Z.eqb_neq c 0)) by done.
  by rewrite IH.
Qed.

Lemma strchr_end p post : path_ok p → strchr (p ++ 0 :: post) 58 = Some None.
Proof.
  induction 1 as [|c p [H1 H2] _ IH]; simpl; [done|]. rewrite (proj2 (Z.eqb_neq c 58)), (proj2 (Z.eqb_neq c 0)) by done.
  by rewrite IH.
Qed.

Section tables.
Context {Ld : Loader}.
Implicit Types (c : Sc).

Definition entries (offs : list nat) (hs : list N) : list pth_syscall_lib_tab_t :=
  zip_with (λ o h, Lib_tab (Some o) h) offs hs.

Lemma entries_length offs hs : List.length offs = List.length hs → List.length (entries offs hs) = List.length hs.
Proof. intros Hl. unfold entries. rewrite length_zip_with. lia. Qed.

Lemma st_lib_run j e c : (j < List.length (sc_lib c))%nat → st_lib j e c = Some (tt, MkSc (sc_libs c) (<[j := e]> (sc_lib c)) (sc_fct c) (sc_dl c)).
Proof.
  intros Hj. destruct (lookup_lt_is_Some_2 _ _ Hj) as [x Hx]. unfold st_lib, ld_lib, bind, gets. by rewrite Hx.
Qed.

Lemma ld_lib_run j e c : sc_lib c !! j = Some e → ld_lib j c = Some (e, c).
Proof. intros He. unfold ld_lib, bind, gets. by rewrite He. Qed.

Lemma ld_fct_run i e c : sc_fct c !! i = Some e → ld_fct i c = Some (e, c).
Proof. intros He. unfold ld_fct, bind, gets. by rewrite He. Qed.

Lemma run_bind {A B} (m : M Sc A) (k : A → M Sc B) a c c' : m c = Some (a, c') → bind m k c = k a c'.
Proof. intros Hm. unfold bind. by rewrite Hm. Qed.

Lemma run_rest {A} (m : M Sc A) (k1 k2 : A → M Sc unit) (r : M Sc unit) c c' :
  (do a <- m; k1 a ;; k2 a) c = Some (tt, c') → (do a <- m; k1 a ;; k2 a ;; r) c = r c'.
Proof.
  unfold bind. destruct (m c) as [[a c1]|]; [|done]. destruct (k1 a c1) as [[[] c2]|]; [|done].
  destruct (k2 a c2) as [[[] c3]|]; [|done]. by intros [= ->].
Qed.

Lemma libs_at_run p b c : sc_libs c = Some b → libs_at p c = Some (drop p b, c).
Proof. intros Hb. unfold libs_at, bind, gets, lift_opt. by rewrite Hb. Qed.

(** The loop over the colons, with [pre] and [tab] done. *)
Lemma split_loop_run n pre ps tab rest fct d :
  ps ≠ [] → Forall path_ok ps → (List.length ps ≤ n)%nat → (List.length ps ≤ List.length rest)%nat →
  split_loop n (List.length tab) (List.length pre) (MkSc (Some (pre ++ join ps ++ [0])) (tab ++ rest) fct d) =
    Some ((List.length tab + List.length ps)%nat,
          MkSc (Some (pre ++ spiked ps))
            (tab ++ entries (offsets (List.length pre) ps) (replicate (List.length ps) NULL) ++ drop (List.length ps) rest) fct d).
Proof.
  intros Hne Hps. revert n pre tab rest Hne. induction Hps as [|p ps Hp Hps IH]; intros n pre tab rest Hne Hn Hr; [done|].
  destruct n as [|n]; [simpl in Hn; lia|]. destruct rest as [|e rest]; [simpl in Hr; lia|]. cbn [split_loop].
  erewrite run_bind by (by apply libs_at_run). rewrite drop_app_length. destruct ps as [|p2 ps].
  - change (join [p]) with p. erewrite run_bind by (unfold lift_opt; rewrite strchr_end by done; reflexivity).
    erewrite run_bind by reflexivity. erewrite run_bind by (apply st_lib_run; simpl; rewrite length_app; simpl; lia). cbn.
    rewrite insert_app_r_alt by lia. rewrite Nat.sub_diag. simpl. unfold ret, spiked. simpl. rewrite app_nil_r. do 3 f_equal. lia.
  - change (join (p :: p2 :: ps)) with (p ++ 58 :: join (p2 :: ps)). rewrite <- app_assoc.
    change ((58 :: join (p2 :: ps)) ++ [0]) with (58 :: (join (p2 :: ps) ++ [0])).
    erewrite run_bind by (unfold lift_opt; rewrite strchr_colon by done; reflexivity).
    erewrite run_bind by (unfold bind, gets, set_libs, modify; reflexivity). cbn -[join split_loop].
    rewrite insert_app_r_alt by lia. rewrite insert_app_r_alt by lia.
    replace (List.length pre + List.length p - List.length pre - List.length p)%nat with 0%nat by lia.
    erewrite run_bind by (apply st_lib_run; simpl; rewrite length_app; simpl; lia). cbn -[join split_loop].
    rewrite insert_app_r_alt by lia. rewrite Nat.sub_diag. cbn -[join split_loop].
    specialize (IH n (pre ++ p ++ [0]) (tab ++ [Lib_tab (Some (List.length pre)) NULL]) rest).
    rewrite !length_app in IH. cbn [List.length] in IH. rewrite <- !app_assoc in IH. cbn [app] in IH.
    replace (List.length pre + List.length p + 1)%nat with (List.length pre + (List.length p + 1))%nat by lia.
    replace (S (List.length tab)) with (List.length tab + 1)%nat by lia. rewrite IH by (done || simpl in *; lia).
    f_equal. f_equal; [lia|]. f_equal. unfold spiked. simpl. by rewrite <- !app_assoc.
Qed.

End tables.

(** ** Looking up the calls *)
Section resolution.
Context {Ld : Loader}.
Implicit Types (c : Sc) (hs : list N).

(** What the manual pages say about the loader: [dlopen] returns the handle of the
    library and counts it, [dlclose] counts down, the symbols of an open library and
    those behind [RTLD_NEXT] do not depend on what else is open. *)
Context (refs : D → N → nat) (file : list Z → N) (sym : N → list Z → N) (next : list Z → N).
Record loader_laws : Prop := {
  ll_open p d : ∃ d', dl_open p d = (file p, d') ∧
    ∀ h, refs d' h = (refs d h + if decide (h = file p ∧ h ≠ NULL) then 1 else 0)%nat;
  ll_close h d : (0 < refs d h)%nat → ∀ h', refs (dl_close h d) h' = (refs d h' - if decide (h' = h) then 1 else 0)%nat;
  ll_sym h n d : (0 < refs d h)%nat → dl_sym (Some h) n d = sym h n;
  ll_next n d : dl_sym None n d = next n;
}.

(** The address [a] for the call [name], with the libraries [ps] to search. *)
Definition resolved (ps : list (list Z)) (name : list Z) (a : N) : Prop :=
  if decide (a = NULL) then next name = NULL ∧ ∀ p, p ∈ ps → file p ≠ NULL → sym (file p) name = NULL
  else a = next name ∨ ∃ p, p ∈ ps ∧ file p ≠ NULL ∧ a = sym (file p) name.

(** How often a library is open in the table. *)
Definition occ (h : N) hs : nat := List.length (filter (λ x, x = h) hs).

Context (buf : list Z) (offs : list nat) (r0 : N → nat) (tail : list pth_syscall_lib_tab_t).
Abbreviation ps := (path_at buf <$> offs).

(** The tables while names are looked up: the handles are [hs]. *)
Record tables c hs : Prop := {
  tb_libs : sc_libs c = Some buf;
  tb_lib : sc_lib c = entries offs hs ++ Lib_tab None NULL :: tail;
  tb_file : Forall2 (λ p h, h = NULL ∨ h = file p) ps hs;
  tb_refs h : h ≠ NULL → refs (sc_dl c) h = (r0 h + occ h hs)%nat;
}.

Context (L : loader_laws) (Hoffs : (List.length offs ≤ 127)%nat).

Lemma tables_length c hs : tables c hs → List.length hs = List.length offs.
Proof. intros [_ _ Hf _]. apply Forall2_length in Hf. by rewrite length_fmap in Hf. Qed.

Definition set_addr (i : nat) (a : N) c : Sc :=
  MkSc (sc_libs c) (sc_lib c) (alter (λ f, Fct_tab (fct_name f) a) i (sc_fct c)) (sc_dl c).

Lemma st_addr_run i a c f : sc_fct c !! i = Some f → st_addr i a c = Some (tt, set_addr i a c).
Proof.
  intros Hf. unfold st_addr. erewrite run_bind by (by apply ld_fct_run). unfold modify, set_addr.
  do 3 f_equal. symmetry. apply list_eq. intros j. destruct (decide (i = j)) as [->|Hne].
  - rewrite list_lookup_alter_eq, Hf. by rewrite list_lookup_insert_eq by (by eapply lookup_lt_Some).
  - by rewrite list_lookup_alter_ne, list_lookup_insert_ne.
Qed.

Lemma addr_twice i a a' (l : list pth_syscall_fct_tab_t) :
  alter (λ f, Fct_tab (fct_name f) a') i (alter (λ f, Fct_tab (fct_name f) a) i l) = alter (λ f, Fct_tab (fct_name f) a') i l.
Proof.
  apply list_eq. intros j. destruct (decide (i = j)) as [->|Hne].
  - rewrite !list_lookup_alter_eq. by destruct (l !! j).
  - by rewrite !list_lookup_alter_ne.
Qed.

Lemma set_addr_lookup i a c f : sc_fct c !! i = Some f → sc_fct (set_addr i a c) !! i = Some (Fct_tab (fct_name f) a).
Proof. intros Hf. simpl. by rewrite list_lookup_alter_eq, Hf. Qed.

Lemma tables_addr c hs i a : tables c hs → tables (set_addr i a c) hs.
Proof. intros []. by split. Qed.

Lemma tables_entry c hs j h o :
  tables c hs → hs !! j = Some h → offs !! j = Some o → sc_lib c !! j = Some (Lib_tab (Some o) h).
Proof.
  intros Ht Hh Ho. rewrite (tb_lib _ _ Ht). apply lookup_app_l_Some. unfold entries. rewrite lookup_zip_with, Ho. simpl. by rewrite Hh.
Qed.

Lemma tables_end c hs : tables c hs → sc_lib c !! (List.length hs) = Some (Lib_tab None NULL).
Proof.
  intros Ht. pose proof (tables_length _ _ Ht) as Hl. rewrite (tb_lib _ _ Ht).
  rewrite lookup_app_r by (rewrite entries_length; lia). by rewrite entries_length, Nat.sub_diag by lia.
Qed.

Lemma occ_elem h hs : h ∈ hs → (0 < occ h hs)%nat.
Proof.
  intros Hin. unfold occ. destruct (filter _ hs) as [|x l] eqn:E; [|simpl; lia]. exfalso.
  apply (not_elem_of_nil h). rewrite <- E. by apply list_elem_of_filter.
Qed.

(** The symbol of an open library. *)
Lemma open_sym c hs h name : tables c hs → h ∈ hs → h ≠ NULL → dlsym (Some h) name c = Some (sym h name, c).
Proof.
  intros Ht Hin Hh. unfold dlsym, gets. simpl. rewrite (ll_sym L); [done|].
  rewrite (tb_refs _ _ Ht) by done. pose proof (occ_elem _ _ Hin). lia.
Qed.

(** The first open library that has the symbol. *)
Fixpoint find_open hs (name : list Z) : N :=
  match hs with
  | [] => NULL
  | h :: hs' => if is_null h || is_null (sym h name) then find_open hs' name else sym h name
  end.

Lemma open_loop_run fuel i j c hs f name :
  tables c hs → sc_fct c !! i = Some f → fct_addr f = NULL → (List.length hs < fuel + j)%nat → (j ≤ List.length hs)%nat →
  open_loop fuel i j name c = Some (tt, set_addr i (find_open (drop j hs) name) c).
Proof.
  intros Ht Hf Ha. assert (set_addr i NULL c = c) as Hid.
  { unfold set_addr. rewrite <- Ha. destruct c as [b l fs d]. simpl in *. f_equal. apply list_eq. intros k.
    destruct (decide (i = k)) as [->|?]; [rewrite list_lookup_alter_eq, Hf; by destruct f|by rewrite list_lookup_alter_ne]. }
  revert j. induction fuel as [|fuel IH]; intros j Hfu Hj; [lia|]. cbn [open_loop].
  destruct (decide (j = List.length hs)) as [->|Hne].
  - erewrite run_bind by (apply ld_lib_run; by eapply tables_end). cbn [lib_path]. rewrite drop_ge by done. cbn [find_open]. by rewrite Hid.
  - destruct (lookup_lt_is_Some_2 hs j) as [h Hh]; [lia|].
    destruct (lookup_lt_is_Some_2 offs j) as [o Ho]; [rewrite <- (tables_length _ _ Ht); lia|].
    erewrite run_bind by (apply ld_lib_run; by eapply tables_entry). cbn [lib_path lib_handle].
    rewrite (drop_S hs h j Hh). cbn [find_open]. destruct (is_null h) eqn:Hnull; [apply IH; lia|]. cbn [orb].
    assert (h ≠ NULL) as Hnz by (intros ->; done).
    erewrite run_bind by (eapply open_sym; [done|by eapply list_elem_of_lookup_2|done]).
    erewrite run_bind by (by eapply st_addr_run). destruct (is_null (sym h name)) eqn:Hsym; [|done].
    apply bool_decide_eq_true in Hsym. rewrite Hsym, Hid. apply IH; lia.
Qed.

Lemma find_open_elem hs name :
  find_open hs name = NULL ∧ (∀ h, h ∈ hs → h ≠ NULL → sym h name = NULL) ∨
  find_open hs name ≠ NULL ∧ ∃ h, h ∈ hs ∧ h ≠ NULL ∧ find_open hs name = sym h name.
Proof.
  induction hs as [|h hs IH]; cbn [find_open]; [left; split; [done|]; intros h Hin; by apply not_elem_of_nil in Hin|].
  destruct (is_null h) eqn:Hh; [apply bool_decide_eq_true in Hh|apply bool_decide_eq_false in Hh]; cbn [orb].
  - destruct IH as [[? IH]|[? (x & ? & ?)]]; [left|right].
    + split; [done|]. intros x [->|?]%elem_of_cons ?; [done|]. by apply IH.
    + split; [done|]. exists x. split; [by right|done].
  - destruct (is_null (sym h name)) eqn:Hs; [apply bool_decide_eq_true in Hs|apply bool_decide_eq_false in Hs].
    + destruct IH as [[? IH]|[? (x & ? & ?)]]; [left|right].
      * split; [done|]. intros x [->|?]%elem_of_cons ?; [done|]. by apply IH.
      * split; [done|]. exists x. split; [by right|done].
    + right. split; [done|]. exists h. split; [by left|done].
Qed.

Lemma occ_cons h x hs : occ h (x :: hs) = ((if decide (x = h) then 1 else 0) + occ h hs)%nat.
Proof. unfold occ. rewrite filter_cons. by destruct (decide (x = h)). Qed.

Lemma occ_insert h x y j hs :
  hs !! j = Some y →
  (occ h (<[j := x]> hs) + (if decide (y = h) then 1 else 0) = occ h hs + if decide (x = h) then 1 else 0)%nat.
Proof.
  revert j. induction hs as [|z hs IH]; intros [|j] Hj; simplify_eq/=; rewrite !occ_cons; [lia|].
  specialize (IH j Hj). lia.
Qed.

(** Entry [j] is opened. *)
Lemma open_entry c hs j o :
  tables c hs → hs !! j = Some NULL → offs !! j = Some o →
  ∃ c1 c', dlopen o c = Some (file (path_at buf o), c1) ∧ st_handle j (file (path_at buf o)) c1 = Some (tt, c') ∧
    tables c' (<[j := file (path_at buf o)]> hs) ∧ sc_fct c' = sc_fct c.
Proof.
  intros Ht Hh Ho. set (p := path_at buf o). destruct (ll_open L p (sc_dl c)) as (d' & Hop & Hrefs).
  set (c1 := MkSc (sc_libs c) (sc_lib c) (sc_fct c) d').
  assert (sc_lib c1 !! j = Some (Lib_tab (Some o) NULL)) as Hj by (by apply (tables_entry c hs)).
  exists c1, (MkSc (sc_libs c) (<[j := Lib_tab (Some o) (file p)]> (sc_lib c)) (sc_fct c) d'). split_and!; [| | |done].
  - unfold dlopen. erewrite run_bind by (by apply libs_at_run, Ht). fold (path_at buf o). fold p. by rewrite Hop.
  - unfold st_handle. rewrite (run_bind _ _ _ _ _ (ld_lib_run _ _ _ Hj)).
    exact (st_lib_run j (Lib_tab (Some o) (file p)) c1 ltac:(by eapply lookup_lt_Some)).
  - destruct Ht as [H1 H2 H3 H4]. assert (j < List.length hs)%nat by (by eapply lookup_lt_Some).
    assert (List.length hs = List.length offs) as Hl by (apply Forall2_length in H3; by rewrite length_fmap in H3).
    split; simpl; [done| | |].
    + rewrite H2. rewrite insert_app_l by (rewrite entries_length; lia). f_equal. unfold entries. apply list_eq. intros k.
      destruct (decide (j = k)) as [->|Hne].
      * rewrite list_lookup_insert_eq by (rewrite length_zip_with; lia). rewrite lookup_zip_with, Ho. simpl.
        by rewrite list_lookup_insert_eq.
      * rewrite list_lookup_insert_ne by done. rewrite !lookup_zip_with. by rewrite list_lookup_insert_ne.
    + rewrite <- (list_insert_id ps j p) by (by rewrite list_lookup_fmap, Ho). apply Forall2_insert; [done|by right].
    + intros h Hh0. rewrite Hrefs, H4 by done. pose proof (occ_insert h (file p) NULL j hs Hh) as Hocc.
      rewrite (decide_False (P := NULL = h)) in Hocc by done.
      destruct (decide (h = file p ∧ h ≠ NULL)) as [[He _]|Hn]; [rewrite decide_True in Hocc by done; lia|].
      rewrite decide_False in Hocc by naive_solver. lia.
Qed.

Lemma closed_loop_run fuel i j c hs f name :
  tables c hs → sc_fct c !! i = Some f → fct_addr f = NULL → (List.length hs < fuel + j)%nat → (j ≤ List.length hs)%nat →
  ∃ a hs' c', closed_loop fuel i j name c = Some (tt, c') ∧ tables c' hs' ∧
    sc_fct c' = alter (λ f, Fct_tab (fct_name f) a) i (sc_fct c) ∧
    (a ≠ NULL → ∃ p, p ∈ ps ∧ file p ≠ NULL ∧ a = sym (file p) name) ∧
    (a = NULL → ∀ k p, (j ≤ k)%nat → ps !! k = Some p → hs !! k = Some NULL → file p ≠ NULL → sym (file p) name = NULL).
Proof.
  revert j c hs. induction fuel as [|fuel IH]; intros j c hs Ht Hf Ha Hfu Hj; [lia|]. cbn [closed_loop].
  assert (sc_fct c = alter (λ f, Fct_tab (fct_name f) NULL) i (sc_fct c)) as Hid.
  { apply list_eq. intros k. destruct (decide (i = k)) as [->|?]; [|by rewrite list_lookup_alter_ne].
    rewrite list_lookup_alter_eq, Hf. simpl. rewrite <- Ha. by destruct f. }
  destruct (decide (j = List.length hs)) as [->|Hne].
  { erewrite run_bind by (apply ld_lib_run; by eapply tables_end). cbn [lib_path]. exists NULL, hs, c.
    split_and!; try done. intros _ k p Hk _ Hh%lookup_lt_Some. lia. }
  destruct (lookup_lt_is_Some_2 hs j) as [h Hh]; [lia|].
  destruct (lookup_lt_is_Some_2 offs j) as [o Ho]; [rewrite <- (tables_length _ _ Ht); lia|].
  assert (ps !! j = Some (path_at buf o)) as Hp by (by rewrite list_lookup_fmap, Ho).
  erewrite run_bind by (apply ld_lib_run; by eapply tables_entry). cbn [lib_path lib_handle].
  destruct (is_null h) eqn:Hnull; [apply bool_decide_eq_true in Hnull|apply bool_decide_eq_false in Hnull]; cbn [negb].
  2: { destruct (IH (S j) c hs) as (a & hs' & c' & Hrun & Ht' & Hf' & Hpos & Hneg); [done..|lia|lia|].
       exists a, hs', c'. split_and!; try done. intros Hz k p Hk Hp' Hhk. apply (Hneg Hz k p); [|done|done].
       destruct (decide (j = k)); [naive_solver|lia]. }
  subst h. destruct (open_entry c hs j o Ht Hh Ho) as (c1 & c2 & Hop & Hst & Ht2 & Hf2). set (p0 := path_at buf o) in *.
  rewrite (run_bind _ _ _ _ _ Hop), (run_bind _ _ _ _ _ Hst).
  assert (∀ c3, c3 = c2 → (file p0 ≠ NULL → sym (file p0) name = NULL) →
    ∃ a hs' c', closed_loop fuel i (S j) name c3 = Some (tt, c') ∧ tables c' hs' ∧
    sc_fct c' = alter (λ f, Fct_tab (fct_name f) a) i (sc_fct c) ∧
    (a ≠ NULL → ∃ p, p ∈ ps ∧ file p ≠ NULL ∧ a = sym (file p) name) ∧
    (a = NULL → ∀ k p, (j ≤ k)%nat → ps !! k = Some p → hs !! k = Some NULL → file p ≠ NULL → sym (file p) name = NULL)) as Hgo.
  { intros c3 -> Hno. destruct (IH (S j) c2 (<[j := file p0]> hs)) as (a & hs' & c' & Hrun & Ht' & Hf' & Hpos & Hneg);
      [done|by rewrite Hf2|done|rewrite length_insert; lia|rewrite length_insert; lia|].
    exists a, hs', c'. split_and!; try done; [by rewrite Hf', Hf2|]. intros Hz k p Hk Hp' Hhk Hfp.
    destruct (decide (j = k)) as [->|Hjk]; [simplify_eq; auto|].
    apply (Hneg Hz k p); [lia|done|by rewrite list_lookup_insert_ne|done]. }
  destruct (is_null (file p0)) eqn:Hfp; [apply bool_decide_eq_true in Hfp|apply bool_decide_eq_false in Hfp]; [by apply Hgo|].
  assert (file p0 ∈ <[j := file p0]> hs) as Hin.
  { apply (list_elem_of_lookup_2 _ j). apply list_lookup_insert_eq. by eapply lookup_lt_Some. }
  rewrite (run_bind _ _ _ _ _ (open_sym _ _ _ _ Ht2 Hin Hfp)). rewrite <- Hf2 in Hf.
  rewrite (run_bind _ _ _ _ _ (st_addr_run _ _ _ _ Hf)).
  destruct (is_null (sym (file p0) name)) eqn:Hs; [apply bool_decide_eq_true in Hs|apply bool_decide_eq_false in Hs].
  - apply Hgo; [|done]. rewrite Hs. unfold set_addr. rewrite <- Hf2 in Hid. rewrite <- Hid. by destruct c2.
  - exists (sym (file p0) name), (<[j := file p0]> hs), (set_addr i (sym (file p0) name) c2). split_and!; [done| | | |done].
    + by apply tables_addr.
    + simpl. by rewrite Hf2.
    + intros _. exists p0. split_and!; [by eapply list_elem_of_lookup_2|done|done].
Qed.

(** An open library of the table is one of the paths. *)
Lemma handle_file c hs h : tables c hs → h ∈ hs → h ≠ NULL → ∃ p, p ∈ ps ∧ h = file p.
Proof.
  intros Ht [k Hk]%list_elem_of_lookup Hh. destruct (Forall2_lookup_r _ _ _ _ _ (tb_file _ _ Ht) Hk) as (p & Hp & [?|?]); [done|].
  exists p. split; [by eapply list_elem_of_lookup_2|done].
Qed.

(** One name. *)
Lemma resolve_entry c hs i name f :
  tables c hs → sc_fct c !! i = Some f →
  ∃ a hs' c', (do a <- dlsym None name;
               st_addr i a ;;
               (if negb (is_null a) then ret tt else
                open_loop 129 i 0 name ;;
                do f <- ld_fct i;
                if negb (is_null (fct_addr f)) then ret tt else closed_loop 129 i 0 name)) c = Some (tt, c') ∧
    tables c' hs' ∧ sc_fct c' = alter (λ f, Fct_tab (fct_name f) a) i (sc_fct c) ∧ resolved ps name a.
Proof.
  intros Ht Hf. pose proof (tables_length _ _ Ht) as Hl.
  erewrite run_bind by (unfold dlsym, gets; simpl; rewrite (ll_next L); reflexivity).
  erewrite run_bind by (by eapply st_addr_run). unfold resolved.
  destruct (is_null (next name)) eqn:Hn; [apply bool_decide_eq_true in Hn|apply bool_decide_eq_false in Hn]; cbn [negb].
  2: { exists (next name), hs, (set_addr i (next name) c). split_and!; [done|by apply tables_addr|done|].
       rewrite decide_False by done. by left. }
  pose proof (tables_addr c hs i (next name) Ht) as Ht1. pose proof (set_addr_lookup i (next name) c f Hf) as Hf1.
  erewrite run_bind by (eapply open_loop_run; [done|done|by rewrite Hn|lia|lia]). rewrite drop_0.
  set (c1 := set_addr i (next name) c) in *. set (a := find_open hs name).
  pose proof (tables_addr c1 hs i a Ht1) as Ht2. pose proof (set_addr_lookup i a c1 _ Hf1) as Hf2.
  rewrite (run_bind _ _ _ _ _ (ld_fct_run _ _ _ Hf2)). cbn [fct_addr].
  destruct (find_open_elem hs name) as [[Hz Hall]|[Hnz (h & Hin & Hh & He)]]; fold a in Hz || fold a in Hnz, He.
  2: { rewrite is_null_false by done. cbn [negb]. exists a, hs, (set_addr i a c1). split_and!; [done|done|simpl; apply addr_twice|].
       rewrite decide_False by done. right. destruct (handle_file _ _ _ Ht Hin Hh) as (p & Hp & ->). by exists p. }
  rewrite Hz. change (is_null NULL) with true. cbn [negb].
  destruct (closed_loop_run 129 i 0 (set_addr i NULL c1) hs (Fct_tab (fct_name (Fct_tab (fct_name f) (next name))) NULL) name)
    as (a' & hs' & c' & Hrun & Ht' & Hf' & Hpos & Hneg); [by rewrite Hz in Ht2|by rewrite Hz in Hf2|done|lia|lia|].
  exists a', hs', c'. split_and!; [done|done|by rewrite Hf'; simpl; rewrite !addr_twice|].
  case_decide as Ha'; [|right; auto]. split; [done|]. intros p Hp Hfp. apply list_elem_of_lookup in Hp as [k Hk].
  destruct (Forall2_lookup_l _ _ _ _ _ (tb_file _ _ Ht) Hk) as (h & Hhk & [->| ->]); [by apply (Hneg Ha' k p); [lia|..]|].
  apply Hall; [by eapply list_elem_of_lookup_2|done].
Qed.

Lemma resolve_loop_run fuel names done c hs :
  tables c hs → sc_fct c = done ++ ((λ n, Fct_tab (Some n) NULL) <$> names) ++ [Fct_tab None NULL] →
  (List.length names < fuel)%nat →
  ∃ addrs hs' c', resolve_loop fuel (List.length done) c = Some (tt, c') ∧ tables c' hs' ∧
    sc_fct c' = done ++ zip_with (λ n a, Fct_tab (Some n) a) names addrs ++ [Fct_tab None NULL] ∧
    Forall2 (resolved ps) names addrs.
Proof.
  revert names done c hs. induction fuel as [|fuel IH]; intros names done c hs Ht Hf Hfu; [lia|]. cbn [resolve_loop].
  destruct names as [|name names].
  { erewrite run_bind by (apply ld_fct_run; rewrite Hf; by apply list_lookup_middle). cbn. by exists [], hs, c. }
  assert (sc_fct c !! List.length done = Some (Fct_tab (Some name) NULL)) as Hi by (rewrite Hf; by apply list_lookup_middle).
  rewrite (run_bind _ _ _ _ _ (ld_fct_run _ _ _ Hi)). cbn [fct_name].
  destruct (resolve_entry c hs (List.length done) name _ Ht Hi) as (a & hs1 & c1 & Hrun & Ht1 & Hf1 & Hres).
  destruct (IH names (done ++ [Fct_tab (Some name) a]) c1 hs1 Ht1) as (addrs & hs2 & c2 & Hrun2 & Ht2 & Hf2 & Hres2).
  - rewrite Hf1, Hf. simpl. rewrite <- app_assoc. rewrite (alter_app_r_alt _ _ _ (List.length done)) by done. by rewrite Nat.sub_diag.
  - simpl in Hfu. lia.
  - rewrite length_app, Nat.add_1_r in Hrun2.
    exists (a :: addrs), hs2, c2. split_and!; [|done|by rewrite Hf2; simpl; rewrite <- app_assoc|by constructor].
    rewrite <- Hrun2. by eapply run_rest.
Qed.

(** ** The whole of initialisation and shutdown *)

(** Closing: [tab] is done, the entries [os] with the handles [hs] are left. *)
Lemma kill_loop_run fuel c tab os hs :
  sc_lib c = tab ++ entries os hs ++ Lib_tab None NULL :: tail → List.length os = List.length hs →
  (∀ h, h ≠ NULL → refs (sc_dl c) h = (r0 h + occ h hs)%nat) → (List.length hs < fuel)%nat →
  ∃ d', kill_loop fuel (List.length tab) c =
      Some (tt, MkSc (sc_libs c) (tab ++ replicate (List.length hs) (Lib_tab None NULL) ++ Lib_tab None NULL :: tail) (sc_fct c) d') ∧
    ∀ h, h ≠ NULL → refs d' h = r0 h.
Proof.
  clear Hoffs. revert c tab os hs. induction fuel as [|fuel IH]; intros c tab os hs Hlib Hlen Hrefs Hfu; [lia|]. cbn [kill_loop].
  destruct os as [|o os], hs as [|h hs]; simpl in Hlen; try lia.
  { erewrite run_bind by (apply ld_lib_run; rewrite Hlib; by apply list_lookup_middle). cbn. exists (sc_dl c). split.
    - unfold ret. destruct c as [b l fs d]. simpl in *. by rewrite Hlib.
    - intros h Hh. rewrite Hrefs by done. unfold occ. simpl. lia. }
  assert (sc_lib c !! List.length tab = Some (Lib_tab (Some o) h)) as Hi by (rewrite Hlib; by apply list_lookup_middle).
  rewrite (run_bind _ _ _ _ _ (ld_lib_run _ _ _ Hi)). cbn [lib_path lib_handle].
  set (d1 := if is_null h then sc_dl c else dl_close h (sc_dl c)).
  set (c1 := MkSc (sc_libs c) (tab ++ Lib_tab (Some o) NULL :: entries os hs ++ Lib_tab None NULL :: tail) (sc_fct c) d1).
  assert ((if negb (is_null h) then dlclose h ;; st_handle (List.length tab) NULL else ret tt) c = Some (tt, c1)) as Hstep.
  { unfold c1, d1. destruct (is_null h) eqn:Hn; cbn [negb].
    - apply bool_decide_eq_true in Hn. subst h. unfold ret. destruct c as [b l fs d]. simpl in *. by rewrite Hlib.
    - erewrite run_bind by reflexivity. unfold st_handle. erewrite run_bind by (apply ld_lib_run; exact Hi).
      rewrite st_lib_run by (simpl; by eapply lookup_lt_Some). simpl. rewrite Hlib. simpl.
      rewrite insert_app_r_alt by done. by rewrite Nat.sub_diag. }
  rewrite (run_bind _ _ _ _ _ Hstep).
  assert (st_path (List.length tab) None c1 = Some (tt, MkSc (sc_libs c) ((tab ++ [Lib_tab None NULL]) ++ entries os hs ++ Lib_tab None NULL :: tail) (sc_fct c) d1)) as Hpath.
  { unfold st_path. erewrite run_bind by (apply ld_lib_run; by apply list_lookup_middle).
    rewrite st_lib_run by (simpl; rewrite length_app; simpl; lia). simpl. rewrite insert_app_r_alt by done. rewrite Nat.sub_diag.
    simpl. by rewrite <- app_assoc. }
  rewrite (run_bind _ _ _ _ _ Hpath). set (c2 := MkSc _ _ _ _).
  destruct (IH c2 (tab ++ [Lib_tab None NULL]) os hs) as (d' & Hrun & Hd'); [done|lia| |simpl in Hfu; lia|].
  - intros h' Hh'. simpl. unfold d1. specialize (Hrefs h' Hh') as Hr'. rewrite occ_cons in Hr'.
    destruct (is_null h) eqn:Hn; [apply bool_decide_eq_true in Hn|apply bool_decide_eq_false in Hn].
    + subst h. rewrite Hr', decide_False by done. lia.
    + rewrite (ll_close L) by (rewrite Hrefs by done; rewrite occ_cons, decide_True by done; lia).
      rewrite Hr'. destruct (decide (h = h')) as [->|]; [rewrite decide_True by done|rewrite decide_False by done]; lia.
  - exists d'. split; [|done]. rewrite length_app, Nat.add_1_r in Hrun. rewrite Hrun. simpl. by rewrite <- app_assoc.
Qed.

End resolution.

(** The macros that index the table, with the calls they stand for. *)
Definition call_numbers : list (nat * string) :=
  [(PTH_SCF_fork, "fork"); (PTH_SCF_waitpid, "waitpid"); (PTH_SCF_system, "system"); (PTH_SCF_nanosleep, "nanosleep");
   (PTH_SCF_usleep, "usleep"); (PTH_SCF_sleep, "sleep"); (PTH_SCF_sigprocmask, "sigprocmask");
   (PTH_SCF_sigwait, "sigwait"); (PTH_SCF_select, "select"); (PTH_SCF_poll, "poll"); (PTH_SCF_connect, "connect");
   (PTH_SCF_accept, "accept"); (PTH_SCF_read, "read"); (PTH_SCF_write, "write"); (PTH_SCF_readv, "readv");
   (PTH_SCF_writev, "writev"); (PTH_SCF_recv, "recv"); (PTH_SCF_send, "send"); (PTH_SCF_recvfrom, "recvfrom");
   (PTH_SCF_sendto, "sendto"); (PTH_SCF_pread, "pread"); (PTH_SCF_pwrite, "pwrite")]%string.

Lemma call_numbers_names i n : (i, n) ∈ call_numbers → fct_names !! i = Some (chars n).
Proof.
  intros Hin. assert (Forall (λ x, fct_names !! x.1 = Some (chars x.2)) call_numbers) as Hall by (repeat constructor).
  rewrite Forall_forall in Hall. by apply (Hall (i, n)).
Qed.

(** The paths that the table of libraries names. *)
Definition lib_paths {Ld : Loader} (c : Sc) : list (list Z) :=
  path_at (default [] (sc_libs c)) <$> omap lib_path (sc_lib c).

Lemma lib_paths_entries offs hs rest :
  List.length offs = List.length hs → Forall (λ e, lib_path e = None) rest → omap lib_path (entries offs hs ++ rest) = offs.
Proof.
  intros Hl Hr. rewrite omap_app. assert (omap lib_path rest = []) as ->.
  { induction Hr as [|e rest He Hr IH]; simpl; [done|]. by rewrite He. }
  rewrite app_nil_r. revert hs Hl. induction offs as [|o offs IH]; intros [|h hs] Hl; simpl in *; try lia; [done|].
  f_equal. apply IH. lia.
Qed.

Section hard.
Context {Ld : Loader} (refs : D → N → nat) (file : list Z → N) (sym : N → list Z → N) (next : list Z → N).

Lemma init_hard_run ps c :
  loader_laws refs file sym next → ps ≠ [] → Forall path_ok ps → (List.length ps ≤ 127)%nat →
  sc_lib c = pth_syscall_lib_tab → sc_fct c = pth_syscall_fct_tab → dl_nomem (sc_dl c) = false →
  ∃ addrs hs c1, pth_syscall_init_hard (join ps) c = Some (tt, c1) ∧
    tables refs file (spiked ps) (offsets 0 ps) (refs (sc_dl c)) (replicate (127 - List.length ps) (Lib_tab None NULL)) c1 hs ∧
    sc_fct c1 = zip_with (λ n a, Fct_tab (Some n) a) fct_names addrs ++ [Fct_tab None NULL] ∧
    Forall2 (resolved file sym next ps) fct_names addrs.
Proof.
  intros HL Hne Hps Hlen Hlib Hfct Hmem. unfold pth_syscall_init_hard.
  rewrite (run_bind _ _ (dl_nomem (sc_dl c)) c c) by reflexivity. rewrite Hmem. erewrite run_bind by reflexivity.
  rewrite Hlib, Hfct. unfold pth_syscall_lib_tab.
  pose proof (split_loop_run 127 [] ps [] (replicate 128 (Lib_tab None NULL)) pth_syscall_fct_tab (sc_dl c) Hne Hps Hlen) as Hsplit.
  rewrite length_replicate in Hsplit. cbn [List.length app Nat.add] in Hsplit.
  rewrite (run_bind _ _ _ _ _ (Hsplit ltac:(lia))). rewrite drop_replicate.
  replace (128 - List.length ps)%nat with (S (127 - List.length ps)) by lia. cbn [replicate].
  set (tl := replicate (127 - List.length ps) (Lib_tab None NULL)).
  set (c1 := MkSc (Some (spiked ps)) (entries (offsets 0 ps) (replicate (List.length ps) NULL) ++ Lib_tab None NULL :: tl)
    pth_syscall_fct_tab (sc_dl c)).
  assert (List.length (entries (offsets 0 ps) (replicate (List.length ps) NULL)) = List.length ps) as Hel.
  { rewrite entries_length; by rewrite ?offsets_length, length_replicate. }
  assert (st_path (List.length ps) None c1 = Some (tt, c1)) as Hst.
  { unfold st_path. erewrite run_bind by (apply ld_lib_run; apply list_lookup_middle; by rewrite Hel).
    rewrite st_lib_run by (simpl; rewrite length_app, Hel; simpl; lia). simpl. rewrite insert_app_r_alt by lia.
    by rewrite Hel, Nat.sub_diag. }
  rewrite (run_bind _ _ _ _ _ Hst).
  assert (path_at (spiked ps) <$> offsets 0 ps = ps) as Hpaths by (exact (offsets_paths [] ps Hps)).
  assert (tables refs file (spiked ps) (offsets 0 ps) (refs (sc_dl c)) tl c1 (replicate (List.length ps) NULL)) as Ht.
  { split; [done|done| |].
    - rewrite Hpaths. apply Forall2_same_length_lookup_2; [by rewrite length_replicate|].
      intros k p h _ [-> _]%lookup_replicate. by left.
    - intros h Hh. simpl. assert (occ h (replicate (List.length ps) NULL) = 0%nat) as ->; [|lia].
      unfold occ. generalize (List.length ps). intros m. induction m as [|m IH]; simpl; [done|]. by rewrite filter_cons_False. }
  destruct (resolve_loop_run refs file sym next (spiked ps) (offsets 0 ps) (refs (sc_dl c)) tl HL
    ltac:(by rewrite offsets_length) 24 fct_names [] c1 _ Ht) as (addrs & hs' & c' & Hrun & Ht' & Hf' & Hres); [done|by vm_compute; lia|].
  rewrite Hpaths in Hres. by exists addrs, hs', c'.
Qed.

Lemma kill_hard_run ps c c1 hs :
  loader_laws refs file sym next → (List.length ps ≤ 127)%nat →
  tables refs file (spiked ps) (offsets 0 ps) (refs (sc_dl c)) (replicate (127 - List.length ps) (Lib_tab None NULL)) c1 hs →
  ∃ c2, pth_syscall_kill_hard c1 = Some (tt, c2) ∧ sc_libs c2 = None ∧ sc_lib c2 = pth_syscall_lib_tab ∧
    sc_fct c2 = sc_fct c1 ∧ ∀ h, h ≠ NULL → refs (sc_dl c2) h = refs (sc_dl c) h.
Proof.
  intros HL Hlen Ht. pose proof (tables_length _ _ _ _ _ _ _ _ Ht) as Hl. rewrite offsets_length in Hl.
  destruct (kill_loop_run refs file sym next (refs (sc_dl c)) (replicate (127 - List.length ps) (Lib_tab None NULL)) HL 129 c1 [] (offsets 0 ps) hs) as (d' & Hrun & Hd');
    [apply (tb_lib _ _ _ _ _ _ _ _ Ht)|by rewrite offsets_length|apply (tb_refs _ _ _ _ _ _ _ _ Ht)|lia|].
  unfold pth_syscall_kill_hard. rewrite (run_bind _ _ _ _ _ Hrun). eexists. split; [reflexivity|]. simpl. split_and!; [done| |done|done].
  rewrite Hl. change (Lib_tab None NULL :: ?l) with (replicate 1 (Lib_tab None NULL) ++ l).
  rewrite <- !replicate_add. unfold pth_syscall_lib_tab. f_equal. lia.
Qed.


End hard.

(** ** An example: two libraries, one of which exists *)
#[local] Instance toy_loader : Loader := {|
  D := N → nat;
  dl_nomem _ := false;
  dl_sym h n d := match h with Some _ => if decide (n = chars "fork") then 500%N else NULL
                             | None => if decide (n = chars "read") then 900%N else NULL end;
  dl_open p d := if decide (p = chars "libc.so") then (7%N, λ h, (d h + if decide (h = 7%N) then 1 else 0)%nat) else (NULL, d);
  dl_close h d := λ h', (d h' - if decide (h' = h) then 1 else 0)%nat;
|}.
Definition toy_refs : @D toy_loader → N → nat := id.
Definition toy_file (p : list Z) : N := if decide (p = chars "libc.so") then 7 else NULL.
Definition toy_sym (h : N) (n : list Z) : N := if decide (n = chars "fork") then 500 else NULL.
Definition toy_next (n : list Z) : N := if decide (n = chars "read") then 900 else NULL.

Lemma toy_loader_laws : loader_laws toy_refs toy_file toy_sym toy_next.
Proof.
  split; try done. intros p d. simpl. unfold toy_file, toy_refs. destruct (decide (p = chars "libc.so")).
  - eexists. split; [reflexivity|]. intros h. simpl. f_equal. destruct (decide (h = 7%N)) as [->|]; [by rewrite decide_True|].
    rewrite decide_False; [done|naive_solver].
  - eexists. split; [reflexivity|]. intros h. rewrite decide_False; [lia|naive_solver].
Qed.

