(* ===== verification/Debug.v ===== *)
(** * Debugging output (pth_debug.c) and the version (pth_vers.c)

[fprintf] is what it is given, a format and its arguments; a dump is the sequence
of the calls.  [pth_debug] formats into its static buffer with the functions of
pth_string.c and pth_util.c, which is modelled byte by byte. *)
From Stdlib Require Import SpecFloat String.
From S2P Require Import State Pool Sys Syscall Str.
From S2P Require Util.

(** ** The version *)
Record pth_internal_version_t := Version {
  v_hex : Z; v_short : string; v_long : string; v_tex : string; v_gnu : string; v_web : string; v_sccs : string;
  v_rcs : string }.
Definition PTH_INTERNAL_VERSION : Z := 2097671.
Definition pth_internal_version : pth_internal_version_t := Version 2097671
  "2.0.7" "2.0.7 (08-Jun-2006)" "This is GNU Pth, Version 2.0.7 (08-Jun-2006)" "GNU Pth 2.0.7 (08-Jun-2006)"
  "GNU Pth/2.0.7" "@(#)GNU Pth 2.0.7 (08-Jun-2006)" "$Id: GNU Pth 2.0.7 (08-Jun-2006) $".
Definition PTH_VERSION_STR : string := "2.0.7 (08-Jun-2006)".
Definition PTH_VERSION_HEX : Z := 2097671.
Definition PTH_VERSION : Z := PTH_VERSION_HEX.
(** [pth_version] of pth_lib.c. *)
Definition pth_version : Z := PTH_VERSION.

(** ** Dumping the state *)

(** A format that ends with a newline, and a quotation mark. *)
Definition textline (s : string) : string := (s ++ String (Ascii.ascii_of_nat 10) EmptyString)%string.
Definition dquote : string := String (Ascii.ascii_of_nat 34) EmptyString.
Definition thread_quoted : string := ("thread 0x%lx (" ++ dquote ++ "%s" ++ dquote ++ ")")%string.

Inductive farg := FStr (s : list Z) | FInt (z : Z) | FLong (z : Z) | FDouble (x : spec_float).
Record fprintf := Fprintf { f_fmt : string; f_args : list farg }.

Section debug.
Context {Kern : Kernel}.
Implicit Types (s : St).

(** [(unsigned long)t, t->name] *)
Definition thread_args (t : ptr) : M St (list farg) := do n <- ldt t name; ret [FLong (Z.of_N t); FStr n].

(** [for (t = pth_pqueue_head(q); t != NULL; t = pth_pqueue_walk(q, t, PTH_WALK_NEXT))] *)
Fixpoint dumpqueue_loop (fuel : nat) (q : qid) (t : ptr) (i : Z) : M St (list fprintf) :=
  match fuel with
  | O => ub
  | S fuel' =>
      if is_null t then ret [] else
      do args <- thread_args t;
      do j <- int_chk (i + 1);
      do t' <- onq q (pth_pqueue_walk t PTH_WALK_NEXT);
      do rest <- dumpqueue_loop fuel' q t' j;
      ret (Fprintf (textline ("|   %d. " ++ thread_quoted)) (FInt i :: args) :: rest)
  end.
Definition pth_dumpqueue (qn : string) (q : qid) : M St (list fprintf) :=
  do n <- onq q pth_pqueue_elements;
  do t <- onq q pth_pqueue_head;
  do fuel <- gets (λ s, S (size (threads s)));
  do lines <- dumpqueue_loop fuel q t 1;
  ret (Fprintf (textline "| Thread Queue %s:") [FStr (chars qn)] ::
       (if n =? 0 then [Fprintf (textline "|   no threads") []] else []) ++ lines).

Definition rule : fprintf :=
  Fprintf (textline "+----------------------------------------------------------------------") [].
Definition pth_dumpstate : M St (list fprintf) :=
  do load <- gets pth_loadval;
  do nq <- pth_dumpqueue "NEW" NQ;
  do rq <- pth_dumpqueue "READY" RQ;
  do cur <- gets pth_current;
  do args <- thread_args cur;
  do wq <- pth_dumpqueue "WAITING" WQ;
  do sq <- pth_dumpqueue "SUSPENDED" SQ;
  do dq <- pth_dumpqueue "DEAD" DQ;
  ret ([rule; Fprintf (textline "| Pth Version: %s") [FStr (chars PTH_VERSION_STR)]; Fprintf (textline "| Load Average: %.2f") [FDouble load]]
       ++ nq ++ rq ++
       [Fprintf (textline "| Thread Queue RUNNING:") []; Fprintf (textline ("|   1. " ++ thread_quoted)) args]
       ++ wq ++ sq ++ dq ++ [rule]).

(** ** Messages *)

(** The contents of [str] when the message is complete, and the number of bytes to
    write; [size] is [sizeof(str)] and [pid] is what [getpid()] returns.  In
    [pth_debug1] the format is the message itself. *)
Definition debug_text (size : nat) (pid : Z) (file : option (list Z)) (line argc : Z) (fmt : list Z) (ap : list arg) (str : list Z)
  : option (list Z * Z) :=
  str ← (match file with
         | Some f =>
             p ← pth_snprintf (Some str) (Z.of_nat size) (chars "%d:%s:%04d: " ++ [0]) [AInt32 pid; AString (Some f); AInt32 line];
             p_buf p
         | None => Some (<[0%nat := 0]> str)
         end);
  n ← strlen str;
  let k := Z.to_nat n in
  str ← (if argc =? 1 then '(b, _) ← Util.pth_util_cpystrn (drop k str) fmt (size - k); Some (take k str ++ b)
         else p ← pth_vsnprintf (Some (drop k str)) (Z.of_nat size - n) fmt ap; b ← p_buf p; Some (take k str ++ b));
  n ← strlen str;
  Some (<[Z.to_nat n := 10]> str, n + 1).

(** The buffer [static char str[1024]] is an argument and is returned. *)
Definition pth_debug (pid : Z) (file : option (list Z)) (line argc : Z) (fmt : list Z) (ap : list arg) (str : list Z)
  : M St (list Z) :=
  do (str, n) <- lift_opt (debug_text 1024 pid file line argc fmt ap str);
  pth_shield (do _ <- kcall_errno (k_write 2 (take (Z.to_nat n) str)); ret tt) ;;
  ret str.

(** ** What is printed *)

Definition dump_line s (i : nat) (t : N) : fprintf :=
  Fprintf (textline ("|   %d. " ++ thread_quoted))
    [FInt (Z.of_nat i); FLong (Z.of_N t); FStr (default [] (name ∘ q_body <$> load (threads s) t))].

Lemma dumpqueue_loop_run s P q fuel l1 todo i :
  qrepr s P → P q = l1 ++ todo → Z.of_nat (i + List.length todo) ≤ INT_MAX → (List.length todo < fuel)%nat →
  dumpqueue_loop fuel q (head_or NULL todo.*1) (Z.of_nat i) s = Some (imap (λ k t, dump_line s (i + k) t) todo.*1, s).
Proof.
  intros Hq. revert fuel l1 i. induction todo as [|[t pr] todo IH]; intros fuel l1 i HP Hi Hf; (destruct fuel as [|fuel]; [lia|]); [done|].
  destruct (qrepr_load s P q t Hq) as [n Hn]; [rewrite HP, fmap_app; set_solver|].
  csimpl. cbn [dumpqueue_loop]. rewrite is_null_false by (by apply load_Some in Hn as [? _]).
  unfold thread_args. erewrite bind_run by (erewrite bind_run by (by eapply ldt_run); reflexivity).
  erewrite bind_run. 2: { unfold int_chk. rewrite (proj2 (int_ok_true _)) by (unfold INT_MIN, INT_MAX in *; simpl in *; lia). reflexivity. }
  destruct (proj1 (wp_run _ _ _) (onq_walk_spec q s P l1 t pr todo Hq HP)) as (t' & s' & Hw & -> & ->).
  rewrite (bind_run _ _ _ _ _ Hw). replace (Z.of_nat i + 1) with (Z.of_nat (S i)) by lia.
  rewrite (bind_run _ _ _ _ _ (IH fuel (l1 ++ [(t, pr)]) (S i) ltac:(by rewrite <- app_assoc) ltac:(simpl in *; lia) ltac:(simpl in *; lia))).
  unfold ret. do 2 f_equal. f_equal.
  - unfold dump_line. rewrite Hn. simpl. by rewrite Nat.add_0_r.
  - apply imap_ext. intros k x _. simpl. by rewrite Nat.add_succ_r.
Qed.

(** A dump of a queue names its threads in the order of the queue, numbered from 1,
    and changes nothing. *)
Lemma dumpqueue_lists s P q qn :
  qrepr s P → Z.of_nat (1 + List.length (P q)) ≤ INT_MAX →
  pth_dumpqueue qn q s =
    Some (Fprintf (textline "| Thread Queue %s:") [FStr (chars qn)] ::
          (if decide (P q = []) then [Fprintf (textline "|   no threads") []] else []) ++ imap (λ k t, dump_line s (S k) t) (P q).*1, s).
Proof.
  intros Hq Hl. unfold pth_dumpqueue.
  destruct (proj1 (wp_run _ _ _) (onq_elements_spec q s P Hq)) as (n & s' & Hn & -> & ->). rewrite (bind_run _ _ _ _ _ Hn).
  destruct (proj1 (wp_run _ _ _) (onq_head_spec q s P Hq)) as (t & s' & Ht & -> & ->). rewrite (bind_run _ _ _ _ _ Ht).
  erewrite bind_run by reflexivity. pose proof (qrepr_length s P q Hq).
  rewrite (bind_run _ _ _ _ _ (dumpqueue_loop_run s P q (S (size (threads s))) [] (P q) 1 Hq eq_refl ltac:(lia) ltac:(lia))).
  unfold ret. do 4 f_equal. destruct (P q); [done|]. by rewrite decide_False.
Qed.

End debug.

Lemma strlen_text (m post : list Z) : Forall (λ c, c ≠ 0) m → strlen (m ++ 0 :: post) = Some (Z.of_nat (List.length m)).
Proof.
  induction 1 as [|c m Hc _ IH]; simpl; [done|]. rewrite (proj2 (Z.eqb_neq c 0)) by done. rewrite IH. simpl. f_equal. lia.
Qed.

(** A message without arguments is cut to fit and ends with a newline. *)
Lemma debug_plain size pid line msg rest (str : list Z) :
  List.length str = S size → Forall (λ c, c ≠ 0) msg →
  let m := take size msg in
  ∃ str', debug_text (S size) pid None line 1 (msg ++ 0 :: rest) [] str = Some (str', Z.of_nat (List.length m) + 1) ∧
    take (S (List.length m)) str' = m ++ [10] ∧ List.length str' = S size.
Proof.
  intros Hl Hmsg m. destruct str as [|x b]; [done|]. simpl in Hl.
  assert (List.length m = (size `min` List.length msg)%nat) as Hm by (unfold m; by rewrite length_take).
  assert (Util.pth_util_cpystrn (0 :: b) (msg ++ 0 :: rest) (S size) = Some (m ++ 0 :: drop (List.length m) b, List.length m)) as Hcpy.
  { unfold Util.pth_util_cpystrn. rewrite decide_False by done. change (S size - 1)%nat with (size - 0)%nat. rewrite Nat.sub_0_r.
    rewrite (Util.cpystrn_loop_spec size 0 msg rest (0 :: b)) by (done || simpl; lia). rewrite take_0, <- Hm. simpl.
    do 3 f_equal. unfold m. rewrite length_take. destruct (Nat.min_spec size (List.length msg)) as [[? ->]|[? ->]]; [done|].
    by rewrite !take_ge. }
  unfold debug_text. cbn -[Util.pth_util_cpystrn Nat.sub take drop]. change (Z.to_nat 0) with 0%nat.
  rewrite Nat.sub_0_r, drop_0, take_0, Hcpy. cbn -[Util.pth_util_cpystrn Nat.sub take drop].
  rewrite strlen_text by (by apply Forall_take). cbn -[take drop]. rewrite Nat2Z.id.
  rewrite insert_app_r_alt, Nat.sub_diag by done. eexists. split; [reflexivity|]. split.
  - rewrite take_app_ge by lia. replace (S (List.length m) - List.length m)%nat with 1%nat by lia. done.
  - rewrite length_app. simpl. rewrite length_drop. lia.
Qed.
