(* ===== verification/Ext.v ===== *)
(** * The Sfio extension (pth_ext.c)

The discipline that makes Sfio streams use the thread-aware functions.  The Sfio
library is a parameter; without [PTH_EXT_SFIO] there is no discipline. *)
From S2P Require Import State Sys Lib High Rw.

Class Sfio {Kern : Kernel} := {
  sffileno : N → M St Z;
  sfsk : N → Z → Z → N → M St Z;
}.

(** The addresses of the four functions below. *)
Inductive sfio_fct := SfioRead | SfioWrite | SfioSeek | SfioExcept.
Record Sfdisc_t := Sfdisc { readf : sfio_fct; writef : sfio_fct; seekf : sfio_fct; exceptf : sfio_fct }.

Section ext.
Context {Kern : Kernel} {IoK : IoKernel} {Ap : App} {Kn : Knot} {Sf : Sfio}.

Definition pth_sfio_read (fuel : nat) (f buf : ptr) (n : Z) (disc : ptr) : coro Z :=
  do! fd <- atom (sffileno f); pth_read fuel fd buf n.
Definition pth_sfio_write (fuel : nat) (f buf : ptr) (n : Z) (disc : ptr) : coro Z :=
  do! fd <- atom (sffileno f); pth_write fuel fd buf n.
Definition pth_sfio_seek (f : ptr) (addr type : Z) (disc : ptr) : M St Z := sfsk f addr type disc.
(** Every exception gets the default action. *)
Definition pth_sfio_except (f : ptr) (type : Z) (data disc : ptr) : Z := 0.

(** With the extension: the new discipline, [None] for [NULL].  ([sizeof(Sfdisc_t)] is
    that of four function pointers here.) *)
Definition pth_sfiodisc_sfio : M St (option Sfdisc_t) :=
  do disc <- malloc 32;
  if is_null disc then do e <- gets errno; pth_error None e else
  ret (Some (Sfdisc SfioRead SfioWrite SfioSeek SfioExcept)).
(** Without it. *)
Definition pth_sfiodisc : M St N := pth_error NULL ENOSYS.

End ext.
